(* ===== verification/_CoqProject ===== *)
-Q . S2P
Prelude.v
Mbuf.v
Pktmbuf.v
Queue.v
ArpCache.v
Device.v
SpmcArp.v
Smoltcp.v
Reactor.v
Tcp.v
Udp.v
Sockets.v
Eth.v
Eal.v
Lcore.v
Channel.v
BridgeTcp.v
BridgeUdp.v
Worker.v
App.v
WorkerRun.v
Http.v
Adapters.v
BridgeIo.v
Text.v
HttpParser.v
HttpServer.v
Kimojio.v
ManualEcho.v
UdpTest.v
NetUtil.v
EthDevConfig.v
AppServers.v
ThreadServers.v
BenchClient.v
Teardown.v
Harness.v
BenchServer.v
