(* ===== verification/Prelude.v ===== *)
(** * Verification of rust-dpdk-net

    rust-dpdk-net is an asynchronous TCP/IP stack in user space: DPDK drives
    the network card, smoltcp implements the protocols, and one polling reactor
    per core connects both to async Rust sockets.  This development models its
    Rust code as Rocq functions and step relations and proves what makes it
    correct.  The sources are named relative to [src/].

    ** How the code is modelled

    - Synchronous code is a function on explicit state.  It returns [Exec A]:
      [Ret], [Panic] (a Rust panic) or [UB] (a violated precondition of an
      [unsafe] block); fallible code returns [Result], a [poll] returns [Poll].
    - An [async fn] is given by its [poll]; loops that are not structural take
      fuel, and theorems show how much is enough ([send_poll_total],
      [ingress_loop_bounded], [lcore_iteration]).
    - Concurrent code is a step relation, one step per atomic access or per
      resolved branch of a [select!], with invariants proved by induction on
      reachability.
    - Integers are [Z] with wrap-around written out where the width matters;
      bytes are Stdlib bytes; hash maps are stdpp's [gmap]; vectors are lists.
    - Code outside the repository is a class or a section variable, with its
      documented behaviour as laws or hypotheses, and a small reference
      instance that satisfies them: DPDK's mbufs and pools ([PktMbuf],
      [RteMempool], [EthBurst]), the ethdev driver and the EAL (variables of
      [Eth], [Eal], [Lcore]), smoltcp ([Smoltcp], [SmoltcpLaws]), the order of
      iteration of a hash map ([HashMapIter]), tokio's channels ([Channels],
      [PollSender]), hyper (variables of [Http]).

    ** The components, bottom up

    [Mbuf.v] (dpdk-net/src/api/rte/mbuf.rs): a packet buffer and every operation
    on it.  Safe operations never reach undefined behaviour; written data reads
    back.

    [Pktmbuf.v] (api/rte/pktmbuf.rs, api/error.rs) and [Queue.v]
    (api/rte/queue.rs): pools, batch allocation, burst receive and transmit.
    Buffers are neither lost nor duplicated; order is kept.

    [ArpCache.v] and [SpmcArp.v] (device/arp_cache.rs): the shared ARP cache as a
    sequential object with its packet parser and builder, and the same cache
    accessed by one producer and many consumers, for several strengths of the
    memory orderings.  Updates are not lost under acquire loads; they can be
    under the relaxed load the code uses.

    [Device.v] (device/dpdk_device.rs): the smoltcp device.  Any sequence of
    calls of the device trait is safe and conserves buffers; transmitted frames
    reach the NIC in order; ARP replies are learned and injected.  Two
    weaknesses are proved: the reply token of [receive] can panic, and an
    injection that does not fit starves the queue.

    [Smoltcp.v]: the interface to smoltcp.  [Reactor.v] (runtime/reactor.rs):
    the polling loop, bounded per poll, and the cleanup of orphaned sockets.

    [Tcp.v], [Udp.v] (socket/tcp.rs, socket/udp.rs): the sockets, their futures
    and drops; pending futures have registered their waker.  [Sockets.v] runs
    them together with the reactor: every socket has one owner at all times.

    [Eth.v], [Eal.v], [Lcore.v] (api/rte/eth.rs, eal.rs, thread.rs, lcore.rs): the
    port configuration and its call sequence, the redirection table, the
    initialisation of the EAL with its races, lcores, the launch builder and the
    closures, all of which are run and freed ([launch_on_workers_complete]).

    [Channel.v]: tokio's channels.  [BridgeTcp.v], [BridgeUdp.v], [Worker.v]
    (dpdk-net-util/src/bridge/): OS threads use DPDK sockets through relay tasks
    on the lcores.  The bridge is a pair of byte streams, or of datagram queues,
    in every interleaving; end of file comes after all data; workers account for
    their sockets.  Proved weaknesses: data accepted before a close can be lost,
    a peer that closes early blocks a worker, [wait_ready] can miss its signal.

    [App.v] (dpdk-net-util/src/app.rs): the runner composes EAL, port, pool,
    lcores and devices; each queue is served by exactly one lcore.
    [WorkerRun.v] (the same file, [run_worker]): a worker's set-up and its
    executor, with the reactor as a task beside the user's server, a parameter.
    The reactor is polled as long as the server runs and the worker returns after
    it; a panic of the reactor goes unnoticed until then.

    [Http.v], [Adapters.v] (dpdk-net-util/src/{connection,connect,client,pool}.rs,
    dpdk-net-quinn, dpdk-net-tonic): HTTP connections down to their TCP sockets
    on the reactor, and their pool, which stays within its limits and accounts
    for every socket however it is used; the adapters for quinn, tonic and axum.
    [BridgeIo.v] (tonic/bridge/io.rs,
    connector.rs, incoming.rs, tls/transport.rs,
    dpdk-net-quinn/src/runtime.rs): tonic's use of the bridge, by a simulation of the bridge's own steps.

    [Text.v]: the functions of Rust's standard library on text that the servers
    and utilities use (UTF-8, ASCII case, trimming, splitting, parsing and
    printing numbers); decoding inverts encoding.

    [HttpParser.v], [HttpServer.v] (dpdk-net-test/src/app/custom_http.rs): an
    incremental HTTP/1 parser over a read buffer, and the server on top of it.
    The parser is equivalent to a reference parser on the whole byte stream for
    every split of the input into reads; chunked bodies round-trip; a connection
    is answered request by request.  [Kimojio.v] (app/kimojio_server.rs) is the
    second server of the same protocol: its parser agrees with the first, its
    handling of pipelined requests does not.

    [AppServers.v] (app/echo_server.rs, http_server.rs, tokio_server.rs): accept
    loops and connection tasks on the reactor's sockets.  Every waiting
    connection is accepted; an echo task returns what it received.
    [ThreadServers.v] (tokio_server.rs, kimojio_server.rs): the servers with a
    thread per core; which threads serve, how their failures show, and when the
    server returns.

    [ManualEcho.v] (manual/tcp_echo.rs, manual/echo_server.rs): echo server and
    client that poll smoltcp themselves.  [UdpTest.v] (udp.rs, lib.rs): a UDP
    socket and a packet generator directly on the queues, down to the offsets of
    the header fields.  [EthDevConfig.v] (eth_dev_config.rs): set-up of port and
    pool.  [NetUtil.v] (lib.rs, manual/tcp.rs): lookups in /proc, /sys and by
    ioctl over an abstract file system.  [Harness.v] (dpdk_test.rs,
    manual/tcp.rs): the test context and the echo test over it; the test passes
    exactly if the greeting came back.

    [Teardown.v] (dpdk_device.rs, app.rs, dpdk_test.rs, udp.rs): the drops of
    devices, pools and ports as the DPDK calls they make.  The runner's teardown
    is safe in every interleaving; the one of the echo test gives buffers back to
    a pool that is already freed.

    [BenchClient.v] (tests/dpdk-bench-client): the benchmark client.  Against the
    HTTP server every request in time is answered and counted; the totals merged
    by concurrent tasks are exact, the latency histogram may miss some.

    [BenchServer.v] (tests/dpdk-bench-server,
    dpdk-net-test/examples/dpdk_tcp_server.rs): the benchmark server.  It
    composes network lookups, EAL, runner and accept loop: a worker per queue on
    the lcores it asked the EAL for; its pages number the requests and are read
    whole by the client.

    ** Fuel and bounds

    Fuel counts turns of a loop, and running out is a value of its own ([None],
    [NoFuel]) that no theorem accepts as success.  The HTTP parser and server
    need at most one turn more than there are unread bytes
    ([parse_request_stream], [handle_connection_serves]); [send] one per byte
    left ([send_poll_total]); an accept loop one per waiting connection
    ([serve_poll_accepts_all]); an echo task as many as [turns] says;
    [UdpSocket::flush] one per queued packet, if the queue takes any, and no
    fuel is enough if it does not ([flush_sends_all], [flush_never_returns]).
    The response loop of the benchmark client takes the number of reads its
    timeout admits; [bench_against_server] asks for one more than the response has
    bytes.  Iterating lcores needs one turn more than [RTE_MAX_LCORE].
    Loops that run as long as the program does ([server_loop], [echo_loop]) take
    the list of their time stamps or events, for any such list.

    ** Files

    This file holds outcomes, machine integers, slices and the automation the
    others share.  Components require those they call: Mbuf, Pktmbuf, Queue,
    ArpCache, Device, Smoltcp, Reactor, Tcp and Udp, Sockets form one chain; the
    bridge and the HTTP client build on it; Eth, Eal and Lcore meet the device in
    App.  Text, HttpParser, HttpServer, Kimojio form another chain; AppServers
    builds on Tcp, UdpTest on Queue, ManualEcho on Reactor, EthDevConfig on Eth
    and Device, NetUtil on Text and ArpCache, BenchClient on HttpServer, BridgeIo
    on BridgeTcp and Adapters, Teardown on Device and UdpTest, Harness on Eal,
    EthDevConfig, ManualEcho and NetUtil, ThreadServers on AppServers and
    Kimojio, BenchServer on App, AppServers, BenchClient and Harness.  Each file has one module of its
    name; reference instances are submodules whose names start with [Ref].

    ** Not modelled

    The bindings and the build script (dpdk-net-sys), the parsing of the
    benchmarks' command lines and the reports of the client (tests/), which are
    in floating point, the archived tests (archive/, not part of the build),
    [Debug] and [Display] output, logging, and getters of raw pointers.  Third-party code is a parameter: httparse and
    the header types of http, hyper, kimojio, rustls, quinn.  Multi-segment mbufs
    do not occur in the code.  Timing is abstract: timestamps are passed to
    smoltcp unexamined.  Channels between lcores are sequentially consistent;
    only the ARP cache is studied under weaker orderings. *)

From stdpp Require Import base gmap strings list fin_maps.
From Stdlib Require Import ZArith Strings.Byte Lia.

(** ** Outcomes of running Rust code

    [Ret a] is normal completion, [Panic] an unwinding panic (failed
    [expect], out-of-bounds index, ...), [UB] a violated precondition of an
    [unsafe] block.  The monad is used with stdpp's [x ← e; k] notation. *)
Inductive Exec (A : Type) : Type :=
  | Ret (a : A)
  | Panic
  | UB.
Arguments Ret {A} a.
Arguments Panic {A}.
Arguments UB {A}.

#[export] Instance exec_ret : MRet Exec := @Ret.
#[export] Instance exec_bind : MBind Exec := fun A B f m =>
  match m with Ret a => f a | Panic => Panic | UB => UB end.
#[export] Instance exec_fmap : FMap Exec := fun A B f m =>
  match m with Ret a => Ret (f a) | Panic => Panic | UB => UB end.

Definition is_ret {A} (e : Exec A) : Prop := exists a, e = Ret a.

(** Rust's [Option::expect] / [Option::unwrap]. *)
Definition expect {A} (o : option A) : Exec A :=
  match o with Some a => Ret a | None => Panic end.

(** Rust's [assert!]. *)
Definition assert_ (b : bool) : Exec unit := if b then Ret tt else Panic.

(** ** [Result] and [Poll] *)
Inductive Result (A E : Type) : Type :=
  | Ok (a : A)
  | Err (e : E).
Arguments Ok {A E} a.
Arguments Err {A E} e.

Definition is_ok {A E} (r : Result A E) : bool :=
  match r with Ok _ => true | Err _ => false end.

Definition ok_or {A E} (e : E) (o : option A) : Result A E :=
  match o with Some a => Ok a | None => Err e end.

(** [expect] on a [Result]. *)
Definition unwrap_result {A E} (r : Result A E) : Exec A := match r with Ok a => Ret a | Err _ => Panic end.

Definition result_map {A B E} (f : A -> B) (r : Result A E) : Result B E :=
  match r with Ok a => Ok (f a) | Err e => Err e end.

Definition map_err {A E F} (f : E -> F) (r : Result A E) : Result A F :=
  match r with Ok a => Ok a | Err e => Err (f e) end.

(** Rust's [?] on a [Result]. *)
#[export] Instance result_ret {E} : MRet (fun A => Result A E) := fun A => @Ok A E.
#[export] Instance result_bind {E} : MBind (fun A => Result A E) := fun A B f m =>
  match m with Ok a => f a | Err e => Err e end.

Inductive Poll (A : Type) : Type :=
  | Ready (a : A)
  | Pending.
Arguments Ready {A} a.
Arguments Pending {A}.

(** ** Machine integers

    An integer of width [w] is a [Z]; [wrap w] is the wrap-around of an [as]
    cast to an unsigned type and of the atomic [fetch_add]. *)
Definition wrap (w x : Z) : Z := (x mod 2 ^ w)%Z.
Definition as_u8 (x : Z) : Z := wrap 8 x.
Definition as_u16 (x : Z) : Z := wrap 16 x.
Definition as_u32 (x : Z) : Z := wrap 32 x.
Definition as_usize (x : Z) : Z := wrap 64 x.
(** The unsigned value [x] reinterpreted as [i32]. *)
Definition as_i32 (x : Z) : Z :=
  let u := wrap 32 x in if (u <? 2 ^ 31)%Z then u else (u - 2 ^ 32)%Z.
Definition u16_max : Z := 65535.
Definition u32_max : Z := 4294967295.
Definition u64_max : Z := 18446744073709551615.

(** The length of a list as a [usize]. *)
Definition zlen {A} (l : list A) : Z := Z.of_nat (length l).

Lemma wrap_small w x : (0 <= x < 2 ^ w)%Z -> wrap w x = x.
Proof. intros H. by apply Z.mod_small. Qed.

Lemma wrap_bounds w x : (0 <= w)%Z -> (0 <= wrap w x < 2 ^ w)%Z.
Proof. intros H. apply Z.mod_pos_bound. by apply Z.pow_pos_nonneg. Qed.

Lemma zlen_nil {A} : @zlen A [] = 0%Z.
Proof. done. Qed.
Lemma zlen_cons {A} (x : A) l : zlen (x :: l) = (zlen l + 1)%Z.
Proof. unfold zlen. simpl. lia. Qed.
Lemma zlen_app {A} (l k : list A) : zlen (l ++ k) = (zlen l + zlen k)%Z.
Proof. unfold zlen. rewrite length_app. lia. Qed.
Lemma zlen_nonneg {A} (l : list A) : (0 <= zlen l)%Z.
Proof. unfold zlen. lia. Qed.

(** ** Bytes *)
#[export] Instance byte_eq_dec : EqDecision byte := Byte.byte_eq_dec.

#[export, refine] Instance byte_countable : Countable byte := {|
  encode b := encode (Byte.to_N b);
  decode p := n ← decode p; Byte.of_N n
|}.
Proof. intros b. rewrite decode_encode. simpl. apply Byte.of_to_N. Defined.

#[export] Instance byte_inhabited : Inhabited byte := populate x00.

(** The sum of [f] over a list. *)
Definition sum {A} (f : A -> Z) (l : list A) : Z := foldr (fun x n => f x + n)%Z 0%Z l.

Lemma sum_insert {A} (f : A -> Z) l i x y : l !! i = Some x -> (sum f (<[i := y]> l) = sum f l - f x + f y)%Z.
Proof.
  revert i. induction l as [|z l IH]; intros [|i]; simpl; try done; [intros [= ->]; lia|]. intros Hi. rewrite (IH i Hi). lia.
Qed.

Lemma sum_app {A} (f : A -> Z) l k : (sum f (l ++ k) = sum f l + sum f k)%Z.
Proof. induction l as [|x l IH]; simpl; lia. Qed.

Lemma sum_nonneg {A} (f : A -> Z) l : (forall x, 0 <= f x)%Z -> (0 <= sum f l)%Z.
Proof. intros Hf. induction l as [|x l IH]; simpl; [lia|]. pose proof (Hf x). lia. Qed.

(** ** Slices

    [slice l a b] is [&l[a..b]]; it panics when the range is out of bounds.
    [copy_into l a src] is [l[a..a+src.len()].copy_from_slice(src)]. *)
Definition slice {A} (l : list A) (a b : nat) : Exec (list A) :=
  if (a <=? b)%nat && (b <=? length l)%nat then Ret (take (b - a) (drop a l)) else Panic.

Definition index {A} (l : list A) (i : nat) : Exec A := expect (l !! i).

Definition copy_into {A} (l : list A) (a : nat) (src : list A) : Exec (list A) :=
  if (a + length src <=? length l)%nat then Ret (list_inserts a src l) else Panic.

(** ** Automation *)

(** Destruct the first scrutinee found in the goal or in a hypothesis. *)
Ltac break_step :=
  match goal with
  | |- context [match ?e with _ => _ end] =>
      lazymatch e with context [match _ with _ => _ end] => fail | _ => destruct e eqn:? end
  | H : context [match ?e with _ => _ end] |- _ =>
      lazymatch e with context [match _ with _ => _ end] => fail | _ => destruct e eqn:? end
  end.

Ltac inv_exec :=
  repeat match goal with
  | H : Ret _ = Ret _ |- _ => injection H as H; subst
  | H : Ok _ = Ok _ |- _ => injection H as H; subst
  | H : Ready _ = Ready _ |- _ => injection H as H; subst
  | H : (_, _) = (_, _) |- _ => injection H as H; subst
  | H : Ret _ = Panic |- _ => discriminate H
  | H : Panic = Ret _ |- _ => discriminate H
  end; simplify_eq/=.

(** Turn boolean comparisons of hypotheses and goal into propositions. *)
Ltac reflect_bool :=
  repeat match goal with
  | H : context [(_ <? _)%Z = true] |- _ => rewrite Z.ltb_lt in H
  | H : context [(_ <? _)%Z = false] |- _ => rewrite Z.ltb_ge in H
  | H : context [(_ <=? _)%Z = true] |- _ => rewrite Z.leb_le in H
  | H : context [(_ <=? _)%Z = false] |- _ => rewrite Z.leb_gt in H
  | H : context [(_ =? _)%Z = true] |- _ => rewrite Z.eqb_eq in H
  | H : context [(_ =? _)%Z = false] |- _ => rewrite Z.eqb_neq in H
  | H : context [(_ <? _)%nat = true] |- _ => rewrite Nat.ltb_lt in H
  | H : context [(_ <? _)%nat = false] |- _ => rewrite Nat.ltb_ge in H
  | H : context [(_ <=? _)%nat = true] |- _ => rewrite Nat.leb_le in H
  | H : context [(_ <=? _)%nat = false] |- _ => rewrite Nat.leb_gt in H
  | H : context [(_ =? _)%nat = true] |- _ => rewrite Nat.eqb_eq in H
  | H : context [(_ =? _)%nat = false] |- _ => rewrite Nat.eqb_neq in H
  | H : context [_ && _ = true] |- _ => rewrite andb_true_iff in H
  | H : context [negb _ = true] |- _ => rewrite negb_true_iff in H
  | H : context [negb _ = false] |- _ => rewrite negb_false_iff in H
  end.

Create HintDb dpdk discriminated.
Create Rewrite HintDb dpdk.
#[export] Hint Resolve zlen_nonneg wrap_bounds : dpdk.
#[export] Hint Rewrite @zlen_nil @zlen_cons @zlen_app : dpdk.
