(* ===== verification/Mbuf.v ===== *)
(** * Packet buffers ([dpdk-net/src/api/rte/mbuf.rs])

    [rte_mbuf] holds the fields of DPDK's packet buffer that the wrapper
    reads or writes; the inline functions of [rte_mbuf.h] are the interface
    [PktMbuf] with the documented behaviour [PktMbufLaws].  The module
    [Mbuf] translates the wrapper: every [slice::from_raw_parts] is checked
    against the memory of the buffer and yields [UB] when it leaves it. *)

From stdpp Require Import base list.
From Stdlib Require Import ZArith Strings.Byte Lia.
From S2P Require Import Prelude.

Local Open Scope Z_scope.

(** A single-segment [rte_mbuf]: [buf] is the memory at [buf_addr], so
    [buf_len] is its length; [data_off] is the offset of the packet data. *)
Record rte_mbuf := mk_mbuf {
  buf : list byte;
  data_off : Z;
  m_data_len : Z;
  m_pkt_len : Z
}.

#[export] Instance rte_mbuf_eq_dec : EqDecision rte_mbuf.
Proof. solve_decision. Defined.

Definition buf_len (m : rte_mbuf) : Z := zlen (buf m).

Definition set_lens (m : rte_mbuf) (dl pl : Z) : rte_mbuf :=
  mk_mbuf (buf m) (data_off m) dl pl.

Definition set_buf (m : rte_mbuf) (b : list byte) : rte_mbuf :=
  mk_mbuf b (data_off m) (m_data_len m) (m_pkt_len m).

(** Well-formed single-segment buffer: the data lies inside the buffer and
    the packet has no further segment. *)
Record mbuf_wf (m : rte_mbuf) : Prop := {
  wf_off : 0 <= data_off m;
  wf_len : 0 <= m_data_len m;
  wf_in : data_off m + m_data_len m <= buf_len m;
  wf_u16 : buf_len m <= u16_max;
  wf_pkt : m_pkt_len m = m_data_len m
}.

(** The inline functions of [rte_mbuf.h] reached through
    [dpdk-net-sys/src/wrapper.c].  A returned pointer into the buffer is the
    offset from [buf_addr]; [None] is the null pointer. *)
Class PktMbuf := {
  RTE_PKTMBUF_HEADROOM : Z;
  RTE_MBUF_DEFAULT_DATAROOM : Z;
  rte_pktmbuf_headroom : rte_mbuf -> Z;
  rte_pktmbuf_tailroom : rte_mbuf -> Z;
  rte_pktmbuf_append : rte_mbuf -> Z -> option Z * rte_mbuf;
  rte_pktmbuf_prepend : rte_mbuf -> Z -> option Z * rte_mbuf;
  rte_pktmbuf_adj : rte_mbuf -> Z -> option Z * rte_mbuf;
  rte_pktmbuf_trim : rte_mbuf -> Z -> Z * rte_mbuf;
  rte_pktmbuf_reset : rte_mbuf -> rte_mbuf
}.

(** What the DPDK programmer's guide and [rte_mbuf.h] document of them. *)
Class PktMbufLaws `{PktMbuf} : Prop := {
  headroom_const_bound : 0 <= RTE_PKTMBUF_HEADROOM <= u16_max;
  headroom_spec : forall m, mbuf_wf m -> rte_pktmbuf_headroom m = data_off m;
  tailroom_spec : forall m, mbuf_wf m ->
    rte_pktmbuf_tailroom m = buf_len m - data_off m - m_data_len m;
  append_spec : forall m n, mbuf_wf m -> 0 <= n <= u16_max ->
    rte_pktmbuf_append m n =
    if rte_pktmbuf_tailroom m <? n then (None, m)
    else (Some (data_off m + m_data_len m),
          set_lens m (m_data_len m + n) (m_pkt_len m + n));
  prepend_spec : forall m n, mbuf_wf m -> 0 <= n <= u16_max ->
    rte_pktmbuf_prepend m n =
    if rte_pktmbuf_headroom m <? n then (None, m)
    else (Some (data_off m - n),
          mk_mbuf (buf m) (data_off m - n) (m_data_len m + n) (m_pkt_len m + n));
  adj_spec : forall m n, mbuf_wf m -> 0 <= n <= u16_max ->
    rte_pktmbuf_adj m n =
    if m_data_len m <? n then (None, m)
    else (Some (data_off m + n),
          mk_mbuf (buf m) (data_off m + n) (m_data_len m - n) (m_pkt_len m - n));
  trim_spec : forall m n, mbuf_wf m -> 0 <= n <= u16_max ->
    rte_pktmbuf_trim m n =
    if m_data_len m <? n then (-1, m)
    else (0, set_lens m (m_data_len m - n) (m_pkt_len m - n));
  reset_spec : forall m,
    rte_pktmbuf_reset m = mk_mbuf (buf m) (Z.min RTE_PKTMBUF_HEADROOM (buf_len m)) 0 0
}.

(** Close a well-formedness goal from the bounds in the context. *)
Ltac wf_solve :=
  match goal with Hw : mbuf_wf _ |- _ => destruct Hw end;
  split; unfold buf_len in *; simpl in *; lia.

Module Mbuf.
Section Ops.
Context `{PktMbuf}.

(** [Mbuf::from_raw]: [NonNull::new] on the pointer. *)
Definition from_raw (ptr : option rte_mbuf) : option rte_mbuf := ptr.

Definition data_len (m : rte_mbuf) : Z := m_data_len m.
Definition pkt_len (m : rte_mbuf) : Z := m_pkt_len m.
Definition headroom (m : rte_mbuf) : Z := rte_pktmbuf_headroom m.
Definition tailroom (m : rte_mbuf) : Z := rte_pktmbuf_tailroom m.
Definition capacity (m : rte_mbuf) : Z := data_len m + tailroom m.

(** [slice::from_raw_parts] on [len] bytes at offset [off] of the buffer. *)
Definition raw_parts (m : rte_mbuf) (off len : Z) : Exec (list byte) :=
  if (0 <=? off) && (0 <=? len) && (off + len <=? buf_len m)
  then Ret (take (Z.to_nat len) (drop (Z.to_nat off) (buf m))) else UB.

(** Store through a mutable slice that starts at offset [off]. *)
Definition store (m : rte_mbuf) (off : Z) (bs : list byte) : rte_mbuf :=
  set_buf m (list_inserts (Z.to_nat off) bs (buf m)).

(** [Mbuf::data]; the pointer of [rte_pktmbuf_mtod] is [buf_addr + data_off]
    and never null for an owned buffer. *)
Definition data (m : rte_mbuf) : Exec (list byte) :=
  let len := data_len m in
  if len =? 0 then Ret [] else raw_parts m (data_off m) len.

(** [f(mbuf.data_mut())]: [f] gets the mutable slice and leaves its result
    and the new contents of the slice, which cannot outgrow the slice. *)
Definition data_mut {R} (f : list byte -> R * list byte) (m : rte_mbuf) : Exec (R * rte_mbuf) :=
  s ← data m;
  let '(r, s') := f s in
  Ret (r, store m (data_off m) (take (length s) s')).

(** [slice::from_raw_parts_mut] on the pointer a C function returned, unless
    it is null. *)
Definition slice_at (r : option Z * rte_mbuf) (len : Z) : Exec (option Z * rte_mbuf) :=
  match r with
  | (None, m) => Ret (None, m)
  | (Some off, m) => _ ← raw_parts m off len; Ret (Some off, m)
  end.

(** [append] and [prepend] return a mutable slice of [len] bytes, given by the
    offset it starts at. *)
Definition append (m : rte_mbuf) (len : Z) : Exec (option Z * rte_mbuf) :=
  if u16_max <? len then Ret (None, m) else slice_at (rte_pktmbuf_append m (as_u16 len)) len.

Definition prepend (m : rte_mbuf) (len : Z) : Exec (option Z * rte_mbuf) :=
  if u16_max <? len then Ret (None, m) else slice_at (rte_pktmbuf_prepend m (as_u16 len)) len.

Definition adj (m : rte_mbuf) (len : Z) : bool * rte_mbuf :=
  if u16_max <? len then (false, m)
  else match rte_pktmbuf_adj m (as_u16 len) with
       | (Some _, m') => (true, m')
       | (None, m') => (false, m')
       end.

Definition trim (m : rte_mbuf) (len : Z) : bool * rte_mbuf :=
  if u16_max <? len then (false, m)
  else let '(r, m') := rte_pktmbuf_trim m (as_u16 len) in (r =? 0, m').

Definition reset (m : rte_mbuf) : rte_mbuf := rte_pktmbuf_reset m.

(** [rust_pktmbuf_set_data_len] / [rust_pktmbuf_set_pkt_len] of wrapper.c. *)
Definition set_data_len (m : rte_mbuf) (len : Z) : rte_mbuf :=
  mk_mbuf (buf m) (data_off m) len (m_pkt_len m).
Definition set_pkt_len (m : rte_mbuf) (len : Z) : rte_mbuf :=
  mk_mbuf (buf m) (data_off m) (m_data_len m) len.

(** [unsafe fn extend]: no bounds check, the sums are truncated by [as]. *)
Definition extend (m : rte_mbuf) (len : Z) : rte_mbuf :=
  let new_data_len := data_len m + len in
  let new_pkt_len := pkt_len m + len in
  set_pkt_len (set_data_len m (as_u16 new_data_len)) (as_u32 new_pkt_len).

(** [unsafe fn shrink], with [saturating_sub]. *)
Definition shrink (m : rte_mbuf) (len : Z) : rte_mbuf :=
  let new_data_len := Z.max 0 (data_len m - len) in
  let new_pkt_len := Z.max 0 (pkt_len m - len) in
  set_pkt_len (set_data_len m (as_u16 new_data_len)) (as_u32 new_pkt_len).

(** [copy_from_slice]: reset, append, then copy into the appended slice. *)
Definition copy_from_slice (m : rte_mbuf) (src : list byte) : Exec (bool * rte_mbuf) :=
  let m := reset m in
  '(o, m) ← append m (zlen src);
  match o with
  | Some start => Ret (true, store m start src)
  | None => Ret (false, m)
  end.

(** The caller writes with [f] through the slice of [len] bytes it was given. *)
Definition write_slot (f : list byte -> list byte) (len : Z) (r : option Z * rte_mbuf) : Exec rte_mbuf :=
  match r with
  | (Some off, m) => s ← raw_parts m off len; Ret (store m off (take (length s) (f s)))
  | (None, m) => Ret m
  end.

(** Calls of the safe interface, with what the caller writes through the
    slices it gets. *)
Inductive op :=
  | OAppend (len : Z) (f : list byte -> list byte) | OPrepend (len : Z) (f : list byte -> list byte)
  | OAdj (len : Z) | OTrim (len : Z)
  | OReset | OCopy (src : list byte) | OWrite (f : list byte -> list byte).

Definition run_op (o : op) (m : rte_mbuf) : Exec rte_mbuf :=
  match o with
  | OAppend n f => append m n ≫= write_slot f n
  | OPrepend n f => prepend m n ≫= write_slot f n
  | OAdj n => Ret (adj m n).2
  | OTrim n => Ret (trim m n).2
  | OReset => Ret (reset m)
  | OCopy src => '(_, m') ← copy_from_slice m src; Ret m'
  | OWrite f => '(_, m') ← data_mut (fun s => (tt, f s)) m; Ret m'
  end.

(** Lengths are [usize] arguments, so never negative. *)
Definition op_ok (o : op) : Prop :=
  match o with
  | OAppend n _ | OPrepend n _ | OAdj n | OTrim n => 0 <= n
  | _ => True
  end.

Fixpoint run_ops (os : list op) (m : rte_mbuf) : Exec rte_mbuf :=
  match os with
  | [] => Ret m
  | o :: os => m' ← run_op o m; run_ops os m'
  end.

End Ops.

Section Proofs.
Context `{HL : PktMbufLaws}.

Lemma store_buf_len m off bs : buf_len (store m off bs) = buf_len m.
Proof. unfold buf_len, store, zlen. simpl. by rewrite length_inserts. Qed.

Lemma store_wf m off bs : mbuf_wf m -> mbuf_wf (store m off bs).
Proof. intros [? ? ? ? ?]. split; rewrite ?store_buf_len; done. Qed.

Lemma as_u16_small n : 0 <= n <= u16_max -> as_u16 n = n.
Proof. intros. apply wrap_small. unfold u16_max in *. lia. Qed.

Lemma as_u32_small n : 0 <= n <= u16_max -> as_u32 n = n.
Proof. intros. apply wrap_small. unfold u16_max in *. lia. Qed.

Lemma reset_wf m : buf_len m <= u16_max -> mbuf_wf (reset m).
Proof.
  intros Hb. unfold reset. rewrite reset_spec.
  pose proof headroom_const_bound. pose proof (zlen_nonneg (buf m)).
  unfold buf_len in *. split; simpl; unfold buf_len; simpl; lia.
Qed.

Lemma reset_buf m : buf (reset m) = buf m.
Proof. unfold reset. by rewrite reset_spec. Qed.

Lemma adj_wf m n : mbuf_wf m -> 0 <= n -> mbuf_wf (adj m n).2.
Proof.
  intros Hw Hn. unfold adj. destruct (Z.ltb_spec u16_max n); [done|].
  rewrite as_u16_small, adj_spec by (done || lia).
  destruct (Z.ltb_spec (m_data_len m) n); [done | wf_solve].
Qed.

Lemma trim_wf m n : mbuf_wf m -> 0 <= n -> mbuf_wf (trim m n).2.
Proof.
  intros Hw Hn. unfold trim. destruct (Z.ltb_spec u16_max n); [done|].
  rewrite as_u16_small, trim_spec by (done || lia).
  destruct (Z.ltb_spec (m_data_len m) n); [done | wf_solve].
Qed.

Lemma raw_parts_ret m off len :
  0 <= off -> 0 <= len -> off + len <= buf_len m ->
  raw_parts m off len = Ret (take (Z.to_nat len) (drop (Z.to_nat off) (buf m))).
Proof. intros. unfold raw_parts. by rewrite !(proj2 (Z.leb_le _ _)) by lia. Qed.

(** What [append] and [prepend] do on a well-formed buffer. *)
Lemma append_run m n : mbuf_wf m -> 0 <= n ->
  append m n = Ret (if tailroom m <? n then (None, m)
                    else (Some (data_off m + m_data_len m), set_lens m (m_data_len m + n) (m_pkt_len m + n))).
Proof.
  intros Hw Hn. unfold append, tailroom. rewrite tailroom_spec by done. pose proof Hw as [? ? ? ? ?].
  destruct (Z.ltb_spec u16_max n); [by rewrite (proj2 (Z.ltb_lt _ _)) by lia|].
  rewrite as_u16_small, append_spec, tailroom_spec by (done || lia).
  destruct (Z.ltb_spec (buf_len m - data_off m - m_data_len m) n); [done|].
  cbn [slice_at]. rewrite raw_parts_ret; [done|lia|done|]. unfold buf_len in *. simpl. lia.
Qed.

Lemma prepend_run m n : mbuf_wf m -> 0 <= n ->
  prepend m n = Ret (if headroom m <? n then (None, m)
                     else (Some (data_off m - n), mk_mbuf (buf m) (data_off m - n) (m_data_len m + n) (m_pkt_len m + n))).
Proof.
  intros Hw Hn. unfold prepend, headroom. rewrite headroom_spec by done. pose proof Hw as [? ? ? ? ?].
  destruct (Z.ltb_spec u16_max n); [by rewrite (proj2 (Z.ltb_lt _ _)) by lia|].
  rewrite as_u16_small, prepend_spec, headroom_spec by (done || lia). destruct (Z.ltb_spec (data_off m) n); [done|].
  cbn [slice_at]. rewrite raw_parts_ret; [done|lia|done|]. unfold buf_len in *. simpl. lia.
Qed.

Lemma append_slot m n f : mbuf_wf m -> 0 <= n -> exists m', append m n ≫= write_slot f n = Ret m' /\ mbuf_wf m'.
Proof.
  intros Hw Hn. rewrite append_run by done. unfold tailroom. rewrite tailroom_spec by done. cbn [mbind exec_bind].
  destruct (Z.ltb_spec (buf_len m - data_off m - m_data_len m) n); [by exists m|].
  assert (mbuf_wf (set_lens m (m_data_len m + n) (m_pkt_len m + n))) as Hw' by wf_solve.
  cbn [write_slot]. rewrite raw_parts_ret; [|destruct Hw; lia|done|destruct Hw; unfold buf_len in *; simpl; lia].
  eexists. split; [done|]. by apply store_wf.
Qed.

Lemma prepend_slot m n f : mbuf_wf m -> 0 <= n -> exists m', prepend m n ≫= write_slot f n = Ret m' /\ mbuf_wf m'.
Proof.
  intros Hw Hn. rewrite prepend_run by done. unfold headroom. rewrite headroom_spec by done. cbn [mbind exec_bind].
  destruct (Z.ltb_spec (data_off m) n); [by exists m|].
  assert (mbuf_wf (mk_mbuf (buf m) (data_off m - n) (m_data_len m + n) (m_pkt_len m + n))) as Hw' by wf_solve.
  cbn [write_slot]. rewrite raw_parts_ret; [|lia|done|destruct Hw; unfold buf_len in *; simpl; lia].
  eexists. split; [done|]. by apply store_wf.
Qed.

Lemma data_ret m : mbuf_wf m ->
  data m = Ret (take (Z.to_nat (m_data_len m)) (drop (Z.to_nat (data_off m)) (buf m))).
Proof.
  intros [? ? ? ? ?]. unfold data, data_len. destruct (Z.eqb_spec (m_data_len m) 0) as [->|].
  - done.
  - by apply raw_parts_ret.
Qed.

Lemma data_length m bs : mbuf_wf m -> data m = Ret bs -> zlen bs = m_data_len m.
Proof.
  intros Hw. rewrite data_ret by done. intros [= <-]. destruct Hw.
  unfold buf_len, zlen in *. rewrite length_take, length_drop. lia.
Qed.

Lemma data_mut_wf {R} (f : list byte -> R * list byte) m :
  mbuf_wf m -> exists r m', data_mut f m = Ret (r, m') /\ mbuf_wf m' /\
    m_data_len m' = m_data_len m /\ buf_len m' = buf_len m.
Proof.
  intros Hw. unfold data_mut. rewrite data_ret by done. simpl.
  destruct (f _) as [r s']. eexists _, _. split; [done|].
  split; [by apply store_wf|]. by rewrite store_buf_len.
Qed.

(** Reading back what [store] wrote over exactly the data of the buffer. *)
Lemma data_store m bs : mbuf_wf m -> zlen bs = m_data_len m ->
  data (store m (data_off m) bs) = Ret bs.
Proof.
  intros Hw Hl. rewrite data_ret by by apply store_wf. simpl.
  destruct Hw. unfold buf_len, zlen in *. f_equal.
  apply list_eq. intros i.
  destruct (decide (i < length bs)%nat).
  - rewrite lookup_take_lt, lookup_drop by lia.
    rewrite list_lookup_inserts by lia. f_equal. lia.
  - rewrite lookup_take_ge by lia. symmetry. apply lookup_ge_None. lia.
Qed.

(** The room an empty buffer offers after [reset]. *)
Definition reset_room (m : rte_mbuf) : Z :=
  buf_len m - Z.min RTE_PKTMBUF_HEADROOM (buf_len m).

Lemma copy_from_slice_run m src : buf_len m <= u16_max ->
  copy_from_slice m src =
  if reset_room m <? zlen src then Ret (false, reset m)
  else let m' := set_lens (reset m) (zlen src) (zlen src) in
       Ret (true, store m' (data_off m') src).
Proof.
  intros Hb. pose proof (reset_wf m Hb) as Hw. unfold copy_from_slice, reset_room.
  rewrite append_run by (done || apply zlen_nonneg). unfold tailroom. rewrite tailroom_spec by done. cbn [mbind exec_bind].
  unfold reset. rewrite reset_spec. simpl. rewrite Z.sub_0_r. unfold buf_len at 1. simpl. fold (buf_len m).
  destruct (Z.ltb_spec (buf_len m - Z.min RTE_PKTMBUF_HEADROOM (buf_len m)) (zlen src)); [done|].
  by rewrite Z.add_0_r.
Qed.

Lemma copied_wf m (src : list byte) : buf_len m <= u16_max -> zlen src <= reset_room m ->
  mbuf_wf (set_lens (reset m) (zlen src) (zlen src)).
Proof.
  intros Hb Hr. pose proof (zlen_nonneg src). pose proof headroom_const_bound.
  unfold reset_room, reset in *. rewrite reset_spec.
  split; unfold buf_len in *; simpl; unfold zlen in *; lia.
Qed.

Lemma copy_from_slice_ok m src : buf_len m <= u16_max -> zlen src <= reset_room m ->
  exists m', copy_from_slice m src = Ret (true, m') /\ mbuf_wf m' /\
             data m' = Ret src /\ buf_len m' = buf_len m.
Proof.
  intros Hb Hr. rewrite copy_from_slice_run by done.
  destruct (Z.ltb_spec (reset_room m) (zlen src)); [lia|].
  pose proof (copied_wf m src Hb Hr) as Hw.
  eexists. split; [done|]. split; [by apply store_wf|].
  split; [by apply data_store|].
  rewrite store_buf_len. unfold buf_len. simpl. by rewrite reset_buf.
Qed.

Lemma copy_from_slice_full m src : buf_len m <= u16_max -> reset_room m < zlen src ->
  copy_from_slice m src = Ret (false, reset m).
Proof.
  intros Hb Hr. rewrite copy_from_slice_run by done.
  by destruct (Z.ltb_spec (reset_room m) (zlen src)); [|lia].
Qed.

Lemma run_op_wf o m : mbuf_wf m -> op_ok o -> exists m', run_op o m = Ret m' /\ mbuf_wf m'.
Proof.
  intros Hw Ho. pose proof (wf_u16 _ Hw).
  destruct o; simpl in *; [by apply append_slot|by apply prepend_slot|..]; try (eexists; split; [done|]).
  - by apply adj_wf.
  - by apply trim_wf.
  - by apply reset_wf.
  - destruct (Z.le_gt_cases (zlen src) (reset_room m)).
    + destruct (copy_from_slice_ok m src) as (m' & -> & ? & _); [done..|]. simpl. eauto.
    + rewrite copy_from_slice_full by lia. simpl. eauto using reset_wf.
  - destruct (data_mut_wf (fun s => (tt, f s)) m Hw) as (r & m' & -> & ? & _). simpl. eauto.
Qed.

Lemma extend_wf m len : mbuf_wf m -> 0 <= len <= tailroom m ->
  mbuf_wf (extend m len) /\ m_data_len (extend m len) = m_data_len m + len /\
  buf_len (extend m len) = buf_len m.
Proof.
  intros Hw. unfold tailroom. rewrite tailroom_spec by done. intros Hl.
  destruct Hw. unfold extend, set_pkt_len, set_data_len, data_len, pkt_len, buf_len in *. simpl.
  rewrite wf_pkt0, as_u16_small, as_u32_small by lia.
  split; [|done]. split; unfold buf_len; simpl; lia.
Qed.

End Proofs.

(** A reference implementation of the interface: the documented behaviour
    read as equations. *)
#[export] Instance ref_pktmbuf : PktMbuf := {|
  RTE_PKTMBUF_HEADROOM := 128;
  RTE_MBUF_DEFAULT_DATAROOM := 2048;
  rte_pktmbuf_headroom m := data_off m;
  rte_pktmbuf_tailroom m := buf_len m - data_off m - m_data_len m;
  rte_pktmbuf_append m n :=
    if buf_len m - data_off m - m_data_len m <? n then (None, m)
    else (Some (data_off m + m_data_len m), set_lens m (m_data_len m + n) (m_pkt_len m + n));
  rte_pktmbuf_prepend m n :=
    if data_off m <? n then (None, m)
    else (Some (data_off m - n),
          mk_mbuf (buf m) (data_off m - n) (m_data_len m + n) (m_pkt_len m + n));
  rte_pktmbuf_adj m n :=
    if m_data_len m <? n then (None, m)
    else (Some (data_off m + n),
          mk_mbuf (buf m) (data_off m + n) (m_data_len m - n) (m_pkt_len m - n));
  rte_pktmbuf_trim m n :=
    if m_data_len m <? n then (-1, m)
    else (0, set_lens m (m_data_len m - n) (m_pkt_len m - n));
  rte_pktmbuf_reset m := mk_mbuf (buf m) (Z.min 128 (buf_len m)) 0 0
|}.

#[export] Instance ref_pktmbuf_laws : PktMbufLaws.
Proof. split; intros; simpl; unfold u16_max; done || lia. Qed.

(** An empty buffer of [n] bytes as the allocator hands it out. *)
Definition blank (n : nat) : rte_mbuf :=
  mk_mbuf (replicate n x00) (Z.min 128 (Z.of_nat n)) 0 0.

Lemma blank_wf n : Z.of_nat n <= u16_max -> mbuf_wf (blank n).
Proof.
  intros. split; unfold buf_len, zlen; simpl; rewrite ?length_replicate; lia.
Qed.

Section Properties.
Context `{HL : PktMbufLaws}.

(** [Mbuf::copy_from_slice] stores exactly the given bytes when they fit
    behind the headroom, reading [data()] returns them; otherwise it reports
    [false] and leaves an empty, reset buffer. It is never undefined. *)
Theorem copy_from_slice_roundtrip m (src : list byte) (Hb : buf_len m <= u16_max) :
  if zlen src <=? reset_room m
  then exists m', copy_from_slice m src = Ret (true, m') /\ data m' = Ret src /\
                  data_len m' = zlen src /\ pkt_len m' = zlen src
  else copy_from_slice m src = Ret (false, reset m) /\ data (reset m) = Ret [].
Proof.
  destruct (Z.leb_spec (zlen src) (reset_room m)).
  - destruct (copy_from_slice_ok m src) as (m' & Hc & Hw & Hd & _); [done..|].
    exists m'. pose proof (data_length m' src Hw Hd). pose proof (wf_pkt _ Hw).
    unfold data_len, pkt_len. by rewrite wf_pkt.
  - rewrite copy_from_slice_full by lia. split; [done|].
    unfold data, reset, data_len. by rewrite reset_spec.
Qed.

(** C13: any sequence of calls of the safe interface keeps the data inside the
    buffer, and no slice formed by them is ever outside the memory of the
    buffer: the execution ends normally. *)
Theorem safe_ops_no_ub (os : list op) m (Hw : mbuf_wf m) (Hos : Forall op_ok os) :
  exists m' bs, run_ops os m = Ret m' /\ mbuf_wf m' /\ data m' = Ret bs /\ zlen bs = data_len m'.
Proof.
  revert m Hw. induction Hos as [|o os Ho Hos IH]; intros m Hw; simpl.
  - eexists m, _. split_and!; [done | done | by apply data_ret |].
    by apply data_length; [|apply data_ret].
  - destruct (run_op_wf o m Hw Ho) as (m1 & -> & Hw1). by apply IH.
Qed.

(** [append] then [trim] of the same length, and [prepend] then [adj],
    give back the buffer that was there before. *)
Theorem append_trim_roundtrip m n off m1 (Hw : mbuf_wf m) (Hn : 0 <= n) :
  (append m n = Ret (Some off, m1) -> trim m1 n = (true, m) /\ off = data_off m + data_len m) /\
  (prepend m n = Ret (Some off, m1) -> adj m1 n = (true, m) /\ off = data_off m1).
Proof.
  rewrite append_run, prepend_run by done. unfold tailroom, headroom. rewrite tailroom_spec, headroom_spec by done.
  split; [destruct (Z.ltb_spec (buf_len m - data_off m - m_data_len m) n)|destruct (Z.ltb_spec (data_off m) n)];
    intros E; simplify_eq.
  - assert (mbuf_wf (set_lens m (m_data_len m + n) (m_pkt_len m + n))) as Ha by wf_solve.
    unfold trim. destruct Hw. rewrite (proj2 (Z.ltb_ge u16_max n)), as_u16_small, trim_spec by (done || lia). simpl.
    rewrite (proj2 (Z.ltb_ge _ _)) by lia. destruct m; unfold set_lens; simpl. split; [|done].
    do 2 f_equal; lia.
  - assert (mbuf_wf (mk_mbuf (buf m) (data_off m - n) (m_data_len m + n) (m_pkt_len m + n))) as Ha by wf_solve.
    unfold adj. destruct Hw. rewrite (proj2 (Z.ltb_ge u16_max n)), as_u16_small, adj_spec by (done || lia). simpl.
    rewrite (proj2 (Z.ltb_ge _ _)) by lia. destruct m; simpl. split; [|done].
    do 2 f_equal; lia.
Qed.

(** The unchecked [Mbuf::extend] is sound exactly within the tailroom:
    there [data_mut] sees the old length plus [len]; one byte more (as long as
    the sum still fits [u16]) and [data_mut] forms a slice outside the buffer. *)
Theorem extend_sound_iff m len (Hw : mbuf_wf m) (Hl : 0 <= len) (Hpos : 0 < data_len m + len)
    (Hu : data_len m + len <= u16_max) :
  (exists r m', data_mut (fun s => (zlen s, s)) (extend m len) = Ret (r, m') /\
                r = data_len m + len) <-> len <= tailroom m.
Proof.
  split.
  - intros (r & m' & Hd & ->). unfold tailroom. rewrite tailroom_spec by done.
    unfold data_mut, data, raw_parts, extend, set_pkt_len, set_data_len, data_len in *. simpl in *.
    rewrite as_u16_small in * by (destruct Hw; lia).
    rewrite (proj2 (Z.eqb_neq _ _)) in Hd by lia.
    destruct (_ && _) eqn:E in Hd; [|done]. reflect_bool. unfold buf_len in *. simpl in *. lia.
  - intros Hle. destruct (extend_wf m len Hw) as (Hw' & Hlen & _); [lia|].
    revert Hw' Hlen. generalize (extend m len). intros x Hw' Hlen.
    unfold data_mut. rewrite data_ret by done. simpl. eexists _, _. split; [done|].
    change (data_len m) with (m_data_len m). rewrite <- Hlen. by apply data_length; [|apply data_ret].
Qed.

End Properties.

Lemma copy_from_slice_roundtrip_witness :
  exists m', copy_from_slice (blank 200) [x01; x02] = Ret (true, m') /\ data m' = Ret [x01; x02] /\
             data_len m' = 2 /\ pkt_len m' = 2.
Proof.
  assert (buf_len (blank 200) <= u16_max) as Hb by (vm_compute; discriminate).
  exact (copy_from_slice_roundtrip (blank 200) [x01; x02] Hb).
Defined.

Lemma safe_ops_no_ub_witness :
  exists m' bs, run_ops [OAppend 60 (fmap (fun _ => x05)); OPrepend 14 id; OTrim 4; OWrite (fmap (fun _ => x07)); OCopy [x01]] (blank 200)
    = Ret m' /\ mbuf_wf m' /\ data m' = Ret bs /\ zlen bs = data_len m'.
Proof.
  apply safe_ops_no_ub; [apply blank_wf; unfold u16_max; lia | repeat constructor; simpl; lia].
Defined.

Lemma append_trim_roundtrip_witness :
  exists m1 m2, append (blank 200) 60 = Ret (Some 128, m1) /\ trim m1 60 = (true, blank 200) /\
    prepend (blank 200) 14 = Ret (Some 114, m2) /\ adj m2 14 = (true, blank 200).
Proof.
  assert (mbuf_wf (blank 200)) as Hw by (apply blank_wf; unfold u16_max; lia).
  eexists _, _. split; [vm_compute; reflexivity|]. split; [|split; [vm_compute; reflexivity|]].
  - by eapply (append_trim_roundtrip (blank 200) 60 128); [|lia|vm_compute].
  - by eapply (append_trim_roundtrip (blank 200) 14 114); [|lia|vm_compute].
Defined.

Lemma extend_sound_iff_witness :
  (exists r m', data_mut (fun s => (zlen s, s)) (extend (blank 200) 72) = Ret (r, m') /\ r = 72) /\
  ~ (exists r m', data_mut (fun s => (zlen s, s)) (extend (blank 200) 73) = Ret (r, m') /\ r = 73).
Proof.
  assert (mbuf_wf (blank 200)) as Hw by (apply blank_wf; unfold u16_max; lia).
  assert (tailroom (blank 200) = 72) as Ht by reflexivity.
  assert (data_len (blank 200) = 0) as Hd by reflexivity.
  split.
  - apply (extend_sound_iff (blank 200) 72 Hw); rewrite ?Hd, ?Ht; unfold u16_max; lia.
  - rewrite (extend_sound_iff (blank 200) 73 Hw); rewrite ?Hd, ?Ht; unfold u16_max; lia.
Defined.

End Mbuf.
