(* ===== verification/Pktmbuf.v ===== *)
(** * Error codes and packet-buffer pools
      ([dpdk-net/src/api/error.rs], [dpdk-net/src/api/rte/pktmbuf.rs])

    The DPDK library state is the abstract type [rte]; the pool functions are
    the interface [RteMempool] with the documented laws [RteMempoolLaws].
    [app_mbufs] counts the buffers handed to the application and not yet
    given back: an allocation adds one, [rte_pktmbuf_free] removes one. *)

From stdpp Require Import base list.
From Stdlib Require Import ZArith Strings.Byte Lia.
From S2P Require Import Prelude Mbuf.

Local Open Scope Z_scope.

(** [nix::errno::Errno]: the two codes the sources name, and
    [Errno::from_raw]. *)
Inductive Errno := EINVAL | EALREADY | from_raw (num : Z).

#[export] Instance Errno_eq_dec : EqDecision Errno.
Proof. solve_decision. Defined.

(** [check_rte_success]; [errnum] is what [rust_get_rte_errno] returns. *)
Definition rte_errno_value (errnum : Z) : Errno := from_raw errnum.
Definition check_rte_success (errnum ret : Z) : Result unit Errno :=
  if ret <? 0 then Err (rte_errno_value errnum) else Ok tt.

(** [CString::new]: fails on an interior NUL byte. *)
Definition CString_new (s : list byte) : option (list byte) :=
  if decide (x00 ∈ s) then None else Some s.

Class RteMempool := {
  rte : Type;
  pool_ptr : Type;
  rust_get_rte_errno : rte -> Z;
  rte_pktmbuf_pool_create : list byte -> Z -> Z -> Z -> Z -> Z -> rte -> option pool_ptr * rte;
  rte_mempool_lookup : list byte -> rte -> option pool_ptr * rte;
  rte_mempool_free : pool_ptr -> rte -> rte;
  rte_mempool_avail_count : pool_ptr -> rte -> Z;
  rte_pktmbuf_data_room_size : pool_ptr -> rte -> Z;
  rte_pktmbuf_alloc : pool_ptr -> rte -> option rte_mbuf * rte;
  rte_pktmbuf_free : rte_mbuf -> rte -> rte;
  app_mbufs : rte -> Z
}.

(** An allocated buffer is reset and has the pool's data room; buffers are
    accounted for; allocation and release leave the pool's geometry alone. *)
Class RteMempoolLaws `{PktMbuf} `{RteMempool} : Prop := {
  pool_mbuf_laws :: PktMbufLaws;
  alloc_some : forall p w m w', rte_pktmbuf_alloc p w = (Some m, w') ->
    mbuf_wf m /\ m_data_len m = 0 /\
    data_off m = Z.min RTE_PKTMBUF_HEADROOM (buf_len m) /\
    buf_len m = rte_pktmbuf_data_room_size p w /\
    app_mbufs w' = app_mbufs w + 1;
  alloc_none : forall p w w', rte_pktmbuf_alloc p w = (None, w') -> app_mbufs w' = app_mbufs w;
  alloc_room : forall p q w, rte_pktmbuf_data_room_size q (rte_pktmbuf_alloc p w).2 =
    rte_pktmbuf_data_room_size q w;
  free_app : forall m w, app_mbufs (rte_pktmbuf_free m w) = app_mbufs w - 1;
  free_room : forall q m w, rte_pktmbuf_data_room_size q (rte_pktmbuf_free m w) =
    rte_pktmbuf_data_room_size q w
}.

Module Pktmbuf.
Section Config.
Context `{PktMbuf}.

(** [struct MemPoolConfig] and its builder. *)
Record MemPoolConfig := {
  num_mbufs : Z;
  cache_size : Z;
  priv_size : Z;
  data_room_size : Z;
  socket_id : Z
}.

Definition MemPoolConfig_default : MemPoolConfig := {|
  num_mbufs := 8191;
  cache_size := 256;
  priv_size := 0;
  (* RTE_MBUF_DEFAULT_DATAROOM as u16 + RTE_PKTMBUF_HEADROOM as u16 *)
  data_room_size := as_u16 RTE_MBUF_DEFAULT_DATAROOM + as_u16 RTE_PKTMBUF_HEADROOM;
  socket_id := -1
|}.

Definition MemPoolConfig_new : MemPoolConfig := MemPoolConfig_default.

Definition with_num_mbufs (n : Z) (c : MemPoolConfig) : MemPoolConfig := {|
  num_mbufs := n; cache_size := cache_size c; priv_size := priv_size c;
  data_room_size := data_room_size c; socket_id := socket_id c |}.
Definition with_cache_size (n : Z) (c : MemPoolConfig) : MemPoolConfig := {|
  num_mbufs := num_mbufs c; cache_size := n; priv_size := priv_size c;
  data_room_size := data_room_size c; socket_id := socket_id c |}.
Definition with_priv_size (n : Z) (c : MemPoolConfig) : MemPoolConfig := {|
  num_mbufs := num_mbufs c; cache_size := cache_size c; priv_size := n;
  data_room_size := data_room_size c; socket_id := socket_id c |}.
Definition with_data_room_size (n : Z) (c : MemPoolConfig) : MemPoolConfig := {|
  num_mbufs := num_mbufs c; cache_size := cache_size c; priv_size := priv_size c;
  data_room_size := n; socket_id := socket_id c |}.
Definition with_socket_id (n : Z) (c : MemPoolConfig) : MemPoolConfig := {|
  num_mbufs := num_mbufs c; cache_size := cache_size c; priv_size := priv_size c;
  data_room_size := data_room_size c; socket_id := n |}.

End Config.

Section Pool.
Context `{PktMbuf} `{RteMempool}.

(** [MemPool::create] *)
Definition create (name : list byte) (c : MemPoolConfig) (w : rte) : Result pool_ptr Errno * rte :=
  match CString_new name with
  | None => (Err EINVAL, w)
  | Some c_name =>
      let '(ptr, w') := rte_pktmbuf_pool_create c_name (num_mbufs c) (cache_size c)
                          (priv_size c) (data_room_size c) (socket_id c) w in
      (ok_or (from_raw (rust_get_rte_errno w')) ptr, w')
  end.

(** [MemPool::create_default] *)
Definition create_default (name : list byte) (n : Z) (w : rte) : Result pool_ptr Errno * rte :=
  create name (with_num_mbufs n MemPoolConfig_default) w.

(** [MemPool::lookup] *)
Definition lookup (name : list byte) (w : rte) : Result pool_ptr Errno * rte :=
  match CString_new name with
  | None => (Err EINVAL, w)
  | Some c_name =>
      let '(ptr, w') := rte_mempool_lookup c_name w in
      (ok_or (from_raw (rust_get_rte_errno w')) ptr, w')
  end.

(** [Mbuf::alloc] and [MemPool::try_alloc] / [MemPoolRef::try_alloc] *)
Definition alloc (p : pool_ptr) (w : rte) : option rte_mbuf * rte :=
  let '(ptr, w') := rte_pktmbuf_alloc p w in (Mbuf.from_raw ptr, w').
Definition try_alloc (p : pool_ptr) (w : rte) : option rte_mbuf * rte := alloc p w.

(** [Drop for Mbuf] and [Drop for MemPool] *)
Definition drop_mbuf (m : rte_mbuf) (w : rte) : rte := rte_pktmbuf_free m w.
Definition drop_pool (p : pool_ptr) (w : rte) : rte := rte_mempool_free p w.

(** The [while] loop of [fill_batch], with fuel for its iterations. *)
Fixpoint fill_loop (fuel cap : nat) (p : pool_ptr) (batch : list rte_mbuf) (count : nat) (w : rte)
    : option (nat * list rte_mbuf * rte) :=
  if (length batch <? cap)%nat then
    match fuel with
    | O => None
    | S fuel =>
        match try_alloc p w with
        | (Some m, w') => fill_loop fuel cap p (batch ++ [m]) (S count) w'
        | (None, w') => Some (count, batch, w')
        end
    end
  else Some (count, batch, w).

(** [fill_batch] on an [ArrayVec] of capacity [cap]: each round fills a slot,
    so [cap] rounds are enough. *)
Definition fill_batch (cap : nat) (p : pool_ptr) (batch : list rte_mbuf) (w : rte)
    : option (nat * list rte_mbuf * rte) :=
  fill_loop cap cap p batch 0 w.

End Pool.

Section Properties.
Context `{HL : RteMempoolLaws}.

(** A buffer fresh from a pool with data room [room]. *)
Definition fresh (room : Z) (m : rte_mbuf) : Prop :=
  mbuf_wf m /\ m_data_len m = 0 /\ data_off m = Z.min RTE_PKTMBUF_HEADROOM (buf_len m) /\ buf_len m = room.

Lemma try_alloc_some p w m w' : try_alloc p w = (Some m, w') ->
  fresh (rte_pktmbuf_data_room_size p w) m /\ app_mbufs w' = app_mbufs w + 1 /\
  rte_pktmbuf_data_room_size p w' = rte_pktmbuf_data_room_size p w.
Proof.
  unfold try_alloc, alloc, Mbuf.from_raw. destruct (rte_pktmbuf_alloc p w) as [o w1] eqn:E. intros [= -> ->].
  destruct (alloc_some _ _ _ _ E) as (? & ? & ? & ? & ?). split; [done|]. split; [done|].
  pose proof (alloc_room p p w) as Hr. by rewrite E in Hr.
Qed.

Lemma try_alloc_none p w w' : try_alloc p w = (None, w') -> app_mbufs w' = app_mbufs w.
Proof.
  unfold try_alloc, alloc, Mbuf.from_raw. destruct (rte_pktmbuf_alloc p w) as [o w1] eqn:E. intros [= -> ->]. by eapply alloc_none.
Qed.

Lemma fill_loop_spec fuel cap p batch count w :
  (cap <= fuel + length batch)%nat ->
  exists new w', fill_loop fuel cap p batch count w = Some ((count + length new)%nat, batch ++ new, w') /\
    app_mbufs w' = app_mbufs w + zlen new /\
    Forall (fresh (rte_pktmbuf_data_room_size p w)) new /\
    (length batch <= cap -> length (batch ++ new) <= cap)%nat /\
    ((cap <= length (batch ++ new))%nat \/ exists w0, try_alloc p w0 = (None, w')).
Proof.
  revert batch count w. induction fuel as [|fuel IH]; intros batch count w Hf; simpl;
    destruct (Nat.ltb_spec (length batch) cap) as [Hlt|Hge].
  - lia.
  - exists [], w. rewrite app_nil_r, Nat.add_0_r. unfold zlen. simpl. split_and!; auto; lia.
  - destruct (try_alloc p w) as [[m|] w1] eqn:Ea.
    + destruct (IH (batch ++ [m]) (S count) w1) as (new & w' & -> & Ha & Hw & Hl & Hend);
        [rewrite length_app; simpl; lia|].
      destruct (try_alloc_some _ _ _ _ Ea) as (Hm & Happ & Hroom). rewrite Hroom in *.
      rewrite <- app_assoc in *. simpl in *.
      exists (m :: new), w'. unfold zlen in *. simpl length in *.
      split_and!; [repeat f_equal; lia | lia | by constructor | | done].
      intros _. apply Hl. rewrite length_app. simpl. lia.
    + exists [], w1. rewrite app_nil_r, Nat.add_0_r. unfold zlen. simpl.
      pose proof (try_alloc_none _ _ _ Ea).
      split_and!; eauto; lia.
  - exists [], w. rewrite app_nil_r, Nat.add_0_r. unfold zlen. simpl. split_and!; auto; lia.
Qed.

(** [fill_batch] terminates, appends behind what the batch held, never
    exceeds the capacity, returns the number of buffers it added (all of them
    accounted to the caller), and stops early only because the pool had no
    buffer left. *)
Theorem fill_batch_correct cap p batch w (Hb : (length batch <= cap)%nat) :
  exists new w', fill_batch cap p batch w = Some (length new, batch ++ new, w') /\
    app_mbufs w' = app_mbufs w + zlen new /\
    (length (batch ++ new) <= cap)%nat /\
    (length (batch ++ new) = cap \/ exists w0, try_alloc p w0 = (None, w')).
Proof.
  destruct (fill_loop_spec cap cap p batch 0 w) as (new & w' & Hr & Ha & _ & Hl & Hend); [lia|].
  exists new, w'. specialize (Hl Hb). split_and!; [done | done | done |].
  destruct Hend; [left; lia | by right].
Qed.

End Properties.
End Pktmbuf.
