(* ===== verification/Queue.v ===== *)
(** * RX/TX queues ([dpdk-net/src/api/rte/queue.rs])

    [rte_eth_rx_burst] and [rte_eth_tx_burst] are the interface [EthBurst].
    Two observations of the NIC are part of it: [nic_sent], the packets a TX
    queue accepted so far in order, and [rx_polls], how often an RX queue was
    polled.  A reference NIC with one pool instantiates the interface. *)

From stdpp Require Import base list.
From Stdlib Require Import ZArith Strings.Byte Lia.
From S2P Require Import Prelude Mbuf Pktmbuf.

Local Open Scope Z_scope.

Class EthBurst `{RteMempool} := {
  rte_eth_rx_burst : Z -> Z -> Z -> rte -> list (option rte_mbuf) * rte;
  rte_eth_tx_burst : Z -> Z -> list rte_mbuf -> rte -> Z * rte;
  nic_sent : Z -> Z -> rte -> list rte_mbuf;
  rx_polls : Z -> Z -> rte -> Z
}.

(** Documented contract of the burst functions: at most the requested number
    of packets, whose ownership moves to (RX) or from (TX) the application;
    TX accepts a prefix of the array. *)
Class EthBurstLaws `{PktMbuf} `{EthBurst} : Prop := {
  burst_pool_laws :: RteMempoolLaws;
  rx_burst_spec : forall port q nb w raw w', 0 <= nb -> rte_eth_rx_burst port q nb w = (raw, w') ->
    exists pkts, raw = Some <$> pkts /\ zlen pkts <= nb /\ Forall mbuf_wf pkts /\
      app_mbufs w' = app_mbufs w + zlen pkts /\
      rx_polls port q w' = rx_polls port q w + 1;
  tx_burst_spec : forall port q pkts w n w', rte_eth_tx_burst port q pkts w = (n, w') ->
    0 <= n <= zlen pkts /\ app_mbufs w' = app_mbufs w - n /\
    nic_sent port q w' = nic_sent port q w ++ take (Z.to_nat n) pkts;
  rx_burst_room : forall p port q nb w, rte_pktmbuf_data_room_size p (rte_eth_rx_burst port q nb w).2 =
    rte_pktmbuf_data_room_size p w;
  tx_burst_room : forall p port q pkts w, rte_pktmbuf_data_room_size p (rte_eth_tx_burst port q pkts w).2 =
    rte_pktmbuf_data_room_size p w;
  rx_burst_sent : forall port q port' q' nb w, nic_sent port q (rte_eth_rx_burst port' q' nb w).2 = nic_sent port q w;
  tx_burst_polls : forall port q port' q' pkts w, rx_polls port q (rte_eth_tx_burst port' q' pkts w).2 = rx_polls port q w;
  alloc_sent : forall port q p w, nic_sent port q (rte_pktmbuf_alloc p w).2 = nic_sent port q w;
  alloc_polls : forall port q p w, rx_polls port q (rte_pktmbuf_alloc p w).2 = rx_polls port q w;
  free_sent : forall port q m w, nic_sent port q (rte_pktmbuf_free m w) = nic_sent port q w;
  free_polls : forall port q m w, rx_polls port q (rte_pktmbuf_free m w) = rx_polls port q w
}.

Module Queue.

Definition MAX_BURST_SIZE : nat := 64.

Record RxQueue := mk_rxq { rx_port_id : Z; rx_queue_id : Z }.
Record TxQueue := mk_txq { tx_port_id : Z; tx_queue_id : Z }.

(** [ArrayVec::try_push] on a vector of capacity [cap]: a full vector gives
    the element back. *)
Definition try_push {A} (cap : nat) (l : list A) (x : A) : Result (list A) A :=
  if (length l <? cap)%nat then Ok (l ++ [x]) else Err x.

(** [ArrayVec::remove(0)]; panics on an empty vector. *)
Definition remove_front {A} (l : list A) : Exec (A * list A) :=
  match l with x :: l' => Ret (x, l') | [] => Panic end.

Section Ops.
Context `{EthBurst}.

(** The loop of [RxQueue::rx] that wraps the raw pointers and pushes them. *)
Fixpoint push_raw (cap : nat) (raw : list (option rte_mbuf)) (mbufs : list rte_mbuf) (w : rte)
    : list rte_mbuf * rte :=
  match raw with
  | [] => (mbufs, w)
  | r :: raw =>
      match Mbuf.from_raw r with
      | Some m =>
          match try_push cap mbufs m with
          | Ok mbufs' => push_raw cap raw mbufs' w
          | Err m => push_raw cap raw mbufs (Pktmbuf.drop_mbuf m w)
          end
      | None => push_raw cap raw mbufs w
      end
  end.

(** [RxQueue::rx] on an [ArrayVec] of capacity [cap].  [raw_mbufs] is an array
    of [MAX_BURST_SIZE] null pointers whose front the burst overwrites. *)
Definition rx (cap : nat) (q : RxQueue) (mbufs : list rte_mbuf) (w : rte)
    : Z * list rte_mbuf * rte :=
  let capacity := (Z.of_nat cap - zlen mbufs)%Z in
  if capacity =? 0 then (0, mbufs, w)
  else
    let max_pkts := as_u16 (Z.min capacity u16_max) in
    let nb_pkts := Z.min max_pkts (Z.of_nat MAX_BURST_SIZE) in
    let '(written, w1) := rte_eth_rx_burst (rx_port_id q) (rx_queue_id q) nb_pkts w in
    let raw_mbufs := written ++ replicate (MAX_BURST_SIZE - length written) None in
    let received := length written in
    let '(mbufs', w2) := push_raw cap (take received raw_mbufs) mbufs w1 in
    (Z.of_nat received, mbufs', w2).

(** [RxQueue::rx_burst]: a fresh vector of capacity [cap]. *)
Definition rx_burst (cap : nat) (q : RxQueue) (w : rte) : list rte_mbuf * rte :=
  let '(_, mbufs, w') := rx cap q [] w in (mbufs, w').

(** The loop [for _ in 0..sent]: remove the front and [mem::forget] it. *)
Fixpoint forget_front (sent : nat) (mbufs : list rte_mbuf) : Exec (list rte_mbuf) :=
  match sent with
  | O => Ret mbufs
  | S sent => '(_, mbufs') ← remove_front mbufs; forget_front sent mbufs'
  end.

(** [TxQueue::tx] *)
Definition tx (q : TxQueue) (mbufs : list rte_mbuf) (w : rte) : Exec (Z * list rte_mbuf * rte) :=
  match mbufs with
  | [] => Ret (0, mbufs, w)
  | _ =>
      let nb_pkts := as_u16 (Z.min (Z.min (zlen mbufs) (Z.of_nat MAX_BURST_SIZE)) u16_max) in
      let raw_mbufs := take (Z.to_nat nb_pkts) mbufs in
      let '(sent, w') := rte_eth_tx_burst (tx_port_id q) (tx_queue_id q) raw_mbufs w in
      mbufs' ← forget_front (Z.to_nat sent) mbufs;
      Ret (sent, mbufs', w')
  end.

(** [TxQueue::tx_one] *)
Definition tx_one (q : TxQueue) (m : rte_mbuf) (w : rte) : option rte_mbuf * rte :=
  let '(sent, w') := rte_eth_tx_burst (tx_port_id q) (tx_queue_id q) [m] w in
  if sent =? 1 then (None, w') else (Some m, w').

End Ops.

Section Proofs.
Context `{HL : EthBurstLaws}.

Lemma push_raw_some cap pkts mbufs w :
  (length mbufs + length pkts <= cap)%nat ->
  push_raw cap (Some <$> pkts) mbufs w = (mbufs ++ pkts, w).
Proof.
  revert mbufs. induction pkts as [|m pkts IH]; intros mbufs Hl; simpl.
  - by rewrite app_nil_r.
  - unfold try_push. simpl in Hl. destruct (Nat.ltb_spec (length mbufs) cap); [|lia].
    rewrite IH by (rewrite length_app; simpl; lia). by rewrite <- app_assoc.
Qed.

Lemma forget_front_drop n (l : list rte_mbuf) : (n <= length l)%nat -> forget_front n l = Ret (drop n l).
Proof.
  revert l. induction n as [|n IH]; intros [|x l] Hl; simpl in *; try done; try lia.
  apply IH. lia.
Qed.

Lemma rx_run cap q mbufs w :
  (length mbufs <= cap)%nat ->
  (length mbufs = cap /\ rx cap q mbufs w = (0, mbufs, w)) \/
  ((length mbufs < cap)%nat /\ exists pkts w' nb,
    rte_eth_rx_burst (rx_port_id q) (rx_queue_id q) nb w = (Some <$> pkts, w') /\ 0 <= nb /\
    rx cap q mbufs w = (zlen pkts, mbufs ++ pkts, w') /\
    (length (mbufs ++ pkts) <= cap)%nat /\ (length pkts <= MAX_BURST_SIZE)%nat /\ Forall mbuf_wf pkts).
Proof.
  intros Hc. unfold rx, zlen. destruct (Z.eqb_spec (Z.of_nat cap - Z.of_nat (length mbufs)) 0).
  - left. split; [lia | done].
  - right. split; [lia|]. rewrite Mbuf.as_u16_small by (unfold u16_max; lia).
    set (nb := Z.min _ (Z.of_nat MAX_BURST_SIZE)).
    destruct (rte_eth_rx_burst _ _ nb w) as [raw w'] eqn:Er.
    destruct (rx_burst_spec _ _ nb _ _ _ ltac:(unfold nb, u16_max; lia) Er) as (pkts & -> & Hn & Hw & _).
    unfold zlen in Hn. rewrite take_app_length, push_raw_some by lia.
    exists pkts, w', nb. rewrite length_fmap, length_app. unfold nb, MAX_BURST_SIZE, u16_max in *.
    split_and!; done || lia.
Qed.

Lemma tx_run q mbufs w :
  exists sent w', tx q mbufs w = Ret (sent, drop (Z.to_nat sent) mbufs, w') /\
    0 <= sent <= zlen mbufs /\ sent <= Z.of_nat MAX_BURST_SIZE /\
    app_mbufs w' = app_mbufs w - sent /\
    nic_sent (tx_port_id q) (tx_queue_id q) w' =
      nic_sent (tx_port_id q) (tx_queue_id q) w ++ take (Z.to_nat sent) mbufs /\
    (forall p, rte_pktmbuf_data_room_size p w' = rte_pktmbuf_data_room_size p w) /\
    (forall port q', rx_polls port q' w' = rx_polls port q' w).
Proof.
  destruct mbufs as [|m mbufs0].
  { exists 0, w. simpl. rewrite app_nil_r. unfold zlen. simpl. split_and!; done || lia. }
  unfold tx. set (mbufs := m :: mbufs0).
  set (nb := Z.min (Z.min (zlen mbufs) (Z.of_nat MAX_BURST_SIZE)) u16_max).
  assert (0 <= nb <= u16_max) by (unfold nb, u16_max, zlen; lia).
  rewrite Mbuf.as_u16_small by done.
  destruct (rte_eth_tx_burst _ _ _ w) as [sent w'] eqn:Et.
  destruct (tx_burst_spec _ _ _ _ _ _ Et) as (Hs & Ha & Hsent).
  pose proof (f_equal snd Et) as Ew. simpl in Ew.
  unfold zlen in Hs. rewrite length_take in Hs.
  rewrite forget_front_drop by lia. simpl.
  exists sent, w'. split; [done|]. unfold nb, zlen, MAX_BURST_SIZE in *.
  split_and!; try lia.
  - rewrite Hsent, take_take. do 2 f_equal. lia.
  - intros p. rewrite <- Ew. apply tx_burst_room.
  - intros. rewrite <- Ew. apply tx_burst_polls.
Qed.

(** [RxQueue::rx] appends the received packets in the order of the burst
    behind the ones already held, loses none of them, never overfills the
    vector and never takes more than [MAX_BURST_SIZE] packets; a full vector
    does not touch the NIC. *)
Theorem rx_correct cap q mbufs w n mbufs' w' (Hc : (length mbufs <= cap)%nat)
    (Hrx : rx cap q mbufs w = (n, mbufs', w')) :
  exists pkts, mbufs' = mbufs ++ pkts /\ n = zlen pkts /\ Forall mbuf_wf pkts /\
    (length mbufs' <= cap)%nat /\ (length pkts <= MAX_BURST_SIZE)%nat /\
    app_mbufs w' = app_mbufs w + n /\ (length mbufs = cap -> w' = w).
Proof.
  destruct (rx_run cap q mbufs w Hc) as [[Hfull E]|(Hlt & pkts & w1 & nb & Eb & Hnb & E & Hl & Hm & Hw)];
    rewrite E in Hrx; simplify_eq.
  - exists []. rewrite app_nil_r. unfold zlen, MAX_BURST_SIZE. simpl. split_and!; auto; lia.
  - exists pkts. destruct (rx_burst_spec _ _ _ _ _ _ Hnb Eb) as (pkts' & Heq & _ & _ & Ha & _).
    apply (inj _) in Heq as <-. split_and!; try done. lia.
Qed.

(** C14: [TxQueue::tx] never panics, sends a prefix of at most
    [MAX_BURST_SIZE] packets in order, keeps exactly the rest in order, and
    gives up the ownership of exactly the sent ones (none is freed twice or
    leaked). *)
Theorem tx_correct q mbufs w :
  exists sent w', tx q mbufs w = Ret (sent, drop (Z.to_nat sent) mbufs, w') /\
    0 <= sent <= zlen mbufs /\ sent <= Z.of_nat MAX_BURST_SIZE /\
    app_mbufs w' = app_mbufs w - sent /\
    nic_sent (tx_port_id q) (tx_queue_id q) w' ++ drop (Z.to_nat sent) mbufs =
    nic_sent (tx_port_id q) (tx_queue_id q) w ++ mbufs.
Proof.
  destruct (tx_run q mbufs w) as (sent & w' & E & Hs & Hm & Ha & Hsent & _).
  exists sent, w'. split_and!; try done; try lia.
  rewrite Hsent, <- app_assoc. by rewrite take_drop.
Qed.

End Proofs.

(** ** A reference NIC: one pool, one RX backlog, a TX ring with free slots.
    The reference world ignores port and queue numbers. *)
#[local] Existing Instance Mbuf.ref_pktmbuf.
#[local] Existing Instance Mbuf.ref_pktmbuf_laws.

Record ref_world := mk_world {
  rw_free : nat;             (* buffers left in the pool *)
  rw_room : nat;             (* data room of the pool *)
  rw_app : Z;                (* buffers owned by the application *)
  rw_rx : list rte_mbuf;     (* packets waiting in the RX ring *)
  rw_slots : nat;            (* free descriptors of the TX ring *)
  rw_sent : list rte_mbuf;
  rw_polls : Z
}.

#[export] Instance ref_mempool : RteMempool := {|
  rte := ref_world;
  pool_ptr := unit;
  rust_get_rte_errno _ := 12;
  rte_pktmbuf_pool_create _ _ _ _ _ _ w := (Some tt, w);
  rte_mempool_lookup _ w := (Some tt, w);
  rte_mempool_free _ w := w;
  rte_mempool_avail_count _ w := Z.of_nat (rw_free w);
  rte_pktmbuf_data_room_size _ w := Z.of_nat (Nat.min (rw_room w) (Z.to_nat u16_max));
  rte_pktmbuf_alloc _ w :=
    match rw_free w with
    | O => (None, w)
    | S n => (Some (Mbuf.blank (Nat.min (rw_room w) (Z.to_nat u16_max))),
              mk_world n (rw_room w) (rw_app w + 1) (rw_rx w) (rw_slots w) (rw_sent w) (rw_polls w))
    end;
  rte_pktmbuf_free _ w :=
    mk_world (S (rw_free w)) (rw_room w) (rw_app w - 1) (rw_rx w) (rw_slots w) (rw_sent w) (rw_polls w);
  app_mbufs := rw_app
|}.

Definition wf_dec (m : rte_mbuf) : bool :=
  (0 <=? data_off m) && (0 <=? m_data_len m) && (data_off m + m_data_len m <=? buf_len m)
  && (buf_len m <=? u16_max) && (m_pkt_len m =? m_data_len m).

#[export] Instance ref_burst : EthBurst := {|
  rte_eth_rx_burst _ _ nb w :=
    let pkts := List.filter wf_dec (take (Z.to_nat nb) (rw_rx w)) in
    (Some <$> pkts,
     mk_world (rw_free w) (rw_room w) (rw_app w + zlen pkts) (drop (Z.to_nat nb) (rw_rx w))
       (rw_slots w) (rw_sent w) (rw_polls w + 1));
  rte_eth_tx_burst _ _ pkts w :=
    let n := Nat.min (length pkts) (rw_slots w) in
    (Z.of_nat n,
     mk_world (rw_free w) (rw_room w) (rw_app w - Z.of_nat n) (rw_rx w) (rw_slots w - n)
       (rw_sent w ++ take n pkts) (rw_polls w));
  nic_sent _ _ w := rw_sent w;
  rx_polls _ _ w := rw_polls w
|}.

Lemma wf_dec_wf m : wf_dec m = true -> mbuf_wf m.
Proof. unfold wf_dec. intros Hd. reflect_bool. split; lia. Qed.

Lemma filter_wf l : Forall mbuf_wf (List.filter wf_dec l).
Proof.
  rewrite List.Forall_forall. intros m [_ Hm]%List.filter_In. by apply wf_dec_wf.
Qed.

Lemma filter_len {A} (f : A -> bool) l : (length (List.filter f l) <= length l)%nat.
Proof. induction l; simpl; [lia|]. case_match; simpl; lia. Qed.

#[export] Instance ref_mempool_laws : RteMempoolLaws.
Proof.
  split; try apply _; simpl; try done.
  - intros _ w m w'. destruct (rw_free w); [done|]. intros [= <- <-]. simpl.
    assert (Z.of_nat (rw_room w `min` Z.to_nat u16_max) <= u16_max) by (unfold u16_max; lia).
    split_and!; try done; [by apply Mbuf.blank_wf|..];
      unfold buf_len, zlen; simpl; rewrite length_replicate; lia.
  - intros _ w w'. destruct (rw_free w); [by intros [= <-]|done].
  - intros _ _ w. by destruct (rw_free w).
Qed.

#[export] Instance ref_burst_laws : EthBurstLaws.
Proof.
  split; try apply _; simpl; try done.
  - intros _ _ nb w raw w' Hnb [= <- <-]. simpl.
    eexists. split; [done|]. split_and!; try done.
    + unfold zlen. pose proof (filter_len wf_dec (take (Z.to_nat nb) (rw_rx w))).
      rewrite length_take in *. lia.
    + apply filter_wf.
  - intros _ _ pkts w n w' [= <- <-]. simpl. unfold zlen. rewrite Nat2Z.id. split_and!; done || lia.
  - intros _ _ _ w. by destruct (rw_free w).
  - intros _ _ _ w. by destruct (rw_free w).
Qed.

(** A full-size empty buffer and a packet with the given bytes in it. *)
Definition packet (bs : list byte) : rte_mbuf :=
  match Mbuf.copy_from_slice (Mbuf.blank 2176) bs with Ret (_, m) => m | _ => Mbuf.blank 0 end.

Definition pool0 : @pool_ptr ref_mempool := tt.

Definition world0 (free : nat) (rx : list rte_mbuf) (slots : nat) : @rte ref_mempool :=
  mk_world free 2176 0 rx slots [] 0.

Lemma fill_batch_correct_witness :
  exists new w', Pktmbuf.fill_batch 4 pool0 [] (world0 2 [] 0) = Some (length new, [] ++ new, w') /\
    app_mbufs w' = app_mbufs (world0 2 [] 0) + zlen new /\ (length ([] ++ new) <= 4)%nat /\
    (length ([] ++ new) = 4%nat \/ exists w0, Pktmbuf.try_alloc pool0 w0 = (None, w')).
Proof. apply (Pktmbuf.fill_batch_correct 4 pool0 [] (world0 2 [] 0)). simpl. lia. Defined.

Lemma rx_correct_witness :
  let w := world0 4 [packet [x01]; packet [x02]] 8 in
  exists pkts, (rx 64 (mk_rxq 0 1) [] w).1.2 = [] ++ pkts /\ (rx 64 (mk_rxq 0 1) [] w).1.1 = zlen pkts.
Proof.
  intros w. destruct (rx 64 (mk_rxq 0 1) [] w) as [[n l] w'] eqn:E.
  destruct (rx_correct 64 (mk_rxq 0 1) [] w n l w') as (pkts & ? & ? & _); [simpl; lia | done |].
  by exists pkts.
Defined.

Lemma tx_correct_witness :
  let w := world0 4 [] 1 in
  exists sent w', tx (mk_txq 0 1) [packet [x01]; packet [x02]] w =
    Ret (sent, drop (Z.to_nat sent) [packet [x01]; packet [x02]], w') /\ 0 <= sent <= 2.
Proof.
  intros w. destruct (tx_correct (mk_txq 0 1) [packet [x01]; packet [x02]] w) as (s & w' & E & Hs & _).
  exists s, w'. split; [exact E | exact Hs].
Defined.

End Queue.
