(* ===== verification/ArpCache.v ===== *)
(** * Shared ARP cache and ARP packets ([dpdk-net/src/device/arp_cache.rs])

    The cache is the value behind the [ArcSwap] plus the version counter; a
    handle of type [SharedArpCache] is a pointer to it, so the operations take
    the shared value explicitly.  [parse_arp_reply] and
    [build_arp_reply_for_injection] index and slice the frame as the code
    does, with a panic when a range leaves it. *)

From stdpp Require Import base gmap list fin_maps.
From Stdlib Require Import ZArith Strings.Byte Lia.
From S2P Require Import Prelude.

(** [std::net::Ipv4Addr] by its octets, and [MacAddress = [u8; 6]]. *)
Record Ipv4Addr := ipv4 { ip0 : byte; ip1 : byte; ip2 : byte; ip3 : byte }.
Record MacAddress := mac6 {
  mac0 : byte; mac1 : byte; mac2 : byte; mac3 : byte; mac4 : byte; mac5 : byte
}.

#[export] Instance Ipv4Addr_eq_dec : EqDecision Ipv4Addr.
Proof. solve_decision. Defined.
#[export] Instance MacAddress_eq_dec : EqDecision MacAddress.
Proof. solve_decision. Defined.

#[export] Instance Ipv4Addr_countable : Countable Ipv4Addr.
Proof.
  refine (inj_countable' (fun a => (ip0 a, ip1 a, ip2 a, ip3 a))
            (fun '(a, b, c, d) => ipv4 a b c d) _).
  by intros [].
Defined.

Module ArpCache.

Definition octets (a : Ipv4Addr) : list byte := [ip0 a; ip1 a; ip2 a; ip3 a].
Definition mac_bytes (m : MacAddress) : list byte :=
  [mac0 m; mac1 m; mac2 m; mac3 m; mac4 m; mac5 m].

(** ** The cache *)

Record SharedArpCache := {
  inner : gmap Ipv4Addr MacAddress;
  version : Z
}.

Definition new : SharedArpCache := {| inner := ∅; version := 0 |}.

Definition get (c : SharedArpCache) (ip : Ipv4Addr) : option MacAddress := inner c !! ip.

(** [version.fetch_add(1)] wraps around at [usize]. *)
Definition bump (c : SharedArpCache) : SharedArpCache :=
  {| inner := inner c; version := as_usize (version c + 1) |}.

Definition insert (c : SharedArpCache) (ip : Ipv4Addr) (mac : MacAddress) : SharedArpCache :=
  let current := inner c in
  if decide (current !! ip = Some mac) then bump c
  else
    let new_map := <[ip := mac]> current in
    bump {| inner := new_map; version := version c |}.

Definition contains (c : SharedArpCache) (ip : Ipv4Addr) : bool :=
  if decide (is_Some (inner c !! ip)) then true else false.
Definition is_empty (c : SharedArpCache) : bool := if decide (inner c = ∅) then true else false.
Definition snapshot (c : SharedArpCache) : gmap Ipv4Addr MacAddress := inner c.

(** ** ARP packets *)

(** [sender_mac.copy_from_slice(s)] for [sender_mac : [u8; 6]]. *)
Definition mac_of_slice (s : list byte) : Exec MacAddress :=
  match s with
  | [a; b; c; d; e; f] => Ret (mac6 a b c d e f)
  | _ => Panic
  end.

(** [packet[i] != a || packet[j] != b], with its short circuit. *)
Definition differs (packet : list byte) (i j : nat) (a b : byte) : Exec bool :=
  x ← index packet i;
  if decide (x = a) then (y ← index packet j; Ret (negb (bool_decide (y = b)))) else Ret true.

Definition parse_arp_reply (packet : list byte) : Exec (option (Ipv4Addr * MacAddress)) :=
  if (length packet <? 42)%nat then Ret None else
  not_arp ← differs packet 12 13 x08 x06;
  if not_arp : bool then Ret None else
  not_reply ← differs packet 20 21 x00 x02;
  if not_reply : bool then Ret None else
  s ← slice packet 22 28;
  sender_mac ← mac_of_slice s;
  a ← index packet 28; b ← index packet 29; c ← index packet 30; d ← index packet 31;
  Ret (Some (ipv4 a b c d, sender_mac)).

(** [packet[i] = x] *)
Definition set_index (packet : list byte) (i : nat) (x : byte) : Exec (list byte) :=
  if (i <? length packet)%nat then Ret (<[i := x]> packet) else Panic.

Definition build_arp_reply_for_injection (our_mac : MacAddress) (our_ip : Ipv4Addr)
    (peer_mac : MacAddress) (peer_ip : Ipv4Addr) : Exec (list byte) :=
  let packet := replicate 42 x00 in
  packet ← copy_into packet 0 (mac_bytes our_mac);
  packet ← copy_into packet 6 (mac_bytes peer_mac);
  packet ← copy_into packet 12 [x08; x06];
  packet ← copy_into packet 14 [x00; x01];
  packet ← copy_into packet 16 [x08; x00];
  packet ← set_index packet 18 x06;
  packet ← set_index packet 19 x04;
  packet ← copy_into packet 20 [x00; x02];
  packet ← copy_into packet 22 (mac_bytes peer_mac);
  packet ← copy_into packet 28 (octets peer_ip);
  packet ← copy_into packet 32 (mac_bytes our_mac);
  packet ← copy_into packet 38 (octets our_ip);
  Ret packet.

(** ** Specifications *)

(** The Ethernet frame of RFC 826 the builder is meant to produce. *)
Definition arp_reply_frame (our_mac : MacAddress) (our_ip : Ipv4Addr)
    (peer_mac : MacAddress) (peer_ip : Ipv4Addr) : list byte :=
  mac_bytes our_mac ++ mac_bytes peer_mac ++ [x08; x06] ++
  [x00; x01] ++ [x08; x00] ++ [x06] ++ [x04] ++ [x00; x02] ++
  mac_bytes peer_mac ++ octets peer_ip ++ mac_bytes our_mac ++ octets our_ip.

(** A frame carries an ARP reply from [ip] at [mac]. *)
Definition is_arp_reply (packet : list byte) (ip : Ipv4Addr) (mac : MacAddress) : Prop :=
  (42 <= length packet)%nat /\
  take 2 (drop 12 packet) = [x08; x06] /\
  take 2 (drop 20 packet) = [x00; x02] /\
  take 6 (drop 22 packet) = mac_bytes mac /\
  take 4 (drop 28 packet) = octets ip.

Lemma build_frame om oi pm pi :
  build_arp_reply_for_injection om oi pm pi = Ret (arp_reply_frame om oi pm pi).
Proof. by destruct om, oi, pm, pi. Qed.

(** A list of at least 32 elements, element by element. *)
Ltac expose_bytes l n :=
  lazymatch n with
  | O => idtac
  | S ?n => destruct l as [|? l]; [simpl in *; lia |]; expose_bytes l n
  end.

Lemma parse_iff packet ip mac :
  parse_arp_reply packet = Ret (Some (ip, mac)) <-> is_arp_reply packet ip mac.
Proof.
  unfold parse_arp_reply, is_arp_reply.
  destruct (Nat.ltb_spec (length packet) 42) as [Hl|Hl]; [split; [done|lia]|].
  expose_bytes packet constr:(42%nat). destruct ip, mac.
  unfold differs, index, slice, mac_bytes, octets. simpl.
  repeat (case_decide || case_bool_decide); simpl; split; intros Hp; simplify_eq/=; try done;
    destruct_and?; simplify_eq/=; try done; split_and?; done || lia.
Qed.

Lemma parse_total packet : is_ret (parse_arp_reply packet).
Proof.
  unfold parse_arp_reply, is_ret.
  destruct (Nat.ltb_spec (length packet) 42) as [Hl|Hl]; [eauto|].
  expose_bytes packet constr:(42%nat). unfold differs, index, slice. simpl.
  repeat (case_decide || case_bool_decide); simpl; eauto.
Qed.

Lemma frame_is_reply om oi pm pi : is_arp_reply (arp_reply_frame om oi pm pi) pi pm.
Proof. destruct om, oi, pm, pi. unfold is_arp_reply. simpl. split_and!; done || lia. Qed.

Lemma frame_length om oi pm pi : length (arp_reply_frame om oi pm pi) = 42%nat.
Proof. done. Qed.

#[global] Arguments build_arp_reply_for_injection : simpl never.
#[global] Arguments parse_arp_reply : simpl never.
#[global] Arguments arp_reply_frame : simpl never.

Lemma insert_inner c ip mac : inner (insert c ip mac) = <[ip := mac]> (inner c).
Proof.
  unfold insert. case_decide; simpl; [|done]. by rewrite insert_id.
Qed.

Lemma insert_version c ip mac : version (insert c ip mac) = as_usize (version c + 1).
Proof. unfold insert. by case_decide. Qed.

(** [parse_arp_reply] is total (no index or slice is out of range) and
    returns [(ip, mac)] exactly for the frames of at least 42 bytes whose
    EtherType is ARP, whose operation is "reply" and whose sender addresses
    are [mac] and [ip]. *)
Theorem parse_arp_reply_correct packet :
  is_ret (parse_arp_reply packet) /\
  forall ip mac, parse_arp_reply packet = Ret (Some (ip, mac)) <-> is_arp_reply packet ip mac.
Proof. split; [apply parse_total | intros; apply parse_iff]. Qed.

(** [build_arp_reply_for_injection] does not panic, produces the 42-byte
    RFC 826 reply frame field by field, and [parse_arp_reply] reads back the
    peer's addresses from it. *)
Theorem build_parse_roundtrip our_mac our_ip peer_mac peer_ip :
  exists packet, build_arp_reply_for_injection our_mac our_ip peer_mac peer_ip = Ret packet /\
    packet = arp_reply_frame our_mac our_ip peer_mac peer_ip /\ length packet = 42%nat /\
    parse_arp_reply packet = Ret (Some (peer_ip, peer_mac)).
Proof.
  eexists. split_and!; [apply build_frame | done | done |].
  apply parse_iff, frame_is_reply.
Qed.

(** [SharedArpCache::insert] behaves as a map update (the entry is found
    afterwards, all others are unchanged, also when the early return for an
    unchanged entry is taken) and always moves the version, so that a consumer
    comparing versions notices it. *)
Theorem insert_correct c ip mac (Hv : (0 <= version c < 2 ^ 64)%Z) :
  let c' := insert c ip mac in
  (forall ip', get c' ip' = if decide (ip' = ip) then Some mac else get c ip') /\
  contains c' ip = true /\ is_empty c' = false /\
  version c' <> version c /\ (0 <= version c' < 2 ^ 64)%Z /\
  (version c <> u64_max -> version c' = version c + 1)%Z.
Proof.
  intros c'. unfold c', get, contains, is_empty. rewrite insert_inner, insert_version.
  pose proof (wrap_bounds 64 (version c + 1)). split_and!; try (apply H; lia).
  - intros ip'. case_decide; subst; by simplify_map_eq.
  - rewrite decide_True; [done|]. rewrite lookup_insert_eq. eauto.
  - rewrite decide_False; [done|]. apply insert_non_empty.
  - unfold as_usize, wrap. destruct (decide (version c + 1 = 2 ^ 64)%Z) as [E|E].
    + rewrite E, Z.mod_same by lia. lia.
    + rewrite Z.mod_small; lia.
  - intros Hm. unfold as_usize. apply wrap_small. unfold u64_max in Hm. lia.
Qed.

Lemma insert_correct_witness :
  let c := {| inner := ∅; version := u64_max |} in
  let m := mac6 x12 x34 x56 x78 x9a xbc in
  version (insert c (ipv4 x0a x00 x00 x01) m) <> version c /\ version (insert c (ipv4 x0a x00 x00 x01) m) = 0%Z.
Proof.
  intros c m. split; [|done].
  apply (insert_correct c (ipv4 x0a x00 x00 x01) m). vm_compute. split; [discriminate | done].
Defined.

End ArpCache.
