(* ===== verification/Device.v ===== *)
(** * The smoltcp device on a DPDK queue ([dpdk-net/src/device/dpdk_device.rs])

    [DpdkDevice] with its RX and TX batches, the shared ARP cache it feeds
    (queue 0) or injects from (other queues), and the RX/TX tokens smoltcp
    consumes.  The state outside the device is a [World]: the DPDK library and
    the shared ARP cache.  Operations run in [Exec]: [Panic] is a failed
    [expect] or push on a full [ArrayVec], [UB] a slice outside a buffer. *)

From stdpp Require Import base gmap list fin_maps.
From Stdlib Require Import ZArith Strings.Byte Lia.
From S2P Require Import Prelude Mbuf Pktmbuf Queue ArpCache.

Local Open Scope Z_scope.

(** The iteration order of a [HashMap] is unspecified: any enumeration. *)
Class HashMapIter := {
  hm_iter : gmap Ipv4Addr MacAddress -> list (Ipv4Addr * MacAddress);
  hm_iter_perm : forall m, hm_iter m ≡ₚ map_to_list m
}.

Module Device.
Import Queue ArpCache.

Definition DEFAULT_MBUF_HEADROOM : Z := 128.
Definition DEFAULT_MBUF_DATA_ROOM_SIZE : Z := 2048 + DEFAULT_MBUF_HEADROOM.
Definition MAX_PACKET_OVERHEAD : Z := 14 + 20 + 60.
Definition RX_CAP : nat := 64.
Definition TX_CAP : nat := 256.

(** A clone of the [Arc] handles of the one shared cache. *)
Inductive ArpHandle := arp_handle.

Section Model.
Context `{PktMbuf} `{EthBurst} `{HashMapIter}.

Record World := mk_w { w_rte : rte; w_arp : SharedArpCache }.

Record DpdkDevice := mk_dev {
  rxq : RxQueue;
  txq : TxQueue;
  mempool : pool_ptr;
  rx_batch : list rte_mbuf;
  tx_batch : list rte_mbuf;
  mtu : Z;
  mbuf_capacity : Z;
  queue_id : Z;
  shared_arp_cache : option ArpHandle;
  our_mac : option MacAddress;
  our_ip : option Ipv4Addr;
  last_cache_version : Z
}.

Definition set_rx (d : DpdkDevice) (b : list rte_mbuf) : DpdkDevice :=
  mk_dev (rxq d) (txq d) (mempool d) b (tx_batch d) (mtu d) (mbuf_capacity d) (queue_id d)
    (shared_arp_cache d) (our_mac d) (our_ip d) (last_cache_version d).
Definition set_tx (d : DpdkDevice) (b : list rte_mbuf) : DpdkDevice :=
  mk_dev (rxq d) (txq d) (mempool d) (rx_batch d) b (mtu d) (mbuf_capacity d) (queue_id d)
    (shared_arp_cache d) (our_mac d) (our_ip d) (last_cache_version d).
Definition set_version (d : DpdkDevice) (v : Z) : DpdkDevice :=
  mk_dev (rxq d) (txq d) (mempool d) (rx_batch d) (tx_batch d) (mtu d) (mbuf_capacity d) (queue_id d)
    (shared_arp_cache d) (our_mac d) (our_ip d) v.

(** [DpdkDevice::new] with its [assert!]. *)
Definition new (rxq : RxQueue) (txq : TxQueue) (mempool : pool_ptr) (mtu mbuf_capacity : Z)
    : Exec DpdkDevice :=
  _ ← assert_ (mtu + MAX_PACKET_OVERHEAD <=? mbuf_capacity);
  Ret (mk_dev rxq txq mempool [] [] mtu mbuf_capacity 0 None None None 0).

Definition with_shared_arp_cache (d : DpdkDevice) (qid : Z) (cache : ArpHandle)
    (mac : MacAddress) (ip : Ipv4Addr) : DpdkDevice :=
  mk_dev (rxq d) (txq d) (mempool d) (rx_batch d) (tx_batch d) (mtu d) (mbuf_capacity d)
    qid (Some cache) (Some mac) (Some ip) (last_cache_version d).

(** [flush_tx] *)
Definition flush_tx (d : DpdkDevice) (w : World) : Exec (DpdkDevice * World) :=
  match tx_batch d with
  | [] => Ret (d, w)
  | b => '(_, b', r) ← tx (txq d) b (w_rte w); Ret (set_tx d b', mk_w r (w_arp w))
  end.

(** Queue 0's scan of the received batch for ARP replies. *)
Fixpoint scan_arp (batch : list rte_mbuf) (c : SharedArpCache) : Exec SharedArpCache :=
  match batch with
  | [] => Ret c
  | m :: batch =>
      bs ← Mbuf.data m;
      reply ← parse_arp_reply bs;
      scan_arp batch (match reply with Some (ip, mac) => insert c ip mac | None => c end)
  end.

(** [poll_rx] *)
Definition poll_rx (d : DpdkDevice) (w : World) : Exec (DpdkDevice * World) :=
  '(d, w) ← flush_tx d w;
  match rx_batch d with
  | [] =>
      let '(_, b, r) := rx RX_CAP (rxq d) [] (w_rte w) in
      let d := set_rx d b in
      match shared_arp_cache d with
      | Some _ =>
          if queue_id d =? 0
          then (c ← scan_arp b (w_arp w); Ret (d, mk_w r c))
          else Ret (d, mk_w r (w_arp w))
      | None => Ret (d, mk_w r (w_arp w))
      end
  | _ => Ret (d, w)
  end.

(** The [for] loop of [inject_from_shared_cache]: [true] when it ran to its
    end, [false] when it returned early. *)
Fixpoint inject_loop (mac : MacAddress) (ip : Ipv4Addr) (entries : list (Ipv4Addr * MacAddress))
    (p : pool_ptr) (batch : list rte_mbuf) (r : rte) : Exec (bool * list rte_mbuf * rte) :=
  match entries with
  | [] => Ret (true, batch, r)
  | (peer_ip, peer_mac) :: entries =>
      arp_packet ← build_arp_reply_for_injection mac ip peer_mac peer_ip;
      if (length batch <? RX_CAP)%nat then
        match Pktmbuf.try_alloc p r with
        | (Some m, r) =>
            '(copied, m) ← Mbuf.copy_from_slice m arp_packet;
            if copied : bool
            then inject_loop mac ip entries p (batch ++ [m]) r
            else Ret (false, batch, Pktmbuf.drop_mbuf m r)
        | (None, r) => Ret (false, batch, r)
        end
      else Ret (false, batch, r)
  end.

(** [inject_from_shared_cache] *)
Definition inject_from_shared_cache (d : DpdkDevice) (w : World) : Exec (DpdkDevice * World) :=
  if queue_id d =? 0 then Ret (d, w) else
  match shared_arp_cache d, our_mac d, our_ip d with
  | Some _, Some mac, Some ip =>
      let current_version := version (w_arp w) in
      if current_version =? last_cache_version d then Ret (d, w) else
      let cache_snapshot := snapshot (w_arp w) in
      '(finished, b, r) ← inject_loop mac ip (hm_iter cache_snapshot) (mempool d) (rx_batch d) (w_rte w);
      let d := set_rx d b in
      let w := mk_w r (w_arp w) in
      if finished : bool then Ret (set_version d current_version, w) else Ret (d, w)
  | _, _, _ => Ret (d, w)
  end.

(** [inject_rx_packet] *)
Definition inject_rx_packet (d : DpdkDevice) (bs : list byte) (w : World) : Exec (bool * DpdkDevice * World) :=
  if (RX_CAP <=? length (rx_batch d))%nat then Ret (false, d, w) else
  match Pktmbuf.try_alloc (mempool d) (w_rte w) with
  | (Some m, r) =>
      '(copied, m) ← Mbuf.copy_from_slice m bs;
      if copied : bool
      then Ret (true, set_rx d (rx_batch d ++ [m]), mk_w r (w_arp w))
      else Ret (false, d, mk_w (Pktmbuf.drop_mbuf m r) (w_arp w))
  | (None, r) => Ret (false, d, mk_w r (w_arp w))
  end.

(** [ArrayVec::pop]: the last element. *)
Definition pop (l : list rte_mbuf) : option (rte_mbuf * list rte_mbuf) :=
  match reverse l with [] => None | m :: r => Some (m, reverse r) end.

(** [Device::receive]: the buffer of the RX token, if any; the TX token is
    the right to call [tx_consume] once. *)
Definition receive (d : DpdkDevice) (w : World) : Exec (option rte_mbuf * DpdkDevice * World) :=
  '(d, w) ← poll_rx d w;
  '(d, w) ← inject_from_shared_cache d w;
  match pop (rx_batch d) with
  | Some (m, b) => Ret (Some m, set_rx d b, w)
  | None => Ret (None, d, w)
  end.

(** [Device::transmit]: whether a TX token is returned. *)
Definition transmit (d : DpdkDevice) (w : World) : Exec (bool * DpdkDevice * World) :=
  if (length (tx_batch d) <? TX_CAP)%nat then Ret (true, d, w)
  else
    '(d, w) ← flush_tx d w;
    if (length (tx_batch d) <? TX_CAP)%nat then Ret (true, d, w) else Ret (false, d, w).

(** [Device::capabilities]: the maximum transmission unit. *)
Definition max_transmission_unit (d : DpdkDevice) : Z := mtu d.

(** The owner of a buffer drops it. *)
Definition release (m : rte_mbuf) (w : World) : World :=
  mk_w (Pktmbuf.drop_mbuf m (w_rte w)) (w_arp w).

(** [RxToken::consume]: run [f] on the data, then drop the token's buffer.
    [f] is smoltcp's and may consume the TX token. *)
Definition rx_consume {R} (f : list byte -> World -> Exec (R * World)) (m : rte_mbuf) (w : World)
    : Exec (R * World) :=
  bs ← Mbuf.data m;
  '(res, w) ← f bs w;
  Ret (res, release m w).

(** [TxToken::consume] *)
Definition tx_consume {R} (len : Z) (f : list byte -> R * list byte) (d : DpdkDevice) (w : World)
    : Exec (R * DpdkDevice * World) :=
  match Pktmbuf.try_alloc (mempool d) (w_rte w) with
  | (Some m, r) =>
      '(result, m) ← Mbuf.data_mut f (Mbuf.extend m len);
      match try_push TX_CAP (tx_batch d) m with
      | Ok b => Ret (result, set_tx d b, mk_w r (w_arp w))
      | Err _ => Panic
      end
  | (None, r) =>
      let buffer := replicate (Z.to_nat len) x00 in
      Ret ((f buffer).1, d, mk_w r (w_arp w))
  end.

(** ** Invariant *)

Record dev_wf (d : DpdkDevice) : Prop := {
  wf_rx_cap : (length (rx_batch d) <= RX_CAP)%nat;
  wf_tx_cap : (length (tx_batch d) <= TX_CAP)%nat;
  wf_rx_mbufs : Forall mbuf_wf (rx_batch d);
  wf_tx_mbufs : Forall mbuf_wf (tx_batch d);
  wf_mtu : mtu d + MAX_PACKET_OVERHEAD <= mbuf_capacity d
}.

(** The pool's buffers offer the capacity the device was created with. *)
Definition pool_fits (d : DpdkDevice) (w : World) : Prop :=
  RTE_PKTMBUF_HEADROOM + mbuf_capacity d <= rte_pktmbuf_data_room_size (mempool d) (w_rte w).

(** Buffers the application owns minus those the device holds. *)
Definition loose_mbufs (d : DpdkDevice) (w : World) : Z :=
  app_mbufs (w_rte w) - zlen (rx_batch d) - zlen (tx_batch d).

(** The packets committed to a TX queue, in order. *)
Definition tx_stream (d : DpdkDevice) (w : World) : list rte_mbuf :=
  nic_sent (tx_port_id (txq d)) (tx_queue_id (txq d)) (w_rte w) ++ tx_batch d.

(** What [parse_arp_reply] finds in the data of a buffer. *)
Definition carries_reply (m : rte_mbuf) (ip : Ipv4Addr) (mac : MacAddress) : Prop :=
  exists bs, Mbuf.data m = Ret bs /\ is_arp_reply bs ip mac.

(** ** One smoltcp call, with the token it consumes *)

Inductive dcall :=
  | CReceive (reply : option (Z * (list byte -> list byte)))
  | CTransmit (frame : option (Z * (list byte -> list byte)))
  | CInject (bs : list byte)
  | CFlush.

Definition send_frame (o : option (Z * (list byte -> list byte))) (d : DpdkDevice) (w : World)
    : Exec (DpdkDevice * World) :=
  match o with
  | Some (len, f) => '(_, d, w) ← tx_consume len (fun s => (tt, f s)) d w; Ret (d, w)
  | None => Ret (d, w)
  end.

Definition run_call (c : dcall) (d : DpdkDevice) (w : World) : Exec (DpdkDevice * World) :=
  match c with
  | CReceive reply =>
      '(tok, d, w) ← receive d w;
      match tok with
      | Some m => rx_consume (fun _ => send_frame reply d) m w
      | None => Ret (d, w)
      end
  | CTransmit frame =>
      '(tok, d, w) ← transmit d w;
      if tok : bool then send_frame frame d w else Ret (d, w)
  | CInject bs => '(_, d, w) ← inject_rx_packet d bs w; Ret (d, w)
  | CFlush => flush_tx d w
  end.

Fixpoint run_calls (cs : list dcall) (d : DpdkDevice) (w : World) : Exec (DpdkDevice * World) :=
  match cs with
  | [] => Ret (d, w)
  | c :: cs => '(d, w) ← run_call c d w; run_calls cs d w
  end.

(** ** How an operation may change device and world *)

Definition conf (d : DpdkDevice) :=
  (rxq d, txq d, mempool d, mtu d, mbuf_capacity d, queue_id d, shared_arp_cache d, our_mac d, our_ip d).

(** The invariant is kept, the configuration and the pools' geometry are
    unchanged, [k] more buffers are loose, and the packets [l] were committed
    to the TX queue behind all earlier ones. *)
Record step_ok (k : Z) (l : list rte_mbuf) (d : DpdkDevice) (w : World) (d' : DpdkDevice) (w' : World)
    : Prop := {
  so_wf : dev_wf d';
  so_conf : conf d' = conf d;
  so_loose : loose_mbufs d' w' = loose_mbufs d w + k;
  so_stream : tx_stream d' w' = tx_stream d w ++ l;
  so_room : forall p, rte_pktmbuf_data_room_size p (w_rte w') = rte_pktmbuf_data_room_size p (w_rte w)
}.

End Model.

Section Proofs.
Context `{HL : EthBurstLaws} `{HI : HashMapIter}.

Lemma step_ok_refl d w : dev_wf d -> step_ok 0 [] d w d w.
Proof. intros. split; try done; [lia | by rewrite app_nil_r]. Qed.

Lemma step_ok_trans k1 k2 l1 l2 d1 w1 d2 w2 d3 w3 :
  step_ok k1 l1 d1 w1 d2 w2 -> step_ok k2 l2 d2 w2 d3 w3 -> step_ok (k1 + k2) (l1 ++ l2) d1 w1 d3 w3.
Proof.
  intros [? Hc1 Hl1 Hs1 Hr1] [? Hc2 Hl2 Hs2 Hr2].
  split; [done | congruence | lia | by rewrite Hs2, Hs1, app_assoc | intros p; by rewrite Hr2].
Qed.

Lemma step_ok_fits k l d w d' w' : step_ok k l d w d' w' -> pool_fits d w -> pool_fits d' w'.
Proof.
  unfold pool_fits. intros [_ Hc _ _ Hr] Hf. unfold conf in Hc. simplify_eq. rewrite Hr.
  congruence.
Qed.

Lemma set_tx_id d : set_tx d (tx_batch d) = d.
Proof. by destruct d. Qed.
Lemma set_rx_id d : set_rx d (rx_batch d) = d.
Proof. by destruct d. Qed.

(** What [flush_tx] does: a prefix of the TX batch goes to the NIC. *)
Lemma flush_tx_run d w :
  exists n r, flush_tx d w = Ret (set_tx d (drop n (tx_batch d)), mk_w r (w_arp w)) /\
    (n <= length (tx_batch d))%nat /\
    app_mbufs r = app_mbufs (w_rte w) - Z.of_nat n /\
    nic_sent (tx_port_id (txq d)) (tx_queue_id (txq d)) r =
      nic_sent (tx_port_id (txq d)) (tx_queue_id (txq d)) (w_rte w) ++ take n (tx_batch d) /\
    (forall p, rte_pktmbuf_data_room_size p r = rte_pktmbuf_data_room_size p (w_rte w)) /\
    (forall port q, rx_polls port q r = rx_polls port q (w_rte w)).
Proof.
  unfold flush_tx. destruct (tx_batch d) as [|m b] eqn:E.
  - exists 0%nat, (w_rte w). simpl. rewrite app_nil_r.
    assert (set_tx d [] = d) as -> by (rewrite <- E; apply set_tx_id).
    split_and!; try done; [by destruct w | lia].
  - destruct (tx_run (txq d) (m :: b) (w_rte w)) as (n & r & -> & Hn & _ & Ha & Hs & Hr & Hp). simpl.
    exists (Z.to_nat n), r. unfold zlen in Hn. split_and!; try done; simpl in *; lia.
Qed.

Lemma flush_tx_ok d w : dev_wf d ->
  exists d' w', flush_tx d w = Ret (d', w') /\ step_ok 0 [] d w d' w' /\ rx_batch d' = rx_batch d /\
    (length (tx_batch d') <= length (tx_batch d))%nat.
Proof.
  intros [? ? ? Htx ?]. destruct (flush_tx_run d w) as (n & r & -> & Hn & Ha & Hs & Hr & _).
  eexists _, _. split; [done|]. split; [|split; [done|simpl; rewrite length_drop; lia]].
  split; simpl; try done.
  - split; simpl; try done; [rewrite length_drop; lia|]. by apply Forall_drop.
  - unfold loose_mbufs, zlen. simpl. rewrite length_drop. lia.
  - unfold tx_stream. simpl. rewrite Hs, app_nil_r, <- app_assoc. by rewrite take_drop.
Qed.

Lemma scan_arp_ret batch c : Forall mbuf_wf batch -> exists c', scan_arp batch c = Ret c'.
Proof.
  intros Hw. revert c. induction Hw as [|m batch Hm Hw IH]; intros c; simpl; [eauto|].
  rewrite Mbuf.data_ret by done. simpl.
  destruct (parse_total (take (Z.to_nat (m_data_len m)) (drop (Z.to_nat (data_off m)) (buf m)))) as [o ->].
  simpl. apply IH.
Qed.

(** Refilling an empty RX batch from the queue. *)
Lemma refill_ok d w n b r : dev_wf d -> rx_batch d = [] ->
  rx RX_CAP (rxq d) [] (w_rte w) = (n, b, r) ->
  step_ok 0 [] d w (set_rx d b) (mk_w r (w_arp w)) /\ Forall mbuf_wf b.
Proof.
  intros [? ? ? ? ?] Hrx E.
  destruct (rx_run RX_CAP (rxq d) [] (w_rte w)) as [[? _]|(_ & pkts & r' & nb & Eb & Hnb & Er & Hl & _ & Hw)];
    [unfold RX_CAP; simpl; lia | done |].
  rewrite Er in E. simplify_eq/=. split; [|done].
  destruct (rx_burst_spec _ _ _ _ _ _ Hnb Eb) as (pkts' & Heq & _ & _ & Ha & _).
  apply (inj _) in Heq as <-. pose proof (f_equal snd Eb) as Ew. simpl in Ew.
  split; simpl; try done.
  - unfold loose_mbufs. rewrite Hrx. simpl. rewrite zlen_nil. lia.
  - unfold tx_stream. simpl. by rewrite <- Ew, rx_burst_sent, app_nil_r.
  - intros p. by rewrite <- Ew, rx_burst_room.
Qed.

Lemma step_ok_arp k l d w d' w' c : step_ok k l d w d' w' -> step_ok k l d w d' (mk_w (w_rte w') c).
Proof. by intros []; split. Qed.

Lemma poll_rx_ok d w : dev_wf d ->
  exists d' w', poll_rx d w = Ret (d', w') /\ step_ok 0 [] d w d' w' /\
    (length (tx_batch d') <= length (tx_batch d))%nat.
Proof.
  intros Hw. unfold poll_rx.
  destruct (flush_tx_ok d w Hw) as (d1 & w1 & -> & S1 & Hrx & Htx). simpl.
  destruct (rx_batch d1) as [|m b0] eqn:E1; [|eauto 6].
  destruct (rx RX_CAP (rxq d1) [] (w_rte w1)) as [[n b] r] eqn:Er.
  destruct (refill_ok d1 w1 n b r (so_wf _ _ _ _ _ _ S1) E1 Er) as [S2 Hb].
  pose proof (step_ok_trans _ _ _ _ _ _ _ _ _ _ S1 S2) as S12.
  simpl. destruct (shared_arp_cache d1); [|by eexists _, _].
  destruct (queue_id d1 =? 0); [|by eexists _, _].
  destruct (scan_arp_ret b (w_arp w1) Hb) as [c ->]. simpl.
  eexists _, _. split; [done|]. split; [|done]. exact (step_ok_arp _ _ _ _ _ _ c S12).
Qed.

(** A buffer holding the injected reply for an entry of the cache. *)
Definition injected (mac : MacAddress) (ip : Ipv4Addr) (e : Ipv4Addr * MacAddress) (m : rte_mbuf) : Prop :=
  mbuf_wf m /\ Mbuf.data m = Ret (arp_reply_frame mac ip e.2 e.1).

Definition tok_count (o : option rte_mbuf) : Z := match o with Some _ => 1 | None => 0 end.

(** DPDK state changes that neither send nor poll nor resize. *)
Record quiet (k : Z) (r r' : rte) : Prop := {
  q_app : app_mbufs r' = app_mbufs r + k;
  q_room : forall p, rte_pktmbuf_data_room_size p r' = rte_pktmbuf_data_room_size p r;
  q_sent : forall port q, nic_sent port q r' = nic_sent port q r;
  q_polls : forall port q, rx_polls port q r' = rx_polls port q r
}.

Lemma quiet_refl r : quiet 0 r r.
Proof. split; done || lia. Qed.

Lemma quiet_trans k1 k2 r1 r2 r3 : quiet k1 r1 r2 -> quiet k2 r2 r3 -> quiet (k1 + k2) r1 r3.
Proof.
  intros [? Hr1 Hs1 Hp1] [? Hr2 Hs2 Hp2].
  split; intros; rewrite ?Hr2, ?Hs2, ?Hp2; done || lia.
Qed.

Lemma try_alloc_quiet p r o r' : Pktmbuf.try_alloc p r = (o, r') ->
  quiet (tok_count o) r r' /\
  (forall m, o = Some m -> mbuf_wf m /\ m_data_len m = 0 /\
     data_off m = Z.min RTE_PKTMBUF_HEADROOM (buf_len m) /\ buf_len m = rte_pktmbuf_data_room_size p r).
Proof.
  unfold Pktmbuf.try_alloc, Pktmbuf.alloc, Mbuf.from_raw.
  destruct (rte_pktmbuf_alloc p r) as [o' r1] eqn:E. intros [= -> ->].
  pose proof (f_equal snd E) as Er. simpl in Er.
  split.
  - split; [|intros; rewrite <- Er; apply alloc_room | intros; rewrite <- Er; apply alloc_sent
            | intros; rewrite <- Er; apply alloc_polls].
    destruct o as [m|]; [by apply (alloc_some _ _ _ _ E) | by rewrite (alloc_none _ _ _ E), Z.add_0_r].
  - intros m ->. destruct (alloc_some _ _ _ _ E) as (? & ? & ? & ? & ?). done.
Qed.

Lemma drop_quiet m r : quiet (-1) r (Pktmbuf.drop_mbuf m r).
Proof.
  unfold Pktmbuf.drop_mbuf. split; [rewrite free_app; lia | intros; apply free_room
    | intros; apply free_sent | intros; apply free_polls].
Qed.

Lemma inject_loop_run mac ip entries p batch r :
  exists new r', inject_loop mac ip entries p batch r =
      Ret (bool_decide (length new = length entries), batch ++ new, r') /\
    (length new <= length entries)%nat /\
    Forall2 (injected mac ip) (take (length new) entries) new /\
    ((length batch <= RX_CAP) -> length (batch ++ new) <= RX_CAP)%nat /\
    quiet (zlen new) r r'.
Proof.
  revert batch r. induction entries as [|[pip pmac] entries IH]; intros batch r;
    cbn [inject_loop length].
  { exists [], r. simpl. rewrite app_nil_r. split_and!; auto using quiet_refl. }
  rewrite build_frame. cbn [mbind exec_bind].
  assert (Hstop : forall r', quiet 0 r r' -> exists new r'', Ret (false, batch, r') =
      Ret (bool_decide (length new = S (length entries)), batch ++ new, r'') /\
      (length new <= S (length entries))%nat /\
      Forall2 (injected mac ip) (take (length new) ((pip, pmac) :: entries)) new /\
      ((length batch <= RX_CAP) -> length (batch ++ new) <= RX_CAP)%nat /\ quiet (zlen new) r r'').
  { intros r' Hq. exists [], r'. rewrite app_nil_r. simpl. split_and!; auto; lia. }
  destruct (Nat.ltb_spec (length batch) RX_CAP); [|by apply Hstop, quiet_refl].
  destruct (Pktmbuf.try_alloc p r) as [[m|] r1] eqn:Ea;
    destruct (try_alloc_quiet _ _ _ _ Ea) as [Hq Hm]; [|by apply Hstop].
  destruct (Hm m eq_refl) as (Hw & _).
  set (fr := arp_reply_frame mac ip pmac pip).
  destruct (Z.le_gt_cases (zlen fr) (Mbuf.reset_room m)).
  - destruct (Mbuf.copy_from_slice_ok m fr) as (m' & -> & Hw' & Hd & _); [apply Hw | done |]. simpl.
    destruct (IH (batch ++ [m']) r1) as (new & r' & -> & Hn & Hf & Hl & Hq').
    exists (m' :: new), r'. rewrite <- app_assoc in *. simpl. split_and!.
    + do 3 f_equal. apply bool_decide_ext. lia.
    + lia.
    + by constructor.
    + intros _. apply Hl. rewrite length_app. simpl. lia.
    + rewrite zlen_cons, Z.add_comm. by eapply quiet_trans.
  - rewrite Mbuf.copy_from_slice_full by (done || apply Hw). simpl.
    apply Hstop. change 0 with (1 + -1). eapply quiet_trans; [exact Hq | apply drop_quiet].
Qed.

(** Pushing [new] onto the RX batch while the DPDK state moves quietly. *)
Lemma push_ok d w new r : dev_wf d -> (length (rx_batch d ++ new) <= RX_CAP)%nat ->
  Forall mbuf_wf new -> quiet (zlen new) (w_rte w) r ->
  step_ok 0 [] d w (set_rx d (rx_batch d ++ new)) (mk_w r (w_arp w)).
Proof.
  intros [? ? ? ? ?] Hl Hn [Ha Hr Hs _]. split; simpl; try done.
  - split; simpl; try done. by apply Forall_app.
  - unfold loose_mbufs. simpl. rewrite zlen_app. lia.
  - unfold tx_stream. simpl. by rewrite Hs, app_nil_r.
Qed.

Lemma step_ok_version k l d w d' w' v : step_ok k l d w d' w' -> step_ok k l d w (set_version d' v) w'.
Proof. intros [[] Hc ? ? ?]. split; try done. Qed.

Lemma injected_wf mac ip es ms : Forall2 (injected mac ip) es ms -> Forall mbuf_wf ms.
Proof. induction 1 as [|? ? ? ? [? _]]; by constructor. Qed.

Lemma inject_ok d w : dev_wf d ->
  exists d' w', inject_from_shared_cache d w = Ret (d', w') /\ step_ok 0 [] d w d' w' /\
    tx_batch d' = tx_batch d.
Proof.
  intros Hw. unfold inject_from_shared_cache. pose proof (step_ok_refl d w Hw).
  destruct (queue_id d =? 0); [by eexists _, _|].
  destruct (shared_arp_cache d); [|by eexists _, _].
  destruct (our_mac d) as [mac|]; [|by eexists _, _].
  destruct (our_ip d) as [ip|]; [|by eexists _, _].
  destruct (_ =? last_cache_version d); [by eexists _, _|].
  destruct (inject_loop_run mac ip (hm_iter (snapshot (w_arp w))) (mempool d) (rx_batch d) (w_rte w))
    as (new & r & -> & _ & Hf & Hl & Hq). simpl.
  pose proof (push_ok d w new r Hw (Hl (wf_rx_cap _ Hw)) (injected_wf _ _ _ _ Hf) Hq) as S1.
  destruct (bool_decide _); eexists _, _; (split; [done|]); split; try done.
  by apply step_ok_version.
Qed.

Lemma pop_snoc b m : pop (b ++ [m]) = Some (m, b).
Proof. unfold pop. by rewrite reverse_snoc, reverse_involutive. Qed.

Lemma pop_inv l m b : pop l = Some (m, b) -> l = b ++ [m].
Proof.
  unfold pop. destruct (reverse l) as [|x r] eqn:E; [done|]. intros [= -> <-].
  by rewrite <- (reverse_involutive l), E, reverse_cons.
Qed.

Lemma receive_ok d w : dev_wf d ->
  exists tok d' w', receive d w = Ret (tok, d', w') /\
    step_ok (tok_count tok) [] d w d' w' /\ (forall m, tok = Some m -> mbuf_wf m) /\
    (length (tx_batch d') <= length (tx_batch d))%nat.
Proof.
  intros Hw. unfold receive.
  destruct (poll_rx_ok d w Hw) as (d1 & w1 & -> & S1 & Ht). simpl.
  destruct (inject_ok d1 w1 (so_wf _ _ _ _ _ _ S1)) as (d2 & w2 & -> & S2 & Ht2). simpl.
  pose proof (step_ok_trans _ _ _ _ _ _ _ _ _ _ S1 S2) as S12. rewrite <- Ht2 in Ht.
  destruct (pop (rx_batch d2)) as [[m b]|] eqn:Ep; [|by eexists _, _, _].
  apply pop_inv in Ep. destruct S12 as [[Hc ? Hm ? ?] ? Hl ? ?].
  rewrite Ep in Hc, Hm. apply Forall_app in Hm as [Hb Hm]. rewrite length_app in Hc. simpl in Hc.
  eexists _, _, _. split; [done|]. split_and!; [|intros ? [= <-]; by inversion Hm | done].
  split; try done.
  - split; simpl; try done. lia.
  - unfold loose_mbufs in *. simpl. rewrite Ep, zlen_app in Hl. unfold zlen in *. simpl in *. lia.
Qed.

Lemma release_ok m d w : dev_wf d -> step_ok (-1) [] d w d (release m w).
Proof.
  intros Hd. destruct (drop_quiet m (w_rte w)) as [Ha Hr Hs _].
  split; simpl; try done.
  - unfold loose_mbufs. simpl. lia.
  - unfold tx_stream. simpl. by rewrite Hs, app_nil_r.
Qed.

Lemma transmit_ok d w : dev_wf d ->
  exists tok d' w', transmit d w = Ret (tok, d', w') /\ step_ok 0 [] d w d' w' /\
    (tok = true <-> (length (tx_batch d') < TX_CAP)%nat).
Proof.
  intros Hw. unfold transmit. destruct (Nat.ltb_spec (length (tx_batch d)) TX_CAP).
  { eexists _, _, _. split; [done|]. split; [by apply step_ok_refl | done]. }
  destruct (flush_tx_ok d w Hw) as (d1 & w1 & -> & S1 & _). simpl.
  destruct (Nat.ltb_spec (length (tx_batch d1)) TX_CAP); eexists _, _, _; (split; [done|]);
    split; try done; split; done || lia.
Qed.

(** A fresh buffer of a fitting pool can be extended by any admissible length. *)
Lemma fresh_extend d w m r len : pool_fits d w -> 0 <= len <= mbuf_capacity d ->
  Pktmbuf.try_alloc (mempool d) (w_rte w) = (Some m, r) ->
  mbuf_wf (Mbuf.extend m len) /\ m_data_len (Mbuf.extend m len) = len.
Proof.
  intros Hf Hl Ea. destruct (try_alloc_quiet _ _ _ _ Ea) as [_ Hm].
  destruct (Hm m eq_refl) as (Hw & H0len & Hoff & Hbl). unfold pool_fits in Hf.
  destruct (Mbuf.extend_wf m len Hw) as (? & -> & _); [|split; [done|lia]].
  unfold Mbuf.tailroom. rewrite tailroom_spec by done. lia.
Qed.

Lemma tx_consume_ok {R} len (f : list byte -> R * list byte) d w :
  dev_wf d -> pool_fits d w -> 0 <= len <= mbuf_capacity d -> (length (tx_batch d) < TX_CAP)%nat ->
  exists res d' w' l, tx_consume len f d w = Ret (res, d', w') /\ step_ok 0 l d w d' w' /\
    (l = [] \/ exists m, l = [m] /\ Mbuf.data_len m = len).
Proof.
  intros Hw Hf Hl Hc. unfold tx_consume.
  destruct (Pktmbuf.try_alloc (mempool d) (w_rte w)) as [[m|] r] eqn:Ea;
    destruct (try_alloc_quiet _ _ _ _ Ea) as [[Ha Hr Hs _] _]; simpl in Ha.
  - destruct (fresh_extend d w m r len Hf Hl Ea) as [Hwe Hlen].
    destruct (Mbuf.data_mut_wf f _ Hwe) as (res & m' & -> & Hwm & Hlen' & _). simpl.
    unfold try_push. destruct (Nat.ltb_spec (length (tx_batch d)) TX_CAP); [|lia].
    eexists _, _, _, [m']. split; [done|]. split; [|right; exists m'; split; [done|]; unfold Mbuf.data_len; lia].
    destruct Hw. split; simpl; try done.
    + split; simpl; try done; [rewrite length_app; simpl; lia|]. apply Forall_app. by rewrite Forall_singleton.
    + unfold loose_mbufs. simpl. rewrite zlen_app. unfold zlen. simpl. lia.
    + unfold tx_stream. simpl. by rewrite Hs, app_assoc.
  - eexists _, _, _, []. split; [done|]. split; [|by left].
    split; simpl; try done.
    + unfold loose_mbufs. simpl. lia.
    + unfold tx_stream. simpl. by rewrite Hs, app_nil_r.
Qed.

Lemma tx_consume_full {R} len (f : list byte -> R * list byte) d w :
  dev_wf d -> pool_fits d w -> 0 <= len <= mbuf_capacity d -> length (tx_batch d) = TX_CAP ->
  tx_consume len f d w = Panic \/
  (exists r, Pktmbuf.try_alloc (mempool d) (w_rte w) = (None, r)) /\
  exists res w', tx_consume len f d w = Ret (res, d, w') /\ step_ok 0 [] d w d w'.
Proof.
  intros Hw Hf Hl Hc. unfold tx_consume.
  destruct (Pktmbuf.try_alloc (mempool d) (w_rte w)) as [[m|] r] eqn:Ea.
  - left. destruct (fresh_extend d w m r len Hf Hl Ea) as [Hwe _].
    destruct (Mbuf.data_mut_wf f _ Hwe) as (res & m' & -> & _). simpl.
    unfold try_push. by destruct (Nat.ltb_spec (length (tx_batch d)) TX_CAP); [lia|].
  - right. split; [eauto|]. destruct (try_alloc_quiet _ _ _ _ Ea) as [[Ha Hr Hs _] _]; simpl in Ha.
    eexists _, _. split; [done|]. split; simpl; try done.
    + unfold loose_mbufs. simpl. lia.
    + unfold tx_stream. simpl. by rewrite Hs, app_nil_r.
Qed.

Lemma inject_rx_ok d bs w : dev_wf d ->
  exists b d' w', inject_rx_packet d bs w = Ret (b, d', w') /\ step_ok 0 [] d w d' w' /\
    (b = true -> exists m, rx_batch d' = rx_batch d ++ [m] /\ Mbuf.data m = Ret bs) /\
    (b = false -> d' = d).
Proof.
  intros Hw. unfold inject_rx_packet.
  destruct (Nat.leb_spec RX_CAP (length (rx_batch d))).
  { eexists _, _, _. split; [done|]. split; [by apply step_ok_refl | done]. }
  assert (Hq0 : forall r, quiet 0 (w_rte w) r -> step_ok 0 [] d w d (mk_w r (w_arp w))).
  { intros r [Ha Hr Hs _]. split; simpl; try done.
    - unfold loose_mbufs. simpl. lia.
    - unfold tx_stream. simpl. by rewrite Hs, app_nil_r. }
  destruct (Pktmbuf.try_alloc (mempool d) (w_rte w)) as [[m|] r] eqn:Ea;
    destruct (try_alloc_quiet _ _ _ _ Ea) as [Hq Hm].
  2:{ eexists _, _, _. split; [done|]. split; [by apply Hq0 | done]. }
  destruct (Hm m eq_refl) as (Hwm & _). destruct (Z.le_gt_cases (zlen bs) (Mbuf.reset_room m)).
  - destruct (Mbuf.copy_from_slice_ok m bs) as (m' & -> & Hwm' & Hd & _); [apply Hwm | done |]. simpl.
    eexists _, _, _. split; [done|]. split; [|split; [eauto | done]].
    apply push_ok; [done | rewrite length_app; simpl; lia | by apply Forall_singleton | exact Hq].
  - rewrite Mbuf.copy_from_slice_full by (done || apply Hwm). simpl.
    eexists _, _, _. split; [done|]. split; [|done]. apply Hq0.
    change 0 with (1 + -1). eapply quiet_trans; [exact Hq | apply drop_quiet].
Qed.

(** Frame lengths smoltcp asks for: at most the advertised MTU. *)
Definition frame_ok (d : DpdkDevice) (o : option (Z * (list byte -> list byte))) : Prop :=
  match o with Some (len, _) => 0 <= len <= max_transmission_unit d | None => True end.

Definition call_ok (d : DpdkDevice) (c : dcall) : Prop :=
  match c with CReceive o | CTransmit o => frame_ok d o | _ => True end.

Lemma frame_len d len : dev_wf d -> 0 <= len <= max_transmission_unit d -> 0 <= len <= mbuf_capacity d.
Proof. intros [_ _ _ _ Hm] Hl. unfold max_transmission_unit, MAX_PACKET_OVERHEAD in *. lia. Qed.

Ltac step_done := simpl; eexists _, _, _; split; [reflexivity | eassumption].

Lemma send_frame_ok o d w : dev_wf d -> pool_fits d w -> frame_ok d o ->
  (send_frame o d w = Panic /\ length (tx_batch d) = TX_CAP) \/
  exists d' w' l, send_frame o d w = Ret (d', w') /\ step_ok 0 l d w d' w'.
Proof.
  intros Hw Hf Ho. destruct o as [[len f]|]; simpl in *;
    [|right; eexists _, _, []; split; [done | by apply step_ok_refl]].
  apply (frame_len d len Hw) in Ho.
  destruct (decide (length (tx_batch d) = TX_CAP)) as [Hc|Hc].
  - destruct (tx_consume_full len (fun s => (tt, f s)) d w Hw Hf Ho Hc) as [->|(_ & res & w' & -> & S1)];
      [by left | right; step_done].
  - destruct (tx_consume_ok len (fun s => (tt, f s)) d w Hw Hf Ho) as (res & d' & w' & l & -> & S1 & _).
    { pose proof (wf_tx_cap _ Hw). lia. }
    right. step_done.
Qed.

Lemma conf_frame_ok d d' o : conf d' = conf d -> frame_ok d o -> frame_ok d' o.
Proof.
  unfold conf, frame_ok, max_transmission_unit. intros Hc. simplify_eq. destruct o as [[len f]|]; congruence.
Qed.

Lemma run_call_ok c d w : dev_wf d -> pool_fits d w -> call_ok d c ->
  (run_call c d w = Panic /\ length (tx_batch d) = TX_CAP /\ exists o, c = CReceive (Some o)) \/
  exists d' w' l, run_call c d w = Ret (d', w') /\ step_ok 0 l d w d' w'.
Proof.
  intros Hw Hf Hc. destruct c as [o|o|bs|]; simpl in *.
  - destruct (receive_ok d w Hw) as (tok & d1 & w1 & -> & S1 & Hm & Ht). simpl.
    destruct tok as [m|]; [|right; step_done].
    unfold rx_consume. rewrite Mbuf.data_ret by auto. simpl.
    destruct (send_frame_ok o d1 w1) as [[Hp Hfull]|(d3 & w3 & l & -> & S3)].
    + apply S1.
    + by eapply step_ok_fits.
    + eapply conf_frame_ok; [apply S1 | done].
    + left. rewrite Hp. split; [done|]. pose proof (wf_tx_cap _ Hw). split; [lia|].
      destruct o; [eauto | done].
    + right. eexists _, _, _. split; [done|].
      pose proof (step_ok_trans _ _ _ _ _ _ _ _ _ _ S1 S3) as S13.
      exact (step_ok_trans _ _ _ _ _ _ _ _ _ _ S13 (release_ok m d3 w3 (so_wf _ _ _ _ _ _ S3))).
  - destruct (transmit_ok d w Hw) as (tok & d1 & w1 & -> & S1 & Ht). simpl.
    destruct tok; [|right; step_done].
    destruct (send_frame_ok o d1 w1) as [[_ Hfull]|(d3 & w3 & l & -> & S3)].
    + apply S1.
    + by eapply step_ok_fits.
    + eapply conf_frame_ok; [apply S1 | done].
    + rewrite Hfull in Ht. destruct Ht as [Ht _]. specialize (Ht eq_refl). lia.
    + right. eexists _, _, _. split; [done|]. exact (step_ok_trans _ _ _ _ _ _ _ _ _ _ S1 S3).
  - destruct (inject_rx_ok d bs w Hw) as (b & d1 & w1 & -> & S1 & _). simpl. right; step_done.
  - destruct (flush_tx_ok d w Hw) as (d1 & w1 & -> & S1 & _). right; step_done.
Qed.

Lemma run_calls_ok cs d w : dev_wf d -> pool_fits d w -> Forall (call_ok d) cs ->
  (run_calls cs d w = Panic /\
   exists cs1 o cs2 d1 w1, cs = cs1 ++ CReceive (Some o) :: cs2 /\
     run_calls cs1 d w = Ret (d1, w1) /\ length (tx_batch d1) = TX_CAP) \/
  exists d' w' l, run_calls cs d w = Ret (d', w') /\ step_ok 0 l d w d' w'.
Proof.
  revert d w. induction cs as [|c cs IH]; intros d w Hw Hf Hcs; simpl.
  { right. eexists _, _, []. split; [done | by apply step_ok_refl]. }
  apply Forall_cons in Hcs as [Hc Hcs].
  destruct (run_call_ok c d w Hw Hf Hc) as [(-> & Hfull & o & ->)|(d1 & w1 & l1 & E1 & S1)].
  { left. split; [done|]. exists [], o, cs, d, w. done. }
  rewrite E1. simpl. destruct (IH d1 w1) as [[-> (cs1 & o & cs2 & d2 & w2 & -> & E2 & Hfull)]|(d2 & w2 & l2 & -> & S2)].
  - apply S1.
  - by eapply step_ok_fits.
  - eapply Forall_impl; [exact Hcs|]. intros c' Hc'. pose proof (so_conf _ _ _ _ _ _ S1).
    destruct c'; simpl in *; eauto using conf_frame_ok.
  - left. split; [done|]. exists (c :: cs1), o, cs2, d2, w2. split; [done|]. split; [|done].
    simpl. by rewrite E1.
  - right. eexists _, _, _. split; [done|]. exact (step_ok_trans _ _ _ _ _ _ _ _ _ _ S1 S2).
Qed.

(** ** Queue 0 as the producer of the shared cache *)

(** The ARP replies found in a batch, in order. *)
Definition reply_of (m : rte_mbuf) : option (Ipv4Addr * MacAddress) :=
  match Mbuf.data m with
  | Ret bs => match parse_arp_reply bs with Ret o => o | _ => None end
  | _ => None
  end.

Definition learn (c : SharedArpCache) (e : Ipv4Addr * MacAddress) : SharedArpCache := insert c e.1 e.2.

Lemma scan_arp_fold batch c : Forall mbuf_wf batch ->
  scan_arp batch c = Ret (fold_left learn (omap reply_of batch) c).
Proof.
  intros Hw. revert c. induction Hw as [|m batch Hm Hw IH]; intros c; simpl; [done|].
  unfold reply_of at 1. rewrite Mbuf.data_ret by done. simpl.
  destruct (parse_total (take (Z.to_nat (m_data_len m)) (drop (Z.to_nat (data_off m)) (buf m)))) as [o ->].
  simpl. destruct o as [[ip mac]|]; simpl; apply IH.
Qed.

Lemma learn_inner l c : inner (fold_left learn l c) = list_to_map (reverse l) ∪ inner c.
Proof.
  revert c. induction l as [|[ip mac] l IH]; intros c; simpl.
  - symmetry. apply (left_id_L ∅ (∪)).
  - rewrite IH. unfold learn. simpl. rewrite insert_inner, reverse_cons, list_to_map_app. simpl.
    rewrite <- (assoc_L (∪)), insert_empty. f_equal. by rewrite insert_union_singleton_l.
Qed.

(** ** Delivery order *)

(** [n] receives, each buffer handed to [f] and dropped. *)
Fixpoint drain (n : nat) (d : DpdkDevice) (w : World) : Exec (list rte_mbuf * DpdkDevice * World) :=
  match n with
  | O => Ret ([], d, w)
  | S n =>
      '(tok, d, w) ← receive d w;
      match tok with
      | Some m =>
          '(_, w) ← rx_consume (fun _ w => Ret (tt, w)) m w;
          '(l, d, w) ← drain n d w; Ret (m :: l, d, w)
      | None => Ret ([], d, w)
      end
  end.

Lemma inject_skip d w : queue_id d = 0 \/ shared_arp_cache d = None ->
  inject_from_shared_cache d w = Ret (d, w).
Proof.
  unfold inject_from_shared_cache. intros [-> | ->]; [done|]. by destruct (queue_id d =? 0).
Qed.

Lemma receive_held d w b m : dev_wf d -> rx_batch d = b ++ [m] ->
  queue_id d = 0 \/ shared_arp_cache d = None ->
  exists d' w', receive d w = Ret (Some m, d', w') /\ rx_batch d' = b /\ dev_wf d' /\ conf d' = conf d.
Proof.
  intros Hw Hb Hc. unfold receive, poll_rx.
  destruct (flush_tx_ok d w Hw) as (d1 & w1 & -> & S1 & Hrx & _). simpl.
  rewrite Hrx, Hb. destruct (b ++ [m]) as [|x y] eqn:E; [by destruct b|]. simpl.
  pose proof (so_conf _ _ _ _ _ _ S1) as Hconf.
  rewrite inject_skip by (unfold conf in Hconf; simplify_eq; intuition congruence). simpl.
  rewrite Hrx, Hb, <- E, pop_snoc. eexists _, _. split; [done|]. split; [done|]. split; [|done].
  destruct (so_wf _ _ _ _ _ _ S1) as [Hc1 ? Hm1 ? ?]. rewrite Hrx, Hb, <- E in *.
  rewrite length_app in Hc1. apply Forall_app in Hm1 as [? _].
  split; simpl in *; try done; lia.
Qed.

Lemma drain_reverse b d w : dev_wf d -> rx_batch d = b ->
  queue_id d = 0 \/ shared_arp_cache d = None ->
  exists d' w', drain (length b) d w = Ret (reverse b, d', w') /\ rx_batch d' = [].
Proof.
  revert d w. induction b as [|m b IH] using rev_ind; intros d w Hw Hb Hc.
  { exists d, w. done. }
  rewrite length_app, Nat.add_comm. simpl.
  destruct (receive_held d w b m Hw Hb Hc) as (d1 & w1 & -> & Hb1 & Hw1 & Hc1). simpl.
  unfold rx_consume at 1. rewrite Mbuf.data_ret.
  2:{ pose proof (wf_rx_mbufs _ Hw) as Hm. rewrite Hb in Hm. apply Forall_app in Hm as [_ Hm]. by rewrite Forall_singleton in Hm. }
  simpl. destruct (IH d1 (release m w1) Hw1 Hb1) as (d' & w' & -> & Hd').
  { unfold conf in Hc1. simplify_eq. intuition congruence. }
  simpl. rewrite reverse_snoc. eauto.
Qed.

(** ** Frames written through a TX token *)

Lemma data_mut_data {R} (f : list byte -> R * list byte) m : mbuf_wf m ->
  (forall s, length (f s).2 = length s) ->
  exists s m', Mbuf.data_mut f m = Ret ((f s).1, m') /\ zlen s = m_data_len m /\
    Mbuf.data m' = Ret (f s).2.
Proof.
  intros Hw Hf. unfold Mbuf.data_mut. destruct (Mbuf.data m) as [s| |] eqn:Hs;
    [|by rewrite Mbuf.data_ret in Hs..]. simpl.
  pose proof (Mbuf.data_length m s Hw Hs) as Hl.
  specialize (Hf s). destruct (f s) as [r s'] eqn:Ef. simpl in Hf.
  eexists s, _. rewrite Ef. split; [done|]. split; [done|]. simpl.
  rewrite take_ge by lia. apply Mbuf.data_store; [done|]. unfold zlen in *. lia.
Qed.

End Proofs.

(** ** Starvation of an injecting queue *)

Section Starvation.
Context `{HL : EthBurstLaws} `{HI : HashMapIter}.

(** [supply k r]: the next [k] allocations succeed.  Freeing a buffer adds to
    it and transmitting does not take away from it. *)
Variable supply : nat -> pool_ptr -> rte -> Prop.
Hypothesis supply_alloc : forall k p r, supply (S k) p r ->
  exists m r', rte_pktmbuf_alloc p r = (Some m, r') /\ supply k p r'.
Hypothesis supply_free : forall k p m r, supply k p r -> supply (S k) p (rte_pktmbuf_free m r).
Hypothesis supply_tx : forall k p port q pkts r,
  supply k p r -> supply k p (rte_eth_tx_burst port q pkts r).2.

Definition entries (w : World) : list (Ipv4Addr * MacAddress) := hm_iter (snapshot (w_arp w)).

(** An injecting queue whose pending entries do not fit beside the packets it
    still holds. *)
Record stuck (d : DpdkDevice) (w : World) : Prop := {
  st_wf : dev_wf d;
  st_fits : pool_fits d w;
  st_mtu : 0 <= mtu d;
  st_queue : queue_id d <> 0;
  st_cache : is_Some (shared_arp_cache d);
  st_mac : is_Some (our_mac d);
  st_ip : is_Some (our_ip d);
  st_version : version (w_arp w) <> last_cache_version d;
  st_held : (1 <= length (rx_batch d))%nat;
  st_two : (2 <= length (entries w))%nat;
  st_over : (RX_CAP < length (rx_batch d) + length (entries w))%nat;
  st_supply : supply (RX_CAP - length (rx_batch d)) (mempool d) (w_rte w)
}.

Lemma flush_tx_supply k p d w d' w' :
  supply k p (w_rte w) -> flush_tx d w = Ret (d', w') -> supply k p (w_rte w').
Proof.
  unfold flush_tx, tx. destruct (tx_batch d) as [|m b]; [by intros ? [= <- <-]|].
  intros Hs. set (pk := take _ _).
  pose proof (supply_tx k p (tx_port_id (txq d)) (tx_queue_id (txq d)) pk (w_rte w) Hs) as Hs'.
  destruct (rte_eth_tx_burst _ _ pk _) as [sent r]. simpl in *.
  destruct (forget_front _ _); simpl; intros ?; simplify_eq/=; done.
Qed.

Lemma inject_loop_fill mac ip es p batch r :
  (length batch <= RX_CAP)%nat -> (RX_CAP < length batch + length es)%nat ->
  supply (RX_CAP - length batch) p r ->
  RTE_PKTMBUF_HEADROOM + 42 <= rte_pktmbuf_data_room_size p r ->
  exists new r', inject_loop mac ip es p batch r = Ret (false, batch ++ new, r') /\
    length (batch ++ new) = RX_CAP /\ supply 0 p r'.
Proof.
  revert batch r. induction es as [|[pip pmac] es IH]; intros batch r Hb Hover Hs Hroom; [simpl in *; lia|].
  cbn [inject_loop]. rewrite build_frame. cbn [mbind exec_bind].
  destruct (Nat.ltb_spec (length batch) RX_CAP).
  - destruct (RX_CAP - length batch)%nat as [|k] eqn:Ek; [lia|].
    destruct (supply_alloc _ _ _ Hs) as (m & r1 & Ea & Hs1).
    assert (Et : Pktmbuf.try_alloc p r = (Some m, r1)).
    { unfold Pktmbuf.try_alloc, Pktmbuf.alloc. by rewrite Ea. }
    rewrite Et. destruct (try_alloc_quiet _ _ _ _ Et) as [Hq Hm].
    destruct (Hm m eq_refl) as (Hwm & _ & _ & Hbl).
    destruct (Mbuf.copy_from_slice_ok m (arp_reply_frame mac ip pmac pip)) as (m' & -> & _).
    { apply Hwm. }
    { change (42 <= Mbuf.reset_room m). unfold Mbuf.reset_room. lia. }
    cbn [mbind exec_bind]. destruct (IH (batch ++ [m']) r1) as (new & r' & -> & Hl & Hs').
    + rewrite length_app. simpl. lia.
    + rewrite length_app. simpl in *. lia.
    + rewrite length_app. simpl. by replace (RX_CAP - _)%nat with k by lia.
    + by rewrite (q_room _ _ _ Hq).
    + exists (m' :: new), r'. by rewrite <- app_assoc in *.
  - exists [], r. rewrite app_nil_r. assert (length batch = RX_CAP) as El by lia.
    rewrite El, Nat.sub_diag in Hs. done.
Qed.

Lemma pop_full l : length l = RX_CAP ->
  exists m b, pop l = Some (m, b) /\ l = b ++ [m] /\ length b = 63%nat.
Proof.
  intros Hl. destruct l as [|m b] using rev_ind; [done|]. rewrite length_app in Hl. simpl in Hl.
  exists m, b. rewrite pop_snoc. unfold RX_CAP in Hl. split_and!; done || lia.
Qed.

Definition untouched (l l' : list rte_mbuf) : Prop :=
  take (Nat.min (length l) 63) l' = take (Nat.min (length l) 63) l.

(** One [receive], its packet consumed: the queue was not polled, the queue is
    stuck again, and the packets it held are still held. *)
Lemma stuck_step d w : stuck d w ->
  exists d' w', run_call (CReceive None) d w = Ret (d', w') /\ stuck d' w' /\
    length (rx_batch d') = 63%nat /\ untouched (rx_batch d) (rx_batch d') /\
    (forall port q, rx_polls port q (w_rte w') = rx_polls port q (w_rte w)).
Proof.
  intros [Hw Hf Hmtu Hq [h Hh] [mac Hmac] [ip Hip] Hv Hheld Htwo Hover Hs].
  pose proof (wf_mtu _ Hw) as Hcap. unfold MAX_PACKET_OVERHEAD in Hcap.
  unfold run_call, receive, poll_rx.
  destruct (flush_tx_ok d w Hw) as (d1 & w1 & E1 & S1 & Hrx & _).
  pose proof (flush_tx_supply _ _ _ _ _ _ Hs E1) as Hs1.
  destruct (flush_tx_run d w) as (n & r & E1' & _ & _ & _ & _ & Hpolls).
  rewrite E1 in E1'. injection E1' as Hd1 Hw1. rewrite E1. simpl.
  rewrite Hrx. destruct (rx_batch d) as [|x y] eqn:Eb; [simpl in *; lia|]. simpl.
  rewrite <- Eb in *.
  unfold inject_from_shared_cache. subst d1 w1. simpl.
  rewrite (proj2 (Z.eqb_neq _ _) Hq), Hh, Hmac, Hip, (proj2 (Z.eqb_neq _ _) Hv).
  destruct (inject_loop_fill mac ip (entries w) (mempool d) (rx_batch d) r) as (new & r' & El & Hlen & Hs').
  { apply Hw. } { done. } { done. }
  { pose proof (so_room _ _ _ _ _ _ S1 (mempool d)) as Hr. simpl in Hr. rewrite Hr.
    unfold pool_fits in Hf. lia. }
  destruct (inject_loop_run mac ip (entries w) (mempool d) (rx_batch d) r) as (new' & r'' & El' & _ & Hinj & _ & Hquiet).
  unfold entries in El, El'. rewrite El in El'. injection El' as _ Hnew <-. apply (inj (app _)) in Hnew as <-.
  rewrite El. simpl.
  destruct (pop_full _ Hlen) as (m & b & -> & Hb & Hblen). simpl.
  pose proof (injected_wf _ _ _ _ Hinj) as Hnewwf.
  assert (Forall mbuf_wf (b ++ [m])) as [Hbwf Hmwf]%Forall_app.
  { rewrite <- Hb. apply Forall_app. split; [apply Hw | done]. }
  rewrite Forall_singleton in Hmwf.
  unfold rx_consume. rewrite Mbuf.data_ret by done. simpl.
  destruct (drop_quiet m r') as [_ Hr2 _ Hp2]. destruct Hquiet as [_ Hr1 _ Hp1].
  pose proof (so_wf _ _ _ _ _ _ S1) as Hw1.
  eexists _, _. split; [done|]. split_and!; simpl.
  - split; simpl; eauto; try lia; try done.
    + destruct Hw1. split; simpl in *; try done. unfold RX_CAP. lia.
    + unfold pool_fits in *. simpl. rewrite Hr2, Hr1.
      pose proof (so_room _ _ _ _ _ _ S1 (mempool d)) as Hr. simpl in Hr. by rewrite Hr.
    + unfold entries in *. simpl. unfold RX_CAP. lia.
    + rewrite Hblen. simpl. by apply supply_free.
  - done.
  - unfold untouched. pose proof (wf_rx_cap _ Hw) as Hc. unfold RX_CAP in *.
    assert (take 63 (rx_batch d ++ new) = b) as <-.
    { rewrite Hb, take_app_le, take_ge by lia. done. }
    rewrite take_take, take_app_le by lia. f_equal. lia.
  - intros. by rewrite Hp2, Hp1.
Qed.

(** An injecting queue (id other than 0) whose cache entries, at least two,
    do not fit beside the packets it holds stays in that state for ever: however
    often [receive] is called and its packet consumed, the RX queue is not
    polled again, the cache version is never recorded, and the packets the
    device held stay undelivered at the bottom of the batch. *)
Theorem injection_starves_rx d w (Hst : stuck d w) k :
  exists d' w', run_calls (replicate k (CReceive None)) d w = Ret (d', w') /\ stuck d' w' /\
    take (Nat.min (length (rx_batch d)) 63) (rx_batch d') = take (Nat.min (length (rx_batch d)) 63) (rx_batch d) /\
    (forall port q, rx_polls port q (w_rte w') = rx_polls port q (w_rte w)).
Proof.
  revert d w Hst. induction k as [|k IH]; intros d w Hst; [by exists d, w|].
  destruct (stuck_step d w Hst) as (d1 & w1 & E1 & Hst1 & Hl1 & Hu1 & Hp1).
  destruct (IH d1 w1 Hst1) as (d2 & w2 & E2 & Hst2 & Hu2 & Hp2).
  exists d2, w2. simpl replicate. cbn [run_calls]. rewrite E1. cbn [mbind exec_bind]. rewrite E2.
  split_and!; [done | done | | intros; by rewrite Hp2].
  unfold untouched in Hu1. rewrite Hl1 in Hu2. rewrite <- Hu1.
  rewrite <- (take_take (rx_batch d2) _ 63), <- (take_take (rx_batch d1) _ 63) by lia.
  replace (Nat.min 63 63) with 63%nat in Hu2 by lia. by rewrite Hu2.
Qed.

End Starvation.

Section Properties.
Context `{HL : EthBurstLaws} `{HI : HashMapIter}.

(** C1: memory safety and accounting of the device under any sequence of
    smoltcp calls whose frames respect the advertised MTU: no execution is
    undefined; if it returns, the batches are within their capacities, no mbuf
    is leaked or freed twice (the number of buffers owned by the application
    and not held in a batch is unchanged) and packets were only added behind
    the ones already committed to the TX queue; if it panics, it does so in a
    reply to a received packet while the TX batch is full. *)
Theorem device_calls_safe d w cs (Hw : dev_wf d) (Hf : pool_fits d w) (Hc : Forall (call_ok d) cs) :
  match run_calls cs d w with
  | Ret (d', w') => dev_wf d' /\ loose_mbufs d' w' = loose_mbufs d w /\
                    exists l, tx_stream d' w' = tx_stream d w ++ l
  | Panic => exists cs1 o cs2 d1 w1, cs = cs1 ++ CReceive (Some o) :: cs2 /\
                    run_calls cs1 d w = Ret (d1, w1) /\ length (tx_batch d1) = TX_CAP
  | UB => False
  end.
Proof.
  destruct (run_calls_ok cs d w Hw Hf Hc) as [[-> Hp]|(d' & w' & l & -> & [? _ Hl Hs _])]; [done|].
  split_and!; [done | lia | eauto].
Qed.


(** The TX token that [receive] returns is not backed by the check of
    [transmit]: when the flush at the start of [receive] leaves the TX batch
    full and a buffer can be allocated, answering the received packet panics. *)
Theorem receive_reply_panics d w m d1 w1 len (f : list byte -> list byte)
    (Hw : dev_wf d) (Hf : pool_fits d w) (Hl : 0 <= len <= max_transmission_unit d)
    (Hr : receive d w = Ret (Some m, d1, w1)) (Hfull : length (tx_batch d1) = TX_CAP)
    (Ha : exists m' r, Pktmbuf.try_alloc (mempool d) (w_rte w1) = (Some m', r)) :
  run_call (CReceive (Some (len, f))) d w = Panic.
Proof.
  destruct (receive_ok d w Hw) as (tok & d1' & w1' & E & S1 & Hm & _).
  rewrite E in Hr. simplify_eq. simpl. rewrite E. simpl.
  unfold rx_consume. rewrite Mbuf.data_ret by auto. simpl.
  pose proof (so_conf _ _ _ _ _ _ S1) as Hconf. apply (frame_len d len Hw) in Hl.
  destruct (tx_consume_full len (fun s => (tt, f s)) d1 w1) as [->|[[r Hn] _]]; try done.
  - apply S1.
  - by eapply step_ok_fits.
  - unfold conf in Hconf. by replace (mbuf_capacity d1) with (mbuf_capacity d) by congruence.
  - destruct Ha as (m' & r' & Ha). simpl in Hn.
    unfold conf in Hconf. replace (mempool d1) with (mempool d) in Hn by congruence. congruence.
Qed.

(** The packets of a received burst are handed to smoltcp in the reverse of
    their order of arrival: draining a batch of [n] packets with [n] calls of
    [receive] delivers the batch back to front. *)
Theorem burst_delivered_in_reverse d w (Hw : dev_wf d)
    (Hc : queue_id d = 0 \/ shared_arp_cache d = None) :
  exists d' w', drain (length (rx_batch d)) d w = Ret (reverse (rx_batch d), d', w') /\ rx_batch d' = [].
Proof. by apply drain_reverse. Qed.

(** Injection records the cache version only after the entries were all
    injected: either the recorded version is unchanged, or it is the current one
    and for every entry of the cache a buffer carrying that ARP reply was pushed
    into the RX batch behind the packets already there. *)
Theorem inject_records_version_after_all d w d' w' (Hw : dev_wf d)
    (Hi : inject_from_shared_cache d w = Ret (d', w')) :
  exists new, rx_batch d' = rx_batch d ++ new /\ w_arp w' = w_arp w /\
    (last_cache_version d' = last_cache_version d \/
     (last_cache_version d' = version (w_arp w) /\
      forall ip mac, get (w_arp w) ip = Some mac -> exists m, m ∈ new /\ carries_reply m ip mac)).
Proof.
  unfold inject_from_shared_cache in Hi.
  assert (Hid : (d', w') = (d, w) -> exists new, rx_batch d' = rx_batch d ++ new /\ w_arp w' = w_arp w /\
    (last_cache_version d' = last_cache_version d \/
     (last_cache_version d' = version (w_arp w) /\
      forall ip mac, get (w_arp w) ip = Some mac -> exists m, m ∈ new /\ carries_reply m ip mac))).
  { intros [= -> ->]. exists []. rewrite app_nil_r. auto. }
  destruct (queue_id d =? 0); [apply Hid; congruence|].
  destruct (shared_arp_cache d), (our_mac d) as [mac|], (our_ip d) as [ip|]; try (apply Hid; congruence).
  destruct (_ =? last_cache_version d); [apply Hid; congruence|].
  destruct (inject_loop_run mac ip (hm_iter (snapshot (w_arp w))) (mempool d) (rx_batch d) (w_rte w))
    as (new & r & E & _ & Hf & _). rewrite E in Hi. simpl in Hi.
  exists new. case_bool_decide as Hn; simplify_eq/=; [|by auto].
  split_and!; try done. right. split; [done|]. intros pip pmac Hget.
  rewrite Hn, take_ge in Hf by done.
  assert ((pip, pmac) ∈ hm_iter (snapshot (w_arp w))) as Hin.
  { rewrite hm_iter_perm. by apply elem_of_map_to_list. }
  apply list_elem_of_lookup in Hin as [i Hi].
  destruct (Forall2_lookup_l _ _ _ _ _ Hf Hi) as (m & Hm & _ & Hd).
  exists m. split; [by eapply list_elem_of_lookup_2|]. eexists. split; [done | apply frame_is_reply].
Qed.

(** Queue 0 is the producer of the shared cache: scanning a batch ends
    normally and updates the cache with exactly the ARP replies of the batch,
    a later reply for the same address overriding an earlier one. *)
Theorem scan_learns_replies batch c (Hw : Forall mbuf_wf batch) :
  exists c', scan_arp batch c = Ret c' /\
    inner c' = list_to_map (reverse (omap reply_of batch)) ∪ inner c /\
    (forall ip, get c' ip = match list_to_map (M := gmap Ipv4Addr MacAddress)
                                    (reverse (omap reply_of batch)) !! ip with
                            | Some mac => Some mac
                            | None => get c ip
                            end).
Proof.
  eexists. split; [by apply scan_arp_fold|]. rewrite learn_inner. split; [done|].
  intros ip. unfold get. rewrite learn_inner, lookup_union.
  by destruct (list_to_map _ !! ip), (inner c !! ip).
Qed.

(** [DpdkDevice::new] creates a device exactly when a frame of the MTU and
    the maximal overhead fits a buffer, otherwise it panics; the created device
    satisfies the invariant. *)
Theorem new_checks_capacity rxq txq p mtu cap :
  match new rxq txq p mtu cap with
  | Ret d => mtu + 94 <= cap /\ dev_wf d /\ max_transmission_unit d = mtu
  | Panic => cap < mtu + 94
  | UB => False
  end.
Proof.
  unfold new, assert_. change MAX_PACKET_OVERHEAD with 94.
  destruct (Z.leb_spec (mtu + 94) cap); simpl; [|lia].
  split_and!; [done | | done]. split; simpl; unfold MAX_PACKET_OVERHEAD; first [lia | constructor].
Qed.

End Properties.

(** ** The properties on the reference NIC *)

#[local] Existing Instance Mbuf.ref_pktmbuf.
#[local] Existing Instance Mbuf.ref_pktmbuf_laws.
#[local] Existing Instance Queue.ref_mempool.
#[local] Existing Instance Queue.ref_burst.
#[local] Existing Instance Queue.ref_mempool_laws.
#[local] Existing Instance Queue.ref_burst_laws.

#[export] Instance ref_hm_iter : HashMapIter := {|
  hm_iter m := map_to_list m;
  hm_iter_perm m := reflexivity _
|}.

Definition mac_a := mac6 x02 x00 x00 x00 x00 x0a.
Definition mac_b := mac6 x02 x00 x00 x00 x00 x0b.
Definition ip_a := ipv4 x0a x00 x00 x01.
Definition ip_b := ipv4 x0a x00 x00 x02.
Definition ip_c := ipv4 x0a x00 x00 x03.
Definition cache2 : SharedArpCache := insert (insert ArpCache.new ip_b mac_b) ip_c mac_b.

(** A device on queue [q] of port 0 that holds the given buffers. *)
Definition dev0 (q : Z) (rx tx : list rte_mbuf) : DpdkDevice :=
  mk_dev (mk_rxq 0 q) (mk_txq 0 q) pool0 rx tx 1500 2048 q (Some arp_handle) (Some mac_a) (Some ip_a) 0.

Definition arp_world (free : nat) (rx : list rte_mbuf) (slots : nat) : World :=
  mk_w (world0 free rx slots) cache2.

Lemma forallb_wf l : forallb wf_dec l = true -> Forall mbuf_wf l.
Proof.
  intros Hl. rewrite List.Forall_forall. intros m Hm. apply wf_dec_wf.
  rewrite List.forallb_forall in Hl. by apply Hl.
Qed.

Lemma dev0_wf q rx tx : (length rx <=? RX_CAP)%nat && (length tx <=? TX_CAP)%nat &&
  forallb wf_dec rx && forallb wf_dec tx = true -> dev_wf (dev0 q rx tx).
Proof.
  intros Hd. reflect_bool. destruct Hd as (((? & ?) & ?) & ?).
  split; simpl; done || by apply forallb_wf.
Qed.

Lemma dev0_fits q rx tx free nic slots : pool_fits (dev0 q rx tx) (arp_world free nic slots).
Proof. vm_compute. discriminate. Qed.

Definition ref_supply (k : nat) (_ : @pool_ptr ref_mempool) (w : @rte ref_mempool) : Prop :=
  (k <= rw_free w)%nat.

Lemma injection_starves_rx_witness :
  exists d' w',
    run_calls (replicate 100 (CReceive None)) (dev0 1 (replicate 63 (packet [x01])) []) (arp_world 4 [packet [x02]] 4)
      = Ret (d', w') /\ take 63 (rx_batch d') = replicate 63 (packet [x01]) /\
    (forall port q, rx_polls port q (w_rte w') = 0).
Proof.
  destruct (injection_starves_rx ref_supply) with
    (d := dev0 1 (replicate 63 (packet [x01])) []) (w := arp_world 4 [packet [x02]] 4) (k := 100%nat)
    as (d' & w' & E & _ & Ht & Hp).
  - unfold ref_supply. intros k p r Hk. simpl in *. destruct (rw_free r) as [|n]; [lia|].
    eexists _, _. split; [reflexivity | simpl; lia].
  - unfold ref_supply. intros k p m r Hk. simpl in *. lia.
  - unfold ref_supply. intros k p port q pkts r Hk. simpl in *. lia.
  - split; [by apply dev0_wf | apply dev0_fits | done | done | by eexists | by eexists | by eexists
           | vm_compute; discriminate | vm_compute; lia..].
  - exists d', w'. split; [exact E|]. split; [exact Ht | exact Hp].
Defined.

Lemma device_calls_safe_witness :
  let cs := [CReceive (Some (60, id)); CTransmit (Some (1500, id)); CInject [x01]; CReceive None; CFlush] in
  let w := arp_world 4 [packet [x02]; packet [x03]] 1 in
  exists d' w', run_calls cs (dev0 0 [] []) w = Ret (d', w') /\ dev_wf d' /\ loose_mbufs d' w' = 0.
Proof.
  intros cs w.
  assert (Hs := device_calls_safe (dev0 0 [] []) w cs (dev0_wf 0 [] [] eq_refl) (dev0_fits 0 [] [] 4 _ 1)
    ltac:(repeat constructor; simpl; try done; unfold max_transmission_unit; simpl; lia)).
  assert (Hr : match run_calls cs (dev0 0 [] []) w with Ret _ => true | _ => false end = true)
    by (vm_compute; reflexivity).
  destruct (run_calls cs (dev0 0 [] []) w) as [[d' w']| |]; [|discriminate Hr..].
  destruct Hs as (Hd & Hl & _). exists d', w'. split; [reflexivity|]. split; [exact Hd | exact Hl].
Defined.


Lemma receive_reply_panics_witness :
  run_call (CReceive (Some (60, id))) (dev0 0 [packet [x01]] (replicate 256 (packet [x02]))) (arp_world 4 [] 0) = Panic.
Proof.
  eapply receive_reply_panics.
  - by apply dev0_wf.
  - apply dev0_fits.
  - unfold max_transmission_unit; simpl; lia.
  - reflexivity.
  - reflexivity.
  - eexists _, _. reflexivity.
Defined.

Lemma burst_delivered_in_reverse_witness :
  let l := [packet [x01]; packet [x02]; packet [x03]] in
  exists d' w', drain 3 (dev0 0 l []) (arp_world 4 [] 0) = Ret ([packet [x03]; packet [x02]; packet [x01]], d', w') /\
    rx_batch d' = [].
Proof.
  intros l. apply (burst_delivered_in_reverse (dev0 0 l []) (arp_world 4 [] 0)); [by apply dev0_wf | by left].
Defined.

Lemma inject_records_version_after_all_witness :
  exists d' w', inject_from_shared_cache (dev0 1 [packet [x01]] []) (arp_world 4 [] 0) = Ret (d', w') /\
    last_cache_version d' = 2 /\ exists m, m ∈ rx_batch d' /\ carries_reply m ip_c mac_b.
Proof.
  eexists _, _. split; [reflexivity|]. split; [reflexivity|].
  edestruct (inject_records_version_after_all (dev0 1 [packet [x01]] []) (arp_world 4 [] 0))
    as (new & Hnew & _ & Hv); [by apply dev0_wf | reflexivity |].
  destruct Hv as [Hv | [_ Hv]]; [discriminate Hv|].
  destruct (Hv ip_c mac_b eq_refl) as (m & Hm & Hc). exists m. split; [|exact Hc].
  rewrite Hnew. apply elem_of_app. by right.
Defined.

Lemma scan_learns_replies_witness :
  exists c', scan_arp [packet [x01]; packet (arp_reply_frame mac_a ip_a mac_b ip_b)] ArpCache.new = Ret c' /\
    get c' ip_b = Some mac_b.
Proof.
  destruct (scan_learns_replies [packet [x01]; packet (arp_reply_frame mac_a ip_a mac_b ip_b)] ArpCache.new)
    as (c' & E & _ & Hg); [by apply forallb_wf|].
  exists c'. split; [exact E|]. rewrite Hg. reflexivity.
Defined.

End Device.
