(* ===== verification/SpmcArp.v ===== *)
(** * Concurrent use of the shared ARP cache ([dpdk-net/src/device/arp_cache.rs])

    The producer (queue 0) and the consumers (other queues) run on different
    cores and share two atomic locations: the map behind the [ArcSwap] and the
    version counter.  Here [SharedArpCache::insert] and
    [inject_from_shared_cache] are split at their atomic accesses and
    interleaved.  A location is the list of values stored to it; a load returns
    one of them, never an older one than the thread has already seen.  The
    [mode] says which stale values a load may return: the newest only ([SC]),
    or any, where reading the version does ([RA], an [Acquire] load) or does
    not ([Rlx], a [Relaxed] load) transfer what the producer stored to the map
    before it bumped the version. *)

From stdpp Require Import base gmap list fin_maps.
From Stdlib Require Import ZArith Strings.Byte Lia.
From S2P Require Import Prelude ArpCache.

Module SpmcArp.
Import ArpCache.

Inductive mode := SC | RA | Rlx.

Abbreviation arp_map := (gmap Ipv4Addr MacAddress).

(** Where [insert] is: not running, past the load of the current map, or
    about to bump the version. *)
Inductive wpc :=
  | WIdle
  | WLoaded (ip : Ipv4Addr) (mac : MacAddress) (current : arp_map)
  | WBump.

(** Where [inject_from_shared_cache] is: not running, past the version check,
    or past the snapshot.  [t] and [i] are positions in the histories. *)
Inductive rpc :=
  | RIdle
  | RChecked (current_version : Z) (t : nat)
  | RInjecting (current_version : Z) (t i : nat).

(** A consumer: what it has seen of both locations, [last_cache_version], and
    which version and snapshot it last recorded. *)
Record reader := mk_reader {
  r_pc : rpc;
  r_map_view : nat;
  r_ver_view : nat;
  last_cache_version : Z;
  rec_version : nat;
  rec_map : nat
}.

Record state := mk_state {
  maps : list arp_map;
  versions : list (Z * nat);   (* value, newest map stored before it *)
  writer : wpc;
  readers : list reader
}.

Definition reader0 : reader := mk_reader RIdle 0 0 0 0 0.
Definition init (n : nat) : state := mk_state [∅] [(0%Z, 0)] WIdle (replicate n reader0).

Definition cur_map (s : state) : option arp_map := last (maps s).
Definition cur_version (s : state) : option Z := fst <$> last (versions s).

(** The cache value a thread that has seen everything reads. *)
Definition cache_of (s : state) : option SharedArpCache :=
  m ← cur_map s; v ← cur_version s; Some {| inner := m; version := v |}.

Definition may_read (md : mode) (lo n t : nat) : Prop :=
  match md with SC => t + 1 = n | _ => lo <= t < n end.

(** ** Producer steps *)
Inductive wstep : state -> state -> Prop :=
  | w_load s ip mac m : writer s = WIdle -> cur_map s = Some m ->
      wstep s (mk_state (maps s) (versions s) (WLoaded ip mac m) (readers s))
  | w_same s ip mac m : writer s = WLoaded ip mac m -> m !! ip = Some mac ->
      wstep s (mk_state (maps s) (versions s) WBump (readers s))
  | w_store s ip mac m : writer s = WLoaded ip mac m -> m !! ip <> Some mac ->
      wstep s (mk_state (maps s ++ [<[ip := mac]> m]) (versions s) WBump (readers s))
  | w_bump s v : writer s = WBump -> cur_version s = Some v ->
      wstep s (mk_state (maps s) (versions s ++ [(as_usize (v + 1), length (maps s) - 1)]) WIdle (readers s)).

(** ** Consumer steps *)
Inductive rstep (md : mode) (ms : list arp_map) (vs : list (Z * nat)) : reader -> reader -> Prop :=
  | r_version r t v view : r_pc r = RIdle -> may_read md (r_ver_view r) (length vs) t -> vs !! t = Some (v, view) ->
      rstep md ms vs r
        (mk_reader (if (v =? last_cache_version r)%Z then RIdle else RChecked v t)
           (match md with RA => Nat.max (r_map_view r) view | _ => r_map_view r end) t
           (last_cache_version r) (rec_version r) (rec_map r))
  | r_snapshot r v t i : r_pc r = RChecked v t -> may_read md (r_map_view r) (length ms) i ->
      rstep md ms vs r
        (mk_reader (RInjecting v t i) i (r_ver_view r) (last_cache_version r) (rec_version r) (rec_map r))
  | r_record r v t i : r_pc r = RInjecting v t i ->
      rstep md ms vs r (mk_reader RIdle (r_map_view r) (r_ver_view r) v t i)
  | r_abort r v t i : r_pc r = RInjecting v t i ->
      rstep md ms vs r
        (mk_reader RIdle (r_map_view r) (r_ver_view r) (last_cache_version r) (rec_version r) (rec_map r)).

Inductive step (md : mode) : state -> state -> Prop :=
  | s_writer s s' : wstep s s' -> step md s s'
  | s_reader s k r r' : readers s !! k = Some r -> rstep md (maps s) (versions s) r r' ->
      step md s (mk_state (maps s) (versions s) (writer s) (<[k := r']> (readers s))).

Definition reachable (md : mode) (n : nat) : state -> Prop := rtc (step md) (init n).

(** ** Invariant *)

Record hist_inv (s : state) : Prop := {
  hi_maps : maps s <> [];
  hi_vers : forall t v view, versions s !! t = Some (v, view) ->
    v = as_usize (Z.of_nat t) /\ view < length (maps s);
  hi_nonempty : versions s <> [];
  hi_idle : writer s <> WBump -> forall v view, last (versions s) = Some (v, view) -> view + 1 = length (maps s);
  hi_loaded : forall ip mac m, writer s = WLoaded ip mac m -> cur_map s = Some m
}.

(** The snapshot at [i] contains all that was stored before version [t]. *)
Definition covers (vs : list (Z * nat)) (t i : nat) : Prop :=
  exists v view, vs !! t = Some (v, view) /\ view <= i.

Record reader_inv (md : mode) (nm : nat) (vs : list (Z * nat)) (r : reader) : Prop := {
  ri_rec : covers vs (rec_version r) (rec_map r);
  ri_last : last_cache_version r = as_usize (Z.of_nat (rec_version r));
  ri_maps : rec_map r < nm;
  ri_pc : match r_pc r with
          | RIdle => True
          | RChecked v t => v = as_usize (Z.of_nat t) /\ (md = SC \/ covers vs t (r_map_view r)) /\ is_Some (vs !! t)
          | RInjecting v t i => v = as_usize (Z.of_nat t) /\ covers vs t i /\ i < nm
          end
}.

Definition inv (md : mode) (s : state) : Prop :=
  hist_inv s /\ Forall (reader_inv md (length (maps s)) (versions s)) (readers s).

Lemma covers_app vs l t i : covers vs t i -> covers (vs ++ l) t i.
Proof. intros (v & view & Ht & Hi). exists v, view. split; [by apply lookup_app_l_Some | done]. Qed.

Lemma covers_mono vs t i j : i <= j -> covers vs t i -> covers vs t j.
Proof. intros Hij (v & view & Ht & Hi). exists v, view. split; [done | lia]. Qed.

Lemma reader_inv_mono md n n' vs l r : n <= n' -> reader_inv md n vs r -> reader_inv md n' (vs ++ l) r.
Proof.
  intros Hn [Hr Hl Hm Hpc]. split; [by apply covers_app | done | lia |].
  destruct (r_pc r); [done|..].
  - destruct Hpc as (? & [?|?] & [x ?]); split_and!; eauto using covers_app;
      eexists; by apply lookup_app_l_Some.
  - destruct Hpc as (? & ? & ?); split_and!; eauto using covers_app. lia.
Qed.

Lemma init_inv md n : inv md (init n).
Proof.
  split.
  - split; simpl; try done; try lia.
    + intros [|t] v view Ht; simplify_eq/=. split; [done | lia].
    + intros _ v view [= <- <-]. done.
  - apply Forall_replicate. split; simpl; try done; [|lia]. by exists 0%Z, 0.
Qed.

Lemma last_index {A} (l : list A) x : last l = Some x -> l !! (length l - 1) = Some x /\ 0 < length l.
Proof.
  intros Hl. destruct l as [|y l] using rev_ind; [done|]. rewrite last_snoc in Hl. simplify_eq.
  rewrite length_app. simpl. split; [|lia]. replace (_ - 1) with (length l) by lia. by apply list_lookup_middle.
Qed.

Lemma wrap_succ t : as_usize (as_usize (Z.of_nat t) + 1) = as_usize (Z.of_nat (S t)).
Proof. unfold as_usize, wrap. rewrite Zplus_mod_idemp_l. f_equal. lia. Qed.

Lemma wstep_hist s s' : hist_inv s -> wstep s s' -> hist_inv s'.
Proof.
  intros [Hm Hv Hne Hi Hl] Hs. destruct Hs as [s ip mac m Hw Hc|s ip mac m Hw Hc|s ip mac m Hw Hc|s v Hw Hc].
  - split; simpl; try done.
    + intros _. apply Hi. by rewrite Hw.
    + intros ? ? ? [= <- <- <-]. done.
  - by split.
  - split; simpl; try done.
    + by destruct (maps s).
    + intros t v view Ht. rewrite length_app. simpl. destruct (Hv _ _ _ Ht). split; [done | lia].
  - unfold cur_version in Hc. destruct (last (versions s)) as [[v' view]|] eqn:El; simplify_eq/=.
    destruct (last_index _ _ El) as [Ht Hpos]. destruct (Hv _ _ _ Ht) as [-> _].
    split; simpl; try done.
    + intros t v view' Ht'. apply lookup_snoc_Some in Ht' as [[_ Ht'] | [-> [= <- <-]]]; [by eapply Hv|].
      rewrite wrap_succ. split; [do 2 f_equal; lia|]. destruct (maps s); simpl; [done | lia].
    + by destruct (versions s).
    + intros _ v view'. rewrite last_snoc. intros [= _ <-]. destruct (maps s); simpl; [done | lia].
Qed.

Lemma wstep_grows s s' : wstep s s' ->
  readers s' = readers s /\ length (maps s) <= length (maps s') /\ exists l, versions s' = versions s ++ l.
Proof.
  intros []; simpl; rewrite ?length_app; (split; [done|]); (split; [lia|]);
    eauto; exists []; by rewrite app_nil_r.
Qed.

Lemma may_read_lt md lo n t : may_read md lo n t -> t < n.
Proof. destruct md; simpl; lia. Qed.

Lemma rstep_inv md s r r' : md <> Rlx -> hist_inv s -> reader_inv md (length (maps s)) (versions s) r ->
  rstep md (maps s) (versions s) r r' -> reader_inv md (length (maps s)) (versions s) r'.
Proof.
  intros Hmd Hh [Hr Hl Hm Hpc] Hs. destruct Hs as [r t v view E Ht Hv|r v t i E Hi|r v t i E|r v t i E];
    rewrite E in Hpc; split; simpl; try done.
  - destruct (Z.eqb_spec v (last_cache_version r)); [done|].
    destruct (hi_vers _ Hh _ _ _ Hv) as [-> Hlt]. split_and!; [done | | eauto].
    destruct md; [by left | right | done]. exists (as_usize (Z.of_nat t)), view. split; [done | lia].
  - destruct Hpc as (-> & Hc & [[v0 view] Hv]). split_and!; [done | | by eapply may_read_lt].
    destruct md; simpl in Hi; [| | done].
    + destruct (hi_vers _ Hh _ _ _ Hv). exists v0, view. split; [done | lia].
    + destruct Hc as [|Hc]; [done|]. eapply covers_mono; [|done]. lia.
  - apply Hpc.
  - apply Hpc.
  - apply Hpc.
Qed.

Lemma step_inv md s s' : md <> Rlx -> inv md s -> step md s s' -> inv md s'.
Proof.
  intros Hmd [Hh Hr] Hs. destruct Hs as [s s' Hw|s k r r' Hk Hrs].
  - split; [by eapply wstep_hist|]. destruct (wstep_grows _ _ Hw) as (-> & Hn & l & ->).
    eapply Forall_impl; [exact Hr|]. intros r. by apply reader_inv_mono.
  - split; [by destruct Hh; split|]. apply Forall_insert; [done|]. simpl.
    eapply rstep_inv; try done. eapply Forall_lookup_1; [exact Hr | done].
Qed.

Lemma reachable_inv md n s : md <> Rlx -> reachable md n s -> inv md s.
Proof.
  intros Hmd Hs. assert (Hi := init_inv md n). revert Hi.
  induction Hs as [|x y z Hxy _ IH]; [done|]. intros Hx. by eapply IH, step_inv.
Qed.

Lemma as_usize_inj a b : (Z.of_nat a < 2 ^ 64)%Z -> (Z.of_nat b < 2 ^ 64)%Z ->
  as_usize (Z.of_nat a) = as_usize (Z.of_nat b) -> a = b.
Proof. intros. unfold as_usize in *. rewrite !wrap_small in * by lia. lia. Qed.


(** The producer run without interference performs [ArpCache.insert]. *)
Lemma writer_run_insert s ip mac c : writer s = WIdle -> cache_of s = Some c ->
  exists s', rtc wstep s s' /\ writer s' = WIdle /\ cache_of s' = Some (insert c ip mac).
Proof.
  unfold cache_of. intros Hw Hc. destruct (cur_map s) as [m|] eqn:Em; [|done].
  destruct (cur_version s) as [v|] eqn:Ev; simplify_eq/=.
  unfold insert. simpl. case_decide as Hs.
  - eexists. split.
    { eapply rtc_l; [by apply (w_load s ip mac m)|]. eapply rtc_l; [by apply (w_same _ ip mac m)|].
      eapply rtc_l; [by apply (w_bump _ v) | apply rtc_refl]. }
    split; [done|]. unfold cur_version, cur_map in *. simpl. by rewrite Em, last_snoc.
  - eexists. split.
    { eapply rtc_l; [by apply (w_load s ip mac m)|]. eapply rtc_l; [by apply (w_store _ ip mac m)|].
      eapply rtc_l; [by apply (w_bump _ v) | apply rtc_refl]. }
    split; [done|]. unfold cur_version, cur_map in *. simpl. by rewrite !last_snoc.
Qed.

(** The atomic steps of the producer implement the cache operation
    [insert]: run without another producer they lead from a cache value to the
    one after [insert], and only the last of them makes the version visible. *)
Theorem producer_refines_insert s ip mac c (Hw : writer s = WIdle) (Hc : cache_of s = Some c) :
  exists s', rtc wstep s s' /\ writer s' = WIdle /\ cache_of s' = Some (insert c ip mac) /\
    readers s' = readers s.
Proof.
  destruct (writer_run_insert s ip mac c Hw Hc) as (s' & Hr & ? & ?). exists s'. split_and!; try done.
  clear -Hr. induction Hr as [|x y z Hxy _ IH]; [done|]. rewrite IH. apply (wstep_grows _ _ Hxy).
Qed.

Definition ip_x := ipv4 x0a x00 x00 x01.
Definition mac_x := mac6 x02 x00 x00 x00 x00 x01.

(** C36: with the [Relaxed] load of the version that the code performs, the
    memory model allows an update to be lost: a consumer reads the new version
    and then an older map, records the version with nothing injected, and finds
    "no change" from then on although the producer has finished its insert. *)
Theorem relaxed_version_loses_update :
  exists s r, reachable Rlx 1 s /\ readers s !! 0 = Some r /\ writer s = WIdle /\
    cur_version s = Some (last_cache_version r) /\
    maps s !! rec_map r = Some ∅ /\ cur_map s = Some {[ip_x := mac_x]}.
Proof.
  set (m1 := {[ip_x := mac_x]} : arp_map).
  set (s1 := mk_state [∅; m1] [(0%Z, 0); (1%Z, 1)] WIdle).
  eexists (s1 [mk_reader RIdle 0 1 1 1 0]), _. split; [|by rewrite ?list_lookup_singleton].
  unfold reachable.
  eapply rtc_l; [apply s_writer, (w_load _ ip_x mac_x ∅); done|].
  eapply rtc_l; [apply s_writer, (w_store _ ip_x mac_x ∅); done|].
  eapply rtc_l; [apply s_writer, (w_bump _ 0); done|]. simpl.
  change (as_usize (0 + 1)) with 1%Z. rewrite insert_empty.
  eapply rtc_l; [apply (s_reader _ _ 0 reader0 (mk_reader (RChecked 1 1) 0 1 0 0 0)); [done|];
    apply (r_version Rlx _ _ reader0 1 1 1); simpl; done || lia|]. simpl.
  eapply rtc_l; [apply (s_reader _ _ 0 (mk_reader (RChecked 1 1) 0 1 0 0 0) (mk_reader (RInjecting 1 1 0) 0 1 0 0 0)); [done|];
    apply (r_snapshot Rlx _ _ (mk_reader (RChecked 1 1) 0 1 0 0 0) 1 1 0); simpl; done || lia|]. simpl.
  eapply rtc_l; [apply (s_reader _ _ 0 (mk_reader (RInjecting 1 1 0) 0 1 0 0 0) (mk_reader RIdle 0 1 1 1 0)); [done|];
    by apply (r_record Rlx _ _ (mk_reader (RInjecting 1 1 0) 0 1 0 0 0) 1 1 0)|].
  apply rtc_refl.
Qed.

(** An insert followed by an injection. *)
Definition synced : state :=
  mk_state [∅; {[ip_x := mac_x]}] [(0%Z, 0); (1%Z, 1)] WIdle [mk_reader RIdle 1 1 1 1 1].

Lemma synced_reachable : reachable RA 1 synced.
Proof.
  unfold reachable.
  eapply rtc_l; [apply s_writer, (w_load _ ip_x mac_x ∅); done|].
  eapply rtc_l; [apply s_writer, (w_store _ ip_x mac_x ∅); done|].
  eapply rtc_l; [apply s_writer, (w_bump _ 0); done|]. simpl.
  change (as_usize (0 + 1)) with 1%Z. rewrite insert_empty.
  eapply rtc_l; [apply (s_reader _ _ 0 reader0 (mk_reader (RChecked 1 1) 1 1 0 0 0)); [done|];
    apply (r_version RA _ _ reader0 1 1 1); simpl; done || lia|]. simpl.
  eapply rtc_l; [apply (s_reader _ _ 0 (mk_reader (RChecked 1 1) 1 1 0 0 0) (mk_reader (RInjecting 1 1 1) 1 1 0 0 0)); [done|];
    apply (r_snapshot RA _ _ (mk_reader (RChecked 1 1) 1 1 0 0 0) 1 1 1); simpl; done || lia|]. simpl.
  eapply rtc_l; [apply (s_reader _ _ 0 (mk_reader (RInjecting 1 1 1) 1 1 0 0 0) (mk_reader RIdle 1 1 1 1 1)); [done|];
    by apply (r_record RA _ _ (mk_reader (RInjecting 1 1 1) 1 1 0 0 0) 1 1 1)|].
  apply rtc_refl.
Qed.


Lemma producer_refines_insert_witness :
  exists s', rtc wstep (init 1) s' /\ writer s' = WIdle /\
    cache_of s' = Some (insert new ip_x mac_x) /\ readers s' = readers (init 1).
Proof. apply (producer_refines_insert (init 1) ip_x mac_x new); done. Defined.

End SpmcArp.
