(* ===== verification/Smoltcp.v ===== *)
(** * What dpdk-net uses of smoltcp

    smoltcp is a library outside this repository.  [Smoltcp] lists the types
    and calls that [runtime/reactor.rs], [socket/tcp.rs] and [socket/udp.rs]
    use; [SmoltcpLaws] states the documented behaviour they rely on:
    [SocketSet] handles name sockets until removed, [send_slice] takes a prefix
    of the data in order, wakers are stored in the socket, polling the interface
    neither creates, removes nor retypes sockets and uses the device only
    through the [Device] trait.  A small reference stack instantiates the laws. *)

From stdpp Require Import base gmap list fin_maps.
From Stdlib Require Import ZArith Strings.Byte Lia.
From S2P Require Import Prelude Mbuf Pktmbuf Queue ArpCache Device.

Local Open Scope Z_scope.

(** [smoltcp::socket::tcp::State] *)
Inductive TcpState :=
  | Closed | Listen | SynSent | SynReceived | Established | FinWait1 | FinWait2
  | CloseWait | Closing | LastAck | TimeWait.
#[export] Instance TcpState_eq_dec : EqDecision TcpState.
Proof. solve_decision. Defined.

Inductive ListenError := ListenInvalidState | ListenUnaddressable.
Inductive ConnectError := ConnectInvalidState | ConnectUnaddressable.
Inductive RecvError := RecvInvalidState | RecvFinished.
Inductive SendError := SendInvalidState.
Inductive BindError := BindInvalidState | BindUnaddressable.
Inductive UdpRecvError := Exhausted | Truncated.
Inductive UdpSendError := Unaddressable | BufferFull.

(** [PollIngressSingleResult] *)
Inductive PollIngressSingleResult := PollNone | PacketProcessed | SocketStateChanged.

(** [SocketHandle] is an index; it is only compared and looked up. *)
Abbreviation SocketHandle := nat.
Record IpEndpoint := mk_endpoint { ep_addr : Ipv4Addr; ep_port : Z }.

#[export] Instance IpEndpoint_eq_dec : EqDecision IpEndpoint.
Proof. solve_decision. Defined.

(** Wakers are opaque names. *)
Abbreviation Waker := nat.

Class Smoltcp `{PktMbuf} `{EthBurst} `{HashMapIter} := {
  tcp_sock : Type;
  tcp_new : Z -> Z -> tcp_sock;
  tcp_state : tcp_sock -> TcpState;
  tcp_is_active : tcp_sock -> bool;
  tcp_send_queue : tcp_sock -> Z;
  tcp_listen : Z -> tcp_sock -> Result tcp_sock ListenError;
  tcp_close : tcp_sock -> tcp_sock;
  tcp_abort : tcp_sock -> tcp_sock;
  tcp_recv_slice : nat -> tcp_sock -> Result (list byte) RecvError * tcp_sock;
  tcp_send_slice : list byte -> tcp_sock -> Result nat SendError * tcp_sock;
  tcp_register_recv_waker : Waker -> tcp_sock -> tcp_sock;
  tcp_register_send_waker : Waker -> tcp_sock -> tcp_sock;
  (* observations: the bytes accepted for sending and handed out so far, the
     registered wakers *)
  tcp_accepted : tcp_sock -> list byte;
  tcp_delivered : tcp_sock -> list byte;
  tcp_recv_waker : tcp_sock -> option Waker;
  tcp_send_waker : tcp_sock -> option Waker;

  udp_sock : Type;
  udp_new : Z -> Z -> Z -> Z -> udp_sock;
  udp_is_open : udp_sock -> bool;
  udp_endpoint : udp_sock -> option Ipv4Addr * Z;
  udp_bind : Z -> udp_sock -> Result udp_sock BindError;
  udp_close : udp_sock -> udp_sock;
  udp_send_slice : list byte -> IpEndpoint -> udp_sock -> Result unit UdpSendError * udp_sock;
  udp_recv_slice : nat -> udp_sock -> Result (list byte * IpEndpoint) UdpRecvError * udp_sock;
  udp_register_recv_waker : Waker -> udp_sock -> udp_sock;
  udp_register_send_waker : Waker -> udp_sock -> udp_sock;
  udp_recv_waker : udp_sock -> option Waker;
  udp_send_waker : udp_sock -> option Waker;

  SocketSet : Type;
  set_new : SocketSet;
  set_get : SocketSet -> SocketHandle -> option (tcp_sock + udp_sock);
  set_add : (tcp_sock + udp_sock) -> SocketSet -> SocketHandle * SocketSet;
  set_put : SocketHandle -> (tcp_sock + udp_sock) -> SocketSet -> SocketSet;
  set_remove : SocketHandle -> SocketSet -> SocketSet;

  Interface : Type;
  iface_ip_addrs : Interface -> list Ipv4Addr;
  tcp_connect : Interface -> IpEndpoint -> Z -> tcp_sock -> Result tcp_sock ConnectError;
  iface_poll_ingress_single : Z -> Interface -> SocketSet -> Device.DpdkDevice -> Device.World ->
    Exec (PollIngressSingleResult * Interface * SocketSet * Device.DpdkDevice * Device.World);
  iface_poll_egress : Z -> Interface -> SocketSet -> Device.DpdkDevice -> Device.World ->
    Exec (Interface * SocketSet * Device.DpdkDevice * Device.World)
}.

Section Kinds.
Context `{Smoltcp}.

Definition is_tcp (s : tcp_sock + udp_sock) : bool := match s with inl _ => true | inr _ => false end.
(** Which handles are live, and of which kind. *)
Definition kind (ss : SocketSet) (h : SocketHandle) : option bool := is_tcp <$> set_get ss h.
Definition same_kinds (ss ss' : SocketSet) : Prop := forall h, kind ss' h = kind ss h.

(** An outcome of polling the interface is one of a sequence of calls of the
    device trait whose frames respect the advertised MTU. *)
Definition by_calls {A} (dw : A -> Device.DpdkDevice * Device.World) (d : Device.DpdkDevice) (w : Device.World)
    (e : Exec A) : Prop :=
  exists cs, Forall (Device.call_ok d) cs /\
    match e with
    | Ret a => Device.run_calls cs d w = Ret (dw a)
    | Panic => Device.run_calls cs d w = Panic
    | UB => Device.run_calls cs d w = UB
    end.
End Kinds.

Class SmoltcpLaws `{Smoltcp} : Prop := {
  send_slice_spec : forall data s n s', tcp_send_slice data s = (Ok n, s') ->
    (n <= length data)%nat /\ tcp_accepted s' = tcp_accepted s ++ take n data;
  send_slice_err : forall data s e s', tcp_send_slice data s = (Err e, s') -> s' = s;
  recv_slice_spec : forall len s bs s', tcp_recv_slice len s = (Ok bs, s') ->
    (length bs <= len)%nat /\ tcp_delivered s' = tcp_delivered s ++ bs;
  recv_slice_err : forall len s e s', tcp_recv_slice len s = (Err e, s') -> s' = s;
  abort_state : forall s, tcp_state (tcp_abort s) = Closed;
  listen_state : forall p s s', tcp_listen p s = Ok s' -> tcp_state s' = Listen;
  recv_waker_set : forall w s, tcp_recv_waker (tcp_register_recv_waker w s) = Some w;
  send_waker_set : forall w s, tcp_send_waker (tcp_register_send_waker w s) = Some w;
  recv_waker_accepted : forall w s, tcp_accepted (tcp_register_recv_waker w s) = tcp_accepted s;
  send_waker_accepted : forall w s, tcp_accepted (tcp_register_send_waker w s) = tcp_accepted s;
  recv_waker_state : forall w s, tcp_state (tcp_register_recv_waker w s) = tcp_state s;
  send_waker_state : forall w s, tcp_state (tcp_register_send_waker w s) = tcp_state s;
  udp_recv_waker_set : forall w s, udp_recv_waker (udp_register_recv_waker w s) = Some w;
  udp_send_waker_set : forall w s, udp_send_waker (udp_register_send_waker w s) = Some w;

  set_get_new : forall h, set_get set_new h = None;
  set_add_spec : forall s ss h ss', set_add s ss = (h, ss') ->
    set_get ss h = None /\ forall h', set_get ss' h' = if decide (h' = h) then Some s else set_get ss h';
  set_put_spec : forall h s ss h', is_Some (set_get ss h) ->
    set_get (set_put h s ss) h' = if decide (h' = h) then Some s else set_get ss h';
  set_remove_spec : forall h ss h', set_get (set_remove h ss) h' = if decide (h' = h) then None else set_get ss h';

  ingress_kinds : forall t i ss d w r i' ss' d' w',
    iface_poll_ingress_single t i ss d w = Ret (r, i', ss', d', w') -> same_kinds ss ss';
  egress_kinds : forall t i ss d w i' ss' d' w',
    iface_poll_egress t i ss d w = Ret (i', ss', d', w') -> same_kinds ss ss';
  ingress_calls : forall t i ss d w,
    by_calls (fun '(_, _, _, d', w') => (d', w')) d w (iface_poll_ingress_single t i ss d w);
  egress_calls : forall t i ss d w,
    by_calls (fun '(_, _, d', w') => (d', w')) d w (iface_poll_egress t i ss d w)
}.

(** Setting up an interface: [Interface::new],
    a push to its bounded list of addresses and the default route, the last two
    with their failures. *)
Class SmoltcpSetup `{Smoltcp} (Dev : Type) := {
  iface_new : MacAddress -> Dev -> Z -> Interface * Dev;
  push_ip_addr : Ipv4Addr -> Z -> Interface -> option Interface;
  add_default_ipv4_route : Ipv4Addr -> Interface -> option Interface
}.

(** ** A reference stack

    Sockets with bounded buffers whose peer is silent; handles are never
    reused; polling the interface makes one device call. *)
Module RefStack.

Record rtcp := mk_rtcp {
  rt_state : TcpState;
  rt_cap : nat;
  rt_accepted : list byte;
  rt_rx : list byte;
  rt_delivered : list byte;
  rt_rw : option Waker;
  rt_sw : option Waker
}.

Record rudp := mk_rudp {
  ru_port : Z;
  ru_slots : nat;
  ru_rx : list (list byte * IpEndpoint);
  ru_rw : option Waker;
  ru_sw : option Waker
}.

Definition with_state (st : TcpState) (s : rtcp) : rtcp :=
  mk_rtcp st (rt_cap s) (rt_accepted s) (rt_rx s) (rt_delivered s) (rt_rw s) (rt_sw s).

Definition send_slice (data : list byte) (s : rtcp) : Result nat SendError * rtcp :=
  match rt_state s with
  | Established | CloseWait =>
      let n := Nat.min (length data) (rt_cap s - length (rt_accepted s)) in
      (Ok n, mk_rtcp (rt_state s) (rt_cap s) (rt_accepted s ++ take n data) (rt_rx s) (rt_delivered s) (rt_rw s) (rt_sw s))
  | _ => (Err SendInvalidState, s)
  end.

Definition recv_slice (len : nat) (s : rtcp) : Result (list byte) RecvError * rtcp :=
  match rt_state s with
  | Established | FinWait1 | FinWait2 =>
      (Ok (take len (rt_rx s)),
       mk_rtcp (rt_state s) (rt_cap s) (rt_accepted s) (drop len (rt_rx s)) (rt_delivered s ++ take len (rt_rx s)) (rt_rw s) (rt_sw s))
  | CloseWait => (Err RecvFinished, s)
  | _ => (Err RecvInvalidState, s)
  end.

#[local] Existing Instance Mbuf.ref_pktmbuf.
#[local] Existing Instance Mbuf.ref_pktmbuf_laws.
#[local] Existing Instance Queue.ref_mempool.
#[local] Existing Instance Queue.ref_burst.
#[local] Existing Instance Queue.ref_mempool_laws.
#[local] Existing Instance Queue.ref_burst_laws.
#[local] Existing Instance Device.ref_hm_iter.

#[export] Instance ref_smoltcp : Smoltcp := {|
  tcp_sock := rtcp;
  tcp_new _ tx := mk_rtcp Closed (Z.to_nat tx) [] [] [] None None;
  tcp_state := rt_state;
  tcp_is_active s := if decide (rt_state s = Closed) then false else true;
  tcp_send_queue s := zlen (rt_accepted s);
  tcp_listen p s := if p =? 0 then Err ListenUnaddressable
                    else if decide (rt_state s = Closed) then Ok (with_state Listen s) else Err ListenInvalidState;
  tcp_close s := with_state (match rt_state s with Established => FinWait1 | CloseWait => LastAck
                             | Listen | SynSent => Closed | st => st end) s;
  tcp_abort s := with_state Closed s;
  tcp_recv_slice := recv_slice;
  tcp_send_slice := send_slice;
  tcp_register_recv_waker w s := mk_rtcp (rt_state s) (rt_cap s) (rt_accepted s) (rt_rx s) (rt_delivered s) (Some w) (rt_sw s);
  tcp_register_send_waker w s := mk_rtcp (rt_state s) (rt_cap s) (rt_accepted s) (rt_rx s) (rt_delivered s) (rt_rw s) (Some w);
  tcp_accepted := rt_accepted;
  tcp_delivered := rt_delivered;
  tcp_recv_waker := rt_rw;
  tcp_send_waker := rt_sw;
  udp_sock := rudp;
  udp_new _ _ txm _ := mk_rudp 0 (Z.to_nat txm) [] None None;
  udp_is_open s := negb (ru_port s =? 0);
  udp_endpoint s := (None, ru_port s);
  udp_bind p s := if p =? 0 then Err BindUnaddressable else Ok (mk_rudp p (ru_slots s) (ru_rx s) (ru_rw s) (ru_sw s));
  udp_close s := mk_rudp 0 (ru_slots s) [] (ru_rw s) (ru_sw s);
  udp_send_slice _ _ s :=
    match ru_slots s with
    | O => (Err BufferFull, s)
    | S n => (Ok tt, mk_rudp (ru_port s) n (ru_rx s) (ru_rw s) (ru_sw s))
    end;
  udp_recv_slice len s :=
    match ru_rx s with
    | [] => (Err Exhausted, s)
    | (bs, ep) :: rest =>
        (if (length bs <=? len)%nat then Ok (bs, ep) else Err Truncated,
         mk_rudp (ru_port s) (ru_slots s) rest (ru_rw s) (ru_sw s))
    end;
  udp_register_recv_waker w s := mk_rudp (ru_port s) (ru_slots s) (ru_rx s) (Some w) (ru_sw s);
  udp_register_send_waker w s := mk_rudp (ru_port s) (ru_slots s) (ru_rx s) (ru_rw s) (Some w);
  udp_recv_waker := ru_rw;
  udp_send_waker := ru_sw;
  SocketSet := list (option (rtcp + rudp));
  set_new := [];
  set_get ss h := mjoin (ss !! h);
  set_add s ss := (length ss, ss ++ [Some s]);
  set_put h s ss := <[h := Some s]> ss;
  set_remove h ss := <[h := None]> ss;
  Interface := list Ipv4Addr;
  iface_ip_addrs i := i;
  tcp_connect _ ep p s := if p =? 0 then Err ConnectUnaddressable else Ok (with_state SynSent s);
  iface_poll_ingress_single _ i ss d w :=
    '(d', w') ← Device.run_calls [Device.CReceive None] d w;
    Ret (match Device.rx_batch d' with [] => PollNone | _ => PacketProcessed end, i, ss, d', w');
  iface_poll_egress _ i ss d w := '(d', w') ← Device.run_calls [Device.CFlush] d w; Ret (i, ss, d', w')
|}.

#[export] Instance ref_smoltcp_laws : SmoltcpLaws.
Proof.
  split; simpl; try done.
  - unfold send_slice. intros data s n s' E. destruct (rt_state s); simplify_eq/=;
      (split; [lia | done]).
  - unfold send_slice. intros data s e s' E. by destruct (rt_state s); simplify_eq/=.
  - unfold recv_slice. intros len s bs s' E. destruct (rt_state s); simplify_eq/=;
      (split; [rewrite length_take; lia | done]).
  - unfold recv_slice. intros len s e s' E. by destruct (rt_state s); simplify_eq/=.
  - intros p s s' E. by repeat case_match; simplify_eq/=.
  - intros s ss h ss' [= <- <-]. split; [by rewrite lookup_ge_None_2|]. intros h'.
    case_decide as E; [subst; by rewrite list_lookup_middle|].
    destruct (decide (h' < length ss)%nat).
    + by rewrite lookup_app_l by done.
    + rewrite !lookup_ge_None_2; [done | lia | rewrite length_app; simpl; lia].
  - intros h s ss h' [x Hx]. case_decide as E.
    + subst. rewrite list_lookup_insert_eq; [done|]. destruct (ss !! h) eqn:Eh; [|done].
      by eapply lookup_lt_Some.
    + by rewrite list_lookup_insert_ne by congruence.
  - intros h ss h'. case_decide as E.
    + subst. destruct (decide (h < length ss)%nat).
      * by rewrite list_lookup_insert_eq.
      * rewrite lookup_ge_None_2; [done | rewrite length_insert; lia].
    + by rewrite list_lookup_insert_ne by congruence.
  - intros t i ss d w r i' ss' d' w' E.
    destruct (Device.receive d w) as [[[[m|] d1] w1]| |]; simpl in E;
      [destruct (Device.rx_consume _ _ _) as [[? ?]| |]|..]; by simplify_eq/=.
  - intros t i ss d w i' ss' d' w' E. destruct (Device.flush_tx _ _) as [[? ?]| |]; by simplify_eq/=.
  - intros t i ss d w. exists [Device.CReceive None]. split; [by repeat constructor|]. simpl.
    by destruct (Device.receive d w) as [[[[m|] d1] w1]| |]; simpl; [destruct (Device.rx_consume _ _ _) as [[? ?]| |]|..].
  - intros t i ss d w. exists [Device.CFlush]. split; [by repeat constructor|]. simpl.
    by destruct (Device.flush_tx _ _) as [[? ?]| |].
Qed.

End RefStack.
