(* ===== verification/Reactor.v ===== *)
(** * The reactor ([dpdk-net/src/runtime/reactor.rs])

    [ReactorInner] with the socket set and the list of orphaned sockets, the
    tick of [run_with_batch_size] and the future it is part of.  The world the
    device talks to is carried next to the device.  The [RefCell] around the
    state is not modelled: every operation borrows it for its own duration
    only, and no operation runs inside another. *)

From stdpp Require Import base gmap list fin_maps.
From Stdlib Require Import ZArith Strings.Byte Lia.
From S2P Require Import Prelude Mbuf Pktmbuf Queue ArpCache Device Smoltcp.

Module Reactor.

Definition DEFAULT_INGRESS_BATCH_SIZE : nat := 32.

(** ** [yield_now]: [Pending] once (waking itself), then [Ready]. *)
Record YieldNow := mk_yield { yielded : bool }.

Definition yield_now : YieldNow := mk_yield false.

(** The result, whether the waker was woken, and the new state. *)
Definition yield_poll (y : YieldNow) : Poll unit * bool * YieldNow :=
  if yielded y then (Ready tt, false, y) else (Pending, true, mk_yield true).

Section Model.
Context `{Smoltcp}.

Record ReactorInner := mk_reactor {
  device : Device.DpdkDevice;
  world : Device.World;
  iface : Interface;
  sockets : SocketSet;
  orphaned_closing : list SocketHandle
}.

Definition set_sockets (r : ReactorInner) (ss : SocketSet) : ReactorInner :=
  mk_reactor (device r) (world r) (iface r) ss (orphaned_closing r).
Definition set_orphans (r : ReactorInner) (l : list SocketHandle) : ReactorInner :=
  mk_reactor (device r) (world r) (iface r) (sockets r) l.

(** [SocketSet::get::<tcp::Socket>] and [get::<udp::Socket>]: panic when the
    handle is not live or names a socket of another type. *)
Definition get_tcp (ss : SocketSet) (h : SocketHandle) : Exec tcp_sock :=
  match set_get ss h with Some (inl s) => Ret s | _ => Panic end.
Definition get_udp (ss : SocketSet) (h : SocketHandle) : Exec udp_sock :=
  match set_get ss h with Some (inr s) => Ret s | _ => Panic end.

(** [SocketSet::remove] panics when the handle is not live. *)
Definition remove (h : SocketHandle) (ss : SocketSet) : Exec SocketSet :=
  match set_get ss h with Some _ => Ret (set_remove h ss) | None => Panic end.

(** [Reactor::new] *)
Definition new (d : Device.DpdkDevice) (w : Device.World) (i : Interface) : ReactorInner :=
  mk_reactor d w i set_new [].

(** [ReactorHandle::ip_addr] *)
Definition ip_addr (r : ReactorInner) : option Ipv4Addr := head (iface_ip_addrs (iface r)).

(** [poll_ingress_single] and [poll_egress] *)
Definition poll_ingress_single (ts : Z) (r : ReactorInner) : Exec (PollIngressSingleResult * ReactorInner) :=
  '(res, i, ss, d, w) ← iface_poll_ingress_single ts (iface r) (sockets r) (device r) (world r);
  Ret (res, mk_reactor d w i ss (orphaned_closing r)).

Definition poll_egress (ts : Z) (r : ReactorInner) : Exec ReactorInner :=
  '(i, ss, d, w) ← iface_poll_egress ts (iface r) (sockets r) (device r) (world r);
  Ret (mk_reactor d w i ss (orphaned_closing r)).

(** [cleanup_orphaned]: the closure of [retain] over the list. *)
Fixpoint retain_closing (l : list SocketHandle) (ss : SocketSet) : Exec (list SocketHandle * SocketSet) :=
  match l with
  | [] => Ret ([], ss)
  | h :: l =>
      s ← get_tcp ss h;
      match tcp_state s with
      | Closed | TimeWait => ss ← remove h ss; retain_closing l ss
      | _ => '(kept, ss) ← retain_closing l ss; Ret (h :: kept, ss)
      end
  end.

Definition cleanup_orphaned (r : ReactorInner) : Exec ReactorInner :=
  '(kept, ss) ← retain_closing (orphaned_closing r) (sockets r);
  Ret (set_orphans (set_sockets r ss) kept).

(** The ingress [loop] of [run_with_batch_size], with the number of packets
    processed so far; [None] when the fuel is exhausted. *)
Fixpoint ingress_loop (fuel batch_size packets_processed : nat) (ts : Z) (r : ReactorInner)
    : Exec (option (nat * ReactorInner)) :=
  match fuel with
  | O => Ret None
  | S fuel =>
      '(res, r) ← poll_ingress_single ts r;
      match res with
      | PollNone => Ret (Some (packets_processed, r))
      | _ =>
          let packets_processed := S packets_processed in
          if (batch_size <=? packets_processed)%nat then Ret (Some (packets_processed, r))
          else ingress_loop fuel batch_size packets_processed ts r
      end
  end.

(** Polls of the interface the loop can need. *)
Definition ingress_bound (batch_size : nat) : nat := Nat.max 1 batch_size.

(** One iteration of the [while] loop up to [yield_now]. *)
Definition tick (batch_size : nat) (ts : Z) (r : ReactorInner) : Exec (option ReactorInner) :=
  o ← ingress_loop (ingress_bound batch_size) batch_size 0 ts r;
  match o with
  | None => Ret None
  | Some (_, r) => r ← poll_egress ts r; r ← cleanup_orphaned r; Ret (Some r)
  end.

(** The future of [run_with_batch_size]: not started, suspended in
    [yield_now], or finished.  [poll_run] is one poll of it at time [ts];
    [None] when the ingress loop ran out of fuel. *)
Inductive RunState := RunStart | RunYield (y : YieldNow) | RunDone.

Definition poll_loop (batch_size : nat) (cancel : bool) (ts : Z) (r : ReactorInner)
    : Exec (option (Poll unit * bool * RunState * ReactorInner)) :=
  if cancel then Ret (Some (Ready tt, false, RunDone, r))
  else
    o ← tick batch_size ts r;
    match o with
    | None => Ret None
    | Some r => let '(p, woken, y) := yield_poll yield_now in Ret (Some (p, woken, RunYield y, r))
    end.

Definition poll_run (batch_size : nat) (cancel : bool) (ts : Z) (st : RunState) (r : ReactorInner)
    : Exec (option (Poll unit * bool * RunState * ReactorInner)) :=
  match st with
  | RunStart => poll_loop batch_size cancel ts r
  | RunYield y =>
      match yield_poll y with
      | (Ready _, _, _) => poll_loop batch_size cancel ts r
      | (Pending, woken, y) => Ret (Some (Pending, woken, RunYield y, r))
      end
  | RunDone => Panic
  end.

(** [Reactor::run] *)
Definition run (cancel : bool) (ts : Z) (st : RunState) (r : ReactorInner) :=
  poll_run DEFAULT_INGRESS_BATCH_SIZE cancel ts st r.

(** ** Invariants *)

(** The device invariant the reactor maintains. *)
Definition device_ok (r : ReactorInner) : Prop :=
  Device.dev_wf (device r) /\ Device.pool_fits (device r) (world r).

(** The orphans are distinct live TCP sockets. *)
Definition orphans_ok (r : ReactorInner) : Prop :=
  NoDup (orphaned_closing r) /\ Forall (fun h => kind (sockets r) h = Some true) (orphaned_closing r).

(** A socket whose close has completed. *)
Definition finished (ss : SocketSet) (h : SocketHandle) : Prop :=
  exists s, set_get ss h = Some (inl s) /\ (tcp_state s = Closed \/ tcp_state s = TimeWait).

Definition loose (r : ReactorInner) : Z := Device.loose_mbufs (device r) (world r).

End Model.

Section Proofs.
Context `{HL : EthBurstLaws} {HI : HashMapIter} {HS : Smoltcp} {HSL : SmoltcpLaws}.

(** ** Orphaned sockets *)

Definition closedb (st : TcpState) : bool := match st with Closed | TimeWait => true | _ => false end.

Definition finishedb (ss : SocketSet) (h : SocketHandle) : bool :=
  match set_get ss h with Some (inl s) => closedb (tcp_state s) | _ => false end.

Lemma finishedb_spec ss h : finishedb ss h = true <-> finished ss h.
Proof.
  unfold finishedb, finished. split.
  - destruct (set_get ss h) as [[s|]|]; try done. intros Hc. exists s. split; [done|].
    destruct (tcp_state s); auto; done.
  - by intros (s & -> & [-> | ->]).
Qed.

Lemma kind_tcp ss h : kind ss h = Some true <-> exists s, set_get ss h = Some (inl s).
Proof.
  unfold kind. split.
  - destruct (set_get ss h) as [[s|s]|]; try done. eauto.
  - by intros [s ->].
Qed.

Lemma get_tcp_ret ss h s : set_get ss h = Some (inl s) -> get_tcp ss h = Ret s.
Proof. unfold get_tcp. by intros ->. Qed.

Lemma kind_get ss ss' h : set_get ss' h = set_get ss h -> kind ss' h = kind ss h.
Proof. unfold kind. by intros ->. Qed.

Lemma bool_decide_cons (h h' : SocketHandle) l : h' <> h ->
  bool_decide (h' ∈ h :: l) = bool_decide (h' ∈ l).
Proof. intros Hne. apply bool_decide_ext. rewrite elem_of_cons. tauto. Qed.

Lemma retain_closing_run l ss : NoDup l -> Forall (fun h => kind ss h = Some true) l ->
  exists ss', retain_closing l ss = Ret (List.filter (fun h => negb (finishedb ss h)) l, ss') /\
    forall h, set_get ss' h = if bool_decide (h ∈ l) && finishedb ss h then None else set_get ss h.
Proof.
  intros Hnd. revert ss. induction Hnd as [|h l Hh Hnd IH]; intros ss Hk.
  { exists ss. split; [done|]. intros h. by rewrite bool_decide_false by apply not_elem_of_nil. }
  apply Forall_cons in Hk as [Hkh Hk]. apply kind_tcp in Hkh as [s Hs].
  cbn [retain_closing List.filter]. rewrite (get_tcp_ret _ _ _ Hs). simpl.
  destruct (closedb (tcp_state s)) eqn:Ec.
  - assert (finishedb ss h = true) as Hf by (unfold finishedb; by rewrite Hs).
    assert (forall h', h' ∈ l -> set_get (set_remove h ss) h' = set_get ss h') as Hrest.
    { intros h' Hin. rewrite set_remove_spec, decide_False; [done | by intros ->]. }
    destruct (IH (set_remove h ss)) as (ss' & E & Hss').
    { rewrite Forall_forall in *. intros h' Hin. rewrite (kind_get ss) by auto. auto. }
    exists ss'. split.
    + assert (retain_closing l (set_remove h ss) =
        Ret (List.filter (fun h => negb (finishedb ss h)) l, ss')) as El.
      { rewrite E. do 2 f_equal. apply List.filter_ext_in. intros h' Hin. unfold finishedb.
        rewrite Hrest; [done | by apply list_elem_of_In]. }
      unfold remove. rewrite Hs, Hf. simpl. destruct (tcp_state s); done.
    + intros h'. rewrite Hss'. unfold finishedb. rewrite set_remove_spec.
      case_decide as Eh; [subst h' | by rewrite bool_decide_cons].
      rewrite Hs, Ec, (bool_decide_true (h ∈ h :: l)) by by left. by rewrite andb_false_r.
  - assert (finishedb ss h = false) as Hf by (unfold finishedb; by rewrite Hs).
    destruct (IH ss Hk) as (ss' & E & Hss'). exists ss'. rewrite Hf, E. simpl.
    split; [destruct (tcp_state s); done|].
    intros h'. rewrite Hss'. destruct (decide (h' = h)) as [->|].
    + by rewrite Hf, !andb_false_r.
    + by rewrite bool_decide_cons.
Qed.


(** ** Device calls made by the reactor *)

Lemma run_calls_app cs1 cs2 d w :
  Device.run_calls (cs1 ++ cs2) d w = '(d, w) ← Device.run_calls cs1 d w; Device.run_calls cs2 d w.
Proof.
  revert d w. induction cs1 as [|c cs1 IH]; intros d w; simpl; [done|].
  destruct (Device.run_call c d w) as [[d1 w1]| |]; simpl; [apply IH | done..].
Qed.

Lemma conf_call_ok d d' c : Device.conf d' = Device.conf d -> Device.call_ok d' c -> Device.call_ok d c.
Proof. destruct c; simpl; try done; intros Hc; by apply Device.conf_frame_ok. Qed.

(** From [r] the reactor got to [r'] by device calls, keeping the sockets'
    kinds. *)
Record evolves (r r' : ReactorInner) : Prop := {
  ev_calls : exists cs, Forall (Device.call_ok (device r)) cs /\
    Device.run_calls cs (device r) (world r) = Ret (device r', world r');
  ev_conf : Device.conf (device r') = Device.conf (device r);
  ev_dev : device_ok r';
  ev_loose : loose r' = loose r
}.

(** Some sequence of calls from here fills the TX batch: the precondition of
    the panic in a reply to a received packet. *)
Definition can_fill_tx (r : ReactorInner) : Prop :=
  exists cs d w, Forall (Device.call_ok (device r)) cs /\
    Device.run_calls cs (device r) (world r) = Ret (d, w) /\
    length (Device.tx_batch d) = Device.TX_CAP.

Lemma evolves_refl r : device_ok r -> evolves r r.
Proof. intros Hd. split; try done. by exists []. Qed.

Lemma evolves_trans r1 r2 r3 : evolves r1 r2 -> evolves r2 r3 -> evolves r1 r3.
Proof.
  intros [(cs1 & Hc1 & E1) Hf1 _ Hl1] [(cs2 & Hc2 & E2) Hf2 Hd2 Hl2]. split; [|congruence|done|lia].
  exists (cs1 ++ cs2). split.
  - apply Forall_app. split; [done|]. eapply Forall_impl; [exact Hc2|]. intros c. by apply conf_call_ok.
  - by rewrite run_calls_app, E1.
Qed.

Lemma evolves_fill r1 r2 : evolves r1 r2 -> can_fill_tx r2 -> can_fill_tx r1.
Proof.
  intros [(cs1 & Hc1 & E1) Hf1 _ _] (cs & d & w & Hc & E & Hl).
  exists (cs1 ++ cs), d, w. split_and!; [| by rewrite run_calls_app, E1 | done].
  apply Forall_app. split; [done|]. eapply Forall_impl; [exact Hc|]. intros c. by apply conf_call_ok.
Qed.

(** One poll of the interface, by the device calls it makes. *)
Lemma by_calls_ok {A} (dw : A -> Device.DpdkDevice * Device.World) r (e : Exec A) :
  device_ok r -> by_calls dw (device r) (world r) e ->
  match e with
  | Ret a => forall i ss o, evolves r (mk_reactor (dw a).1 (dw a).2 i ss o)
  | Panic => can_fill_tx r
  | UB => False
  end.
Proof.
  intros [Hw Hf] (cs & Hcs & E).
  destruct (Device.run_calls_ok cs _ _ Hw Hf Hcs) as [[Ep (cs1 & o & cs2 & d1 & w1 & -> & E1 & Hfull)]|(d' & w' & l & Er & S1)].
  - destruct e; rewrite Ep in E; try done.
    exists cs1, d1, w1. split_and!; [|done..]. by apply Forall_app in Hcs as [? _].
  - destruct e as [a| |]; rewrite Er in E; try done. injection E as E. intros i ss o.
    destruct (dw a) as [d2 w2] eqn:Ea. simplify_eq/=. split; simpl.
    + by exists cs.
    + apply S1.
    + split; simpl; [apply S1 | by eapply Device.step_ok_fits].
    + unfold loose. simpl. rewrite (Device.so_loose _ _ _ _ _ _ S1). lia.
Qed.

Lemma poll_ingress_ok ts r : device_ok r ->
  match poll_ingress_single ts r with
  | Ret (_, r') => evolves r r' /\ same_kinds (sockets r) (sockets r') /\ orphaned_closing r' = orphaned_closing r
  | Panic => can_fill_tx r
  | UB => False
  end.
Proof.
  intros Hd. unfold poll_ingress_single.
  pose proof (by_calls_ok _ r _ Hd (ingress_calls ts (iface r) (sockets r) (device r) (world r))) as Hb.
  destruct (iface_poll_ingress_single _ _ _ _ _) as [[[[[res i] ss] d] w]| |] eqn:E; simpl; try done.
  split_and!; [apply Hb | by eapply ingress_kinds | done].
Qed.

Lemma poll_egress_ok ts r : device_ok r ->
  match poll_egress ts r with
  | Ret r' => evolves r r' /\ same_kinds (sockets r) (sockets r') /\ orphaned_closing r' = orphaned_closing r
  | Panic => can_fill_tx r
  | UB => False
  end.
Proof.
  intros Hd. unfold poll_egress.
  pose proof (by_calls_ok _ r _ Hd (egress_calls ts (iface r) (sockets r) (device r) (world r))) as Hb.
  destruct (iface_poll_egress _ _ _ _ _) as [[[[i ss] d] w]| |] eqn:E; simpl; try done.
  split_and!; [apply Hb | by eapply egress_kinds | done].
Qed.

Lemma same_kinds_trans a b c : same_kinds a b -> same_kinds b c -> same_kinds a c.
Proof. unfold same_kinds. intros Hab Hbc h. by rewrite Hbc, Hab. Qed.

(** The ingress loop: it ends within its bound. *)
Lemma ingress_loop_ok fuel bs n ts r : device_ok r -> (1 <= fuel)%nat -> (bs <= n + fuel)%nat ->
  match ingress_loop fuel bs n ts r with
  | Ret (Some (n', r')) => (n' <= n + fuel)%nat /\ evolves r r' /\ same_kinds (sockets r) (sockets r') /\
                           orphaned_closing r' = orphaned_closing r
  | Ret None => False
  | Panic => can_fill_tx r
  | UB => False
  end.
Proof.
  revert n r. induction fuel as [|fuel IH]; intros n r Hd Hfuel Hbs; [lia|]. simpl.
  pose proof (poll_ingress_ok ts r Hd) as Hp.
  destruct (poll_ingress_single ts r) as [[res r1]| |]; simpl; try done.
  destruct Hp as (Hev & Hk & Ho). destruct res; [split_and!; done || lia|..];
    (destruct (Nat.leb_spec bs (S n)); [split_and!; done || lia|]);
    (specialize (IH (S n) r1 ltac:(apply Hev) ltac:(lia) ltac:(lia)));
    (destruct (ingress_loop _ _ _ _ _) as [[[n' r']|]| |]; try done; [|by eapply evolves_fill]);
    destruct IH as (? & ? & ? & ->);
    (split_and!; [lia | by eapply evolves_trans | by eapply same_kinds_trans | done]).
Qed.


(** After the clean-up: the sockets whose close had completed are gone, all
    others untouched. *)
Definition cleaned (r r' : ReactorInner) : Prop :=
  (forall h, set_get (sockets r') h =
     if bool_decide (h ∈ orphaned_closing r) && finishedb (sockets r) h then None else set_get (sockets r) h) /\
  orphaned_closing r' = List.filter (fun h => negb (finishedb (sockets r) h)) (orphaned_closing r) /\
  device r' = device r /\ world r' = world r.

Lemma cleanup_run r : orphans_ok r ->
  exists r', cleanup_orphaned r = Ret r' /\ cleaned r r' /\ orphans_ok r'.
Proof.
  intros [Hnd Hk]. unfold cleanup_orphaned.
  destruct (retain_closing_run _ _ Hnd Hk) as (ss & -> & Hss). simpl.
  eexists. split; [done|]. split; [by split_and!|]. split; simpl.
  - apply NoDup_ListNoDup, List.NoDup_filter. by apply NoDup_ListNoDup.
  - rewrite Forall_forall in *. intros h Hh. rewrite list_elem_of_In, List.filter_In in Hh.
    destruct Hh as [Hin Hf]. rewrite <- list_elem_of_In in Hin. apply negb_true_iff in Hf.
    unfold kind. rewrite Hss, Hf, andb_false_r. by apply Hk.
Qed.

Lemma same_kinds_orphans r r' : same_kinds (sockets r) (sockets r') ->
  orphaned_closing r' = orphaned_closing r -> orphans_ok r -> orphans_ok r'.
Proof.
  intros Hk Ho [Hnd Hf]. split; rewrite Ho; [done|]. eapply Forall_impl; [exact Hf|].
  intros h. by rewrite Hk.
Qed.

(** What a tick leaves of the sockets: only orphans can disappear. *)
Definition keeps_owned (r r' : ReactorInner) : Prop :=
  (forall h, h ∉ orphaned_closing r -> kind (sockets r') h = kind (sockets r) h) /\
  (forall h, h ∈ orphaned_closing r' <-> h ∈ orphaned_closing r /\ kind (sockets r') h = Some true) /\
  (forall h, h ∈ orphaned_closing r -> kind (sockets r') h <> Some false).

Lemma cleaned_owned r r1 r' : same_kinds (sockets r) (sockets r1) -> orphaned_closing r1 = orphaned_closing r ->
  orphans_ok r -> cleaned r1 r' -> keeps_owned r r'.
Proof.
  intros Hk Ho [_ Hf] (Hss & Hl & _). rewrite Ho in *. split; [|split].
  - intros h Hh. unfold kind. rewrite Hss, bool_decide_false by done. apply Hk.
  - intros h. rewrite Hl, list_elem_of_In, List.filter_In, <- list_elem_of_In. unfold kind. rewrite Hss.
    rewrite Forall_forall in Hf.
    split; intros [Hin Hx]; (split; [done|]); rewrite bool_decide_true in * by done; simpl in *.
    + rewrite (proj1 (negb_true_iff _) Hx), <- (Hf h Hin). apply Hk.
    + by destruct (finishedb (sockets r1) h).
  - intros h Hh. rewrite Forall_forall in Hf. unfold kind. rewrite Hss. case_match; [done|].
    fold (kind (sockets r1) h). by rewrite Hk, (Hf h Hh).
Qed.

Lemma tick_ok bs ts r : device_ok r -> orphans_ok r ->
  match tick bs ts r with
  | Ret (Some r') => evolves r r' /\ orphans_ok r' /\ keeps_owned r r'
  | Ret None => False
  | Panic => can_fill_tx r
  | UB => False
  end.
Proof.
  intros Hd Ho. unfold tick.
  pose proof (ingress_loop_ok (ingress_bound bs) bs 0 ts r Hd ltac:(unfold ingress_bound; lia)
    ltac:(unfold ingress_bound; lia)) as Hi.
  destruct (ingress_loop _ _ _ _ _) as [[[n r1]|]| |]; simpl; try done.
  destruct Hi as (_ & Hev1 & Hk1 & Ho1).
  pose proof (poll_egress_ok ts r1 ltac:(apply Hev1)) as He.
  destruct (poll_egress ts r1) as [r2| |]; simpl; try done; [|by eapply evolves_fill].
  destruct He as (Hev2 & Hk2 & Ho2).
  pose proof (same_kinds_trans _ _ _ Hk1 Hk2) as Hk.
  destruct (cleanup_run r2) as (r3 & -> & Hcl & Ho3).
  { eapply same_kinds_orphans; [exact Hk | congruence | done]. }
  simpl. split_and!; [|done|].
  - eapply evolves_trans; [by eapply evolves_trans|]. destruct Hcl as (_ & _ & Hdev & Hw).
    destruct Hev2 as [_ _ Hd2 _].
    split; rewrite ?Hdev, ?Hw; try done; [by exists [] | | unfold loose; by rewrite Hdev, Hw].
    unfold device_ok. by rewrite Hdev, Hw.
  - eapply cleaned_owned; [exact Hk | congruence | done | done].
Qed.

(** States of the future between two polls. *)
Definition run_ok (st : RunState) : Prop :=
  match st with RunStart => True | RunYield y => yielded y = true | RunDone => False end.

(** One poll of the future. *)
Lemma poll_run_ok bs cancel ts st r : run_ok st -> device_ok r -> orphans_ok r ->
  match poll_run bs cancel ts st r with
  | Ret (Some (p, woken, st', r')) =>
      device_ok r' /\ loose r' = loose r /\ orphans_ok r' /\ keeps_owned r r' /\
      (if cancel then p = Ready tt /\ r' = r else p = Pending /\ woken = true /\ run_ok st')
  | Ret None => False
  | Panic => can_fill_tx r
  | UB => False
  end.
Proof.
  intros Hst Hd Ho. assert (match poll_loop bs cancel ts r with
  | Ret (Some (p, woken, st', r')) =>
      device_ok r' /\ loose r' = loose r /\ orphans_ok r' /\ keeps_owned r r' /\
      (if cancel then p = Ready tt /\ r' = r else p = Pending /\ woken = true /\ run_ok st')
  | Ret None => False | Panic => can_fill_tx r | UB => False end) as Hl.
  { unfold poll_loop. destruct cancel.
    - split_and!; try done. destruct Ho as [_ Hf]. rewrite Forall_forall in Hf. split; [done|split].
      + intros h. split; [intros; split; auto | by intros [? _]].
      + intros h Hh. by rewrite (Hf h Hh).
    - pose proof (tick_ok bs ts r Hd Ho) as Ht. destruct (tick bs ts r) as [[r'|]| |]; simpl; try done.
      destruct Ht as ([_ _ ? ?] & ? & ?). by split_and!. }
  destruct st as [|[y]|]; [exact Hl | | done]. simpl in Hst. subst y. exact Hl.
Qed.


(** The ingress loop of [run_with_batch_size] ends and handles at most
    [max 1 batch_size] packets before egress runs, for every batch size (0
    behaves like 1), and leaks no buffer. *)
Theorem ingress_loop_bounded bs ts r (Hd : device_ok r) :
  match ingress_loop (ingress_bound bs) bs 0 ts r with
  | Ret (Some (n, r')) => (n <= Nat.max 1 bs)%nat /\ loose r' = loose r
  | Ret None => False
  | Panic => can_fill_tx r
  | UB => False
  end.
Proof.
  pose proof (ingress_loop_ok (ingress_bound bs) bs 0 ts r Hd ltac:(unfold ingress_bound; lia)
    ltac:(unfold ingress_bound; lia)) as Hi.
  destruct (ingress_loop _ _ _ _ _) as [[[n r1]|]| |]; try done.
  destruct Hi as (? & [_ _ _ Hl] & _). unfold ingress_bound in *. split; [lia | done].
Qed.

(** [cleanup_orphaned] does not panic, removes from the socket set exactly
    the orphans in state [Closed] or [TimeWait], keeps the others in the list
    in order, and touches nothing else. *)
Theorem cleanup_orphaned_correct r (Ho : orphans_ok r) :
  exists r', cleanup_orphaned r = Ret r' /\ cleaned r r' /\
    (forall h, h ∈ orphaned_closing r' <-> h ∈ orphaned_closing r /\ ~ finished (sockets r) h).
Proof.
  destruct (cleanup_run r Ho) as (r' & E & Hc & _). exists r'. split_and!; [done | done |].
  destruct Hc as (_ & -> & _). intros h.
  rewrite list_elem_of_In, List.filter_In, <- list_elem_of_In, <- finishedb_spec, negb_true_iff.
  by rewrite not_true_iff_false.
Qed.

End Proofs.

(** ** On the reference stack *)

#[local] Existing Instance Mbuf.ref_pktmbuf.
#[local] Existing Instance Queue.ref_mempool.
#[local] Existing Instance Queue.ref_burst.
#[local] Existing Instance Queue.ref_burst_laws.
#[local] Existing Instance Device.ref_hm_iter.
#[local] Existing Instance RefStack.ref_smoltcp.
#[local] Existing Instance RefStack.ref_smoltcp_laws.

Definition sock_in (st : TcpState) : RefStack.rtcp + RefStack.rudp := inl (RefStack.mk_rtcp st 4 [] [] [] None None).

(** A reactor with three packets waiting, two orphans, one of them closed, and
    one socket owned by the application. *)
Definition reactor0 : ReactorInner :=
  mk_reactor (Device.dev0 0 [] []) (Device.arp_world 8 (replicate 3 (Queue.packet [x01])) 4) [Device.ip_a]
    [Some (sock_in Closed); Some (sock_in FinWait1); Some (sock_in Established)] [0; 1].

Lemma reactor0_device : device_ok reactor0.
Proof. split; [by apply Device.dev0_wf | apply Device.dev0_fits]. Qed.

Lemma reactor0_orphans : orphans_ok reactor0.
Proof. split; [apply NoDup_ListNoDup; repeat constructor; simpl; lia | repeat constructor]. Qed.


Lemma ingress_loop_bounded_witness :
  exists n r', ingress_loop 2 2 0 0 reactor0 = Ret (Some (n, r')) /\ n <= 2.
Proof.
  pose proof (ingress_loop_bounded 2 0 reactor0 reactor0_device) as Hp.
  assert (match ingress_loop 2 2 0 0 reactor0 with Ret (Some _) => true | _ => false end = true) as Hr
    by (vm_compute; reflexivity).
  change (ingress_bound 2) with 2 in Hp.
  destruct (ingress_loop 2 2 0 0 reactor0) as [[[n r']|]| |]; try discriminate Hr.
  exists n, r'. split; [done | apply Hp].
Defined.

Lemma cleanup_orphaned_correct_witness :
  exists r', cleanup_orphaned reactor0 = Ret r' /\ (0 ∉ orphaned_closing r') /\ set_get (sockets r') 0 = None.
Proof.
  destruct (cleanup_orphaned_correct reactor0 reactor0_orphans) as (r' & E & (Hss & _) & Hl).
  exists r'. split_and!; [done | | by rewrite Hss].
  rewrite Hl. intros [_ []]. exists (RefStack.mk_rtcp Closed 4 [] [] [] None None). auto.
Defined.

End Reactor.
