(* ===== verification/Tcp.v ===== *)
(** * TCP sockets ([dpdk-net/src/socket/tcp.rs])

    [TcpStream] and [TcpListener] are a socket handle, or a pool of them, into
    the reactor's socket set.  Every operation, [Drop] included, is a function
    on [ReactorInner]; the futures are given by their [poll] with the waker as
    an argument. *)

From stdpp Require Import base gmap list fin_maps.
From Stdlib Require Import ZArith Strings.Byte Lia.
From S2P Require Import Prelude Mbuf Pktmbuf Queue ArpCache Device Smoltcp Reactor.

Module Tcp.
Import Reactor.

(** The [io::Error]s of this file are all of kind [NotConnected]. *)
Inductive IoError := NotConnected.

Section Model.
Context `{Smoltcp}.

Record TcpStream := mk_stream { handle : SocketHandle }.

(** Run [f] on the TCP socket [h] through [get_mut]. *)
Definition with_tcp {A} (h : SocketHandle) (f : tcp_sock -> A * tcp_sock) (r : ReactorInner)
    : Exec (A * ReactorInner) :=
  s ← get_tcp (sockets r) h;
  let '(a, s') := f s in
  Ret (a, set_sockets r (set_put h (inl s') (sockets r))).

(** ** [TcpStream] *)

(** [TcpStream::connect]: the socket is connected before it is added. *)
Definition connect (remote_addr : Ipv4Addr) (remote_port local_port rx_buffer_size tx_buffer_size : Z)
    (r : ReactorInner) : Result TcpStream ConnectError * ReactorInner :=
  let socket := tcp_new rx_buffer_size tx_buffer_size in
  match tcp_connect (iface r) (mk_endpoint remote_addr remote_port) local_port socket with
  | Err e => (Err e, r)
  | Ok socket =>
      let '(h, ss) := set_add (inl socket) (sockets r) in
      (Ok (mk_stream h), set_sockets r ss)
  end.

(** [from_handle], [socket_handle], [is_connected], [is_active], [state] *)
Definition from_handle (h : SocketHandle) : TcpStream := mk_stream h.
Definition socket_handle (t : TcpStream) : SocketHandle := handle t.

Definition state (t : TcpStream) (r : ReactorInner) : Exec TcpState :=
  s ← get_tcp (sockets r) (handle t); Ret (tcp_state s).
Definition is_connected (t : TcpStream) (r : ReactorInner) : Exec bool :=
  st ← state t r; Ret (bool_decide (st = Established)).
Definition is_active (t : TcpStream) (r : ReactorInner) : Exec bool :=
  s ← get_tcp (sockets r) (handle t); Ret (tcp_is_active s).

Definition abort (t : TcpStream) (r : ReactorInner) : Exec (unit * ReactorInner) :=
  with_tcp (handle t) (fun s => (tt, tcp_abort s)) r.

(** [poll_recv] into a buffer of [buf_len] bytes; the result is the bytes
    written to its front. *)
Definition poll_recv (cx : Waker) (t : TcpStream) (buf_len : nat) (r : ReactorInner)
    : Exec (Poll (Result (list byte) IoError) * ReactorInner) :=
  if (buf_len =? 0)%nat then Ret (Ready (Ok []), r) else
  with_tcp (handle t) (fun s =>
    match tcp_recv_slice buf_len s with
    | (Ok [], s) => (Pending, tcp_register_recv_waker cx s)
    | (Ok bs, s) => (Ready (Ok bs), s)
    | (Err RecvFinished, s) => (Ready (Ok []), s)
    | (Err RecvInvalidState, s) => (Ready (Err NotConnected), s)
    end) r.

(** [poll_send] *)
Definition poll_send (cx : Waker) (t : TcpStream) (buf : list byte) (r : ReactorInner)
    : Exec (Poll (Result nat IoError) * ReactorInner) :=
  with_tcp (handle t) (fun s =>
    match tcp_send_slice buf s with
    | (Ok n, s) =>
        if (n =? 0)%nat && negb (length buf =? 0)%nat then (Pending, tcp_register_send_waker cx s)
        else (Ready (Ok n), s)
    | (Err SendInvalidState, s) => (Ready (Err NotConnected), s)
    end) r.

(** [send]: one poll of its future, which has got to [offset]; [None] when the
    fuel is exhausted. *)
Fixpoint poll_send_all (fuel : nat) (cx : Waker) (t : TcpStream) (data : list byte) (offset : nat) (r : ReactorInner)
    : Exec (option (Poll (Result nat IoError) * nat * ReactorInner)) :=
  match fuel with
  | O => Ret None
  | S fuel =>
      if (offset <? length data)%nat then
        rest ← slice data offset (length data);
        '(p, r) ← poll_send cx t rest r;
        match p with
        | Ready (Ok n) => poll_send_all fuel cx t data (offset + n) r
        | Ready (Err e) => Ret (Some (Ready (Err e), offset, r))
        | Pending => Ret (Some (Pending, offset, r))
        end
      else Ret (Some (Ready (Ok (length data)), offset, r))
  end.

(** [poll_flush_io] *)
Definition poll_flush_io (cx : Waker) (t : TcpStream) (r : ReactorInner)
    : Exec (Poll (Result unit IoError) * ReactorInner) :=
  s ← get_tcp (sockets r) (handle t);
  if (tcp_send_queue s =? 0)%Z then Ret (Ready (Ok tt), r)
  else with_tcp (handle t) (fun s => (Pending, tcp_register_send_waker cx s)) r.

(** The second block of [poll_close_io]. *)
Definition close_wait (cx : Waker) (t : TcpStream) (r : ReactorInner)
    : Exec (Poll (Result unit IoError) * ReactorInner) :=
  with_tcp (handle t) (fun s =>
    match tcp_state s with
    | Closed | TimeWait => (Ready (Ok tt), s)
    | _ => (Pending, tcp_register_send_waker cx s)
    end) r.

(** [poll_close_io] *)
Definition poll_close_io (cx : Waker) (t : TcpStream) (r : ReactorInner)
    : Exec (Poll (Result unit IoError) * ReactorInner) :=
  s ← get_tcp (sockets r) (handle t);
  match tcp_state s with
  | Closed | TimeWait => Ret (Ready (Ok tt), r)
  | st =>
      '(_, r) ← (match st with
                 | FinWait1 | FinWait2 | Closing | LastAck => Ret (tt, r)
                 | _ => with_tcp (handle t) (fun s => (tt, tcp_close s)) r
                 end);
      close_wait cx t r
  end.

(** One poll of the futures of [recv] and [close], and the [AsyncRead] and
    [AsyncWrite] of the stream, which forward to the methods above. *)
Definition recv := poll_recv.
Definition close := poll_close_io.
Definition poll_read := poll_recv.
Definition poll_write := poll_send.
Definition poll_flush := poll_flush_io.
Definition poll_close := poll_close_io.

(** [Drop for TcpStream] *)
Definition drop_stream (t : TcpStream) (r : ReactorInner) : Exec ReactorInner :=
  s ← get_tcp (sockets r) (handle t);
  match tcp_state s with
  | Closed | TimeWait => ss ← remove (handle t) (sockets r); Ret (set_sockets r ss)
  | FinWait1 | FinWait2 | Closing | LastAck => Ret (set_orphans r (orphaned_closing r ++ [handle t]))
  | _ =>
      '(_, r) ← with_tcp (handle t) (fun s => (tt, tcp_abort s)) r;
      Ret (set_orphans r (orphaned_closing r ++ [handle t]))
  end.

(** [WaitConnectedFuture::poll] *)
Definition poll_wait_connected (cx : Waker) (t : TcpStream) (r : ReactorInner)
    : Exec (Poll (Result unit unit) * ReactorInner) :=
  with_tcp (handle t) (fun s =>
    match tcp_state s with
    | Established => (Ready (Ok tt), s)
    | Closed | TimeWait => (Ready (Err tt), s)
    | _ => (Pending, tcp_register_send_waker cx s)
    end) r.

(** ** [TcpListener] *)

Record TcpListener := mk_listener {
  handles : list SocketHandle;
  port : Z;
  rx_buffer_size : Z;
  tx_buffer_size : Z
}.

Definition create_listening_socket (port rx tx : Z) (r : ReactorInner) : Result SocketHandle ListenError * ReactorInner :=
  match tcp_listen port (tcp_new rx tx) with
  | Err e => (Err e, r)
  | Ok socket => let '(h, ss) := set_add (inl socket) (sockets r) in (Ok h, set_sockets r ss)
  end.

(** The [for] loop of [bind_with_backlog]. *)
Fixpoint bind_loop (n : nat) (port rx tx : Z) (acc : list SocketHandle) (r : ReactorInner)
    : Result (list SocketHandle) ListenError * ReactorInner :=
  match n with
  | O => (Ok acc, r)
  | S n =>
      match create_listening_socket port rx tx r with
      | (Err e, r) => (Err e, r)
      | (Ok h, r) => bind_loop n port rx tx (acc ++ [h]) r
      end
  end.

Definition bind_with_backlog (port rx tx : Z) (backlog : nat) (r : ReactorInner)
    : Result TcpListener ListenError * ReactorInner :=
  match bind_loop (Nat.max backlog 1) port rx tx [] r with
  | (Ok hs, r) => (Ok (mk_listener hs port rx tx), r)
  | (Err e, r) => (Err e, r)
  end.

Definition bind (port rx tx : Z) (r : ReactorInner) := bind_with_backlog port rx tx 2 r.

Definition local_port (l : TcpListener) : Z := port l.
Definition backlog (l : TcpListener) : nat := length (handles l).

(** The states of the listener's sockets, in order. *)
Fixpoint states_of (hs : list SocketHandle) (ss : SocketSet) : Exec (list TcpState) :=
  match hs with
  | [] => Ret []
  | h :: hs => s ← get_tcp ss h; rest ← states_of hs ss; Ret (tcp_state s :: rest)
  end.

Definition states (l : TcpListener) (r : ReactorInner) : Exec (list TcpState) := states_of (handles l) (sockets r).

(** [is_pending]: [any] stops at the first match. *)
Fixpoint any_state (p : TcpState -> bool) (hs : list SocketHandle) (ss : SocketSet) : Exec bool :=
  match hs with
  | [] => Ret false
  | h :: hs => s ← get_tcp ss h; if p (tcp_state s) then Ret true else any_state p hs ss
  end.

Definition is_pending (l : TcpListener) (r : ReactorInner) : Exec bool :=
  any_state (fun st => match st with SynReceived | Established => true | _ => false end) (handles l) (sockets r).

(** The [find_map] of [AcceptFuture::poll]: index of the first established
    socket. *)
Fixpoint find_established (i : nat) (hs : list SocketHandle) (ss : SocketSet) : Exec (option nat) :=
  match hs with
  | [] => Ret None
  | h :: hs =>
      s ← get_tcp ss h;
      if decide (tcp_state s = Established) then Ret (Some i) else find_established (S i) hs ss
  end.

(** The loop that registers the waker on all sockets. *)
Fixpoint register_all (cx : Waker) (hs : list SocketHandle) (r : ReactorInner) : Exec ReactorInner :=
  match hs with
  | [] => Ret r
  | h :: hs =>
      '(_, r) ← with_tcp h (fun s => (tt, tcp_register_recv_waker cx s)) r;
      register_all cx hs r
  end.

(** [AcceptFuture::poll] *)
Definition poll_accept (cx : Waker) (l : TcpListener) (r : ReactorInner)
    : Exec (Poll (Result TcpStream ListenError) * TcpListener * ReactorInner) :=
  idx ← find_established 0 (handles l) (sockets r);
  match idx with
  | Some idx =>
      connected_handle ← index (handles l) idx;
      match create_listening_socket (port l) (rx_buffer_size l) (tx_buffer_size l) r with
      | (Err e, r) => Ret (Ready (Err e), l, r)
      | (Ok new_handle, r) =>
          let l := mk_listener (<[idx := new_handle]> (handles l)) (port l) (rx_buffer_size l) (tx_buffer_size l) in
          Ret (Ready (Ok (from_handle connected_handle)), l, r)
      end
  | None =>
      alive ← any_state (fun st => match st with Closed | TimeWait => false | _ => true end) (handles l) (sockets r);
      if alive : bool then (r ← register_all cx (handles l) r; Ret (Pending, l, r))
      else Ret (Ready (Err ListenUnaddressable), l, r)
  end.

(** [Drop for TcpListener] *)
Fixpoint drop_handles (hs : list SocketHandle) (r : ReactorInner) : Exec ReactorInner :=
  match hs with
  | [] => Ret r
  | h :: hs =>
      s ← get_tcp (sockets r) h;
      '(_, r) ← (if decide (tcp_state s = Closed) then Ret (tt, r)
                 else with_tcp h (fun s => (tt, tcp_abort s)) r);
      ss ← remove h (sockets r);
      drop_handles hs (set_sockets r ss)
  end.

Definition drop_listener (l : TcpListener) (r : ReactorInner) : Exec ReactorInner := drop_handles (handles l) r.

End Model.

Section Proofs.
Context `{HL : EthBurstLaws} {HI : HashMapIter} {HS : Smoltcp} {HSL : SmoltcpLaws}.

(** The socket of a stream. *)
Definition sock_of (t : TcpStream) (r : ReactorInner) : option tcp_sock :=
  match set_get (sockets r) (handle t) with Some (inl s) => Some s | _ => None end.

Lemma sock_of_get t r s : sock_of t r = Some s <-> set_get (sockets r) (handle t) = Some (inl s).
Proof. unfold sock_of. by destruct (set_get _ _) as [[?|?]|]; split; intros; simplify_eq. Qed.

Lemma with_tcp_run {A} h (f : tcp_sock -> A * tcp_sock) r s : set_get (sockets r) h = Some (inl s) ->
  with_tcp h f r = Ret ((f s).1, set_sockets r (set_put h (inl (f s).2) (sockets r))).
Proof. intros Hs. unfold with_tcp, get_tcp. rewrite Hs. simpl. by destruct (f s). Qed.

Lemma sock_of_put t r s s' : sock_of t r = Some s ->
  sock_of t (set_sockets r (set_put (handle t) (inl s') (sockets r))) = Some s'.
Proof. rewrite sock_of_get. intros Hs. unfold sock_of. simpl. rewrite set_put_spec by eauto. by rewrite decide_True. Qed.

(** An operation on the stream's own socket. *)
Lemma with_tcp_stream {A} t (f : tcp_sock -> A * tcp_sock) r s : sock_of t r = Some s ->
  exists r', with_tcp (handle t) f r = Ret ((f s).1, r') /\ sock_of t r' = Some (f s).2.
Proof.
  intros Hs. pose proof (proj1 (sock_of_get _ _ _) Hs) as Hg.
  rewrite (with_tcp_run _ _ _ _ Hg). eexists. split; [done | by eapply sock_of_put].
Qed.

(** Run the next operation on the stream's socket, known by [Hs]. *)
Ltac stream_step Hs r' Hs' :=
  match goal with
  | |- context [with_tcp (handle ?t) ?f ?r] => destruct (with_tcp_stream t f r _ Hs) as (r' & -> & Hs')
  end.

(** ** Sending *)

Lemma poll_send_run cx t buf r s : sock_of t r = Some s ->
  exists p r' s', poll_send cx t buf r = Ret (p, r') /\ sock_of t r' = Some s' /\
    match p with
    | Ready (Ok n) => (n <= length buf)%nat /\ (buf <> [] -> (0 < n)%nat) /\
                      tcp_accepted s' = tcp_accepted s ++ take n buf
    | Ready (Err _) => s' = s
    | Pending => buf <> [] /\ tcp_accepted s' = tcp_accepted s /\ tcp_send_waker s' = Some cx
    end.
Proof.
  intros Hs. unfold poll_send. stream_step Hs r' Hs'.
  eexists _, r', _. split; [done|]. split; [exact Hs'|].
  destruct (tcp_send_slice buf s) as [[n|[]] s1] eqn:E; simpl; [|by eapply send_slice_err].
  destruct (send_slice_spec _ _ _ _ E) as [Hn Ha].
  destruct (Nat.eqb_spec n 0) as [->|]; destruct buf as [|b buf]; simpl in *; try done.
  - rewrite send_waker_accepted, Ha, app_nil_r. split_and!; [done.. | apply send_waker_set].
  - split_and!; [done | lia | done].
Qed.

Lemma poll_send_all_run fuel cx t data off r s :
  sock_of t r = Some s -> (off <= length data)%nat -> (length data - off < fuel)%nat ->
  exists p off' r' s', poll_send_all fuel cx t data off r = Ret (Some (p, off', r')) /\
    sock_of t r' = Some s' /\ (off <= off' <= length data)%nat /\
    tcp_accepted s' = tcp_accepted s ++ take (off' - off) (drop off data) /\
    match p with
    | Ready (Ok n) => n = length data /\ off' = length data
    | Ready (Err _) => True
    | Pending => (off' < length data)%nat /\ tcp_send_waker s' = Some cx
    end.
Proof.
  revert off r s. induction fuel as [|fuel IH]; intros off r s Hs Ho Hf; [lia|]. simpl.
  destruct (Nat.ltb_spec off (length data)) as [Hlt|Hge].
  2:{ eexists _, off, r, s. rewrite Nat.sub_diag, take_0, app_nil_r.
    split; [done|]. split_and!; done || lia. }
  unfold slice. rewrite (proj2 (Nat.leb_le _ _)), Nat.leb_refl by lia. simpl.
  rewrite take_ge by (rewrite length_drop; lia).
  destruct (poll_send_run cx t (drop off data) r s Hs) as (p & r1 & s1 & -> & Hs1 & Hp). simpl.
  assert (Hlen : length (drop off data) = (length data - off)%nat) by apply length_drop.
  destruct p as [[n|e]|].
  - destruct Hp as (Hn & Hpos & Ha).
    assert (0 < n)%nat by (apply Hpos; intros E; rewrite E in Hlen; simpl in Hlen; lia).
    destruct (IH (off + n)%nat r1 s1 Hs1 ltac:(lia) ltac:(lia)) as (p & off' & r' & s' & -> & Hs' & Hb & Ha' & Hp).
    eexists p, off', r', s'. split_and!; try done; try lia.
    rewrite Ha', Ha, <- app_assoc. f_equal.
    rewrite <- (take_drop n (take (off' - off) (drop off data))).
    rewrite take_take, skipn_firstn_comm, drop_drop. f_equal; f_equal; lia.
  - subst s1. eexists _, off, r1, s. rewrite Nat.sub_diag, take_0, app_nil_r.
    split; [done|]. split_and!; done || lia.
  - destruct Hp as (_ & Ha & Hw). eexists _, off, r1, s1. rewrite Nat.sub_diag, take_0, app_nil_r.
    split; [done|]. split_and!; done || lia.
Qed.

(** The whole life of a [send] future: polls separated by whatever the rest of
    the program does, as long as it does not send on the same stream. *)
Inductive send_run (cx : Waker) (t : TcpStream) (data : list byte) : nat -> ReactorInner -> ReactorInner -> Prop :=
  | send_done off r n off' r' :
      poll_send_all (S (length data)) cx t data off r = Ret (Some (Ready (Ok n), off', r')) ->
      send_run cx t data off r r'
  | send_wait off r off1 r1 r2 r' :
      poll_send_all (S (length data)) cx t data off r = Ret (Some (Pending, off1, r1)) ->
      (tcp_accepted <$> sock_of t r2 = tcp_accepted <$> sock_of t r1) ->
      send_run cx t data off1 r2 r' ->
      send_run cx t data off r r'.

Lemma send_run_accepted cx t data off r r' s : send_run cx t data off r r' ->
  sock_of t r = Some s -> (off <= length data)%nat ->
  exists s', sock_of t r' = Some s' /\ tcp_accepted s' = tcp_accepted s ++ drop off data.
Proof.
  intros Hr. revert s. induction Hr as [off r n off' r' E|off r off1 r1 r2 r' E Henv Hr IH]; intros s Hs Ho.
  - destruct (poll_send_all_run (S (length data)) cx t data off r s Hs Ho ltac:(lia))
      as (p & o & r1 & s' & E' & Hs' & _ & Ha & Hp). rewrite E in E'. simplify_eq.
    destruct Hp as [_ ->]. exists s'. split; [done|]. rewrite Ha, take_ge; [done | rewrite length_drop; lia].
  - destruct (poll_send_all_run (S (length data)) cx t data off r s Hs Ho ltac:(lia))
      as (p & o & r1' & s' & E' & Hs' & Hb & Ha & Hp). rewrite E in E'. simplify_eq.
    rewrite Hs' in Henv. destruct (sock_of t r2) as [s2|] eqn:E2; [|done]. simpl in Henv. injection Henv as Henv.
    destruct (IH s2 eq_refl ltac:(lia)) as (s3 & Hs3 & Ha3). exists s3. split; [done|].
    rewrite Ha3, Henv, Ha, <- app_assoc. f_equal.
    replace (drop o data) with (drop (o - off) (drop off data)); [apply take_drop|].
    rewrite drop_drop. f_equal. lia.
Qed.

(** C7: [send] has write-all semantics: when the future completes, over however
    many polls, the socket has accepted exactly [data], in order and behind what
    it had accepted before, whatever the rest of the program did between the
    polls. *)
Theorem send_writes_all cx t data r r' s (Hs : sock_of t r = Some s) (Hr : send_run cx t data 0 r r') :
  exists s', sock_of t r' = Some s' /\ tcp_accepted s' = tcp_accepted s ++ data.
Proof. destruct (send_run_accepted cx t data 0 r r' s Hr Hs ltac:(lia)) as (s' & ? & ?). by exists s'. Qed.

(** One poll of the [send] future is total: starting from any offset it
    ends with [length data + 1] rounds of fuel, has handed the bytes between
    the old and the new offset to the socket, is [Ready] with the full length
    only at the end of the data, and is [Pending] only with bytes left and the
    task's waker registered for sending. *)
Theorem send_poll_total cx t data off r s (Hs : sock_of t r = Some s) (Ho : (off <= length data)%nat) :
  exists p off' r' s', poll_send_all (S (length data)) cx t data off r = Ret (Some (p, off', r')) /\
    sock_of t r' = Some s' /\ (off <= off' <= length data)%nat /\
    tcp_accepted s' = tcp_accepted s ++ take (off' - off) (drop off data) /\
    match p with
    | Ready (Ok n) => n = length data /\ off' = length data
    | Ready (Err _) => True
    | Pending => (off' < length data)%nat /\ tcp_send_waker s' = Some cx
    end.
Proof. apply poll_send_all_run; [done | done | lia]. Qed.


(** ** Receiving, flushing, closing, connecting *)

(** C8: [poll_recv] returns the next bytes of the stream, in order and at most
    as many as the buffer holds; an empty result means end of stream or an
    empty buffer, never "nothing yet". *)
Theorem poll_recv_correct cx t n r s (Hs : sock_of t r = Some s) :
  exists p r' s', poll_recv cx t n r = Ret (p, r') /\ sock_of t r' = Some s' /\
    match p with
    | Ready (Ok []) => n = 0%nat \/ tcp_recv_slice n s = (Err RecvFinished, s)
    | Ready (Ok bs) => (length bs <= n)%nat /\ tcp_delivered s' = tcp_delivered s ++ bs
    | Ready (Err _) => tcp_recv_slice n s = (Err RecvInvalidState, s)
    | Pending => (0 < n)%nat /\ tcp_recv_waker s' = Some cx
    end.
Proof.
  unfold poll_recv. destruct (Nat.eqb_spec n 0) as [->|Hn]; [by eexists _, r, s; auto|].
  stream_step Hs r' Hs'. eexists _, r', _. split; [done|]. split; [exact Hs'|].
  destruct (tcp_recv_slice n s) as [[[|b bs]|[]] s1] eqn:E; simpl.
  - split; [lia | apply recv_waker_set].
  - exact (recv_slice_spec _ _ _ _ E).
  - by rewrite (recv_slice_err _ _ _ _ E).
  - right. by rewrite (recv_slice_err _ _ _ _ E).
Qed.


(** ** Accepting *)

Definition live (r : ReactorInner) (h : SocketHandle) : Prop := exists s, set_get (sockets r) h = Some (inl s).

Definition state_at (r : ReactorInner) (h : SocketHandle) (st : TcpState) : Prop :=
  exists s, set_get (sockets r) h = Some (inl s) /\ tcp_state s = st.

Lemma find_established_run i hs r : Forall (live r) hs ->
  exists o, find_established i hs (sockets r) = Ret o /\
    match o with
    | Some k => exists j h, k = (i + j)%nat /\ hs !! j = Some h /\ state_at r h Established /\
                            Forall (fun h => ~ state_at r h Established) (take j hs)
    | None => Forall (fun h => ~ state_at r h Established) hs
    end.
Proof.
  intros Hl. revert i. induction Hl as [|h hs [s Hs] Hl IH]; intros i; simpl; [by exists None|].
  rewrite (get_tcp_ret _ _ _ Hs). simpl. case_decide as E.
  - eexists. split; [done|]. exists 0%nat, h. split_and!; [lia | done | by exists s | constructor].
  - assert (~ state_at r h Established) as Hn.
    { intros (s' & Hs' & E'). rewrite Hs in Hs'. by simplify_eq. }
    destruct (IH (S i)) as (o & -> & Ho). exists o. split; [done|]. destruct o as [k|].
    + destruct Ho as (j & h' & -> & ? & ? & ?). exists (S j), h'. split_and!; [lia | done.. | by constructor].
    + by constructor.
Qed.

Lemma any_state_run p hs r : Forall (live r) hs ->
  exists b, any_state p hs (sockets r) = Ret b /\
    (b = true <-> Exists (fun h => exists st, state_at r h st /\ p st = true) hs).
Proof.
  induction 1 as [|h hs [s Hs] Hl IH]; simpl.
  { exists false. split; [done|]. split; [done | by intros ?%Exists_nil]. }
  rewrite (get_tcp_ret _ _ _ Hs). simpl. destruct (p (tcp_state s)) eqn:E.
  - exists true. split; [done|]. split; [intros _ | done]. apply Exists_cons. left. exists (tcp_state s).
    split; [by exists s | done].
  - destruct IH as (b & -> & Hb). exists b. split; [done|]. rewrite Hb, Exists_cons.
    split; [by right | intros [(st & (s' & Hs' & <-) & Hp)|]; [|done]]. rewrite Hs in Hs'. simplify_eq. congruence.
Qed.

Lemma register_all_run cx hs r : Forall (live r) hs ->
  exists r', register_all cx hs r = Ret r' /\
    (forall h, h ∉ hs -> set_get (sockets r') h = set_get (sockets r) h) /\
    (forall h, h ∈ hs -> exists s s', set_get (sockets r) h = Some (inl s) /\
       set_get (sockets r') h = Some (inl s') /\ tcp_state s' = tcp_state s /\ tcp_recv_waker s' = Some cx) /\
    orphaned_closing r' = orphaned_closing r /\ device r' = device r /\ world r' = world r.
Proof.
  revert r. induction hs as [|h hs IH]; intros r Hl; simpl.
  { exists r. split_and!; try done. by intros h ?%elem_of_nil. }
  apply Forall_cons in Hl as [[s Hs] Hl]. rewrite (with_tcp_run _ _ _ _ Hs). simpl.
  set (r1 := set_sockets r _).
  assert (Hget : forall h', set_get (sockets r1) h' =
    if decide (h' = h) then Some (inl (tcp_register_recv_waker cx s)) else set_get (sockets r) h').
  { intros h'. apply set_put_spec. eauto. }
  destruct (IH r1) as (r' & -> & Hout & Hin & Ho & Hdev & Hwld).
  { eapply Forall_impl; [exact Hl|]. intros h' [s' Hs']. unfold live. rewrite Hget. case_decide; eauto. }
  exists r'. split_and!; [done | | | by rewrite Ho | by rewrite Hdev | by rewrite Hwld].
  - intros h' [Hne Hnin]%not_elem_of_cons. rewrite Hout by done. by rewrite Hget, decide_False.
  - intros h' Hh. destruct (decide (h' ∈ hs)) as [Hi|Hi].
    + destruct (Hin _ Hi) as (a & b & Ha & Hb & Hst & Hw). rewrite Hget in Ha. case_decide as E.
      * subst h'. simplify_eq. exists s, b. split_and!; try done. by rewrite Hst, recv_waker_state.
      * by exists a, b.
    + apply elem_of_cons in Hh as [->|]; [|done]. exists s. eexists. rewrite Hout, Hget, decide_True by done.
      split_and!; [done.. | apply recv_waker_state | apply recv_waker_set].
Qed.

(** A fresh listening socket at [h]; nothing else changed. *)
Definition fresh_listening (r r' : ReactorInner) (h : SocketHandle) : Prop :=
  set_get (sockets r) h = None /\ state_at r' h Listen /\
  (forall h', h' <> h -> set_get (sockets r') h' = set_get (sockets r) h') /\
  orphaned_closing r' = orphaned_closing r.

Lemma create_listening_run p rx tx r :
  match create_listening_socket p rx tx r with
  | (Ok h, r') => is_ok (tcp_listen p (tcp_new rx tx)) = true /\ fresh_listening r r' h
  | (Err e, r') => r' = r /\ tcp_listen p (tcp_new rx tx) = Err e
  end.
Proof.
  unfold create_listening_socket. destruct (tcp_listen p (tcp_new rx tx)) as [s|e] eqn:E; [|done].
  destruct (set_add (inl s) (sockets r)) as [h ss] eqn:Ea. destruct (set_add_spec _ _ _ _ Ea) as [Hn Hs].
  split; [done|]. unfold fresh_listening, state_at. simpl. split_and!; try done.
  - exists s. rewrite Hs, decide_True by done. split; [done | by eapply listen_state].
  - intros h' Hne. by rewrite Hs, decide_False.
Qed.

(** A poll of the accept future. *)
Lemma poll_accept_run cx l r (Hl : Forall (live r) (handles l)) :
  exists p l' r', poll_accept cx l r = Ret (p, l', r') /\
    match p with
    | Ready (Ok t) => exists idx h,
        handles l !! idx = Some (handle t) /\ state_at r (handle t) Established /\
        Forall (fun h => ~ state_at r h Established) (take idx (handles l)) /\
        l' = mk_listener (<[idx := h]> (handles l)) (port l) (rx_buffer_size l) (tx_buffer_size l) /\
        backlog l' = backlog l /\ fresh_listening r r' h
    | Ready (Err e) => l' = l /\ r' = r /\
        (tcp_listen (port l) (tcp_new (rx_buffer_size l) (tx_buffer_size l)) = Err e \/
         Forall (fun h => forall st, state_at r h st -> closedb st = true) (handles l))
    | Pending => l' = l /\ Forall (fun h => ~ state_at r h Established) (handles l) /\
        forall h, h ∈ handles l -> exists s', set_get (sockets r') h = Some (inl s') /\ tcp_recv_waker s' = Some cx
    end.
Proof.
  unfold poll_accept. destruct (find_established_run 0 (handles l) r Hl) as ([k|] & -> & Ho); simpl.
  - destruct Ho as (j & h & -> & Hj & Hst & Hfirst). simpl. unfold index. rewrite Hj. simpl.
    pose proof (create_listening_run (port l) (rx_buffer_size l) (tx_buffer_size l) r) as Hc.
    destruct (create_listening_socket _ _ _ _) as [[nh|e] r'].
    + eexists _, _, r'. split; [done|]. exists j, nh. unfold backlog. simpl. rewrite length_insert.
      destruct Hc. by split_and!.
    + destruct Hc as [-> ?]. eexists _, l, r. split; [done|]. split_and!; [done | done | by left].
  - destruct (any_state_run (fun st => match st with Closed | TimeWait => false | _ => true end) _ _ Hl) as (b & -> & Hb).
    simpl. destruct b.
    + destruct (register_all_run cx _ _ Hl) as (r' & -> & _ & Hin & _). simpl.
      exists Pending, l, r'. split_and!; try done. intros h Hh. destruct (Hin h Hh) as (s & s' & ? & ? & ? & ?). eauto.
    + eexists _, l, r. split; [done|]. split_and!; try done. right.
      apply Forall_forall. intros h Hh st Hst. destruct (closedb st) eqn:E; [done|].
      destruct Hb as [_ Hb]. discriminate Hb. apply Exists_exists. exists h. split; [done|]. exists st.
      split; [done|]. by destruct st.
Qed.

(** C9: [accept] hands out the first established socket of the pool and
    replaces it at its place by a fresh listening socket, so that the backlog
    never shrinks; it waits only if no socket of the pool is established and
    then its waker is on every one of them; it fails, changing nothing, only if
    the replacement cannot listen or if every socket of the pool is dead. *)
Theorem poll_accept_correct cx l r (Hl : Forall (live r) (handles l)) :
  exists p l' r', poll_accept cx l r = Ret (p, l', r') /\
    match p with
    | Ready (Ok t) => exists idx h,
        handles l !! idx = Some (handle t) /\ state_at r (handle t) Established /\
        Forall (fun h => ~ state_at r h Established) (take idx (handles l)) /\
        l' = mk_listener (<[idx := h]> (handles l)) (port l) (rx_buffer_size l) (tx_buffer_size l) /\
        backlog l' = backlog l /\ fresh_listening r r' h
    | Ready (Err e) => l' = l /\ r' = r /\
        (tcp_listen (port l) (tcp_new (rx_buffer_size l) (tx_buffer_size l)) = Err e \/
         Forall (fun h => forall st, state_at r h st -> closedb st = true) (handles l))
    | Pending => l' = l /\ Forall (fun h => ~ state_at r h Established) (handles l) /\
        forall h, h ∈ handles l -> exists s', set_get (sockets r') h = Some (inl s') /\ tcp_recv_waker s' = Some cx
    end.
Proof. exact (poll_accept_run cx l r Hl). Qed.

End Proofs.

(** ** On the reference stack *)

#[local] Existing Instance Mbuf.ref_pktmbuf.
#[local] Existing Instance Queue.ref_mempool.
#[local] Existing Instance Queue.ref_burst.
#[local] Existing Instance Queue.ref_burst_laws.
#[local] Existing Instance Device.ref_hm_iter.
#[local] Existing Instance RefStack.ref_smoltcp.
#[local] Existing Instance RefStack.ref_smoltcp_laws.

(** A reactor whose socket 0 is established with room for [cap] bytes. *)
Definition one_stream (cap : nat) (rx : list byte) : ReactorInner :=
  set_sockets reactor0 [Some (inl (RefStack.mk_rtcp Established cap [] rx [] None None))].

Lemma send_writes_all_witness :
  exists r' s', send_run 7 (mk_stream 0) [x01; x02; x03] 0 (one_stream 8 []) r' /\
    sock_of (mk_stream 0) r' = Some s' /\ tcp_accepted s' = [x01; x02; x03].
Proof.
  eassert (send_run 7 (mk_stream 0) [x01; x02; x03] 0 (one_stream 8 []) _) as Hr
    by (eapply send_done; reflexivity).
  destruct (send_writes_all 7 (mk_stream 0) [x01; x02; x03] (one_stream 8 []) _ _ eq_refl Hr) as (s' & Hs' & Ha).
  eexists _, s'. split; [exact Hr|]. split; [exact Hs' | exact Ha].
Defined.

Lemma send_poll_total_witness :
  exists off' r' s', poll_send_all 4 7 (mk_stream 0) [x01; x02; x03] 0 (one_stream 2 []) = Ret (Some (Pending, off', r')) /\
    sock_of (mk_stream 0) r' = Some s' /\ off' < 3 /\ tcp_send_waker s' = Some 7.
Proof.
  destruct (send_poll_total 7 (mk_stream 0) [x01; x02; x03] 0 (one_stream 2 []) _ eq_refl)
    as (p & off' & r' & s' & E & Hs' & _ & _ & Hp); [simpl; lia|].
  destruct p as [x|]; [discriminate E|]. destruct Hp. by exists off', r', s'.
Defined.

Lemma poll_recv_correct_witness :
  exists bs r' s', poll_recv 7 (mk_stream 0) 2 (one_stream 2 [x01; x02; x03]) = Ret (Ready (Ok bs), r') /\
    sock_of (mk_stream 0) r' = Some s' /\ tcp_delivered s' = bs /\ length bs = 2.
Proof.
  destruct (poll_recv_correct 7 (mk_stream 0) 2 (one_stream 2 [x01; x02; x03]) _ eq_refl)
    as (p & r' & s' & E & Hs' & Hp).
  assert (p = Ready (Ok [x01; x02])) as -> by (injection E as <- _; reflexivity).
  destruct Hp as [_ Hd]. exists [x01; x02], r', s'. split_and!; [exact E | exact Hs' | exact Hd | done].
Defined.


Lemma poll_accept_correct_witness :
  let l := mk_listener [1; 2] 80 16 16 in
  exists t l' r', poll_accept 7 l reactor0 = Ret (Ready (Ok t), l', r') /\ handle t = 2 /\ backlog l' = 2.
Proof.
  intros l.
  destruct (poll_accept_correct 7 l reactor0) as (p & l' & r' & E & Hp).
  { repeat constructor; eexists; reflexivity. }
  assert (p = Ready (Ok (mk_stream 2))) as -> by (injection E as <- _ _; reflexivity).
  destruct Hp as (idx & h & _ & _ & _ & _ & Hb & _). by exists (mk_stream 2), l', r'.
Defined.

End Tcp.
