(* ===== verification/Udp.v ===== *)
(** * UDP sockets ([dpdk-net/src/socket/udp.rs])

    As for TCP, a [UdpSocket] is a handle into the reactor's socket set and its
    futures are given by their [poll]. *)

From stdpp Require Import base gmap list fin_maps.
From Stdlib Require Import ZArith Strings.Byte Lia.
From S2P Require Import Prelude Mbuf Pktmbuf Queue ArpCache Device Smoltcp Reactor.

Module Udp.
Import Reactor.

Section Model.
Context `{Smoltcp}.

Record UdpSocket := mk_udp { udp_handle : SocketHandle }.

Definition with_udp {A} (h : SocketHandle) (f : udp_sock -> A * udp_sock) (r : ReactorInner)
    : Exec (A * ReactorInner) :=
  s ← get_udp (sockets r) h;
  let '(a, s') := f s in
  Ret (a, set_sockets r (set_put h (inr s') (sockets r))).

(** [UdpSocket::bind]: metadata slots and payload sizes of both rings. *)
Definition bind (port rx_buffer_packets tx_buffer_packets max_packet_size : Z) (r : ReactorInner)
    : Result UdpSocket BindError * ReactorInner :=
  let socket := udp_new rx_buffer_packets (rx_buffer_packets * max_packet_size)
                        tx_buffer_packets (tx_buffer_packets * max_packet_size) in
  match udp_bind port socket with
  | Err e => (Err e, r)
  | Ok socket => let '(h, ss) := set_add (inr socket) (sockets r) in (Ok (mk_udp h), set_sockets r ss)
  end.

Definition is_open (u : UdpSocket) (r : ReactorInner) : Exec bool :=
  s ← get_udp (sockets r) (udp_handle u); Ret (udp_is_open s).
Definition endpoint (u : UdpSocket) (r : ReactorInner) : Exec (option Ipv4Addr * Z) :=
  s ← get_udp (sockets r) (udp_handle u); Ret (udp_endpoint s).

Definition close (u : UdpSocket) (r : ReactorInner) : Exec (unit * ReactorInner) :=
  with_udp (udp_handle u) (fun s => (tt, udp_close s)) r.

(** [UdpSendFuture::poll] *)
Definition poll_send_to (cx : Waker) (u : UdpSocket) (data : list byte) (ep : IpEndpoint) (r : ReactorInner)
    : Exec (Poll (Result nat UdpSendError) * ReactorInner) :=
  with_udp (udp_handle u) (fun s =>
    match udp_send_slice data ep s with
    | (Ok _, s) => (Ready (Ok (length data)), s)
    | (Err BufferFull, s) => (Pending, udp_register_send_waker cx s)
    | (Err e, s) => (Ready (Err e), s)
    end) r.

(** [UdpRecvFuture::poll] into a buffer of [buf_len] bytes. *)
Definition poll_recv_from (cx : Waker) (u : UdpSocket) (buf_len : nat) (r : ReactorInner)
    : Exec (Poll (Result (list byte * IpEndpoint) UdpRecvError) * ReactorInner) :=
  with_udp (udp_handle u) (fun s =>
    match udp_recv_slice buf_len s with
    | (Ok (bs, ep), s) => (Ready (Ok (bs, ep)), s)
    | (Err Exhausted, s) => (Pending, udp_register_recv_waker cx s)
    | (Err e, s) => (Ready (Err e), s)
    end) r.

(** [Drop for UdpSocket] *)
Definition drop_udp (u : UdpSocket) (r : ReactorInner) : Exec ReactorInner :=
  '(_, r) ← with_udp (udp_handle u) (fun s => (tt, udp_close s)) r;
  ss ← remove (udp_handle u) (sockets r);
  Ret (set_sockets r ss).

End Model.

Section Proofs.
Context `{HL : EthBurstLaws} {HI : HashMapIter} {HS : Smoltcp} {HSL : SmoltcpLaws}.

Lemma with_udp_run {A} h (f : udp_sock -> A * udp_sock) r s : set_get (sockets r) h = Some (inr s) ->
  with_udp h f r = Ret ((f s).1, set_sockets r (set_put h (inr (f s).2) (sockets r))).
Proof. intros Hs. unfold with_udp, get_udp. rewrite Hs. simpl. by destruct (f s). Qed.

Lemma put_get h s ss : is_Some (set_get ss h) -> set_get (set_put h s ss) h = Some s.
Proof. intros Hs. by rewrite set_put_spec, decide_True. Qed.

(** The UDP futures never lose a wake-up: a poll that returns [Pending]
    has stored the task's waker in the socket, on the side that will make
    progress, and a completed send reports the full datagram length. *)
Theorem udp_pending_registers cx u r s data ep n (Hs : set_get (sockets r) (udp_handle u) = Some (inr s)) :
  (exists p r', poll_send_to cx u data ep r = Ret (p, r') /\
     match p with
     | Pending => exists s', set_get (sockets r') (udp_handle u) = Some (inr s') /\ udp_send_waker s' = Some cx
     | Ready (Ok k) => k = length data
     | Ready (Err e) => e <> BufferFull
     end) /\
  (exists p r', poll_recv_from cx u n r = Ret (p, r') /\
     match p with
     | Pending => exists s', set_get (sockets r') (udp_handle u) = Some (inr s') /\ udp_recv_waker s' = Some cx
     | Ready (Err e) => e <> Exhausted
     | Ready (Ok _) => True
     end).
Proof.
  split; unfold poll_send_to, poll_recv_from; rewrite (with_udp_run _ _ _ _ Hs); eexists _, _; (split; [done|]); simpl.
  - destruct (udp_send_slice data ep s) as [[[]|[]] s1]; simpl; try done.
    eexists. rewrite put_get by eauto. split; [done | apply udp_send_waker_set].
  - destruct (udp_recv_slice n s) as [[[bs e]|[]] s1]; simpl; try done.
    eexists. rewrite put_get by eauto. split; [done | apply udp_recv_waker_set].
Qed.

End Proofs.

#[local] Existing Instance Mbuf.ref_pktmbuf.
#[local] Existing Instance Queue.ref_mempool.
#[local] Existing Instance Queue.ref_burst.
#[local] Existing Instance Queue.ref_burst_laws.
#[local] Existing Instance Device.ref_hm_iter.
#[local] Existing Instance RefStack.ref_smoltcp.
#[local] Existing Instance RefStack.ref_smoltcp_laws.

Lemma udp_pending_registers_witness :
  let s := RefStack.mk_rudp 53 0 [] None None in
  let r := set_sockets reactor0 [Some (inr s)] in
  exists r' s', poll_send_to 7 (mk_udp 0) [x01] (mk_endpoint Device.ip_a 53) r = Ret (Pending, r') /\
    set_get (sockets r') 0 = Some (inr s') /\ udp_send_waker s' = Some 7.
Proof.
  intros s r.
  destruct (udp_pending_registers 7 (mk_udp 0) r s [x01] (mk_endpoint Device.ip_a 53) 8 eq_refl) as [(p & r' & E & Hp) _].
  destruct p as [x|]; [discriminate E|]. destruct Hp as (s' & Hs' & Hw). exists r', s'. split; [exact E | done].
Defined.

End Udp.
