(* ===== verification/Sockets.v ===== *)
(** * Ownership of sockets across the stack

    The socket set is shared by the reactor and by every [TcpStream],
    [TcpListener] and [UdpSocket] of the application; each of them looks its
    handles up with [SocketSet::get], which panics on a handle that was removed
    or that names a socket of another type.  This file runs the whole
    application interface (constructors, futures, [Drop]s) interleaved with
    reactor ticks, and shows that every live socket has exactly one owner. *)

From stdpp Require Import base gmap list fin_maps.
From Stdlib Require Import ZArith Strings.Byte Lia.
From S2P Require Import Prelude Mbuf Pktmbuf Queue ArpCache Device Smoltcp Reactor Tcp Udp.

Module Sockets.
Import Reactor Tcp.

Section Model.
Context `{Smoltcp}.

(** [T] and [U] are exactly the live TCP and UDP handles, each once. *)
Record owns (ss : SocketSet) (T U : list SocketHandle) : Prop := {
  ow_nodup_t : NoDup T;
  ow_nodup_u : NoDup U;
  ow_tcp : forall h, kind ss h = Some true <-> h ∈ T;
  ow_udp : forall h, kind ss h = Some false <-> h ∈ U
}.

(** The application owns [T] and [U]; the reactor owns its orphans. *)
Definition holds (r : ReactorInner) (T U : list SocketHandle) : Prop :=
  owns (sockets r) (T ++ orphaned_closing r) U.

(** ** The running program *)

Record Sys := mk_sys {
  reactor : ReactorInner;
  streams : list TcpStream;
  listeners : list TcpListener;
  udps : list Udp.UdpSocket
}.

Definition tcp_handles (s : Sys) : list SocketHandle :=
  (handle <$> streams s) ++ concat (handles <$> listeners s).
Definition udp_handles (s : Sys) : list SocketHandle := Udp.udp_handle <$> udps s.

(** What a task may do with an object it holds (named by its position). *)
Inductive stream_op :=
  | OpState | OpIsActive
  | OpRecv (n : nat) | OpSend (bs : list byte) | OpFlush | OpClose | OpAbort | OpWait.

Inductive action :=
  | AConnect (addr : Ipv4Addr) (rport lport rx tx : Z)
  | AStream (i : nat) (cx : Waker) (o : stream_op)
  | ADropStream (i : nat)
  | ABind (port rx tx : Z) (backlog : nat)
  | AAccept (i : nat) (cx : Waker)
  | APending (i : nat)
  | ADropListener (i : nat)
  | AUdpBind (port rxp txp size : Z)
  | AUdpSend (i : nat) (cx : Waker) (bs : list byte) (ep : IpEndpoint)
  | AUdpRecv (i : nat) (cx : Waker) (n : nat)
  | AUdpClose (i : nat)
  | ADropUdp (i : nat)
  | ATick (batch_size : nat) (ts : Z).

Definition with_reactor (s : Sys) (r : ReactorInner) : Sys := mk_sys r (streams s) (listeners s) (udps s).

Definition run_stream_op (cx : Waker) (o : stream_op) (t : TcpStream) (r : ReactorInner) : Exec ReactorInner :=
  match o with
  | OpState => _ ← state t r; _ ← is_connected t r; Ret r
  | OpIsActive => _ ← is_active t r; Ret r
  | OpRecv n => '(_, r) ← poll_recv cx t n r; Ret r
  | OpSend bs => '(_, r) ← poll_send cx t bs r; Ret r
  | OpFlush => '(_, r) ← poll_flush_io cx t r; Ret r
  | OpClose => '(_, r) ← poll_close_io cx t r; Ret r
  | OpAbort => '(_, r) ← abort t r; Ret r
  | OpWait => '(_, r) ← poll_wait_connected cx t r; Ret r
  end.

(** [None]: the program does not hold the object the action names. *)
Definition run_action (a : action) (s : Sys) : option (Exec Sys) :=
  let r := reactor s in
  match a with
  | AConnect addr rport lport rx tx =>
      Some (Ret (match connect addr rport lport rx tx r with
                 | (Ok t, r) => mk_sys r (t :: streams s) (listeners s) (udps s)
                 | (Err _, r) => with_reactor s r
                 end))
  | AStream i cx o =>
      t ← streams s !! i; Some (r ← run_stream_op cx o t r; Ret (with_reactor s r))
  | ADropStream i =>
      t ← streams s !! i;
      Some (r ← drop_stream t r; Ret (mk_sys r (delete i (streams s)) (listeners s) (udps s)))
  | ABind port rx tx backlog =>
      Some (Ret (match bind_with_backlog port rx tx backlog r with
                 | (Ok l, r) => mk_sys r (streams s) (l :: listeners s) (udps s)
                 | (Err _, r) => with_reactor s r
                 end))
  | AAccept i cx =>
      l ← listeners s !! i;
      Some ('(p, l, r) ← poll_accept cx l r;
            let ls := <[i := l]> (listeners s) in
            Ret (match p with
                 | Ready (Ok t) => mk_sys r (t :: streams s) ls (udps s)
                 | _ => mk_sys r (streams s) ls (udps s)
                 end))
  | APending i =>
      l ← listeners s !! i; Some (_ ← is_pending l r; _ ← states l r; Ret s)
  | ADropListener i =>
      l ← listeners s !! i;
      Some (r ← drop_listener l r; Ret (mk_sys r (streams s) (delete i (listeners s)) (udps s)))
  | AUdpBind port rxp txp size =>
      Some (Ret (match Udp.bind port rxp txp size r with
                 | (Ok u, r) => mk_sys r (streams s) (listeners s) (u :: udps s)
                 | (Err _, r) => with_reactor s r
                 end))
  | AUdpSend i cx bs ep =>
      u ← udps s !! i; Some ('(_, r) ← Udp.poll_send_to cx u bs ep r; Ret (with_reactor s r))
  | AUdpRecv i cx n =>
      u ← udps s !! i; Some ('(_, r) ← Udp.poll_recv_from cx u n r; Ret (with_reactor s r))
  | AUdpClose i =>
      u ← udps s !! i; Some ('(_, r) ← Udp.close u r; Ret (with_reactor s r))
  | ADropUdp i =>
      u ← udps s !! i;
      Some (r ← Udp.drop_udp u r; Ret (mk_sys r (streams s) (listeners s) (delete i (udps s))))
  | ATick bs ts =>
      Some (o ← tick bs ts r;
            Ret (match o with Some r => with_reactor s r | None => s end))
  end.

Record sys_ok (s : Sys) : Prop := {
  sys_owns : holds (reactor s) (tcp_handles s) (udp_handles s);
  sys_device : device_ok (reactor s)
}.

(** A sequence of actions; [None] when one of them names an object that the
    program does not hold. *)
Fixpoint run_actions (as_ : list action) (s : Sys) : Exec (option Sys) :=
  match as_ with
  | [] => Ret (Some s)
  | a :: as_ =>
      match run_action a s with
      | None => Ret None
      | Some e => s ← e; run_actions as_ s
      end
  end.

End Model.

Section Proofs.
Context `{HL : EthBurstLaws} {HI : HashMapIter} {HS : Smoltcp} {HSL : SmoltcpLaws}.

#[local] Instance owns_proper ss : Proper ((≡ₚ) ==> (≡ₚ) ==> iff) (owns ss).
Proof.
  assert (forall T T' U U', T ≡ₚ T' -> U ≡ₚ U' -> owns ss T U -> owns ss T' U') as Himp.
  { intros T T' U U' HT HU [Ht Hu Hkt Hku]. split.
    - by rewrite <- HT.
    - by rewrite <- HU.
    - intros h. by rewrite <- HT.
    - intros h. by rewrite <- HU. }
  intros T T' HT U U' HU. split; apply Himp; done.
Qed.

Lemma owns_same ss ss' T U : same_kinds ss ss' -> owns ss T U -> owns ss' T U.
Proof. intros Hk [? ? Ht Hu]. split; try done; intros h; by rewrite Hk. Qed.

Lemma owns_get ss T U h : owns ss T U -> h ∈ T -> exists s, set_get ss h = Some (inl s).
Proof. intros Ho Hh. by apply kind_tcp, (ow_tcp _ _ _ Ho). Qed.

Lemma kind_udp ss h : kind ss h = Some false <-> exists s, set_get ss h = Some (inr s).
Proof. unfold kind. destruct (set_get ss h) as [[s|s]|]; split; try done; try (by intros [? ?]); eauto. Qed.

Lemma owns_get_udp ss T U h : owns ss T U -> h ∈ U -> exists s, set_get ss h = Some (inr s).
Proof. intros Ho Hh. by apply kind_udp, (ow_udp _ _ _ Ho). Qed.

(** How the owned handles change with the set. *)
Lemma owns_add b ss h ss' x T U : is_tcp x = b -> owns ss T U -> set_add x ss = (h, ss') ->
  owns ss' (if b then h :: T else T) (if b then U else h :: U).
Proof.
  intros Hb [Ht Hu Hkt Hku] Ha. destruct (set_add_spec _ _ _ _ Ha) as [Hn Hs].
  assert (forall h', kind ss' h' = if decide (h' = h) then Some b else kind ss h') as Hk.
  { intros h'. unfold kind. rewrite Hs. case_decide; simpl; by subst. }
  assert (kind ss h = None) as Hkn by (unfold kind; by rewrite Hn).
  assert ((h ∉ T) /\ (h ∉ U)) as [HnT HnU].
  { split; intros Hh; [apply Hkt in Hh | apply Hku in Hh]; congruence. }
  destruct b; split; try done; try (by constructor); intros h'; rewrite Hk;
    specialize (Hkt h'); specialize (Hku h'); case_decide; subst; rewrite ?elem_of_cons; intuition congruence.
Qed.

Lemma owns_remove ss h T U : owns ss (h :: T) U -> owns (set_remove h ss) T U.
Proof.
  intros [Ht Hu Hkt Hku]. apply NoDup_cons in Ht as [Hh Ht].
  assert (kind ss h = Some true) as Hkh by (apply Hkt; by left).
  split; try done; intros h'; unfold kind; rewrite set_remove_spec; case_decide; simpl; subst.
  - split; [done | by intros ?].
  - fold (kind ss h'). rewrite Hkt, elem_of_cons. intuition congruence.
  - split; [done|]. intros ?%Hku. congruence.
  - apply Hku.
Qed.

Lemma owns_remove_udp ss h T U : owns ss T (h :: U) -> owns (set_remove h ss) T U.
Proof.
  intros [Ht Hu Hkt Hku]. apply NoDup_cons in Hu as [Hh Hu].
  assert (kind ss h = Some false) as Hkh by (apply Hku; by left).
  split; try done; intros h'; unfold kind; rewrite set_remove_spec; case_decide; simpl; subst.
  - split; [done|]. intros ?%Hkt. congruence.
  - apply Hkt.
  - split; [done | by intros ?].
  - fold (kind ss h'). rewrite Hku, elem_of_cons. intuition congruence.
Qed.

Lemma put_same ss h x y : set_get ss h = Some x -> is_tcp y = is_tcp x -> same_kinds ss (set_put h y ss).
Proof.
  intros Hx Hy h'. unfold kind. rewrite set_put_spec by eauto. case_decide; [|done]. subst.
  rewrite Hx. simpl. by rewrite Hy.
Qed.


(** ** The operations *)

Definition moves (r r' : ReactorInner) : Prop := device r' = device r /\ world r' = world r.

(** The operation ends, changes the owned handles to [T'] and [U'] and leaves
    the device alone. *)
Definition to (r : ReactorInner) (T' U' : list SocketHandle) (r' : ReactorInner) : Prop :=
  holds r' T' U' /\ moves r r'.

Lemma to_refl r T U : holds r T U -> to r T U r.
Proof. by split. Qed.

Lemma to_trans r r1 r2 T1 U1 T2 U2 : to r T1 U1 r1 -> to r1 T2 U2 r2 -> to r T2 U2 r2.
Proof. unfold to, moves. intros [_ [? ?]] [? [? ?]]. split; [done | split; congruence]. Qed.

Lemma to_device r T U r' : to r T U r' -> device_ok r -> device_ok r'.
Proof. unfold device_ok. by intros [_ [-> ->]]. Qed.

Lemma holds_get r T U h : holds r T U -> h ∈ T -> exists s, set_get (sockets r) h = Some (inl s).
Proof. intros Hh Hin. eapply owns_get; [exact Hh|]. apply elem_of_app. by left. Qed.

Lemma with_tcp_to {A} h (f : tcp_sock -> A * tcp_sock) r T U : holds r T U -> h ∈ T ->
  exists a r', with_tcp h f r = Ret (a, r') /\ to r T U r'.
Proof.
  intros Hh Hin. destruct (holds_get _ _ _ _ Hh Hin) as [s Hs]. rewrite (with_tcp_run _ _ _ _ Hs).
  eexists _, _. split; [done|]. split; [|done]. eapply owns_same; [|exact Hh]. by eapply put_same.
Qed.

Lemma with_udp_to {A} h (f : udp_sock -> A * udp_sock) r T U : holds r T U -> h ∈ U ->
  exists a r', Udp.with_udp h f r = Ret (a, r') /\ to r T U r'.
Proof.
  intros Hh Hin. destruct (owns_get_udp _ _ _ _ Hh Hin) as [s Hs]. rewrite (Udp.with_udp_run _ _ _ _ Hs).
  eexists _, _. split; [done|]. split; [|done]. eapply owns_same; [|exact Hh]. by eapply put_same.
Qed.

(** Use the lemma on the next access to a TCP socket the application owns. *)
Ltac tcp_access Hh Hin r1 S1 :=
  match goal with
  | |- context [with_tcp ?h ?f ?r] => destruct (with_tcp_to h f r _ _ Hh Hin) as (? & r1 & -> & S1)
  end.

Lemma close_wait_to cx t r T U : holds r T U -> handle t ∈ T ->
  exists p r', close_wait cx t r = Ret (p, r') /\ to r T U r'.
Proof. intros. by apply with_tcp_to. Qed.

Lemma run_stream_op_to cx o t r T U : holds r T U -> handle t ∈ T ->
  exists r', run_stream_op cx o t r = Ret r' /\ to r T U r'.
Proof.
  intros Hh Hin. destruct (holds_get _ _ _ _ Hh Hin) as [s Hs].
  pose proof (get_tcp_ret _ _ _ Hs) as Hg. pose proof (to_refl _ _ _ Hh) as Hrefl.
  destruct o; simpl; unfold state, is_connected, is_active, state, poll_recv, poll_send, poll_flush_io,
    poll_close_io, abort, poll_wait_connected; rewrite ?Hg; simpl.
  - eauto.
  - eauto.
  - destruct (n =? 0); [by eauto|]. tcp_access Hh Hin r1 S1. simpl. eauto.
  - tcp_access Hh Hin r1 S1. simpl. eauto.
  - destruct (tcp_send_queue s =? 0)%Z; [by eauto|]. tcp_access Hh Hin r1 S1. simpl. eauto.
  - destruct (close_wait_to cx t r T U Hh Hin) as (p & r2 & Ew & S2).
    destruct (with_tcp_to (handle t) (fun s => (tt, tcp_close s)) r T U Hh Hin) as (a & r1 & E1 & S1).
    destruct (close_wait_to cx t r1 T U (proj1 S1) Hin) as (p' & r3 & Ew' & S3).
    pose proof (to_trans _ _ _ _ _ _ _ S1 S3).
    destruct (tcp_state s); rewrite ?E1; simpl; rewrite ?Ew, ?Ew'; simpl; eauto.
  - tcp_access Hh Hin r1 S1. simpl. eauto.
  - tcp_access Hh Hin r1 S1. simpl. eauto.
Qed.

Lemma connect_to addr rp lp rx tx r T U : holds r T U ->
  match connect addr rp lp rx tx r with
  | (Ok t, r') => to r (handle t :: T) U r'
  | (Err _, r') => r' = r
  end.
Proof.
  intros Hh. unfold connect. destruct (tcp_connect _ _ _ _) as [s|e]; [|done].
  destruct (set_add (inl s) (sockets r)) as [h ss] eqn:E. split; [|done].
  by apply (owns_add true (sockets r) h ss (inl s) (T ++ orphaned_closing r) U).
Qed.

Lemma remove_run h ss x : set_get ss h = Some x -> remove h ss = Ret (set_remove h ss).
Proof. unfold remove. by intros ->. Qed.

Lemma drop_stream_to t r T U : holds r (handle t :: T) U ->
  exists r', drop_stream t r = Ret r' /\ to r T U r'.
Proof.
  intros Hh. assert (handle t ∈ handle t :: T) as Hin by by left.
  destruct (holds_get _ _ _ _ Hh Hin) as [s Hs].
  assert (forall r1, to r (handle t :: T) U r1 ->
    to r T U (set_orphans r1 (orphaned_closing r1 ++ [handle t]))) as Horphan.
  { intros r1 [Ho Hm]. split; [|done]. unfold holds in *. simpl.
    by rewrite app_assoc, <- Permutation_cons_append. }
  unfold drop_stream. rewrite (get_tcp_ret _ _ _ Hs). simpl.
  assert (exists r', ('(_, r) ← with_tcp (handle t) (fun s => (tt, tcp_abort s)) r;
    Ret (set_orphans r (orphaned_closing r ++ [handle t]))) = Ret r' /\ to r T U r') as Hab.
  { tcp_access Hh Hin r1 S1. simpl. eauto. }
  destruct (tcp_state s); try exact Hab; try (eexists; split; [done|]; apply (Horphan r), to_refl, Hh).
  - rewrite (remove_run _ _ _ Hs). simpl. eexists. split; [done|]. split; [|done]. by apply owns_remove.
  - rewrite (remove_run _ _ _ Hs). simpl. eexists. split; [done|]. split; [|done]. by apply owns_remove.
Qed.


Lemma create_to p rx tx r T U : holds r T U ->
  match create_listening_socket p rx tx r with
  | (Ok h, r') => to r (h :: T) U r'
  | (Err _, r') => r' = r
  end.
Proof.
  intros Hh. unfold create_listening_socket. destruct (tcp_listen _ _) as [s|e]; [|done].
  destruct (set_add (inl s) (sockets r)) as [h ss] eqn:E. split; [|done].
  by apply (owns_add true (sockets r) h ss (inl s) (T ++ orphaned_closing r) U).
Qed.

Lemma create_err p rx tx e r : tcp_listen p (tcp_new rx tx) = Err e -> create_listening_socket p rx tx r = (Err e, r).
Proof. unfold create_listening_socket. by intros ->. Qed.

Lemma holds_perm r T T' U : T ≡ₚ T' -> holds r T U -> holds r T' U.
Proof. unfold holds. by intros ->. Qed.

Lemma to_perm r T T' U r' : T ≡ₚ T' -> to r T U r' -> to r T' U r'.
Proof. intros Hp [Hh Hm]. split; [by eapply holds_perm | done]. Qed.

(** Binding either creates all sockets of the pool or none. *)
Lemma bind_loop_to n p rx tx acc r T U : holds r T U ->
  match bind_loop n p rx tx acc r with
  | (Ok hs', r') => exists hs, hs' = acc ++ hs /\ length hs = n /\ to r (hs ++ T) U r'
  | (Err _, r') => r' = r
  end.
Proof.
  intros Hh. destruct (tcp_listen p (tcp_new rx tx)) as [s|e] eqn:El.
  - revert acc r T Hh. induction n as [|n IH]; intros acc r T Hh; simpl.
    { exists []. rewrite app_nil_r. split_and!; [done.. | by apply to_refl]. }
    pose proof (create_to p rx tx r T U Hh) as Hc.
    destruct (create_listening_socket p rx tx r) as [[h|e] r1] eqn:E.
    2:{ unfold create_listening_socket in E. rewrite El in E. by destruct (set_add _ _). }
    specialize (IH (acc ++ [h]) r1 (h :: T) (proj1 Hc)).
    destruct (bind_loop n p rx tx (acc ++ [h]) r1) as [[hs'|e] r'] eqn:Eb.
    + destruct IH as (hs & -> & Hl & S1). exists (h :: hs). rewrite <- app_assoc. simpl.
      split_and!; [done | lia |]. eapply to_perm; [|exact (to_trans _ _ _ _ _ _ _ Hc S1)].
      by rewrite Permutation_middle.
    + exfalso. clear -El Eb. revert Eb. generalize (acc ++ [h]). revert r1.
      induction n as [|n IH]; intros r1 l; simpl; [done|]. unfold create_listening_socket. rewrite El.
      destruct (set_add _ _). apply IH.
  - destruct n; simpl; [|by rewrite (create_err _ _ _ _ _ El)].
    exists []. rewrite app_nil_r. split_and!; [done.. | by apply to_refl].
Qed.

Lemma bind_to p rx tx n r T U : holds r T U ->
  match bind_with_backlog p rx tx n r with
  | (Ok l, r') => backlog l = Nat.max n 1 /\ to r (handles l ++ T) U r'
  | (Err _, r') => r' = r
  end.
Proof.
  intros Hh. unfold bind_with_backlog. pose proof (bind_loop_to (Nat.max n 1) p rx tx [] r T U Hh) as Hb.
  destruct (bind_loop _ _ _ _ _ _) as [[hs|e] r']; [|done]. by destruct Hb as (hs' & -> & ? & ?).
Qed.

Lemma holds_live r T U hs : holds r (hs ++ T) U -> Forall (live r) hs.
Proof.
  intros Hh. apply Forall_forall. intros h Hin. apply (holds_get _ _ _ _ Hh). apply elem_of_app. by left.
Qed.

Lemma insert_Permutation (hs : list SocketHandle) i x y : hs !! i = Some x -> x :: <[i := y]> hs ≡ₚ y :: hs.
Proof.
  intros Hi. pose proof (lookup_lt_Some _ _ _ Hi).
  rewrite insert_take_drop by done. rewrite <- (take_drop_middle hs i x Hi) at 3.
  rewrite <- !Permutation_middle. apply perm_swap.
Qed.

Lemma register_all_to cx hs r T U : holds r T U -> Forall (live r) hs ->
  exists r', register_all cx hs r = Ret r' /\ to r T U r'.
Proof.
  intros Hh Hl. destruct (register_all_run cx hs r Hl) as (r' & E & Hout & Hin & Ho & Hd & Hw).
  exists r'. split; [done|]. split; [|done]. unfold holds. rewrite Ho. eapply owns_same; [|exact Hh].
  intros h. unfold kind. destruct (decide (h ∈ hs)) as [Hi|Hi]; [|by rewrite Hout].
  by destruct (Hin h Hi) as (s & s' & -> & -> & _).
Qed.

Lemma accept_to cx l r T U : holds r (handles l ++ T) U ->
  exists p l' r', poll_accept cx l r = Ret (p, l', r') /\
    match p with
    | Ready (Ok t) => to r (handle t :: handles l' ++ T) U r'
    | _ => to r (handles l' ++ T) U r'
    end.
Proof.
  intros Hh. pose proof (holds_live _ _ _ _ Hh) as Hl. unfold poll_accept.
  destruct (find_established_run 0 (handles l) r Hl) as ([k|] & -> & Ho); simpl.
  - destruct Ho as (j & h & -> & Hj & _). simpl. unfold index. rewrite Hj. simpl.
    pose proof (create_to (port l) (rx_buffer_size l) (tx_buffer_size l) r _ U Hh) as Hc.
    destruct (create_listening_socket _ _ _ _) as [[nh|e] r'].
    + eexists _, _, r'. split; [done|]. simpl. eapply to_perm; [|exact Hc].
      rewrite !app_comm_cons. by rewrite insert_Permutation by done.
    + subst r'. eexists _, l, r. split; [done|]. by apply to_refl.
  - destruct (any_state_run (fun st => match st with Closed | TimeWait => false | _ => true end) _ _ Hl) as (b & -> & _).
    simpl. destruct b.
    + destruct (register_all_to cx _ _ _ _ Hh Hl) as (r' & -> & S1). simpl. by exists Pending, l, r'.
    + eexists _, l, r. split; [done|]. by apply to_refl.
Qed.

Lemma drop_handles_to hs r T U : holds r (hs ++ T) U -> exists r', drop_handles hs r = Ret r' /\ to r T U r'.
Proof.
  revert r. induction hs as [|h hs IH]; intros r Hh; simpl; [by eauto using to_refl|].
  assert (h ∈ (h :: hs) ++ T) as Hin by by left.
  destruct (holds_get _ _ _ _ Hh Hin) as [s Hs]. rewrite (get_tcp_ret _ _ _ Hs). simpl.
  assert (exists r1, (if decide (tcp_state s = Closed) then Ret (tt, r)
    else with_tcp h (fun s => (tt, tcp_abort s)) r) = Ret (tt, r1) /\ to r ((h :: hs) ++ T) U r1) as (r1 & -> & S1).
  { case_decide; [by eauto using to_refl|].
    destruct (with_tcp_to h (fun s => (tt, tcp_abort s)) r _ _ Hh Hin) as ([] & r1 & -> & S1). eauto. }
  simpl. destruct (holds_get _ _ _ _ (proj1 S1) Hin) as [s1 Hs1]. rewrite (remove_run _ _ _ Hs1). simpl.
  assert (to r (hs ++ T) U (set_sockets r1 (set_remove h (sockets r1)))) as S2.
  { split; [|apply S1]. apply owns_remove, (proj1 S1). }
  destruct (IH _ (proj1 S2)) as (r' & -> & S3). exists r'. split; [done|].
  exact (to_trans _ _ _ _ _ _ _ S2 S3).
Qed.

Lemma udp_bind_to p a b c r T U : holds r T U ->
  match Udp.bind p a b c r with
  | (Ok u, r') => to r T (Udp.udp_handle u :: U) r'
  | (Err _, r') => r' = r
  end.
Proof.
  intros Hh. unfold Udp.bind. destruct (udp_bind _ _) as [s|e]; [|done].
  destruct (set_add (inr s) (sockets r)) as [h ss] eqn:E. split; [|done].
  by apply (owns_add false (sockets r) h ss (inr s) (T ++ orphaned_closing r) U).
Qed.

Lemma drop_udp_to u r T U : holds r T (Udp.udp_handle u :: U) ->
  exists r', Udp.drop_udp u r = Ret r' /\ to r T U r'.
Proof.
  intros Hh. assert (Udp.udp_handle u ∈ Udp.udp_handle u :: U) as Hin by by left. unfold Udp.drop_udp.
  destruct (with_udp_to (Udp.udp_handle u) (fun s => (tt, udp_close s)) r T _ Hh Hin) as (a & r1 & -> & S1). simpl.
  destruct (owns_get_udp _ _ _ _ (proj1 S1) Hin) as [s Hs]. rewrite (remove_run _ _ _ Hs). simpl.
  eexists. split; [done|]. split; [|apply S1]. apply owns_remove_udp, (proj1 S1).
Qed.

Lemma holds_orphans r T U : holds r T U -> orphans_ok r.
Proof.
  intros [Hnd _ Hk _]. apply NoDup_app in Hnd as (_ & _ & Hnd). split; [done|].
  apply Forall_forall. intros h Hh. apply Hk, elem_of_app. by right.
Qed.

Lemma keeps_holds r r' T U : holds r T U -> keeps_owned r r' -> orphans_ok r' -> holds r' T U.
Proof.
  intros [Hnd HndU Hkt Hku] (Hsame & Horph & Hnu) [Hnd' _].
  apply NoDup_app in Hnd as (HT & Hdisj & HO).
  assert (forall h, h ∈ orphaned_closing r' -> h ∈ orphaned_closing r) as Hsub by (intros h; rewrite Horph; tauto).
  split; [|done|..].
  - apply NoDup_app. split_and!; [done | | done]. intros h Hh Ho. by apply (Hdisj h Hh), Hsub.
  - intros h. specialize (Hkt h). rewrite elem_of_app in *. specialize (Horph h).
    destruct (decide (h ∈ orphaned_closing r)) as [Ho|Ho].
    + specialize (Hdisj h). tauto.
    + rewrite (Hsame h Ho). tauto.
  - intros h. rewrite <- Hku. destruct (decide (h ∈ orphaned_closing r)) as [Ho|Ho]; [|by rewrite Hsame].
    split; [by intros ?%(Hnu h Ho)|]. intros Hf.
    assert (kind (sockets r) h = Some true) by (apply Hkt, elem_of_app; by right). congruence.
Qed.


(** ** The running program *)

Definition good (a : action) (s : Sys) (e : Exec Sys) : Prop :=
  match e with
  | Ret s' => sys_ok s' /\ loose (reactor s') = loose (reactor s)
  | Panic => (exists bs ts, a = ATick bs ts) /\ can_fill_tx (reactor s)
  | UB => False
  end.

Lemma to_good a s s' T U : sys_ok s -> to (reactor s) T U (reactor s') ->
  T ≡ₚ tcp_handles s' -> U ≡ₚ udp_handles s' -> good a s (Ret s').
Proof.
  intros [_ Hd] S1 HT HU. pose proof (to_device _ _ _ _ S1 Hd). destruct S1 as [Hh [Hdev Hw]].
  split; [|unfold loose; by rewrite Hdev, Hw]. split; [|done]. unfold holds. by rewrite <- HT, <- HU.
Qed.

Lemma same_good a s r' : sys_ok s -> to (reactor s) (tcp_handles s) (udp_handles s) r' -> good a s (Ret (with_reactor s r')).
Proof. intros Hs S1. by eapply (to_good a s (with_reactor s r')). Qed.

Lemma streams_take s i t : streams s !! i = Some t ->
  tcp_handles s ≡ₚ handle t :: (handle <$> delete i (streams s)) ++ concat (handles <$> listeners s).
Proof. intros Hi. unfold tcp_handles. by rewrite (delete_Permutation _ _ _ Hi) at 1. Qed.

Lemma listeners_take (ls : list TcpListener) i l : ls !! i = Some l ->
  concat (handles <$> ls) ≡ₚ handles l ++ concat (handles <$> delete i ls).
Proof. intros Hi. by rewrite (delete_Permutation _ _ _ Hi) at 1. Qed.

Lemma listeners_put (ls : list TcpListener) i l l' : ls !! i = Some l ->
  concat (handles <$> <[i := l']> ls) ≡ₚ handles l' ++ concat (handles <$> delete i ls).
Proof.
  intros Hi. pose proof (lookup_lt_Some _ _ _ Hi).
  rewrite insert_take_drop, delete_take_drop by done. rewrite !fmap_app, fmap_cons, !concat_app. simpl.
  apply Permutation_app_swap_app.
Qed.

Lemma udps_take s i u : udps s !! i = Some u ->
  udp_handles s ≡ₚ Udp.udp_handle u :: (Udp.udp_handle <$> delete i (udps s)).
Proof. intros Hi. unfold udp_handles. by rewrite (delete_Permutation _ _ _ Hi) at 1. Qed.

Lemma elem_streams s i t : streams s !! i = Some t -> handle t ∈ tcp_handles s.
Proof. intros Hi. rewrite (streams_take _ _ _ Hi). by left. Qed.

Lemma elem_udps s i u : udps s !! i = Some u -> Udp.udp_handle u ∈ udp_handles s.
Proof. intros Hi. rewrite (udps_take _ _ _ Hi). by left. Qed.

(** The handles with those of listener [i] in front. *)
Lemma listener_front s i l : listeners s !! i = Some l ->
  tcp_handles s ≡ₚ handles l ++ (handle <$> streams s) ++ concat (handles <$> delete i (listeners s)).
Proof.
  intros Hi. unfold tcp_handles. rewrite (listeners_take _ _ _ Hi), !app_assoc.
  by rewrite (Permutation_app_comm (handle <$> streams s) (handles l)).
Qed.

Lemma any_state_ret p r T U hs : holds r T U -> (forall h, h ∈ hs -> h ∈ T) -> is_ret (any_state p hs (sockets r)).
Proof.
  intros Hh Hin. destruct (any_state_run p hs r) as (b & -> & _); [|by eexists].
  apply Forall_forall. intros h Hi. by eapply holds_get, Hin.
Qed.

Lemma states_of_ret r T U hs : holds r T U -> (forall h, h ∈ hs -> h ∈ T) -> is_ret (states_of hs (sockets r)).
Proof.
  intros Hh. induction hs as [|h hs IH]; intros Hin; simpl; [by eexists|].
  destruct (holds_get _ _ _ h Hh) as [s Hs]; [apply Hin; by left|]. rewrite (get_tcp_ret _ _ _ Hs). simpl.
  destruct IH as [l ->]; [intros h' ?; apply Hin; by right | by eexists].
Qed.

Lemma run_action_good a s e : sys_ok s -> run_action a s = Some e -> good a s e.
Proof.
  intros Hs. pose proof (sys_owns _ Hs) as Hh.
  destruct a as [addr rp lp rx tx|i cx o|i|p rx tx n|i cx|i|i|p a b c|i cx bs ep|i cx n|i|i|bs ts]; simpl; intros He;
    repeat match type of He with (_ ≫= _) = Some _ => apply bind_Some in He as (? & Hi & He) end; injection He as <-.
  - pose proof (connect_to addr rp lp rx tx _ _ _ Hh) as Hc.
    destruct (connect _ _ _ _ _ _) as [[t|err] r']; [by eapply to_good | subst; by apply same_good, to_refl].
  - destruct (run_stream_op_to cx o x _ _ _ Hh (elem_streams _ _ _ Hi)) as (r' & -> & S1). by apply same_good.
  - pose proof (holds_perm _ _ _ _ (streams_take _ _ _ Hi) Hh) as Hh'.
    destruct (drop_stream_to _ _ _ _ Hh') as (r' & -> & S1). by eapply to_good.
  - pose proof (bind_to p rx tx n _ _ _ Hh) as Hb. destruct (bind_with_backlog _ _ _ _ _) as [[l|err] r'].
    + destruct Hb as [_ S1]. eapply to_good; [done | exact S1 | | done]. unfold tcp_handles. simpl.
      rewrite !app_assoc. by rewrite (Permutation_app_comm (handles l)).
    + subst. by apply same_good, to_refl.
  - pose proof (holds_perm _ _ _ _ (listener_front _ _ _ Hi) Hh) as Hh'.
    destruct (accept_to cx _ _ _ _ Hh') as (p & l' & r' & -> & S1). simpl.
    assert (Hput : handles l' ++ (handle <$> streams s) ++ concat (handles <$> delete i (listeners s)) ≡ₚ
      (handle <$> streams s) ++ concat (handles <$> <[i := l']> (listeners s))).
    { rewrite (listeners_put _ _ _ l' Hi), !app_assoc. by rewrite (Permutation_app_comm (handles l')). }
    destruct p as [[t|err]|]; (eapply (to_good (AAccept i cx)); [done | exact S1 | | done]); unfold tcp_handles; simpl;
      [by rewrite Hput | exact Hput | exact Hput].
  - assert (forall h, h ∈ handles x -> h ∈ tcp_handles s) as Hin.
    { intros h Hx. rewrite (listener_front _ _ _ Hi). apply elem_of_app. by left. }
    unfold is_pending, states.
    destruct (any_state_ret (fun st => match st with SynReceived | Established => true | _ => false end) _ _ _ _ Hh Hin) as [? ->].
    destruct (states_of_ret _ _ _ _ Hh Hin) as [? ->]. by split.
  - pose proof (holds_perm _ _ _ _ (listener_front _ _ _ Hi) Hh) as Hh'.
    destruct (drop_handles_to _ _ _ _ Hh') as (r' & E & S1). unfold drop_listener. rewrite E. by eapply to_good.
  - pose proof (udp_bind_to p a b c _ _ _ Hh) as Hb.
    destruct (Udp.bind _ _ _ _ _) as [[u|err] r']; [by eapply to_good | subst; by apply same_good, to_refl].
  - unfold Udp.poll_send_to. match goal with |- context [Udp.with_udp ?h ?f ?r] =>
      destruct (with_udp_to h f r _ _ Hh (elem_udps _ _ _ Hi)) as (? & r' & -> & S1) end. by apply same_good.
  - unfold Udp.poll_recv_from. match goal with |- context [Udp.with_udp ?h ?f ?r] =>
      destruct (with_udp_to h f r _ _ Hh (elem_udps _ _ _ Hi)) as (? & r' & -> & S1) end. by apply same_good.
  - unfold Udp.close. match goal with |- context [Udp.with_udp ?h ?f ?r] =>
      destruct (with_udp_to h f r _ _ Hh (elem_udps _ _ _ Hi)) as (? & r' & -> & S1) end. by apply same_good.
  - assert (holds (reactor s) (tcp_handles s) (Udp.udp_handle x :: (Udp.udp_handle <$> delete i (udps s)))) as Hh'.
    { unfold holds. by rewrite <- (udps_take _ _ _ Hi). }
    destruct (drop_udp_to _ _ _ _ Hh') as (r' & -> & S1). by eapply to_good.
  - pose proof (tick_ok bs ts (reactor s) (sys_device _ Hs) (holds_orphans _ _ _ Hh)) as Ht.
    destruct (tick bs ts (reactor s)) as [[r'|]| |]; simpl; [|done|by eauto|done].
    destruct Ht as ([_ _ Hd Hl] & Ho & Hk). split; [|done]. split; [by eapply keeps_holds | done].
Qed.


(** Binding a listener is all or nothing: on success the listener has
    [max backlog 1] sockets, which are new and become its own; on failure no
    socket is left behind. *)
Theorem bind_all_or_nothing p rx tx n r T U (Hh : holds r T U) :
  match bind_with_backlog p rx tx n r with
  | (Ok l, r') => backlog l = Nat.max n 1 /\ holds r' (handles l ++ T) U
  | (Err _, r') => r' = r
  end.
Proof.
  pose proof (bind_to p rx tx n r T U Hh) as Hb.
  destruct (bind_with_backlog _ _ _ _ _) as [[l|err] r']; [|done]. by destruct Hb as [? [? _]].
Qed.

End Proofs.

#[local] Existing Instance Mbuf.ref_pktmbuf.
#[local] Existing Instance Queue.ref_mempool.
#[local] Existing Instance Queue.ref_burst.
#[local] Existing Instance Queue.ref_burst_laws.
#[local] Existing Instance Device.ref_hm_iter.
#[local] Existing Instance RefStack.ref_smoltcp.
#[local] Existing Instance RefStack.ref_smoltcp_laws.

(** A freshly created reactor and no sockets. *)
Definition fresh : Sys :=
  mk_sys (Reactor.new (Device.dev0 0 [] []) (Device.arp_world 8 [] 4) [Device.ip_a]) [] [] [].

Lemma fresh_ok : sys_ok fresh.
Proof.
  split; [|split; [by apply Device.dev0_wf | apply Device.dev0_fits]].
  split; try constructor; try done; by intros ?%elem_of_nil.
Qed.


Lemma bind_all_or_nothing_witness :
  exists l r', bind_with_backlog 80 16 16 3 (reactor fresh) = (Ok l, r') /\ backlog l = 3 /\ holds r' (handles l ++ []) [].
Proof.
  pose proof (bind_all_or_nothing 80 16 16 3 (reactor fresh) [] [] (sys_owns _ fresh_ok)) as Hb.
  destruct (bind_with_backlog 80 16 16 3 (reactor fresh)) as [[l|e] r'] eqn:E; [|discriminate E].
  exists l, r'. split; [reflexivity | exact Hb].
Defined.

End Sockets.
