(* ===== verification/Eth.v ===== *)
(** * Ethernet ports ([dpdk-net/src/api/rte/eth.rs])

    The configuration types with their builders, [EthConf::to_raw], the calls
    of [EthDev] and [EthDevBuilder::build].  The driver is an interface: a call
    of the [ffi] is a value of [eth_call], a driver answers it with a return
    code and an out parameter, and every call that was made is recorded, so
    that theorems can speak of the sequence of calls. *)

From stdpp Require Import base list strings.
From Stdlib Require Import ZArith Strings.Byte Strings.Ascii Lia.
From S2P Require Import Prelude Mbuf Pktmbuf ArpCache.

Module Eth.
Local Open Scope Z_scope.

(** ** Configuration *)

Inductive RxMqMode := RxNone | Rss | Dcb | DcbRss | Vmdq | VmdqDcb | VmdqRss | VmdqDcbRss.
Inductive TxMqMode := TxNone | TxDcb | TxVmdq | TxVmdqDcb.
#[export] Instance RxMqMode_eq_dec : EqDecision RxMqMode.
Proof. solve_decision. Defined.

(** [mq_mode as u32] *)
Definition rx_mq_u32 (m : RxMqMode) : Z :=
  match m with
  | RxNone => 0 | Rss => 1 | Dcb => 2 | DcbRss => 3 | Vmdq => 4 | VmdqDcb => 5 | VmdqRss => 6 | VmdqDcbRss => 7
  end.
Definition tx_mq_u32 (m : TxMqMode) : Z :=
  match m with TxNone => 0 | TxDcb => 1 | TxVmdq => 2 | TxVmdqDcb => 3 end.

Record RxMode := mk_rxmode { rx_mq_mode : RxMqMode; mtu : Z; rx_offloads_ : Z; max_lro_pkt_size : Z }.
Record TxMode := mk_txmode { tx_mq_mode : TxMqMode; tx_offloads_ : Z }.
Definition RxMode_default : RxMode := mk_rxmode RxNone 1500 0 0.
Definition TxMode_default : TxMode := mk_txmode TxNone 0.

Record EthConf := mk_ethconf {
  link_speeds : Z;
  rx_mode : RxMode;
  tx_mode : TxMode;
  loopback_mode : Z;
  conf_rss_hf : Z;
  conf_rss_key : option (list byte)
}.

Definition RSS_KEY_40 : list byte :=
  [x6d; x5a; x56; xda; x25; x5b; x0e; xc2; x41; x67; x25; x3d; x43; xa3; x8f; xb0;
   xd0; xca; x2b; xcb; xae; x7b; x30; xb4; x77; xcb; x2d; xa3; x80; x30; xf2; x0c;
   x6a; x42; xb7; x3b; xbe; xac; x01; xfa].

Definition EthConf_new : EthConf := mk_ethconf 0 RxMode_default TxMode_default 0 0 None.

Definition set_rx_mode (f : RxMode -> RxMode) (c : EthConf) : EthConf :=
  mk_ethconf (link_speeds c) (f (rx_mode c)) (tx_mode c) (loopback_mode c) (conf_rss_hf c) (conf_rss_key c).
Definition set_rss (hf : Z) (key : option (list byte)) (c : EthConf) : EthConf :=
  mk_ethconf (link_speeds c) (rx_mode c) (tx_mode c) (loopback_mode c) hf key.
Definition use_mq (m : RxMqMode) (r : RxMode) : RxMode :=
  mk_rxmode m (mtu r) (rx_offloads_ r) (max_lro_pkt_size r).

Definition with_mtu (m : Z) : EthConf -> EthConf :=
  set_rx_mode (fun r => mk_rxmode (rx_mq_mode r) m (rx_offloads_ r) (max_lro_pkt_size r)).
Definition rx_offloads (o : Z) : EthConf -> EthConf :=
  set_rx_mode (fun r => mk_rxmode (rx_mq_mode r) (mtu r) o (max_lro_pkt_size r)).
Definition tx_offloads (o : Z) (c : EthConf) : EthConf :=
  mk_ethconf (link_speeds c) (rx_mode c) (mk_txmode (tx_mq_mode (tx_mode c)) o) (loopback_mode c)
    (conf_rss_hf c) (conf_rss_key c).
Definition rss (c : EthConf) : EthConf := set_rss 0 None (set_rx_mode (use_mq Rss) c).
Definition rss_with_hash (hf : Z) (c : EthConf) : EthConf := set_rss hf None (set_rx_mode (use_mq Rss) c).
(** The flag values come from the generated bindings. *)
Definition rss_with_key (IP TCP : Z) (c : EthConf) : EthConf :=
  set_rss (Z.lor IP TCP) (Some RSS_KEY_40) (set_rx_mode (use_mq Rss) c).
Definition rss_hf (hf : Z) (c : EthConf) : EthConf := set_rss hf (conf_rss_key c) c.
Definition loopback (c : EthConf) : EthConf :=
  mk_ethconf (link_speeds c) (rx_mode c) (tx_mode c) 1 (conf_rss_hf c) (conf_rss_key c).

(** [rte_eth_rss_conf]: a key pointer is the buffer it points to. *)
Record rss_conf := mk_rss { r_hf : Z; r_key : option (list byte); r_key_len : Z }.
Definition rss_zeroed : rss_conf := mk_rss 0 None 0.

Record rte_eth_conf := mk_raw {
  raw_link_speeds : Z;
  raw_rx_mq : Z; raw_mtu : Z; raw_rx_offloads : Z; raw_max_lro : Z;
  raw_tx_mq : Z; raw_tx_offloads : Z;
  raw_lpbk : Z;
  raw_rss : rss_conf
}.

(** [EthConf::to_raw]: the raw configuration and the buffer its key pointer
    points into. *)
Definition to_raw (c : EthConf) : rte_eth_conf * option (list byte) :=
  let '(r, key_buffer) :=
    if bool_decide (rx_mq_mode (rx_mode c) = Rss) && negb (conf_rss_hf c =? 0) then
      match conf_rss_key c with
      | Some key => (mk_rss (conf_rss_hf c) (Some key) (as_u8 (zlen key)), Some key)
      | None => (mk_rss (conf_rss_hf c) None 0, None)
      end
    else (rss_zeroed, None) in
  (mk_raw (link_speeds c) (rx_mq_u32 (rx_mq_mode (rx_mode c))) (mtu (rx_mode c)) (rx_offloads_ (rx_mode c))
     (max_lro_pkt_size (rx_mode c)) (tx_mq_u32 (tx_mq_mode (tx_mode c))) (tx_offloads_ (tx_mode c))
     (loopback_mode c) r, key_buffer).

(** Queue configurations; [C] is the raw [rte_eth_rxconf] or [txconf]. *)
Record QueueConf (C : Type) := mk_qconf { nb_desc : Z; socket_id : Z; conf : option C }.
Arguments mk_qconf {C}.
Arguments nb_desc {C}.
Arguments socket_id {C}.
Arguments conf {C}.

Definition QueueConf_default {C} : QueueConf C := mk_qconf 1024 (-1) None.
Definition with_nb_desc {C} (n : Z) (q : QueueConf C) : QueueConf C := mk_qconf n (socket_id q) (conf q).
Definition with_socket_id {C} (id : Z) (q : QueueConf C) : QueueConf C := mk_qconf (nb_desc q) id (conf q).
Definition with_conf {C} (c : C) (q : QueueConf C) : QueueConf C := mk_qconf (nb_desc q) (socket_id q) (Some c).

(** [rte_eth_rss_reta_entry64] *)
Record reta_entry64 := mk_reta { mask : Z; reta : list Z }.
Definition reta_zeroed : reta_entry64 := mk_reta 0 (replicate 64 0).

(** ** The driver *)

Section Driver.
Context {pool rxconf txconf : Type}.

Inductive eth_call :=
  | CountAvail
  | InfoGet (port : Z)
  | SocketId (port : Z)
  | MacGet (port : Z)
  | StatsGet (port : Z)
  | Configure (port nb_rx nb_tx : Z) (c : rte_eth_conf)
  | RxQueueSetup (port q nb_desc : Z) (socket : Z) (c : option rxconf) (p : pool)
  | TxQueueSetup (port q nb_desc : Z) (socket : Z) (c : option txconf)
  | Start (port : Z)
  | Stop (port : Z)
  | Close (port : Z)
  | PromiscuousEnable (port : Z)
  | PromiscuousDisable (port : Z)
  | RssHashConfGet (port : Z) (buf_len : Z)
  | RssHashUpdate (port : Z) (c : rss_conf)
  | RetaUpdate (port : Z) (conf : list reta_entry64) (size : Z)
  | RetaQuery (port : Z) (conf : list reta_entry64) (size : Z).

(** The out parameter of a call. *)
Inductive eth_out :=
  | ONone
  | OInfo (reta_size : Z)
  | OMac (mac : list byte)
  | OStats (stats : list Z)
  | ORss (c : rss_conf)
  | OReta (conf : list reta_entry64).

Context {drv : Type} (drv_run : eth_call -> drv -> Z * eth_out * drv) (drv_errno : drv -> Z).

(** A port operation: the driver's state and the calls made so far, newest
    last. *)
Definition M (A : Type) : Type := drv * list eth_call -> A * (drv * list eth_call).

Definition ret {A} (a : A) : M A := fun s => (a, s).
Definition bind {A B} (m : M A) (k : A -> M B) : M B := fun s => let '(a, s) := m s in k a s.
Definition ffi (c : eth_call) : M (Z * eth_out) := fun '(d, log) =>
  let '(r, o, d) := drv_run c d in ((r, o), (d, log ++ [c])).
Notation "x <- m ; k" := (bind m (fun x => k)) (at level 100, m at next level, right associativity).

(** [check_rte_success] reads [rte_errno] when the code is negative. *)
Definition check (r : Z) : M (Result unit Errno) := fun s =>
  (check_rte_success (drv_errno (s.1)) r, s).
Definition simple (c : eth_call) : M (Result unit Errno) := x <- ffi c; check x.1.

(** The [?] operator. *)
Definition try {A} (m : M (Result unit Errno)) (k : M (Result A Errno)) : M (Result A Errno) :=
  r <- m; match r with Ok _ => k | Err e => ret (Err e) end.

Record EthDev := mk_ethdev { port_id : Z }.

Definition count_avail : M Z := x <- ffi CountAvail; ret x.1.
Definition iter_ports : M (list Z) := n <- count_avail; ret (Z.of_nat <$> seq 0 (Z.to_nat n)).

(** [info]: the [reta_size] field of it. *)
Definition info (d : EthDev) : M (Result Z Errno) :=
  x <- ffi (InfoGet (port_id d));
  try (check x.1) (ret (Ok (match x.2 with OInfo n => n | _ => 0 end))).

Definition dev_socket_id (d : EthDev) : M Z := x <- ffi (SocketId (port_id d)); ret x.1.
Definition mac_addr (d : EthDev) : M (Result (list byte) Errno) :=
  x <- ffi (MacGet (port_id d));
  try (check x.1) (ret (Ok (match x.2 with OMac m => m | _ => [] end))).
Definition stats (d : EthDev) : M (Result (list Z) Errno) :=
  x <- ffi (StatsGet (port_id d));
  try (check x.1) (ret (Ok (match x.2 with OStats l => l | _ => [] end))).

Definition configure (d : EthDev) (nb_rx nb_tx : Z) (c : EthConf) : M (Result unit Errno) :=
  simple (Configure (port_id d) nb_rx nb_tx (to_raw c).1).

(** The socket of a queue: the device's when the configuration says any. *)
Definition queue_socket {C} (d : EthDev) (q : QueueConf C) : M Z :=
  if socket_id q <? 0 then s <- dev_socket_id d; ret (as_u32 s) else ret (as_u32 (socket_id q)).

Definition rx_queue_setup (d : EthDev) (q : Z) (p : pool) (c : QueueConf rxconf) : M (Result unit Errno) :=
  s <- queue_socket d c; simple (RxQueueSetup (port_id d) q (nb_desc c) s (conf c) p).
Definition tx_queue_setup (d : EthDev) (q : Z) (c : QueueConf txconf) : M (Result unit Errno) :=
  s <- queue_socket d c; simple (TxQueueSetup (port_id d) q (nb_desc c) s (conf c)).

Definition start (d : EthDev) := simple (Start (port_id d)).
Definition stop (d : EthDev) := simple (Stop (port_id d)).
Definition close (d : EthDev) := simple (Close (port_id d)).
Definition promiscuous_enable (d : EthDev) := simple (PromiscuousEnable (port_id d)).
Definition promiscuous_disable (d : EthDev) := simple (PromiscuousDisable (port_id d)).

(** [rss_hash_conf]: a buffer of 52 bytes, truncated to the reported length. *)
Definition rss_hash_conf (d : EthDev) : M (Result (Z * list byte) Errno) :=
  x <- ffi (RssHashConfGet (port_id d) (as_u8 52));
  try (check x.1)
    (ret (Ok (match x.2 with
              | ORss c => (r_hf c, take (Z.to_nat (r_key_len c)) (default (replicate 52 x00) (r_key c)))
              | _ => (0, replicate 52 x00)
              end))).

Definition has_tcp_rss (TCP4 TCP6 : Z) (d : EthDev) : M (Result bool Errno) :=
  r <- rss_hash_conf d;
  ret (result_map (fun '(hf, _) => negb (Z.land hf (Z.lor TCP4 TCP6) =? 0)) r).

(** ** The redirection table *)

(** [a % b] on [usize]. *)
Definition rem (a b : Z) : Exec Z := if b =? 0 then Panic else Ret (a mod b).

(** The inner loop over the 64 entries of a group. *)
Fixpoint fill_entries (idxs : list nat) (group_idx reta_size nb_rx_queues : Z) (l : list Z) : Exec (list Z) :=
  match idxs with
  | [] => Ret l
  | i :: idxs =>
      let entry_idx := group_idx * 64 + Z.of_nat i in
      if entry_idx <? reta_size then
        q ← rem entry_idx nb_rx_queues;
        fill_entries idxs group_idx reta_size nb_rx_queues (<[i := as_u16 q]> l)
      else fill_entries idxs group_idx reta_size nb_rx_queues l
  end.

(** The outer loop over the groups. *)
Fixpoint fill_groups (groups : list reta_entry64) (group_idx reta_size nb_rx_queues : Z) : Exec (list reta_entry64) :=
  match groups with
  | [] => Ret []
  | g :: groups =>
      l ← fill_entries (seq 0 64) group_idx reta_size nb_rx_queues (reta g);
      rest ← fill_groups groups (group_idx + 1) reta_size nb_rx_queues;
      Ret (mk_reta u64_max l :: rest)
  end.

Definition num_groups (reta_size : Z) : nat := Z.to_nat ((reta_size + 63) / 64).

(** [configure_rss_reta] *)
Definition configure_rss_reta (d : EthDev) (nb_rx_queues : Z) : M (Exec (Result unit Errno)) :=
  i <- info d;
  match i with
  | Err e => ret (Ret (Err e))
  | Ok reta_size =>
      if reta_size =? 0 then ret (Ret (Ok tt)) else
      match fill_groups (replicate (num_groups reta_size) reta_zeroed) 0 reta_size nb_rx_queues with
      | Ret conf => r <- simple (RetaUpdate (port_id d) conf reta_size); ret (Ret r)
      | Panic => ret Panic
      | UB => ret UB
      end
  end.

Definition update_rss_hash (d : EthDev) (hf : Z) (key : option (list byte)) : M (Result unit Errno) :=
  simple (RssHashUpdate (port_id d)
    (match key with Some k => mk_rss hf (Some k) (as_u8 (zlen k)) | None => mk_rss hf None 0 end)).

(** The two loops of [query_rss_reta] that collect the entries. *)
Fixpoint collect (groups : list reta_entry64) (group_idx reta_size : Z) : list Z :=
  match groups with
  | [] => []
  | g :: groups =>
      omap (fun i => if group_idx * 64 + Z.of_nat i <? reta_size then reta g !! i else None) (seq 0 64) ++
      collect groups (group_idx + 1) reta_size
  end.

Definition query_rss_reta (d : EthDev) : M (Result (list Z) Errno) :=
  i <- info d;
  match i with
  | Err e => ret (Err e)
  | Ok reta_size =>
      if reta_size =? 0 then ret (Ok []) else
      x <- ffi (RetaQuery (port_id d) (replicate (num_groups reta_size) (mk_reta u64_max (replicate 64 0))) reta_size);
      try (check x.1) (ret (Ok (match x.2 with OReta l => collect l 0 reta_size | _ => [] end)))
  end.

(** ** The builder *)

Record EthDevBuilder := mk_builder {
  b_port_id : Z;
  b_eth_conf : EthConf;
  b_nb_rx_queues : Z;
  b_nb_tx_queues : Z;
  b_rx_queue_conf : QueueConf rxconf;
  b_tx_queue_conf : QueueConf txconf;
  b_promiscuous : bool
}.

Definition Builder_new (port : Z) : EthDevBuilder :=
  mk_builder port EthConf_new 1 1 QueueConf_default QueueConf_default false.
Definition b_with_eth_conf (c : EthConf) (b : EthDevBuilder) : EthDevBuilder :=
  mk_builder (b_port_id b) c (b_nb_rx_queues b) (b_nb_tx_queues b) (b_rx_queue_conf b) (b_tx_queue_conf b) (b_promiscuous b).
Definition b_with_nb_rx_queues (n : Z) (b : EthDevBuilder) : EthDevBuilder :=
  mk_builder (b_port_id b) (b_eth_conf b) n (b_nb_tx_queues b) (b_rx_queue_conf b) (b_tx_queue_conf b) (b_promiscuous b).
Definition b_with_nb_tx_queues (n : Z) (b : EthDevBuilder) : EthDevBuilder :=
  mk_builder (b_port_id b) (b_eth_conf b) (b_nb_rx_queues b) n (b_rx_queue_conf b) (b_tx_queue_conf b) (b_promiscuous b).
Definition b_with_rx_queue_conf (c : QueueConf rxconf) (b : EthDevBuilder) : EthDevBuilder :=
  mk_builder (b_port_id b) (b_eth_conf b) (b_nb_rx_queues b) (b_nb_tx_queues b) c (b_tx_queue_conf b) (b_promiscuous b).
Definition b_with_tx_queue_conf (c : QueueConf txconf) (b : EthDevBuilder) : EthDevBuilder :=
  mk_builder (b_port_id b) (b_eth_conf b) (b_nb_rx_queues b) (b_nb_tx_queues b) (b_rx_queue_conf b) c (b_promiscuous b).
Definition b_set_promiscuous (b : EthDevBuilder) : EthDevBuilder :=
  mk_builder (b_port_id b) (b_eth_conf b) (b_nb_rx_queues b) (b_nb_tx_queues b) (b_rx_queue_conf b) (b_tx_queue_conf b) true.

(** [for q in 0..n { op(q)? }] from [q] with [k] rounds left. *)
Fixpoint for_queues (op : Z -> M (Result unit Errno)) (k : nat) (q : Z) : M (Result unit Errno) :=
  match k with
  | O => ret (Ok tt)
  | S k => try (op q) (for_queues op k (q + 1))
  end.

(** The multi-queue part of [build]; failures are only logged. *)
Definition setup_rss (b : EthDevBuilder) (d : EthDev) : M (Exec unit) :=
  if 1 <? b_nb_rx_queues b then
    e <- configure_rss_reta d (b_nb_rx_queues b);
    match e with
    | Ret _ =>
        let hf := conf_rss_hf (b_eth_conf b) in
        if hf =? 0 then ret (Ret tt) else _ <- update_rss_hash d hf (Some RSS_KEY_40); ret (Ret tt)
    | Panic => ret Panic
    | UB => ret UB
    end
  else ret (Ret tt).

(** [EthDevBuilder::build] *)
Definition build (b : EthDevBuilder) (p : pool) : M (Exec (Result EthDev Errno)) :=
  let d := mk_ethdev (b_port_id b) in
  let fail e := ret (Ret (Err e)) in
  r <- try (configure d (b_nb_rx_queues b) (b_nb_tx_queues b) (b_eth_conf b))
      (try (for_queues (fun q => rx_queue_setup d q p (b_rx_queue_conf b)) (Z.to_nat (b_nb_rx_queues b)) 0)
           (for_queues (fun q => tx_queue_setup d q (b_tx_queue_conf b)) (Z.to_nat (b_nb_tx_queues b)) 0));
  match r with
  | Err e => fail e
  | Ok _ =>
      e <- setup_rss b d;
      match e with
      | Panic => ret Panic
      | UB => ret UB
      | Ret _ =>
          r <- (if b_promiscuous b then promiscuous_enable d else ret (Ok tt));
          match r with
          | Err e => fail e
          | Ok _ => r <- start d; match r with Err e => fail e | Ok _ => ret (Ret (Ok d)) end
          end
      end
  end.

End Driver.

(** ** [format_mac_addr] *)

Definition hex_digit (n : Z) : ascii :=
  if n <? 10 then Ascii.ascii_of_N (Z.to_N (n + 48)) else Ascii.ascii_of_N (Z.to_N (n + 87)).
(** [{:02x}] of a byte. *)
Definition hex2 (b : byte) : list ascii :=
  let n := Z.of_N (Byte.to_N b) in [hex_digit (n / 16); hex_digit (n mod 16)].

Definition format_mac_addr (a : MacAddress) : list ascii :=
  hex2 (mac0 a) ++ [":"%char] ++ hex2 (mac1 a) ++ [":"%char] ++ hex2 (mac2 a) ++ [":"%char] ++
  hex2 (mac3 a) ++ [":"%char] ++ hex2 (mac4 a) ++ [":"%char] ++ hex2 (mac5 a).


(** ** The redirection table is round robin and balanced *)

Section Reta.

(** The table the comment of [configure_rss_reta] describes. *)
Definition round_robin (reta_size n : Z) : list Z :=
  (fun i => Z.of_nat i mod n) <$> seq 0 (Z.to_nat reta_size).

Lemma fill_entries_run idxs g size n l : 0 < n <= 65535 -> NoDup idxs -> Forall (fun i => (i < length l)%nat) idxs ->
  exists l', fill_entries idxs g size n l = Ret l' /\ length l' = length l /\
    forall i, l' !! i = if bool_decide (i ∈ idxs) && (g * 64 + Z.of_nat i <? size)
                        then Some ((g * 64 + Z.of_nat i) mod n) else l !! i.
Proof.
  intros Hn Hnd. revert l. induction Hnd as [|i idxs Hi Hnd IH]; intros l Hl.
  { exists l. split; [done|]. split; [done|]. intros i. by rewrite bool_decide_false by apply not_elem_of_nil. }
  apply Forall_cons in Hl as [Hil Hl]. cbn [fill_entries]. cbv zeta.
  destruct (g * 64 + Z.of_nat i <? size) eqn:Es.
  - unfold rem. rewrite (proj2 (Z.eqb_neq n 0)) by lia. cbn [mbind exec_bind].
    pose proof (Z.mod_pos_bound (g * 64 + Z.of_nat i) n ltac:(lia)).
    rewrite Mbuf.as_u16_small by (unfold u16_max; lia).
    destruct (IH (<[i := (g * 64 + Z.of_nat i) mod n]> l)) as (l' & -> & Hlen & Hlook).
    { eapply Forall_impl; [exact Hl|]. intros j. by rewrite length_insert. }
    exists l'. rewrite length_insert in Hlen. split_and!; try done. intros j. rewrite Hlook.
    destruct (decide (j = i)) as [->|Hne].
    + rewrite (bool_decide_true (i ∈ i :: idxs)), bool_decide_false by (done || by left). rewrite Es. simpl.
      by rewrite list_lookup_insert_eq.
    + rewrite list_lookup_insert_ne by done.
      by rewrite (bool_decide_ext (j ∈ i :: idxs) (j ∈ idxs)) by (rewrite elem_of_cons; tauto).
  - destruct (IH l Hl) as (l' & -> & Hlen & Hlook). exists l'. split_and!; try done. intros j. rewrite Hlook.
    destruct (decide (j = i)) as [->|Hne].
    + by rewrite Es, !andb_false_r.
    + by rewrite (bool_decide_ext (j ∈ i :: idxs) (j ∈ idxs)) by (rewrite elem_of_cons; tauto).
Qed.

(** The entries of one group, collected. *)
Lemma collect_from (l : list Z) g size n m a :
  (forall i, (i < 64)%nat -> g * 64 + Z.of_nat i < size -> l !! i = Some ((g * 64 + Z.of_nat i) mod n)) ->
  0 <= g -> (a + m <= 64)%nat ->
  omap (fun i => if g * 64 + Z.of_nat i <? size then l !! i else None) (seq a m) =
  (fun i => Z.of_nat i mod n) <$> seq (Z.to_nat g * 64 + a) (Nat.min m (Z.to_nat (size - g * 64 - Z.of_nat a))).
Proof.
  intros Hl Hg. revert a. induction m as [|m IH]; intros a Ha; cbn [seq omap list_omap]; [done|].
  rewrite IH by lia. destruct (Z.ltb_spec (g * 64 + Z.of_nat a) size) as [Hlt|Hge].
  - rewrite Hl by (done || lia).
    replace (Nat.min (S m) (Z.to_nat (size - g * 64 - Z.of_nat a)))
      with (S (Nat.min m (Z.to_nat (size - g * 64 - Z.of_nat (S a))))) by lia.
    cbn [seq]. rewrite fmap_cons. f_equal; [f_equal; lia|]. f_equal. f_equal. lia.
  - replace (Z.to_nat (size - g * 64 - Z.of_nat (S a))) with 0%nat by lia.
    replace (Z.to_nat (size - g * 64 - Z.of_nat a)) with 0%nat by lia. by rewrite !Nat.min_0_r.
Qed.

Lemma fill_groups_run k g size n : 0 < n <= 65535 -> 0 <= g ->
  exists conf, fill_groups (replicate k reta_zeroed) g size n = Ret conf /\ length conf = k /\
    Forall (fun e => mask e = u64_max /\ length (reta e) = 64%nat) conf /\
    collect conf g size =
      (fun i => Z.of_nat i mod n) <$> seq (Z.to_nat g * 64) (Nat.min (k * 64) (Z.to_nat (size - g * 64))).
Proof.
  intros Hn. revert g. induction k as [|k IH]; intros g Hg; cbn [replicate fill_groups]; [by exists []|].
  destruct (fill_entries_run (seq 0 64) g size n (reta reta_zeroed) Hn) as (l & El & Hlen & Hlook).
  { apply NoDup_seq. }
  { apply Forall_seq. simpl. lia. }
  rewrite El. cbn [mbind exec_bind]. destruct (IH (g + 1) ltac:(lia)) as (conf & -> & Hcl & Hm & Hc).
  cbn [mbind exec_bind]. eexists. split; [done|]. split_and!; [by simpl; rewrite Hcl | by constructor |].
  cbn [collect reta]. rewrite (collect_from l g size n 64 0), Hc; [|..|lia|done].
  - rewrite <- fmap_app. f_equal. rewrite Nat.add_0_r.
    replace (Z.to_nat (g + 1) * 64)%nat with (Z.to_nat g * 64 + 64)%nat by lia.
    destruct (decide (Z.to_nat (size - g * 64) <= 64)%nat) as [Hs|Hs].
    + replace (Z.to_nat (size - (g + 1) * 64)) with 0%nat by lia. rewrite Nat.min_0_r, app_nil_r.
      f_equal. lia.
    + replace (Nat.min (S k * 64) (Z.to_nat (size - g * 64)))
        with (64 + Nat.min (k * 64) (Z.to_nat (size - (g + 1) * 64)))%nat by lia.
      rewrite seq_app. f_equal. f_equal. lia.
  - intros i Hi Hlt. rewrite Hlook, bool_decide_true by (apply elem_of_seq; lia).
    by rewrite (proj2 (Z.ltb_lt _ _) Hlt).
Qed.

Lemma reta_table_run size n : 0 < n <= 65535 -> 0 <= size ->
  exists conf, fill_groups (replicate (num_groups size) reta_zeroed) 0 size n = Ret conf /\
    length conf = num_groups size /\
    Forall (fun e => mask e = u64_max /\ length (reta e) = 64%nat) conf /\ collect conf 0 size = round_robin size n.
Proof.
  intros Hn Hs. destruct (fill_groups_run (num_groups size) 0 size n Hn ltac:(lia)) as (conf & E & Hl & Hm & Hc).
  exists conf. split_and!; try done. rewrite Hc. unfold round_robin, num_groups. do 2 f_equal.
  pose proof (Z.div_mod (size + 63) 64 ltac:(lia)). pose proof (Z.mod_pos_bound (size + 63) 64 ltac:(lia)). lia.
Qed.

(** How often queue [q] occurs in a table. *)
Definition share (q : Z) (l : list Z) : nat := length (List.filter (Z.eqb q) l).

Lemma share_round_robin size n q : 0 < n -> 0 <= q < n -> 0 <= size ->
  Z.of_nat (share q (round_robin size n)) = (size + n - 1 - q) / n.
Proof.
  intros Hn Hq Hs. unfold round_robin. rewrite <- (Z2Nat.id size) at 2 by done. generalize (Z.to_nat size). clear Hs size.
  induction n0 as [|k IH].
  - simpl. rewrite Z.div_small; [done | lia].
  - rewrite seq_S, fmap_app. unfold share in *. rewrite List.filter_app, length_app, Nat2Z.inj_add, IH. simpl.
    pose proof (Z.div_mod (Z.of_nat k) n ltac:(lia)) as Hd. pose proof (Z.mod_pos_bound (Z.of_nat k) n ltac:(lia)) as Hb.
    set (a := Z.of_nat k / n) in *. set (r := Z.of_nat k mod n) in *.
    replace (Z.of_nat k + n - 1 - q) with (n - 1 + r - q + a * n) by lia.
    replace (Z.of_nat (S k) + n - 1 - q) with (n + r - q + a * n) by lia.
    rewrite !Z.div_add by lia. destruct (Z.eqb_spec q r) as [->|Hne]; simpl.
    + rewrite Z.div_small by lia. replace (n + r - r) with (1 * n) by lia. rewrite Z.div_mul by lia. lia.
    + destruct (Z.lt_ge_cases r q).
      * rewrite !Z.div_small by lia. lia.
      * replace (n - 1 + r - q) with (r - q - 1 + 1 * n) by lia. replace (n + r - q) with (r - q + 1 * n) by lia.
        rewrite !Z.div_add, !Z.div_small by lia. lia.
Qed.

(** The redirection table that [configure_rss_reta] programs is the
    round-robin table of the requested size: every group has its full mask,
    [query_rss_reta]'s reading of it gives entry [i] the queue [i mod n], and
    the load is balanced: each queue gets [size / n] or one more entry. *)
Theorem reta_round_robin size n (Hn : 0 < n <= 65535) (Hs : 0 <= size) :
  exists conf, fill_groups (replicate (num_groups size) reta_zeroed) 0 size n = Ret conf /\
    length conf = num_groups size /\ Forall (fun e => mask e = u64_max) conf /\
    collect conf 0 size = round_robin size n /\
    forall q, 0 <= q < n ->
      size / n <= Z.of_nat (share q (collect conf 0 size)) <= size / n + 1.
Proof.
  destruct (reta_table_run size n Hn Hs) as (conf & E & Hl & Hm & Hc). exists conf. split_and!; try done.
  - eapply Forall_impl; [exact Hm|]. by intros e [? _].
  - intros q Hq. rewrite Hc, share_round_robin by lia.
    pose proof (Z.div_mod size n ltac:(lia)) as Hd. pose proof (Z.mod_pos_bound size n ltac:(lia)) as Hb.
    set (a := size / n) in *. set (r := size mod n) in *.
    replace (size + n - 1 - q) with (n - 1 + r - q + a * n) by lia. rewrite Z.div_add by lia.
    assert (0 <= (n - 1 + r - q) / n <= 1); [|lia]. split; [apply Z.div_pos; lia|].
    apply Z.lt_succ_r. apply Z.div_lt_upper_bound; lia.
Qed.

End Reta.

(** ** The order of the calls of [build] *)

Section Build.
Context {pool rxconf txconf drv : Type}.
Context (drv_run : @eth_call pool rxconf txconf -> drv -> Z * eth_out * drv) (drv_errno : drv -> Z).

Abbreviation call := (@eth_call pool rxconf txconf).

(** The calls that change the port, by the step of [build] they belong to. *)
Inductive stage := SConfigure | SRx (q : Z) | STx (q : Z) | SReta | SHash | SPromiscuous | SStart.
#[export] Instance stage_eq_dec : EqDecision stage.
Proof. solve_decision. Defined.

Definition stage_of (c : call) : option stage :=
  match c with
  | Configure _ _ _ _ => Some SConfigure
  | RxQueueSetup _ q _ _ _ _ => Some (SRx q)
  | TxQueueSetup _ q _ _ _ => Some (STx q)
  | RetaUpdate _ _ _ => Some SReta
  | RssHashUpdate _ _ => Some SHash
  | PromiscuousEnable _ => Some SPromiscuous
  | Start _ => Some SStart
  | _ => None
  end.

Definition stages (log : list call) : list stage := omap stage_of log.

(** [m] adds calls of the stages [l] to the log. *)
Definition adds {A} (m : M A) (d : drv) (log : list call) (l : list stage) (a : A) (d' : drv) (log' : list call) : Prop :=
  m (d, log) = (a, (d', log')) /\ stages log' = stages log ++ l.

Lemma ffi_adds c d log : exists r o d', adds (ffi drv_run c) d log (option_list (stage_of c)) (r, o) d' (log ++ [c]).
Proof.
  unfold adds, ffi. destruct (drv_run c d) as [[r o] d']. exists r, o, d'. split; [done|].
  unfold stages. rewrite omap_app. simpl. by destruct (stage_of c).
Qed.

Lemma simple_adds c d log : exists r d', adds (simple drv_run drv_errno c) d log (option_list (stage_of c)) r d' (log ++ [c]).
Proof.
  destruct (ffi_adds c d log) as (r & o & d' & E & Hs). unfold adds, simple, bind in *. rewrite E. simpl.
  by eexists _, d'.
Qed.

Lemma queue_socket_adds {C} dev (q : QueueConf C) d log :
  exists s d' log', adds (queue_socket drv_run dev q) d log [] s d' log'.
Proof.
  unfold queue_socket. destruct (socket_id q <? 0).
  - destruct (ffi_adds (SocketId (port_id dev)) d log) as (r & o & d' & E & Hs).
    unfold adds, dev_socket_id, bind in *. rewrite E. simpl. by eexists _, d', _.
  - eexists _, d, log. split; [done|]. by rewrite app_nil_r.
Qed.

Lemma bind_adds {A B} (m : M A) (k : A -> M B) d log l a d1 log1 l2 b d2 log2 :
  adds m d log l a d1 log1 -> adds (k a) d1 log1 l2 b d2 log2 -> adds (bind m k) d log (l ++ l2) b d2 log2.
Proof.
  intros [E1 H1] [E2 H2]. unfold adds, bind in *. rewrite E1, E2. split; [done|]. by rewrite H2, H1, app_assoc.
Qed.

Lemma rx_setup_adds dev q p c d log :
  exists r d' log', adds (rx_queue_setup drv_run drv_errno dev q p c) d log [SRx q] r d' log'.
Proof.
  destruct (queue_socket_adds dev c d log) as (s & d1 & log1 & H1).
  destruct (simple_adds (RxQueueSetup (port_id dev) q (nb_desc c) s (conf c) p) d1 log1) as (r & d2 & H2).
  exists r, d2. eexists. exact (bind_adds _ _ _ _ _ _ _ _ _ _ _ _ H1 H2).
Qed.

Lemma tx_setup_adds dev q c d log :
  exists r d' log', adds (tx_queue_setup drv_run drv_errno dev q c) d log [STx q] r d' log'.
Proof.
  destruct (queue_socket_adds dev c d log) as (s & d1 & log1 & H1).
  destruct (simple_adds (TxQueueSetup (port_id dev) q (nb_desc c) s (conf c)) d1 log1) as (r & d2 & H2).
  exists r, d2. eexists. exact (bind_adds _ _ _ _ _ _ _ _ _ _ _ _ H1 H2).
Qed.

(** A result with its stages: all of [l] on success, a prefix on failure. *)
Definition goes {A} (m : M (Result A Errno)) (l : list stage) : Prop :=
  forall d log, exists r d' log' l', adds m d log l' r d' log' /\
    match r with Ok _ => l' = l | Err _ => l' `prefix_of` l end.

Lemma goes_try {A} (m : M (Result unit Errno)) (k : M (Result A Errno)) l1 l2 :
  goes m l1 -> goes k l2 -> goes (try m k) (l1 ++ l2).
Proof.
  intros Hm Hk d log. destruct (Hm d log) as (r & d1 & log1 & l & H1 & Hl). destruct r as [u|e].
  - subst l. destruct (Hk d1 log1) as (r & d2 & log2 & l' & H2 & Hl').
    exists r, d2, log2, (l1 ++ l'). split; [exact (bind_adds _ _ _ _ _ _ _ _ _ _ _ _ H1 H2)|].
    destruct r; [by subst | by apply prefix_app].
  - exists (Err e), d1, log1, l. split; [|by apply prefix_app_r].
    rewrite <- (app_nil_r l). eapply bind_adds; [exact H1|]. split; [done | by rewrite app_nil_r].
Qed.

(** [q..q+k] *)
Definition queues (q : Z) (k : nat) : list Z := (fun i => q + Z.of_nat i) <$> seq 0 k.

Lemma queues_S q k : queues q (S k) = q :: queues (q + 1) k.
Proof.
  unfold queues. cbn [seq]. rewrite fmap_cons, <- fmap_S_seq, <- list_fmap_compose. f_equal; [lia|].
  apply list_fmap_ext. intros i x _. simpl. lia.
Qed.

Lemma goes_for op k q st : (forall q, goes (op q) [st q]) ->
  goes (for_queues (drv := drv) op k q) (st <$> queues q k).
Proof.
  intros Hop. revert q. induction k as [|k IH]; intros q; cbn [for_queues].
  - intros d log. exists (Ok tt), d, log, []. split; [|done]. split; [done | by rewrite app_nil_r].
  - specialize (IH (q + 1)). pose proof (goes_try _ _ _ _ (Hop q) IH) as Hg.
    by rewrite queues_S.
Qed.

Lemma goes_rx dev p c q : goes (rx_queue_setup drv_run drv_errno dev q p c) [SRx q].
Proof.
  intros d log. destruct (rx_setup_adds dev q p c d log) as (r & d' & log' & Ha).
  exists r, d', log', [SRx q]. split; [done|]. by destruct r.
Qed.

Lemma goes_tx dev c q : goes (tx_queue_setup drv_run drv_errno dev q c) [STx q].
Proof.
  intros d log. destruct (tx_setup_adds dev q c d log) as (r & d' & log' & Ha).
  exists r, d', log', [STx q]. split; [done|]. by destruct r.
Qed.

Lemma goes_simple c st : stage_of c = Some st -> goes (simple drv_run drv_errno c) [st].
Proof.
  intros Hc d log. destruct (simple_adds c d log) as (r & d' & Ha). rewrite Hc in Ha.
  eexists r, d', _, [st]. split; [exact Ha|]. by destruct r.
Qed.

(** [reta_size] is a [u16] field. *)
Hypothesis reta_size_u16 : forall c d r n d', drv_run c d = (r, OInfo n, d') -> 0 <= n <= u16_max.

Lemma info_adds dev d log : exists r d' log', adds (info drv_run drv_errno dev) d log [] r d' log' /\
  match r with Ok n => 0 <= n | Err _ => True end.
Proof.
  unfold adds, info, try, check, bind, ffi. destruct (drv_run (InfoGet (port_id dev)) d) as [[r o] d'] eqn:E. simpl.
  destruct (check_rte_success _ _); (eexists _, d', _; split; [split; [done|]; unfold stages; by rewrite omap_app | ]).
  - destruct o; try lia. apply reta_size_u16 in E. lia.
  - done.
Qed.

Lemma reta_adds dev n d log : 0 < n <= 65535 ->
  exists r d' log' l, adds (configure_rss_reta drv_run drv_errno dev n) d log l (Ret r) d' log' /\ (l = [] \/ l = [SReta]).
Proof.
  intros Hn. destruct (info_adds dev d log) as (i & d1 & log1 & H1 & Hi).
  assert (Hend : forall r : Result unit Errno, adds (ret (Ret r)) d1 log1 [] (Ret r) d1 log1).
  { intros r. split; [done | by rewrite app_nil_r]. }
  destruct i as [size|e].
  - destruct (Z.eqb_spec size 0) as [->|Hs].
    + eexists _, d1, log1, _. split; [exact (bind_adds _ _ _ _ _ _ _ _ _ _ _ _ H1 (Hend (Ok tt))) | by left].
    + destruct (reta_table_run size n Hn Hi) as (conf & E & _).
      destruct (simple_adds (RetaUpdate (port_id dev) conf size) d1 log1) as (r & d2 & H2).
      eexists r, d2, _, [SReta]. split; [|by right]. unfold configure_rss_reta.
      eapply (bind_adds _ _ _ _ [] _ _ _ [SReta]); [exact H1|]. cbv beta iota.
      rewrite (proj2 (Z.eqb_neq _ _) Hs), E.
      eapply (bind_adds _ _ _ _ [SReta] _ _ _ []); [exact H2|]. split; [done | by rewrite app_nil_r].
  - eexists _, d1, log1, _. split; [exact (bind_adds _ _ _ _ _ _ _ _ _ _ _ _ H1 (Hend (Err e))) | by left].
Qed.

(** The RSS part neither fails nor panics; its calls are the table update, if
    the driver has a table, and the hash update, if a hash was configured. *)
Lemma setup_rss_adds b dev d log : b_nb_rx_queues b <= 65535 ->
  exists d' log' l, adds (setup_rss drv_run drv_errno b dev) d log l (Ret tt) d' log' /\
    (if 1 <? b_nb_rx_queues b
     then (l = [] \/ l = [SReta]) /\ conf_rss_hf (b_eth_conf b) = 0 \/
          exists l0 log0, (l0 = [] \/ l0 = [SReta]) /\ l = l0 ++ [SHash] /\ conf_rss_hf (b_eth_conf b) <> 0 /\
            log' = log0 ++ [RssHashUpdate (port_id dev) (mk_rss (conf_rss_hf (b_eth_conf b)) (Some RSS_KEY_40) 40)]
     else l = []).
Proof.
  intros Hn. unfold setup_rss. destruct (Z.ltb_spec 1 (b_nb_rx_queues b)) as [Hm|Hm].
  2:{ exists d, log, []. split; [|done]. split; [done | by rewrite app_nil_r]. }
  destruct (reta_adds dev (b_nb_rx_queues b) d log ltac:(lia)) as (r & d1 & log1 & l & H1 & Hl).
  destruct (Z.eqb_spec (conf_rss_hf (b_eth_conf b)) 0) as [Hz|Hz].
  - exists d1, log1, l. split; [|by left]. rewrite <- (app_nil_r l). eapply bind_adds; [exact H1|]. simpl.
    split; [done | by rewrite app_nil_r].
  - destruct (simple_adds (RssHashUpdate (port_id dev) (mk_rss (conf_rss_hf (b_eth_conf b)) (Some RSS_KEY_40) 40)) d1 log1)
      as (r2 & d2 & H2).
    eexists d2, _, (l ++ [SHash]). split.
    + eapply bind_adds; [exact H1|]. simpl.
      eapply (bind_adds _ _ _ _ [SHash] _ _ _ []); [exact H2|]. split; [done | by rewrite app_nil_r].
    + right. eexists l, log1. by split_and!.
Qed.

(** Everything before the RSS part. *)
Definition queue_stages (b : EthDevBuilder (rxconf := rxconf) (txconf := txconf)) : list stage :=
  SConfigure :: (SRx <$> queues 0 (Z.to_nat (b_nb_rx_queues b))) ++ (STx <$> queues 0 (Z.to_nat (b_nb_tx_queues b))).

Lemma goes_queues b p dev : dev = mk_ethdev (b_port_id b) ->
  goes (try (configure drv_run drv_errno dev (b_nb_rx_queues b) (b_nb_tx_queues b) (b_eth_conf b))
      (try (for_queues (fun q => rx_queue_setup drv_run drv_errno dev q p (b_rx_queue_conf b)) (Z.to_nat (b_nb_rx_queues b)) 0)
           (for_queues (fun q => tx_queue_setup drv_run drv_errno dev q (b_tx_queue_conf b)) (Z.to_nat (b_nb_tx_queues b)) 0)))
    (queue_stages b).
Proof.
  intros ->. apply (goes_try _ _ [SConfigure]); [by apply goes_simple|].
  apply goes_try; apply goes_for; intros q; [apply goes_rx | apply goes_tx].
Qed.

(** The order of the doc comment of [build]: configuration, RX queues, TX
    queues, table and hash (multi-queue only), promiscuous mode, start. *)
Definition build_stages (b : EthDevBuilder (rxconf := rxconf) (txconf := txconf)) (rss : list stage) : list stage :=
  queue_stages b ++ rss ++ (if b_promiscuous b then [SPromiscuous] else []) ++ [SStart].

Definition rss_stages (b : EthDevBuilder (rxconf := rxconf) (txconf := txconf)) (rss : list stage) : Prop :=
  if 1 <? b_nb_rx_queues b
  then rss `sublist_of` [SReta; SHash] /\ (SHash ∈ rss <-> conf_rss_hf (b_eth_conf b) <> 0)
  else rss = [].

Lemma rss_stages_ok b l log (log' : list call) dev :
  (if 1 <? b_nb_rx_queues b
   then (l = [] \/ l = [SReta]) /\ conf_rss_hf (b_eth_conf b) = 0 \/
        exists l0 log0, (l0 = [] \/ l0 = [SReta]) /\ l = l0 ++ [SHash] /\ conf_rss_hf (b_eth_conf b) <> 0 /\
          log' = log0 ++ [RssHashUpdate dev log]
   else l = []) -> rss_stages b l.
Proof.
  unfold rss_stages. destruct (1 <? b_nb_rx_queues b); [|done].
  intros [[Hl Hz]|(l0 & log0 & Hl & -> & Hz & _)].
  - destruct Hl as [-> | ->]; (split; [repeat constructor|]); split; try done; intros Hin;
      apply list_elem_of_In in Hin; simpl in Hin; intuition discriminate.
  - destruct Hl as [-> | ->]; (split; [repeat constructor|]); split; try done; intros _;
      apply list_elem_of_In; simpl; auto.
Qed.

(** The calls of [build]. *)
Lemma build_calls b p d (Hn : b_nb_rx_queues b <= 65535) :
  let '(res, (_, log)) := build drv_run drv_errno b p (d, []) in
  match res with
  | Ret (Ok dev) => port_id dev = b_port_id b /\ exists rss, rss_stages b rss /\ stages log = build_stages b rss
  | Ret (Err _) => exists rss, rss_stages b rss /\ stages log `prefix_of` build_stages b rss
  | Panic | UB => False
  end.
Proof.
  unfold build, bind. set (dev := mk_ethdev (b_port_id b)).
  assert (Hrss : exists rss, rss_stages b rss).
  { destruct (setup_rss_adds b dev d [] Hn) as (d' & log' & l & _ & Hl). exists l. by eapply rss_stages_ok. }
  destruct (goes_queues b p dev eq_refl d []) as (r & d1 & log1 & l1 & [E1 S1] & H1). rewrite E1.
  destruct r as [u|e].
  2:{ destruct Hrss as [rss Hrss]. exists rss. split; [done|]. rewrite S1. simpl. by apply prefix_app_r. }
  subst l1. destruct (setup_rss_adds b dev d1 log1 Hn) as (d2 & log2 & rss & [E2 S2] & Hl). rewrite E2.
  apply rss_stages_ok in Hl.
  assert (goes (if b_promiscuous b then promiscuous_enable drv_run drv_errno dev else ret (Ok tt))
            (if b_promiscuous b then [SPromiscuous] else [])) as Hp.
  { destruct (b_promiscuous b); [by apply goes_simple|]. intros d0 log0. exists (Ok tt), d0, log0, [].
    split; [|done]. split; [done | by rewrite app_nil_r]. }
  destruct (Hp d2 log2) as (r3 & d3 & log3 & l3 & [E3 S3] & H3). rewrite E3.
  assert (stages log3 = queue_stages b ++ rss ++ l3) as S3' by (rewrite S3, S2, S1; simpl; by rewrite <- app_assoc).
  unfold build_stages. destruct r3 as [u3|e].
  2:{ exists rss. split; [done|]. rewrite S3'. apply prefix_app, prefix_app, prefix_app_r, H3. }
  subst l3. destruct (goes_simple (Start (port_id dev)) SStart eq_refl d3 log3) as (r4 & d4 & log4 & l4 & [E4 S4] & H4).
  unfold start. rewrite E4. destruct r4 as [u4|e].
  - subst l4. split; [done|]. exists rss. split; [done|]. rewrite S4, S3'. by rewrite <- !app_assoc.
  - exists rss. split; [done|]. rewrite S4, S3', <- !app_assoc. by apply prefix_app, prefix_app, prefix_app.
Qed.

(** [EthDevBuilder::build] drives the port through the documented sequence
    of calls.  When it succeeds all stages were executed, in order, each queue
    from 0 upwards exactly once; when it fails, a prefix of them was executed
    and the port was not started after a failed step; it never panics, and
    failures of the RSS steps do not fail it. *)
Theorem build_call_order b p d (Hn : b_nb_rx_queues b <= 65535) :
  let '(res, (_, log)) := build drv_run drv_errno b p (d, []) in
  match res with
  | Ret (Ok dev) => port_id dev = b_port_id b /\ exists rss, rss_stages b rss /\ stages log = build_stages b rss
  | Ret (Err _) => exists rss, rss_stages b rss /\ stages log `prefix_of` build_stages b rss
  | Panic | UB => False
  end.
Proof. exact (build_calls b p d Hn). Qed.

(** In a multi-queue build with a hash function configured, the key the
    port ends up with is the built-in Microsoft key, whatever key (or none) the
    configuration holds: the last RSS call of [build] installs [RSS_KEY_40]. *)
Theorem build_overrides_rss_key b dev d log (Hn : 1 < b_nb_rx_queues b <= 65535)
    (Hh : conf_rss_hf (b_eth_conf b) <> 0) :
  exists d' log0, setup_rss drv_run drv_errno b dev (d, log) =
    (Ret tt, (d', log0 ++ [RssHashUpdate (port_id dev) (mk_rss (conf_rss_hf (b_eth_conf b)) (Some RSS_KEY_40) 40)])).
Proof.
  destruct (setup_rss_adds b dev d log) as (d' & log' & l & [E _] & Hl); [lia|].
  rewrite (proj2 (Z.ltb_lt _ _)) in Hl by lia.
  destruct Hl as [[_ ?]|(l0 & log0 & _ & _ & _ & ->)]; [done|]. by exists d', log0.
Qed.

End Build.

(** [EthConf::to_raw] hands the driver a key pointer exactly when RSS mode
    is on, a hash function is configured and a key was given; the pointer then
    points into the buffer returned with it, and the 8-bit length field is the
    key's length for every key shorter than 256 bytes.  [rss()] therefore
    configures no key and no hash at all. *)
Theorem to_raw_key_alive c :
  let '(raw, key_buffer) := to_raw c in
  r_key (raw_rss raw) = key_buffer /\
  (forall k, key_buffer = Some k <->
     rx_mq_mode (rx_mode c) = Rss /\ conf_rss_hf c <> 0 /\ conf_rss_key c = Some k) /\
  (forall k, key_buffer = Some k -> zlen k < 256 -> r_key_len (raw_rss raw) = zlen k) /\
  raw_rss (to_raw (rss c)).1 = rss_zeroed.
Proof.
  unfold to_raw. destruct (bool_decide_reflect (rx_mq_mode (rx_mode c) = Rss)) as [Hr|Hr]; simpl.
  2:{ split_and!; [done | intuition congruence | done | done]. }
  destruct (Z.eqb_spec (conf_rss_hf c) 0) as [Hz|Hz]; simpl.
  { split_and!; [done | intuition congruence | done | done]. }
  destruct (conf_rss_key c) as [k|]; simpl; split_and!; try done; try (intuition congruence).
  intros k' [= <-] Hk. unfold as_u8. apply wrap_small. pose proof (zlen_nonneg k). lia.
Qed.

Lemma hex_digit_inj x y : 0 <= x < 16 -> 0 <= y < 16 -> hex_digit x = hex_digit y -> x = y.
Proof.
  assert (forall z, 0 <= z < 16 -> Z.of_N (Ascii.N_of_ascii (hex_digit z)) = if z <? 10 then z + 48 else z + 87) as Hv.
  { intros z Hz. unfold hex_digit. destruct (Z.ltb_spec z 10); rewrite Ascii.N_ascii_embedding; lia. }
  intros Hx Hy E. apply (f_equal (fun c => Z.of_N (Ascii.N_of_ascii c))) in E. rewrite !Hv in E by done.
  destruct (Z.ltb_spec x 10), (Z.ltb_spec y 10); lia.
Qed.

Lemma byte_bound (b : byte) : 0 <= Z.of_N (Byte.to_N b) < 256.
Proof. pose proof (Byte.to_N_bounded b). lia. Qed.

Lemma hex2_inj b b' : hex2 b = hex2 b' -> b = b'.
Proof.
  unfold hex2. intros [= E1 E2]. pose proof (byte_bound b). pose proof (byte_bound b').
  set (x := Z.of_N (Byte.to_N b)) in *. set (y := Z.of_N (Byte.to_N b')) in *.
  apply hex_digit_inj in E1; [|split; [apply Z.div_pos | apply Z.div_lt_upper_bound]; lia..].
  apply hex_digit_inj in E2; [|apply Z.mod_pos_bound; lia..].
  assert (x = y) as Exy by (rewrite (Z.div_mod x 16), (Z.div_mod y 16) by lia; congruence).
  apply N2Z.inj in Exy. apply (f_equal Byte.of_N) in Exy. rewrite !Byte.of_to_N in Exy. congruence.
Qed.

(** [format_mac_addr] prints 17 characters, and different addresses print
    differently. *)
Theorem format_mac_addr_injective a b :
  length (format_mac_addr a) = 17%nat /\ (format_mac_addr a = format_mac_addr b -> a = b).
Proof.
  split; [done|]. destruct a, b. unfold format_mac_addr. simpl. intros E. injection E. intros.
  f_equal; apply hex2_inj; unfold hex2; congruence.
Qed.


Lemma reta_round_robin_witness :
  exists conf, fill_groups (replicate (num_groups 128) reta_zeroed) 0 128 6 = Ret conf /\
    collect conf 0 128 = round_robin 128 6 /\ 21 <= Z.of_nat (share 1 (collect conf 0 128)) <= 22.
Proof.
  destruct (reta_round_robin 128 6) as (conf & E & _ & _ & Hc & Hb); [lia | lia |].
  exists conf. split; [exact E|]. split; [exact Hc | exact (Hb 1 ltac:(lia))].
Defined.


(** A port with a redirection table of 128 entries on which all calls
    succeed. *)
Definition ref_driver (c : @eth_call unit unit unit) (d : unit) : Z * eth_out * unit :=
  (0, match c with InfoGet _ => OInfo 128 | _ => ONone end, d).

Lemma ref_driver_u16 c d r n d' : ref_driver c d = (r, OInfo n, d') -> 0 <= n <= u16_max.
Proof. unfold ref_driver. destruct c; intros [= <- <-]; unfold u16_max; lia. Qed.

Definition two_queues : EthDevBuilder (rxconf := unit) (txconf := unit) :=
  b_set_promiscuous (b_with_nb_tx_queues 2 (b_with_nb_rx_queues 2
    (b_with_eth_conf (set_rss 8 (Some [x01]) (rss EthConf_new)) (Builder_new 0)))).

Lemma build_call_order_witness :
  let '(res, (_, log)) := build ref_driver (fun _ => 0) two_queues tt (tt, []) in
  res = Ret (Ok (mk_ethdev 0)) /\ exists rss, rss_stages two_queues rss /\ stages log = build_stages two_queues rss.
Proof.
  pose proof (build_call_order ref_driver (fun _ => 0) ref_driver_u16 two_queues tt tt) as Hb.
  assert ((build ref_driver (fun _ => 0) two_queues tt (tt, [])).1 = Ret (Ok (mk_ethdev 0))) as Hr
    by (vm_compute; reflexivity).
  destruct (build ref_driver (fun _ => 0) two_queues tt (tt, [])) as [res [d log]]. simpl in Hr. subst res.
  split; [reflexivity|]. apply Hb. simpl. lia.
Defined.

Lemma build_overrides_rss_key_witness :
  exists d' log0, setup_rss ref_driver (fun _ => 0) two_queues (mk_ethdev 0) (tt, []) =
    (Ret tt, (d', log0 ++ [RssHashUpdate 0 (mk_rss 8 (Some RSS_KEY_40) 40)])) /\
    conf_rss_key (b_eth_conf two_queues) = Some [x01].
Proof.
  destruct (build_overrides_rss_key ref_driver (fun _ => 0) ref_driver_u16 two_queues (mk_ethdev 0) tt [])
    as (d' & log0 & E); [simpl; lia | simpl; lia |].
  exists d', log0. split; [exact E | reflexivity].
Defined.

End Eth.
