(* ===== verification/Eal.v ===== *)
(** * EAL initialisation ([dpdk-net/src/api/rte/eal.rs], [thread.rs])

    The options, their translation to an argument vector, [Eal::init] with the
    process-wide flag, and the guard's [Drop].  [rte_eal_init] and
    [rte_eal_cleanup] are parameters.  A second part runs [init] and [drop] in
    several threads, split at their accesses to the atomic flag. *)

From stdpp Require Import base list strings relations.
From Stdlib Require Import ZArith Strings.Byte Strings.Ascii Lia.
From S2P Require Import Prelude Mbuf Pktmbuf.

Module Eal.

Abbreviation str := (list ascii).
Definition lit (s : string) : str := String.list_ascii_of_string s.

(** [n.to_string()] of an unsigned integer; [fuel] bounds the digits. *)
Definition digit (n : Z) : ascii := Ascii.ascii_of_N (Z.to_N (48 + n)).
Fixpoint digits (fuel : nat) (n : Z) (acc : str) : str :=
  match fuel with
  | O => acc
  | S fuel =>
      let acc := digit (n mod 10) :: acc in
      if (n / 10 =? 0)%Z then acc else digits fuel (n / 10) acc
  end.
Definition to_string (n : Z) : str := digits 20 n [].

Inductive ProcessType := Primary | Secondary | Auto.
Inductive LogLevel :=
  | Emergency | Alert | Critical | Error | Warning | Notice | Info | Debug | Level (n : Z).

Definition ProcessType_as_str (p : ProcessType) : str :=
  match p with Primary => lit "primary" | Secondary => lit "secondary" | Auto => lit "auto" end.

Definition LogLevel_as_str (l : LogLevel) : str :=
  match l with
  | Emergency => lit "1" | Alert => lit "2" | Critical => lit "3" | Error => lit "4"
  | Warning => lit "5" | Notice => lit "6" | Info => lit "7" | Debug => lit "8"
  | Level n => to_string n
  end.

Inductive EalOption :=
  | ProgramName (s : str) | NoHuge | NoPci | Vdev (s : str) | CoreMask (s : str) | CoreList (s : str)
  | MemoryChannels (n : Z) | OptProcessType (p : ProcessType) | FilePrefix (s : str) | SocketMem (s : str)
  | OptLogLevel (l : LogLevel) | InMemory | BaseVirtAddr (s : str) | Allow (s : str) | Custom (s : str).

Definition to_args (o : EalOption) : list str :=
  match o with
  | ProgramName name => [name]
  | NoHuge => [lit "--no-huge"]
  | NoPci => [lit "--no-pci"]
  | Vdev dev => [lit "--vdev=" ++ dev]
  | CoreMask m => [lit "-c"; m]
  | CoreList l => [lit "-l"; l]
  | MemoryChannels n => [lit "-n"; to_string n]
  | OptProcessType pt => [lit "--proc-type=" ++ ProcessType_as_str pt]
  | FilePrefix p => [lit "--file-prefix=" ++ p]
  | SocketMem m => [lit "--socket-mem=" ++ m]
  | OptLogLevel l => [lit "--log-level=" ++ LogLevel_as_str l]
  | InMemory => [lit "--in-memory"]
  | BaseVirtAddr a => [lit "--base-virtaddr=" ++ a]
  | Allow a => [lit "-a"; a]
  | Custom a => [a]
  end.

Record EalBuilder := mk_builder { program_name : option str; options : list EalOption }.

Definition Builder_new : EalBuilder := mk_builder None [].
Definition with_program_name (n : str) (b : EalBuilder) : EalBuilder := mk_builder (Some n) (options b).
(** [option] pushes any option; the named methods push theirs. *)
Definition option_ (o : EalOption) (b : EalBuilder) : EalBuilder := mk_builder (program_name b) (options b ++ [o]).
Definition no_huge := option_ NoHuge.
Definition no_pci := option_ NoPci.
Definition vdev (s : str) := option_ (Vdev s).
Definition core_mask (s : str) := option_ (CoreMask s).
Definition core_list (s : str) := option_ (CoreList s).
Definition memory_channels (n : Z) := option_ (MemoryChannels n).
Definition process_type (p : ProcessType) := option_ (OptProcessType p).
Definition file_prefix (s : str) := option_ (FilePrefix s).
Definition socket_mem (s : str) := option_ (SocketMem s).
Definition log_level (l : LogLevel) := option_ (OptLogLevel l).
Definition in_memory := option_ InMemory.
Definition allow (s : str) := option_ (Allow s).
Definition arg (s : str) := option_ (Custom s).

(** [build_args]; [arg0] is [std::env::args().next()]. *)
Definition build_args (arg0 : option str) (b : EalBuilder) : list str :=
  let name := match program_name b with
              | Some n => n
              | None => match arg0 with Some n => n | None => lit "dpdk-app" end
              end in
  name :: concat (to_args <$> options b).

(** ** Initialisation *)

(** [CString::new(s).expect(..)] for every argument. *)
Definition NUL : ascii := Ascii.ascii_of_N 0.
Fixpoint to_cstrings (args : list str) : Exec (list str) :=
  match args with
  | [] => Ret []
  | s :: args => if decide (NUL ∈ s) then Panic else rest ← to_cstrings args; Ret (s :: rest)
  end.

Section Init.
Context {env : Type}.
Variable rte_eal_init : Z -> list str -> env -> Z * env.
Variable rte_eal_cleanup : env -> Z * env.
Variable rte_thread_register : env -> Z * env.
Variable rte_thread_unregister : env -> env.
Variable errno_of : env -> Z.

(** [EAL_INITIALIZED] and the library's state. *)
Record eal_state := mk_eal { EAL_INITIALIZED : bool; eal_env : env }.

(** [Eal::init].  A panic leaves the state as it is at that point. *)
Definition init (args : list str) (s : eal_state) : Exec (Result unit Errno) * eal_state :=
  if EAL_INITIALIZED s then (Ret (Err EALREADY), mk_eal true (eal_env s))
  else
    let s := mk_eal true (eal_env s) in
    match to_cstrings args with
    | Panic => (Panic, s)
    | UB => (UB, s)
    | Ret cargs =>
        let '(r, e) := rte_eal_init (zlen cargs) cargs (eal_env s) in
        if (r <? 0)%Z then (Ret (Err (rte_errno_value (errno_of e))), mk_eal false e)
        else (Ret (Ok tt), mk_eal true e)
    end.

(** [EalBuilder::init] *)
Definition builder_init (arg0 : option str) (b : EalBuilder) (s : eal_state) : Exec (Result unit Errno) * eal_state :=
  init (build_args arg0 b) s.

Definition is_initialized (s : eal_state) : bool := EAL_INITIALIZED s.

(** [Drop for Eal] *)
Definition drop_eal (s : eal_state) : eal_state :=
  let '(_, e) := rte_eal_cleanup (eal_env s) in mk_eal false e.

(** The low-level [init] and [cleanup]. *)
Definition raw_init (args : list str) (e : env) : Exec (Result unit Errno) * env :=
  match to_cstrings args with
  | Panic => (Panic, e)
  | UB => (UB, e)
  | Ret cargs => let '(r, e) := rte_eal_init (zlen cargs) cargs e in (Ret (check_rte_success (errno_of e) r), e)
  end.
Definition cleanup (e : env) : Result unit Errno * env :=
  let '(r, e) := rte_eal_cleanup e in (check_rte_success (errno_of e) r, e).

(** [ThreadRegistration::new], [try_new] and [Drop]. *)
Definition thread_register (e : env) : Result unit Errno * env :=
  let '(r, e) := rte_thread_register e in (check_rte_success (errno_of e) r, e).
Definition thread_try_register (e : env) : bool * env :=
  let '(r, e) := rte_thread_register e in ((r =? 0)%Z, e).
Definition thread_unregister (e : env) : env := rte_thread_unregister e.

(** [set_cpu_affinity]: nix's [CpuSet], which refuses a core beyond its size,
    and the system call for the current thread (pid 0). *)
Definition set_cpu_affinity {CpuSet} (CpuSet_new : CpuSet) (CpuSet_set : Z -> CpuSet -> Result CpuSet Errno)
    (sched_setaffinity : Z -> CpuSet -> env -> Result unit Errno * env) (cpu_id : Z) (e : env) : Result unit Errno * env :=
  match CpuSet_set cpu_id CpuSet_new with
  | Err x => (Err x, e)
  | Ok cpu_set => sched_setaffinity 0%Z cpu_set e
  end.

(** ** Properties of initialisation *)

Lemma to_cstrings_run args :
  to_cstrings args = if decide (Exists (fun s => NUL ∈ s) args) then Panic else Ret args.
Proof.
  induction args as [|s args IH]; cbn [to_cstrings].
  - case_decide as E; [by apply Exists_nil in E | done].
  - destruct (decide (NUL ∈ s)) as [Hn|Hn].
    + by rewrite decide_True by (apply Exists_cons; by left).
    + rewrite IH. case_decide as E.
      * by rewrite decide_True by (apply Exists_cons; by right).
      * by rewrite decide_False by (rewrite Exists_cons; tauto).
Qed.

(** [Eal::init] on every branch: refused with [EALREADY] when the flag is
    set; a failed initialisation leaves the flag clear so that it can be
    retried and reports [rte_errno]; a successful one sets it, passes exactly
    the given arguments, and dropping the guard clears it again. *)
Theorem init_branches args s :
  let '(res, s') := init args s in
  if EAL_INITIALIZED s then res = Ret (Err EALREADY) /\ s' = s
  else match res with
       | Ret (Ok _) => exists r e, rte_eal_init (zlen args) args (eal_env s) = (r, e) /\ (0 <= r)%Z /\
                         s' = mk_eal true e /\ EAL_INITIALIZED (drop_eal s') = false
       | Ret (Err x) => exists r e, rte_eal_init (zlen args) args (eal_env s) = (r, e) /\ (r < 0)%Z /\
                         s' = mk_eal false e /\ x = rte_errno_value (errno_of e)
       | Panic => Exists (fun a => NUL ∈ a) args /\ eal_env s' = eal_env s
       | UB => False
       end.
Proof.
  unfold init. destruct s as [[] e]; simpl; [done|]. rewrite to_cstrings_run. case_decide as E; [done|].
  destruct (rte_eal_init (zlen args) args e) as [r e'] eqn:Er. destruct (Z.ltb_spec r 0).
  - by exists r, e'.
  - exists r, e'. split_and!; try done. unfold drop_eal. simpl. by destruct (rte_eal_cleanup e').
Qed.

(** An argument with a NUL byte makes [Eal::init] panic after the flag was
    set, and from then on every further [init] is refused with [EALREADY]
    although EAL was never initialised. *)
Theorem nul_argument_blocks_init args args' s (Hf : EAL_INITIALIZED s = false) (Hn : Exists (fun a => NUL ∈ a) args) :
  let '(res, s') := init args s in
  res = Panic /\ eal_env s' = eal_env s /\ is_initialized s' = true /\
  (init args' s').1 = Ret (Err EALREADY).
Proof. unfold init. rewrite Hf, to_cstrings_run, decide_True by done. done. Qed.

End Init.

(** The strings a builder holds. *)
Definition option_strings (o : EalOption) : list str :=
  match o with
  | ProgramName s | Vdev s | CoreMask s | CoreList s | FilePrefix s | SocketMem s | BaseVirtAddr s | Allow s | Custom s => [s]
  | _ => []
  end.

Lemma digit_not_nul n : (0 <= n < 10)%Z -> digit n <> NUL.
Proof.
  intros Hn E. apply (f_equal Ascii.N_of_ascii) in E. unfold digit, NUL in E.
  rewrite !Ascii.N_ascii_embedding in E; lia.
Qed.

Lemma digits_not_nul fuel n acc : NUL ∉ acc -> NUL ∉ digits fuel n acc.
Proof.
  revert n acc. induction fuel as [|fuel IH]; intros n acc Ha; simpl; [done|].
  assert (NUL ∉ digit (n mod 10) :: acc).
  { apply not_elem_of_cons. split; [|done]. intros E. symmetry in E. apply digit_not_nul in E; [done|].
    by apply Z.mod_pos_bound. }
  case_match; [done|]. by apply IH.
Qed.

Lemma to_string_not_nul n : NUL ∉ to_string n.
Proof. apply digits_not_nul. by intros ?%elem_of_nil. Qed.

Lemma lit_app_nul (s : string) (a : str) : bool_decide (NUL ∈ lit s) = false -> NUL ∈ lit s ++ a <-> NUL ∈ a.
Proof. intros Hs%bool_decide_eq_false. rewrite elem_of_app. tauto. Qed.

Lemma lit_nul (s : string) : bool_decide (NUL ∈ lit s) = false -> NUL ∈ lit s <-> False.
Proof. intros Hs%bool_decide_eq_false. tauto. Qed.

Lemma to_string_nul n : NUL ∈ to_string n <-> False.
Proof. pose proof (to_string_not_nul n). tauto. Qed.

Lemma exists_one (P : str -> Prop) a : Exists P [a] <-> P a.
Proof. rewrite Exists_cons, Exists_nil. tauto. Qed.

Lemma exists_two (P : str -> Prop) a b : Exists P [a; b] <-> P a \/ P b.
Proof. by rewrite Exists_cons, exists_one. Qed.

Lemma as_str_nul p : NUL ∈ ProcessType_as_str p <-> False.
Proof. by destruct p; apply lit_nul. Qed.

Lemma level_nul l : NUL ∈ LogLevel_as_str l <-> False.
Proof. destruct l; [by apply lit_nul.. | apply to_string_nul]. Qed.

(** An option's arguments contain a NUL byte only if its string does. *)
Lemma to_args_nul o : Exists (fun s => NUL ∈ s) (to_args o) <-> Exists (fun s => NUL ∈ s) (option_strings o).
Proof.
  destruct o; cbn [to_args option_strings]; rewrite ?exists_two, ?exists_one, ?Exists_nil, ?to_string_nul;
    rewrite ?lit_app_nul by reflexivity; rewrite ?lit_nul by reflexivity; rewrite ?as_str_nul, ?level_nul; tauto.
Qed.

Lemma build_args_nul arg0 b :
  Exists (fun s => NUL ∈ s) (build_args arg0 b) <->
  Exists (fun s => NUL ∈ s) (default (default (lit "dpdk-app") arg0) (program_name b) :: concat (option_strings <$> options b)).
Proof.
  unfold build_args. rewrite !Exists_cons.
  assert (Exists (fun s => NUL ∈ s) (concat (to_args <$> options b)) <->
          Exists (fun s => NUL ∈ s) (concat (option_strings <$> options b))) as ->.
  { induction (options b) as [|o l IH]; [done|]. rewrite !fmap_cons. cbn [concat]. by rewrite !Exists_app, to_args_nul, IH. }
  by destruct (program_name b), arg0.
Qed.

(** The argument vector of [EalBuilder] starts with the program name and
    lists the options' arguments in the order they were added; so
    [EalBuilder::init] on a fresh process panics exactly if the program name or
    one of the strings given to the builder contains a NUL byte (numbers,
    flags and enumerations never do). *)
Theorem builder_init_panics_iff {env} ini errno_of arg0 b (e : env) :
  (builder_init ini errno_of arg0 b (mk_eal false e)).1 = Panic <->
  Exists (fun s => NUL ∈ s)
    (default (default (lit "dpdk-app") arg0) (program_name b) :: concat (option_strings <$> options b)).
Proof.
  rewrite <- build_args_nul. unfold builder_init, init. cbn [EAL_INITIALIZED eal_env].
  rewrite to_cstrings_run. case_decide as E; cbn [fst]; [tauto|]. destruct (ini _ _ _) as [r e'].
  split; [by destruct (r <? 0)%Z | tauto].
Qed.

(** ** Several threads *)

Section Threads.
Context {env : Type}.
Variable rte_eal_init : Z -> list str -> env -> Z * env.
Variable rte_eal_cleanup : env -> Z * env.

(** Where a thread is in [Eal::init] and the life of the guard: past the
    [swap], past a failed [rte_eal_init], holding the guard, past
    [rte_eal_cleanup], or unwound by the NUL panic. *)
Inductive thread := TIdle | TSwapped (args : list str) | TFailed | TGuard | TCleaned | TPanicked.

Record threads := mk_threads { flag : bool; lib : env; ts : list thread }.

Definition holds_flag (t : thread) : bool :=
  match t with TIdle => false | _ => true end.

Inductive tstep : threads -> threads -> Prop :=
  | t_refused s i : ts s !! i = Some TIdle -> flag s = true -> tstep s s
  | t_swap s i args : ts s !! i = Some TIdle -> flag s = false ->
      tstep s (mk_threads true (lib s) (<[i := TSwapped args]> (ts s)))
  | t_panic s i args : ts s !! i = Some (TSwapped args) -> to_cstrings args = Panic ->
      tstep s (mk_threads (flag s) (lib s) (<[i := TPanicked]> (ts s)))
  | t_init_fail s i args cargs r e : ts s !! i = Some (TSwapped args) -> to_cstrings args = Ret cargs ->
      rte_eal_init (zlen cargs) cargs (lib s) = (r, e) -> (r < 0)%Z ->
      tstep s (mk_threads (flag s) e (<[i := TFailed]> (ts s)))
  | t_init_ok s i args cargs r e : ts s !! i = Some (TSwapped args) -> to_cstrings args = Ret cargs ->
      rte_eal_init (zlen cargs) cargs (lib s) = (r, e) -> (0 <= r)%Z ->
      tstep s (mk_threads (flag s) e (<[i := TGuard]> (ts s)))
  | t_reset s i : ts s !! i = Some TFailed -> tstep s (mk_threads false (lib s) (<[i := TIdle]> (ts s)))
  | t_cleanup s i r e : ts s !! i = Some TGuard -> rte_eal_cleanup (lib s) = (r, e) ->
      tstep s (mk_threads (flag s) e (<[i := TCleaned]> (ts s)))
  | t_clear s i : ts s !! i = Some TCleaned -> tstep s (mk_threads false (lib s) (<[i := TIdle]> (ts s))).

Definition holders (s : threads) : nat := length (List.filter holds_flag (ts s)).

(** The flag is set exactly while one thread is between its successful [swap]
    and its [store(false)]. *)
Definition eal_inv (s : threads) : Prop := holders s = if flag s then 1%nat else 0%nat.

Lemma holders_insert l i t t' : l !! i = Some t ->
  (length (List.filter holds_flag (<[i := t']> l)) + (if holds_flag t then 1 else 0) =
   length (List.filter holds_flag l) + (if holds_flag t' then 1 else 0))%nat.
Proof.
  revert i. induction l as [|x l IH]; intros [|i] Hi; simplify_eq/=.
  - destruct (holds_flag t), (holds_flag t'); simpl; lia.
  - specialize (IH i Hi). destruct (holds_flag x); simpl; lia.
Qed.

Lemma holder_flag s i t : eal_inv s -> ts s !! i = Some t -> holds_flag t = true -> flag s = true.
Proof.
  unfold eal_inv, holders. intros Hs Hi Ht. destruct (flag s); [done|].
  pose proof (holders_insert _ _ _ TIdle Hi) as Hc. rewrite Ht, Hs in Hc. simpl in Hc. lia.
Qed.

Lemma tstep_inv s s' : eal_inv s -> tstep s s' -> eal_inv s'.
Proof.
  intros Hs Ht.
  destruct Ht as [s i Hi Hf|s i args Hi Hf|s i args Hi Hc|s i args cargs r e Hi Hc Hr Hn|s i args cargs r e Hi Hc Hr Hn
                 |s i Hi|s i r e Hi Hc|s i Hi]; [done|..];
    (try (pose proof (holder_flag _ _ _ Hs Hi eq_refl) as Hf));
    unfold eal_inv, holders in *; simpl; rewrite Hf in Hs;
    match goal with |- context [<[_ := ?t']> _] => pose proof (holders_insert _ _ _ t' Hi) as Hh end;
    simpl in Hh; rewrite ?Hf; lia.
Qed.


End Threads.

(** ** A library on which initialisation succeeds *)

Definition ok_init (argc : Z) (argv : list str) (e : nat) : Z * nat := (argc, S e).

Lemma nul_argument_blocks_init_witness :
  let '(res, s') := init ok_init (fun _ => 22%Z) [lit "app"; [NUL]] (mk_eal false 0) in
  res = Panic /\ is_initialized s' = true /\
  (init ok_init (fun _ => 22%Z) [lit "app"] s').1 = Ret (Err EALREADY).
Proof.
  pose proof (nul_argument_blocks_init ok_init (fun _ => 22%Z) [lit "app"; [NUL]] [lit "app"] (mk_eal false 0) eq_refl) as Hb.
  destruct (init ok_init (fun _ => 22%Z) [lit "app"; [NUL]] (mk_eal false 0)) as [res s'].
  destruct Hb as (? & _ & ? & ?); [by apply Exists_cons; right; apply Exists_cons; left; left | done].
Defined.


End Eal.
