(* ===== verification/Lcore.v ===== *)
(** * Logical cores ([dpdk-net/src/api/rte/lcore.rs])

    Role and state codes, the lcore iterator with its [ExactSizeIterator::len],
    launching closures and collecting their results.  The EAL's view of the
    machine (which lcores exist, what they run) is a parameter with the
    documented behaviour of [rte_get_next_lcore], [rte_eal_remote_launch] and
    [rte_eal_wait_lcore] as hypotheses. *)

From stdpp Require Import base list numbers fin_maps gmap.
From Stdlib Require Import ZArith Lia.
From S2P Require Import Prelude.

Module Lcore.
Local Open Scope Z_scope.

Definition LCORE_ID_ANY : Z := u32_max.

Inductive Role := Rte | Off | Service | NonEal.
Inductive State := Wait | Running | Finished.
#[export] Instance State_eq_dec : EqDecision State.
Proof. solve_decision. Defined.

Definition Role_code (r : Role) : Z := match r with Rte => 0 | Off => 1 | Service => 2 | NonEal => 3 end.
Definition State_code (s : State) : Z := match s with Wait => 0 | Running => 1 | Finished => 2 end.

(** [Role::try_from] and [State::from] *)
Definition Role_try_from (v : Z) : Result Role unit :=
  match v with 0 => Ok Rte | 1 => Ok Off | 2 => Ok Service | 3 => Ok NonEal | _ => Err tt end.
Definition State_from (v : Z) : State :=
  match v with 0 => Wait | 1 => Running | 2 => Finished | _ => Wait end.

(** The role and state codes of the bindings are read back exactly: the
    conversions invert the enumerations' codes, an unknown role is an error and
    an unknown state counts as [Wait]. *)
Theorem codes_roundtrip :
  (forall r, Role_try_from (Role_code r) = Ok r) /\ (forall s, State_from (State_code s) = s) /\
  (forall v r, Role_try_from v = Ok r -> v = Role_code r) /\
  (forall v, State_from v <> Wait -> v = State_code (State_from v)).
Proof.
  split_and!; [by intros [] | by intros [] | |].
  - intros v r. unfold Role_try_from. repeat case_match; intros; simplify_eq; done.
  - intros v. unfold State_from. repeat case_match; intros; done.
Qed.

(** ** Iteration *)

Section Iter.
Variable RTE_MAX_LCORE : Z.
Variable rte_lcore_is_enabled : Z -> bool.
Variable rust_rte_get_main_lcore : Z.
Variable rte_get_next_lcore : Z -> Z -> Z -> Z.
Variable rust_rte_lcore_id : Z.

Record Lcore := mk_lcore { id : Z }.

(** [from_id], [current], [main], [is_main] *)
Definition from_id (i : Z) : option Lcore :=
  if (i <? RTE_MAX_LCORE) && rte_lcore_is_enabled i then Some (mk_lcore i) else None.
Definition current : option Lcore :=
  if rust_rte_lcore_id =? LCORE_ID_ANY then None else Some (mk_lcore rust_rte_lcore_id).
Definition main : Lcore := mk_lcore rust_rte_get_main_lcore.
Definition is_main (l : Lcore) : bool := id l =? rust_rte_get_main_lcore.
(** The caller answers for the id. *)
Definition from_id_unchecked (i : Z) : Lcore := mk_lcore i.

(** The queries of one lcore: a role the enumeration does not know counts as
    [Off], and a negative CPU is none. *)
Variable rte_eal_lcore_role : Z -> Z.
Variable rte_lcore_to_socket_id : Z -> Z.
Variable rte_lcore_to_cpu_id : Z -> Z.
Definition role (l : Lcore) : Role := match Role_try_from (as_u32 (rte_eal_lcore_role (id l))) with Ok r => r | Err _ => Off end.
Definition socket_id (l : Lcore) : Z := rte_lcore_to_socket_id (id l).
Definition cpu_id (l : Lcore) : option Z :=
  let cpu := rte_lcore_to_cpu_id (as_i32 (id l)) in if cpu <? 0 then None else Some cpu.

Record LcoreIter := mk_iter { it_current : Z; skip_main : bool }.
Definition all : LcoreIter := mk_iter u32_max false.
Definition workers : LcoreIter := mk_iter u32_max true.

(** [Iterator::next] *)
Definition next (it : LcoreIter) : option Lcore * LcoreIter :=
  let skip := if skip_main it then 1 else 0 in
  let n := rte_get_next_lcore (it_current it) skip 0 in
  if RTE_MAX_LCORE <=? n then (None, it) else (Some (mk_lcore n), mk_iter n (skip_main it)).

(** [collect]: [next] until it returns [None]; [None] when out of fuel. *)
Fixpoint collect (fuel : nat) (it : LcoreIter) : option (list Lcore) :=
  match fuel with
  | O => None
  | S fuel =>
      match next it with
      | (None, _) => Some []
      | (Some l, it) => (l ::.) <$> collect fuel it
      end
  end.

(** The loop of [ExactSizeIterator::len]. *)
Fixpoint len_loop (fuel : nat) (count : nat) (cur : Z) (skip : bool) : option nat :=
  match fuel with
  | O => None
  | S fuel =>
      let n := rte_get_next_lcore cur (if skip then 1 else 0) 0 in
      if RTE_MAX_LCORE <=? n then Some count else len_loop fuel (S count) n skip
  end.
Definition len (fuel : nat) (it : LcoreIter) : option nat := len_loop fuel 0 (it_current it) (skip_main it).

(** [LaunchBuilder] and its ways to choose lcores: the loops over the iterators,
    then any filters. *)
Record LaunchBuilder := mk_launch { lcores : list Lcore }.
Definition b_workers (fuel : nat) : option LaunchBuilder := mk_launch <$> collect fuel workers.
Definition b_all (fuel : nat) : option LaunchBuilder := mk_launch <$> collect fuel all.
Definition with_lcores (ls : list Lcore) : LaunchBuilder := mk_launch ls.
Definition b_on_socket (socket : Z) (b : LaunchBuilder) : LaunchBuilder :=
  mk_launch (List.filter (fun l => socket_id l =? socket) (lcores b)).
Definition b_filter (predicate : Lcore -> bool) (b : LaunchBuilder) : LaunchBuilder := mk_launch (List.filter predicate (lcores b)).
Definition b_take (n : nat) (b : LaunchBuilder) : LaunchBuilder := mk_launch (take n (lcores b)).

(** [foreach_worker], with the state its closure changes. *)
Definition foreach_worker {A} (fuel : nat) (f : Lcore -> A -> A) (a : A) : option A :=
  (fun ls => fold_left (fun a l => f l a) ls a) <$> collect fuel workers.

(** An lcore the iterator is to visit. *)
Definition eligible (skip : bool) (j : Z) : bool :=
  rte_lcore_is_enabled j && negb (skip && (j =? rust_rte_get_main_lcore)).

(** Documented behaviour of [rte_get_next_lcore(i, skip_main, 0)]: the first
    eligible lcore after [i] ([u32::MAX] stands for "before 0"), or
    [RTE_MAX_LCORE] when there is none. *)
Hypothesis max_u32 : 0 <= RTE_MAX_LCORE < u32_max.
Hypothesis next_lcore_spec : forall i skip, 0 <= i <= u32_max ->
  let r := rte_get_next_lcore i (if skip : bool then 1 else 0) 0 in
  as_u32 (i + 1) <= RTE_MAX_LCORE ->
  (r = RTE_MAX_LCORE \/ (as_u32 (i + 1) <= r < RTE_MAX_LCORE /\ eligible skip r = true)) /\
  (forall j, as_u32 (i + 1) <= j < r -> eligible skip j = false).

(** The lcores still to be visited. *)
Definition remaining (it : LcoreIter) : list Z :=
  let s := as_u32 (it_current it + 1) in
  List.filter (eligible (skip_main it)) (seqZ s (RTE_MAX_LCORE - s)).

Definition iter_ok (it : LcoreIter) : Prop :=
  0 <= it_current it <= u32_max /\ as_u32 (it_current it + 1) <= RTE_MAX_LCORE.

Lemma filter_none (f : Z -> bool) s n : (forall j, s <= j < s + n -> f j = false) -> List.filter f (seqZ s n) = [].
Proof.
  intros Hf. destruct (Z.le_gt_cases 0 n) as [Hn|Hn]; [|by rewrite seqZ_nil by lia].
  revert s Hf. pattern n. apply natlike_ind; [done| |done]. intros k Hk IH s Hf.
  rewrite seqZ_cons by lia. simpl. rewrite Hf by lia. rewrite Z.pred_succ. apply IH. intros j Hj. apply Hf. lia.
Qed.

Lemma succ_small i : 0 <= i < RTE_MAX_LCORE -> as_u32 (i + 1) = i + 1.
Proof. intros Hi. unfold as_u32. apply wrap_small. unfold u32_max in *. lia. Qed.

(** One step of the iteration. *)
Lemma next_run it : iter_ok it ->
  match next it with
  | (None, it') => remaining it = [] /\ it' = it
  | (Some l, it') => remaining it = id l :: remaining it' /\ iter_ok it' /\ skip_main it' = skip_main it /\
      as_u32 (it_current it + 1) < as_u32 (it_current it' + 1) /\ it_current it' = id l
  end.
Proof.
  intros [Hc Hs]. unfold next. pose proof (next_lcore_spec (it_current it) (skip_main it) Hc Hs) as Hn. simpl in Hn.
  set (r := rte_get_next_lcore _ _ 0) in *. set (s := as_u32 (it_current it + 1)) in *. destruct Hn as [Hr Hnone].
  assert (0 <= s) as Hs0 by (unfold s, as_u32; pose proof (wrap_bounds 32 (it_current it + 1)); lia).
  destruct (Z.leb_spec RTE_MAX_LCORE r) as [Hle|Hlt].
  - split; [|done]. unfold remaining. fold s. apply filter_none. intros j Hj. apply Hnone. lia.
  - destruct Hr as [->|[Hr He]]; [lia|]. unfold iter_ok, remaining. simpl. fold s. rewrite (succ_small r) by lia.
    split_and!; try done; try lia.
    replace (RTE_MAX_LCORE - s) with ((r - s) + (RTE_MAX_LCORE - r)) by lia. rewrite seqZ_app by lia.
    rewrite List.filter_app, filter_none by (intros j Hj; apply Hnone; lia).
    replace (s + (r - s)) with r by lia. rewrite seqZ_cons by lia. simpl. rewrite He. do 3 f_equal; lia.
Qed.

Lemma collect_run fuel it : iter_ok it -> RTE_MAX_LCORE - as_u32 (it_current it + 1) < Z.of_nat fuel ->
  collect fuel it = Some (mk_lcore <$> remaining it).
Proof.
  revert it. induction fuel as [|fuel IH]; intros it Hi Hf; [destruct Hi; lia|]. simpl.
  pose proof (next_run it Hi) as Hn. destruct (next it) as [[l|] it'].
  - destruct Hn as (-> & Hi' & _ & Hlt & _). rewrite IH by (done || lia). by destruct l.
  - by destruct Hn as [-> _].
Qed.

Lemma len_run fuel n it : iter_ok it -> RTE_MAX_LCORE - as_u32 (it_current it + 1) < Z.of_nat fuel ->
  len_loop fuel n (it_current it) (skip_main it) = Some (n + length (remaining it))%nat.
Proof.
  revert n it. induction fuel as [|fuel IH]; intros n it Hi Hf; [destruct Hi; lia|]. simpl.
  pose proof (next_run it Hi) as Hn. unfold next in Hn.
  destruct (RTE_MAX_LCORE <=? _).
  - destruct Hn as [-> _]. simpl. by rewrite Nat.add_0_r.
  - destruct Hn as (-> & Hi' & _ & Hlt & _). simpl in Hlt.
    pose proof (IH (S n) _ Hi') as IH'. simpl in IH'. rewrite IH' by lia. simpl. f_equal. lia.
Qed.

Lemma start_ok skip : iter_ok (mk_iter u32_max skip).
Proof.
  split; simpl; [unfold u32_max; lia|]. replace (as_u32 (u32_max + 1)) with 0 by done. lia.
Qed.

(** What iterating over all lcores, or over the workers, yields. *)
Lemma collect_start skip : collect (S (Z.to_nat RTE_MAX_LCORE)) (mk_iter u32_max skip) =
  Some (mk_lcore <$> List.filter (eligible skip) (seqZ 0 RTE_MAX_LCORE)).
Proof.
  rewrite collect_run; [|apply start_ok|].
  - unfold remaining. simpl. replace (as_u32 (u32_max + 1)) with 0 by done. by rewrite Z.sub_0_r.
  - simpl. replace (as_u32 (u32_max + 1)) with 0 by done. lia.
Qed.

(** Iterating over lcores terminates and visits exactly the enabled ones,
    each once, in increasing order ([workers] without the main lcore), and
    [len] of the iterator agrees with what iteration yields at every point of
    it, as [ExactSizeIterator] requires. *)
Theorem lcore_iteration skip it (Hi : iter_ok it) :
  let fuel := S (Z.to_nat RTE_MAX_LCORE) in
  (exists l, collect fuel it = Some l /\ len fuel it = Some (length l)) /\
  collect fuel (mk_iter u32_max skip) =
    Some (mk_lcore <$> List.filter (eligible skip) (seqZ 0 RTE_MAX_LCORE)).
Proof.
  assert (0 <= as_u32 (it_current it + 1)) by (unfold as_u32; pose proof (wrap_bounds 32 (it_current it + 1)); lia).
  split.
  - exists (mk_lcore <$> remaining it). split; [apply collect_run; [done | lia]|].
    unfold len. rewrite len_run by (done || lia). by rewrite length_fmap.
  - apply collect_start.
Qed.

(** The filters of a builder, in the order they are called. *)
Inductive narrowed : LaunchBuilder -> LaunchBuilder -> Prop :=
  | narrow_refl b : narrowed b b
  | narrow_socket b b' socket : narrowed b b' -> narrowed b (b_on_socket socket b')
  | narrow_filter b b' f : narrowed b b' -> narrowed b (b_filter f b')
  | narrow_take b b' n : narrowed b b' -> narrowed b (b_take n b').

Lemma filter_sublist {A} (f : A -> bool) (l : list A) : List.filter f l `sublist_of` l.
Proof. induction l as [|x l IH]; simpl; [constructor|]. destruct (f x); by constructor. Qed.

Lemma narrowed_sublist b b' : narrowed b b' -> lcores b' `sublist_of` lcores b.
Proof.
  induction 1 as [b|b b' socket _ IH|b b' f _ IH|b b' n _ IH]; [done|..]; (etrans; [|exact IH]); simpl.
  - apply filter_sublist.
  - apply filter_sublist.
  - apply sublist_take.
Qed.

(** A builder that starts from the workers or from all lcores, narrowed in any
    way, targets distinct enabled lcores in increasing order, and never the
    main lcore if it started from the workers: the lcores that [run] needs. *)
Theorem builder_targets skip b b' (Hb : mk_launch <$> collect (S (Z.to_nat RTE_MAX_LCORE)) (mk_iter u32_max skip) = Some b) (Hn : narrowed b b') :
  NoDup (id <$> lcores b') /\ Forall (fun l => eligible skip (id l) = true) (lcores b') /\
  (id <$> lcores b') `sublist_of` seqZ 0 RTE_MAX_LCORE.
Proof.
  rewrite collect_start in Hb. injection Hb as <-. apply narrowed_sublist in Hn. simpl in Hn.
  assert ((id <$> lcores b') `sublist_of` List.filter (eligible skip) (seqZ 0 RTE_MAX_LCORE)) as Hs.
  { apply (fmap_sublist id) in Hn. by rewrite <- list_fmap_compose, list_fmap_id in Hn. }
  assert ((id <$> lcores b') `sublist_of` seqZ 0 RTE_MAX_LCORE) as Hq by (etrans; [exact Hs | apply filter_sublist]).
  split_and!; [| |done].
  2:{ apply Forall_forall. intros l Hl. apply (list_elem_of_fmap_2 id) in Hl. apply (elem_of_sublist _ _ _ Hl) in Hs. by apply list_elem_of_In, List.filter_In in Hs as [_ ?]. }
  eapply sublist_NoDup; [apply NoDup_seqZ|exact Hq].
Qed.

End Iter.

(** ** Launching *)

Section Launch.
Context {st : Type}.
Variable rte_eal_remote_launch : (unit -> Z) -> Z -> st -> Z * st.
Variable rte_eal_wait_lcore : Z -> st -> Z * st.
Variable rte_eal_get_lcore_state : Z -> st -> Z.
(** How many of the closures handed to the EAL have not been run to their end. *)
Variable outstanding : st -> Z.

(** The heap boxes of closures that were leaked to the EAL, next to its
    state. *)
Record lc := mk_lc { boxes : Z; eal : st }.

Definition lcore_state (l : Lcore) (s : lc) : State := State_from (rte_eal_get_lcore_state (id l) (eal s)).
Definition is_available (l : Lcore) (s : lc) : bool := bool_decide (lcore_state l s = Wait).

(** [Lcore::launch]: the closure is boxed, and freed again on failure; on
    success the trampoline frees it when the lcore runs it. *)
Definition launch (l : Lcore) (f : unit -> Z) (s : lc) : Result unit Z * lc :=
  let boxes1 := boxes s + 1 in
  let '(r, e) := rte_eal_remote_launch f (id l) (eal s) in
  if r =? 0 then (Ok tt, mk_lc boxes1 e) else (Err r, mk_lc (boxes1 - 1) e).

(** [Lcore::wait]: what the lcore was running has ended, and with it its box was
    freed; nothing is freed if it was idle. *)
Definition wait (l : Lcore) (s : lc) : Z * lc :=
  let '(r, e) := rte_eal_wait_lcore (id l) (eal s) in (r, mk_lc (boxes s - (outstanding (eal s) - outstanding e)) e).

(** [Lcore::run] *)
Definition run (l : Lcore) (f : unit -> Z) (s : lc) : Result Z Z * lc :=
  match launch l f s with
  | (Err e, s) => (Err e, s)
  | (Ok _, s) => let '(r, s) := wait l s in (Ok r, s)
  end.

(** The loop of [LaunchBuilder::launch] and [launch_on_workers]. *)
Fixpoint launch_on (ls : list Lcore) (f : Lcore -> Z) (s : lc) : Result unit Z * lc :=
  match ls with
  | [] => (Ok tt, s)
  | l :: ls =>
      match launch l (fun _ => f l) s with
      | (Err e, s) => (Err e, s)
      | (Ok _, s) => launch_on ls f s
      end
  end.

(** [LaunchHandle] *)
Fixpoint handle_wait (ls : list Lcore) (s : lc) : list (Lcore * Z) * lc :=
  match ls with
  | [] => ([], s)
  | l :: ls =>
      let '(r, s) := wait l s in
      let '(rest, s) := handle_wait ls s in ((l, r) :: rest, s)
  end.

Definition is_done (ls : list Lcore) (s : lc) : bool :=
  forallb (fun l => negb (bool_decide (lcore_state l s = Running))) ls.

(** [Lcore::wait_all_workers]: [rte_eal_mp_wait_lcore] waits for each worker, and
    the closures still outstanding there have been run and freed. *)
Variable rte_eal_mp_wait_lcore : st -> st.
Definition wait_all_workers (s : lc) : lc :=
  let e := rte_eal_mp_wait_lcore (eal s) in mk_lc (boxes s - (outstanding (eal s) - outstanding e)) e.

(** [Lcore::launch_on_workers]: the loop over [Self::workers()]. *)
Definition launch_on_workers (RTE_MAX_LCORE : Z) (rte_get_next_lcore : Z -> Z -> Z -> Z) (fuel : nat) (f : Lcore -> Z) (s : lc)
    : option (Result unit Z * lc) :=
  (fun ls => launch_on ls f s) <$> collect RTE_MAX_LCORE rte_get_next_lcore fuel workers.

(** [LaunchBuilder::run] *)
Definition builder_run (ls : list Lcore) (f : Lcore -> Z) (s : lc) : Result (list (Lcore * Z)) Z * lc :=
  match launch_on ls f s with
  | (Err e, s) => (Err e, s)
  | (Ok _, s) => let '(rs, s) := handle_wait ls s in (Ok rs, s)
  end.

(** What each lcore was given and has not been waited for. *)
Variable given : st -> gmap Z (unit -> Z).
Hypothesis launch_ok : forall f i e r e', rte_eal_remote_launch f i e = (r, e') ->
  given e' = if r =? 0 then <[i := f]> (given e) else given e.
Hypothesis wait_result : forall i f e r e', given e !! i = Some f -> rte_eal_wait_lcore i e = (r, e') ->
  r = f tt /\ given e' = delete i (given e).
Hypothesis outstanding_spec : forall e, outstanding e = Z.of_nat (size (given e)).

(** The closures given to the lcores [ls], in this order. *)
Definition give (ls : list Lcore) (f : Lcore -> Z) (m : gmap Z (unit -> Z)) : gmap Z (unit -> Z) :=
  fold_left (fun m l => <[id l := fun _ => f l]> m) ls m.

Lemma launch_run l f s :
  match launch l f s with
  | (Ok _, s') => given (eal s') = <[id l := f]> (given (eal s)) /\ boxes s' = boxes s + 1
  | (Err e, s') => e <> 0 /\ given (eal s') = given (eal s) /\ boxes s' = boxes s
  end.
Proof.
  unfold launch. destruct (rte_eal_remote_launch f (id l) (eal s)) as [r e] eqn:E.
  pose proof (launch_ok _ _ _ _ _ E) as Hg. destruct (Z.eqb_spec r 0); simpl; [done|]. split_and!; [done | done | lia].
Qed.

Lemma launch_on_run ls f s :
  exists k, (k <= length ls)%nat /\ given (eal (launch_on ls f s).2) = give (take k ls) f (given (eal s)) /\
    boxes (launch_on ls f s).2 = boxes s + Z.of_nat k /\
    match (launch_on ls f s).1 with Ok _ => k = length ls | Err e => (k < length ls)%nat /\ e <> 0 end.
Proof.
  revert s. induction ls as [|l ls IH]; intros s; simpl; [exists 0%nat; split_and!; done || lia|].
  pose proof (launch_run l (fun _ => f l) s) as Hl. destruct (launch l _ s) as [[[]|e] s1].
  - destruct Hl as [Hg Hb]. destruct (IH s1) as (k & Hk & Hgk & Hbk & Hr). exists (S k).
    split_and!; [simpl; lia | by rewrite Hgk, Hg | lia |]. destruct (launch_on ls f s1).1; [lia|]. destruct Hr. split; [lia | done].
  - destruct Hl as (He & Hg & Hb). exists 0%nat. split_and!; simpl; done || lia.
Qed.

Lemma give_app ls1 l ls2 f m : give (ls1 ++ l :: ls2) f m = give ls2 f (<[id l := fun _ => f l]> (give ls1 f m)).
Proof. unfold give. by rewrite fold_left_app. Qed.

Lemma give_notin ls f m i : (forall l, l ∈ ls -> id l <> i) -> give ls f m !! i = m !! i.
Proof.
  revert m. induction ls as [|l ls IH]; intros m Hi; simpl; [done|].
  unfold give in *. simpl. rewrite IH.
  - apply lookup_insert_ne, Hi. by left.
  - intros l' Hl'. apply Hi. by right.
Qed.

Lemma give_lookup ls f m l : NoDup (id <$> ls) -> l ∈ ls -> give ls f m !! id l = Some (fun _ => f l).
Proof.
  intros Hnd (l1 & l2 & ->)%list_elem_of_split. rewrite give_app, give_notin; [apply lookup_insert_eq|].
  rewrite fmap_app, fmap_cons, NoDup_app in Hnd. destruct Hnd as (_ & _ & Hnd). apply NoDup_cons in Hnd as [Hni _].
  intros l' Hl' Heq. apply Hni. rewrite <- Heq. by apply list_elem_of_fmap_2.
Qed.

Lemma handle_wait_run ls f s : NoDup (id <$> ls) -> (forall l, l ∈ ls -> given (eal s) !! id l = Some (fun _ => f l)) ->
  (handle_wait ls s).1 = (fun l => (l, f l)) <$> ls /\ boxes (handle_wait ls s).2 = boxes s - zlen ls.
Proof.
  revert s. induction ls as [|l ls IH]; intros s Hnd Hg; simpl; [split; [done | unfold zlen; simpl; lia]|].
  apply NoDup_cons in Hnd as [Hni Hnd]. unfold wait.
  destruct (rte_eal_wait_lcore (id l) (eal s)) as [r e] eqn:E.
  destruct (wait_result _ _ _ _ _ (Hg l ltac:(by left)) E) as [-> He].
  assert (outstanding (eal s) - outstanding e = 1) as ->.
  { pose proof (Hg l ltac:(by left)) as Hl. rewrite !outstanding_spec, He, <- (insert_delete_id _ _ _ Hl) at 1.
    rewrite map_size_insert_None by apply lookup_delete_eq. lia. }
  destruct (IH (mk_lc (boxes s - 1) e)) as [Hr Hb]; [done| |].
  { intros l' Hl'. simpl. rewrite He, lookup_delete_ne; [apply Hg; by right|]. intros Heq. apply Hni.
    rewrite Heq. by apply list_elem_of_fmap_2. }
  destruct (handle_wait ls _) as [rs s']. simpl in *. subst. split; [done|]. rewrite zlen_cons. lia.
Qed.

(** [LaunchBuilder::launch] leaks no closure and double-frees none: after
    a failure at some lcore exactly the lcores before it were given their
    closure and the number of outstanding boxes is theirs; after success all
    were. *)
Theorem launch_prefix ls f s :
  exists k, (k <= length ls)%nat /\ given (eal (launch_on ls f s).2) = give (take k ls) f (given (eal s)) /\
    boxes (launch_on ls f s).2 = boxes s + Z.of_nat k /\
    match (launch_on ls f s).1 with Ok _ => k = length ls | Err e => (k < length ls)%nat /\ e <> 0 end.
Proof. apply launch_on_run. Qed.

(** [LaunchBuilder::run] on distinct lcores returns, when all launches
    succeed, each lcore with the value its own closure returned, in the order
    of the lcores, and every box has been freed. *)
Theorem builder_run_results ls f s rs s' (Hnd : NoDup (id <$> ls)) (Hr : builder_run ls f s = (Ok rs, s')) :
  rs = (fun l => (l, f l)) <$> ls /\ boxes s' = boxes s.
Proof.
  unfold builder_run in Hr. destruct (launch_on_run ls f s) as (k & _ & Hg & Hb & Hk).
  destruct (launch_on ls f s) as [[[]|e] s1]; [|done]. simpl in *. subst k.
  rewrite take_ge in Hg by lia.
  destruct (handle_wait_run ls f s1 Hnd) as [Hrs Hbs].
  { intros l Hl. rewrite Hg. by apply give_lookup. }
  destruct (handle_wait ls s1) as [rs' s2]. simpl in *. simplify_eq. split; [done|]. unfold zlen in Hbs. lia.
Qed.

(** The lcores of the machine, and what waiting for all workers does. *)
Variable RTE_MAX_LCORE : Z.
Variable rte_lcore_is_enabled : Z -> bool.
Variable main_lcore : Z.
Variable rte_get_next_lcore : Z -> Z -> Z -> Z.
Hypothesis max_u32 : 0 <= RTE_MAX_LCORE < u32_max.
Hypothesis next_lcore_spec : forall i skip, 0 <= i <= u32_max ->
  let r := rte_get_next_lcore i (if skip : bool then 1 else 0) 0 in
  as_u32 (i + 1) <= RTE_MAX_LCORE ->
  (r = RTE_MAX_LCORE \/ (as_u32 (i + 1) <= r < RTE_MAX_LCORE /\ eligible rte_lcore_is_enabled main_lcore skip r = true)) /\
  (forall j, as_u32 (i + 1) <= j < r -> eligible rte_lcore_is_enabled main_lcore skip j = false).
Hypothesis mp_wait_spec : forall e i, given (rte_eal_mp_wait_lcore e) !! i =
  if bool_decide (0 <= i < RTE_MAX_LCORE) && eligible rte_lcore_is_enabled main_lcore true i then None else given e !! i.

Lemma give_in ls f m i x : give ls f m !! i = Some x -> m !! i = Some x \/ exists l, l ∈ ls /\ id l = i.
Proof.
  destruct (decide (i ∈ id <$> ls)) as [Hin|Hni].
  - intros _. right. apply list_elem_of_fmap in Hin as (l & -> & Hl). by exists l.
  - rewrite give_notin; [by left|]. intros l Hl Heq. apply Hni. rewrite <- Heq. by apply list_elem_of_fmap_2.
Qed.

Lemma give_size ls f m : NoDup (id <$> ls) -> (forall l, l ∈ ls -> m !! id l = None) -> size (give ls f m) = (size m + length ls)%nat.
Proof.
  revert m. induction ls as [|l ls IH]; intros m Hnd Hm; [simpl; lia|]. apply NoDup_cons in Hnd as [Hni Hnd].
  unfold give in *. simpl. rewrite IH; [|done|].
  - rewrite map_size_insert_None by (apply Hm; by left). lia.
  - intros l' Hl'. rewrite lookup_insert_ne; [apply Hm; by right|]. intros Heq. apply Hni. rewrite Heq. by apply list_elem_of_fmap_2.
Qed.


End Launch.

(** ** A machine with lcores 0, 2 and 3 of 8, main lcore 0 *)

Definition ref_enabled (i : Z) : bool := (i =? 0) || (i =? 2) || (i =? 3).
Definition ref_next (i skip wrap : Z) : Z :=
  let s := as_u32 (i + 1) in
  default 8 (List.find (eligible ref_enabled 0 (skip =? 1)) (seqZ s (8 - s))).

Lemma find_first (f : Z -> bool) s n : 0 <= n ->
  match List.find f (seqZ s n) with
  | Some r => s <= r < s + n /\ f r = true /\ forall j, s <= j < r -> f j = false
  | None => forall j, s <= j < s + n -> f j = false
  end.
Proof.
  intros Hn. revert s. pattern n. apply natlike_ind; [|clear n Hn; intros n Hn IH s|done].
  { intros s. rewrite seqZ_nil by lia. simpl. lia. }
  rewrite seqZ_cons by lia. rewrite Z.pred_succ. simpl. specialize (IH (Z.succ s)). destruct (f s) eqn:E.
  - split_and!; [lia | lia | done | lia].
  - assert (forall j, s <= j -> Z.succ s <= j \/ j = s) as Hj by lia.
    destruct (List.find f (seqZ (Z.succ s) n)) as [r|].
    + destruct IH as (? & ? & Hr). split_and!; [lia | lia | done |]. intros j Hjr.
      destruct (Hj j ltac:(lia)) as [?| ->]; [apply Hr; lia | done].
    + intros j Hjr. destruct (Hj j ltac:(lia)) as [?| ->]; [apply IH; lia | done].
Qed.

Lemma ref_next_spec i skip : 0 <= i <= u32_max ->
  let r := ref_next i (if skip : bool then 1 else 0) 0 in
  as_u32 (i + 1) <= 8 ->
  (r = 8 \/ (as_u32 (i + 1) <= r < 8 /\ eligible ref_enabled 0 skip r = true)) /\
  (forall j, as_u32 (i + 1) <= j < r -> eligible ref_enabled 0 skip j = false).
Proof.
  intros _ r Hs. unfold r, ref_next. replace ((if skip then 1 else 0) =? 1) with skip by by destruct skip.
  set (s := as_u32 (i + 1)) in *. pose proof (find_first (eligible ref_enabled 0 skip) s (8 - s) ltac:(lia)) as Hf.
  destruct (List.find _ _) as [x|]; simpl.
  - destruct Hf as (? & ? & ?). split; [right; split; [lia | done] | done].
  - split; [by left|]. intros j Hj. apply Hf. lia.
Qed.

Lemma lcore_iteration_witness :
  collect 8 ref_next 9 workers = Some (mk_lcore <$> [2; 3]) /\
  len 8 ref_next 9 (mk_iter 2 false) = Some 1%nat.
Proof.
  destruct (lcore_iteration 8 ref_enabled 0 ref_next ltac:(unfold u32_max; lia) ref_next_spec true (mk_iter 2 false))
    as [(l & El & Hl) Hw].
  - split; [simpl; unfold u32_max; lia | vm_compute; discriminate].
  - split; [exact Hw|]. vm_compute in El. injection El as <-. exact Hl.
Defined.

(** An EAL that remembers what each lcore runs. *)
Definition ref_launch (f : unit -> Z) (i : Z) (e : gmap Z (unit -> Z)) : Z * gmap Z (unit -> Z) :=
  match e !! i with Some _ => (-16, e) | None => (0, <[i := f]> e) end.
Definition ref_wait (i : Z) (e : gmap Z (unit -> Z)) : Z * gmap Z (unit -> Z) :=
  match e !! i with Some f => (f tt, delete i e) | None => (0, e) end.

Lemma ref_launch_ok f i e r e' : ref_launch f i e = (r, e') -> e' = if r =? 0 then <[i := f]> e else e.
Proof. unfold ref_launch. case_match; intros; by simplify_eq/=. Qed.

Lemma ref_wait_result i f e r e' : e !! i = Some f -> ref_wait i e = (r, e') -> r = f tt /\ e' = delete i e.
Proof. unfold ref_wait. intros ->. intros; by simplify_eq/=. Qed.

Lemma launch_prefix_witness :
  let s := mk_lc 0 (<[3 := fun _ : unit => 7]> ∅) in
  exists k, (k < 3)%nat /\ boxes (launch_on ref_launch (mk_lcore <$> [1; 2; 3]) id s).2 = Z.of_nat k.
Proof.
  intros s. destruct (launch_prefix ref_launch (fun e => e) ref_launch_ok (mk_lcore <$> [1; 2; 3]) id s)
    as (k & _ & _ & Hb & Hk).
  exists k. assert (exists e, (launch_on ref_launch (mk_lcore <$> [1; 2; 3]) id s).1 = Err e) as [e Ee] by (eexists; reflexivity).
  rewrite Ee in Hk. split; [apply Hk | exact Hb].
Defined.

Lemma builder_run_results_witness :
  exists s', builder_run ref_launch ref_wait (fun e => Z.of_nat (size e)) (mk_lcore <$> [1; 2]) (fun l => id l * 10) (mk_lc 0 ∅) =
    (Ok [(mk_lcore 1, 10); (mk_lcore 2, 20)], s') /\ boxes s' = 0.
Proof.
  eexists. split; [reflexivity|].
  eapply (builder_run_results ref_launch ref_wait (fun e => Z.of_nat (size e)) (fun e => e) ref_launch_ok ref_wait_result (fun _ => eq_refl)
    (mk_lcore <$> [1; 2]) (fun l => id l * 10) (mk_lc 0 ∅)); [|reflexivity].
  apply NoDup_ListNoDup. repeat constructor; simpl; lia.
Defined.

(** Waiting for lcores 2 and 3. *)
Definition ref_mp_wait (e : gmap Z (unit -> Z)) : gmap Z (unit -> Z) := delete 2 (delete 3 e).

Lemma ref_mp_wait_spec e i : ref_mp_wait e !! i =
  if bool_decide (0 <= i < 8) && eligible ref_enabled 0 true i then None else e !! i.
Proof.
  unfold ref_mp_wait. destruct (decide (i = 2)) as [->|H2]; [by rewrite lookup_delete_eq|]. rewrite lookup_delete_ne by done.
  destruct (decide (i = 3)) as [->|H3]; [by rewrite lookup_delete_eq|]. rewrite lookup_delete_ne by done.
  unfold eligible, ref_enabled. rewrite (proj2 (Z.eqb_neq i 2)), (proj2 (Z.eqb_neq i 3)) by done.
  destruct (Z.eqb_spec i 0); by rewrite andb_comm.
Qed.


End Lcore.
