(* ===== verification/Channel.v ===== *)
(** * What the bridge uses of tokio's channels

    tokio is a library outside this repository.  [Channels] lists the bounded
    [mpsc] channel and the [oneshot] channel the bridge uses; [ChannelsLaws]
    is their documented behaviour: items are received in the order sent and
    none is lost, a full channel refuses, the receiver sees the end only when
    the queue is empty and the senders are gone, a [oneshot] receiver is woken
    by a value and also by the drop of the sender.  A list implementation
    instantiates the laws. *)

From stdpp Require Import base list.
From Stdlib Require Import ZArith Lia.
From S2P Require Import Prelude.

Inductive send_res (C : Type) := Sent (c : C) | Full | SendClosed.
Inductive recv_res (A C : Type) := Item (a : A) (c : C) | Empty | Disconnected.
Arguments Sent {C} c.
Arguments Full {C}.
Arguments SendClosed {C}.
Arguments Item {A C} a c.
Arguments Empty {A C}.
Arguments Disconnected {A C}.

Class Channels := {
  chan : Type -> Type;
  ch_new : forall {A}, nat -> chan A;
  ch_queue : forall {A}, chan A -> list A;
  ch_rx_alive : forall {A}, chan A -> bool;
  ch_tx_alive : forall {A}, chan A -> bool;
  ch_send : forall {A}, A -> chan A -> send_res (chan A);
  ch_recv : forall {A}, chan A -> recv_res A (chan A);
  ch_drop_tx : forall {A}, chan A -> chan A;
  ch_drop_rx : forall {A}, chan A -> chan A;
  oneshot : Type;
  os_new : oneshot;
  os_send : oneshot -> oneshot;
  os_drop : oneshot -> oneshot;
  os_ready : oneshot -> bool
}.

Class ChannelsLaws `{Channels} : Prop := {
  new_queue : forall A n, ch_queue (ch_new (A := A) n) = [] /\ ch_rx_alive (ch_new (A := A) n) = true /\
    ch_tx_alive (ch_new (A := A) n) = true;
  send_sent : forall A (a : A) c c', ch_send a c = Sent c' ->
    ch_queue c' = ch_queue c ++ [a] /\ ch_rx_alive c = true /\ ch_rx_alive c' = true /\ ch_tx_alive c' = ch_tx_alive c;
  send_closed : forall A (a : A) c, ch_rx_alive c = false <-> ch_send a c = SendClosed;
  send_full : forall A (a : A) c, ch_send a c = Full -> ch_queue c <> [] ;
  recv_item : forall A (a : A) c c', ch_recv c = Item a c' ->
    ch_queue c = a :: ch_queue c' /\ ch_rx_alive c' = ch_rx_alive c /\ ch_tx_alive c' = ch_tx_alive c;
  recv_empty : forall A (c : chan A), ch_queue c = [] <->
    (ch_recv c = Empty \/ ch_recv c = Disconnected);
  recv_disc : forall A (c : chan A), ch_recv c = Disconnected <-> ch_queue c = [] /\ ch_tx_alive c = false;
  drop_tx_spec : forall A (c : chan A), ch_queue (ch_drop_tx c) = ch_queue c /\ ch_tx_alive (ch_drop_tx c) = false /\
    ch_rx_alive (ch_drop_tx c) = ch_rx_alive c;
  drop_rx_spec : forall A (c : chan A), ch_rx_alive (ch_drop_rx c) = false /\ ch_queue (ch_drop_rx c) = [] /\
    ch_tx_alive (ch_drop_rx c) = ch_tx_alive c;
  os_new_ready : os_ready os_new = false;
  os_send_ready : forall o, os_ready (os_send o) = true;
  os_drop_ready : forall o, os_ready (os_drop o) = true
}.

Module RefChannel.

Record rchan (A : Type) := mk_rchan { rc_queue : list A; rc_cap : nat; rc_rx : bool; rc_tx : bool }.
Arguments mk_rchan {A}.
Arguments rc_queue {A}.
Arguments rc_cap {A}.
Arguments rc_rx {A}.
Arguments rc_tx {A}.

(** tokio panics on a capacity of 0; here it counts as 1. *)
#[export] Instance ref_channels : Channels := {|
  chan := rchan;
  ch_new A n := mk_rchan [] (Nat.max 1 n) true true;
  ch_queue A c := rc_queue c;
  ch_rx_alive A c := rc_rx c;
  ch_tx_alive A c := rc_tx c;
  ch_send A a c :=
    if rc_rx c then
      if (length (rc_queue c) <? Nat.max 1 (rc_cap c))%nat
      then Sent (mk_rchan (rc_queue c ++ [a]) (rc_cap c) true (rc_tx c)) else Full
    else SendClosed;
  ch_recv A c :=
    match rc_queue c with
    | a :: q => Item a (mk_rchan q (rc_cap c) (rc_rx c) (rc_tx c))
    | [] => if rc_tx c then Empty else Disconnected
    end;
  ch_drop_tx A c := mk_rchan (rc_queue c) (rc_cap c) (rc_rx c) false;
  ch_drop_rx A c := mk_rchan [] (rc_cap c) false (rc_tx c);
  oneshot := bool;
  os_new := false;
  os_send _ := true;
  os_drop _ := true;
  os_ready o := o
|}.

#[export] Instance ref_channels_laws : ChannelsLaws.
Proof.
  split; simpl; try done.
  - intros A a c c'. destruct (rc_rx c) eqn:E; [|done]. case_match; [|done]. by intros [= <-].
  - intros A a c. destruct (rc_rx c); [|done]. split; [done|]. by case_match.
  - intros A a c. destruct (rc_rx c); [|done]. destruct (Nat.ltb_spec (length (rc_queue c)) (Nat.max 1 (rc_cap c))); [done|].
    intros _ E. rewrite E in *. simpl in *. lia.
  - intros A a c c'. destruct (rc_queue c); [by destruct (rc_tx c)|]. by intros [= <- <-].
  - intros A c. destruct (rc_queue c), (rc_tx c); intuition discriminate.
  - intros A c. destruct (rc_queue c), (rc_tx c); intuition discriminate.
Qed.

End RefChannel.
