(* ===== verification/BridgeTcp.v ===== *)
(** * TCP over the thread bridge
      ([dpdk-net-util/src/bridge/{error,stream,listener}.rs], [relay_task] of [worker.rs])

    [BridgeTcpStream] on an OS thread and [relay_task] on the lcore that owns
    the DPDK stream exchange chunks over two channels and a close signal.  The
    stream's methods are functions; the relay is a step relation, one step per
    resolved branch of its [select!] or completed await, because [select!]
    chooses among the ready branches.  The DPDK stream is seen through what it
    promises: it delivers non-empty chunks in order, accepts a prefix of what
    it is given, or fails. *)

From stdpp Require Import base list relations.
From Stdlib Require Import ZArith Strings.Byte Lia.
From S2P Require Import Prelude Smoltcp Channel.

(** [std::io::ErrorKind], as far as the bridge uses it. *)
Inductive IoKind := BrokenPipe | ConnectionRefused | AddrInUse | NotConnectedKind | ConnectionReset | WouldBlock | Unsupported | OtherKind.
#[export] Instance IoKind_eq_dec : EqDecision IoKind.
Proof. solve_decision. Defined.

(** [BridgeError] *)
Inductive BridgeError :=
  | BDisconnected
  | BConnectionFailed
  | BIo (k : IoKind)
  | BConnect (e : ConnectError)
  | BListen (e : ListenError)
  | BUdpBind (e : BindError).

Module BridgeTcp.

(** [impl From<BridgeError> for io::Error] *)
Definition io_of_bridge (e : BridgeError) : IoKind :=
  match e with
  | BIo k => k
  | BDisconnected => BrokenPipe
  | BConnectionFailed => ConnectionRefused
  | BConnect _ => ConnectionRefused
  | BListen _ => AddrInUse
  | BUdpBind _ => AddrInUse
  end.

Abbreviation bytes := (list byte).
Abbreviation msg := (Result (list byte) BridgeError).

Section Model.
Context `{Channels}.

(** The shared halves: OS to lcore, lcore to OS, close signal. *)
Record Conn := mk_conn { to_lcore : chan bytes; to_os : chan msg; close_sig : oneshot }.

(** The OS thread's own fields: [read_buf] and whether [close_tx] is still
    there. *)
Record BridgeTcpStream := mk_bstream { read_buf : bytes; close_tx : bool }.

Definition DATA_CHANNEL_SIZE : nat := 256.
Definition new_conn : Conn := mk_conn (ch_new DATA_CHANNEL_SIZE) (ch_new DATA_CHANNEL_SIZE) os_new.
Definition new_stream : BridgeTcpStream := mk_bstream [] true.

(** [AsyncRead::poll_read] into a buffer of [n] bytes. *)
Definition poll_read (n : nat) (s : BridgeTcpStream) (c : Conn) : Poll (Result bytes IoKind) * BridgeTcpStream * Conn :=
  match read_buf s with
  | _ :: _ => (Ready (Ok (take n (read_buf s))), mk_bstream (drop n (read_buf s)) (close_tx s), c)
  | [] =>
      match ch_recv (to_os c) with
      | Item (Ok chunk) q =>
          let c := mk_conn (to_lcore c) q (close_sig c) in
          match chunk with
          | [] => (Ready (Ok []), s, c)
          | _ => (Ready (Ok (take n chunk)), mk_bstream (drop n chunk) (close_tx s), c)
          end
      | Item (Err e) q => (Ready (Err (io_of_bridge e)), s, mk_conn (to_lcore c) q (close_sig c))
      | Disconnected => (Ready (Ok []), s, c)
      | Empty => (Pending, s, c)
      end
  end.

(** [AsyncWrite::poll_write]: the slot is reserved and used in one call. *)
Definition poll_write (buf : bytes) (c : Conn) : Poll (Result nat IoKind) * Conn :=
  match ch_send buf (to_lcore c) with
  | Sent q => (Ready (Ok (length buf)), mk_conn q (to_os c) (close_sig c))
  | SendClosed => (Ready (Err BrokenPipe), c)
  | Full => (Pending, c)
  end.

(** [AsyncWrite::poll_flush] and [poll_close] *)
Definition poll_flush : Poll (Result unit IoKind) := Ready (Ok tt).
Definition poll_close (s : BridgeTcpStream) (c : Conn) : Poll (Result unit IoKind) * BridgeTcpStream * Conn :=
  if close_tx s
  then (Ready (Ok tt), mk_bstream (read_buf s) false, mk_conn (to_lcore c) (to_os c) (os_send (close_sig c)))
  else (Ready (Ok tt), s, c).

(** Dropping the stream drops its channel halves and [close_tx]. *)
Definition drop_bstream (s : BridgeTcpStream) (c : Conn) : Conn :=
  mk_conn (ch_drop_tx (to_lcore c)) (ch_drop_rx (to_os c)) (if close_tx s then os_drop (close_sig c) else close_sig c).

(** [BridgeTcpListener::accept], given what [accept_rx.recv()] yields. *)
Definition listener_accept {S} (r : option (Result S BridgeError)) : Result S BridgeError :=
  match r with Some x => x | None => Err BDisconnected end.

(** ** [relay_task] *)

(** Where the relay is: at its [select!]; in [tx_to_os.send(m)], [last] when a
    [break] follows; in [stream.send(..)] with [rest] not yet accepted; in
    [stream.close()]; or returned. *)
Inductive relay_pc :=
  | RSelect
  | RToOs (m : msg) (last : bool)
  | RToNet (rest : bytes)
  | RClosing
  | RDone.

(** The whole connection, with the history of both ends: bytes that came out
    of and went into the DPDK stream, and bytes the OS thread has read and has
    written with success. *)
Record sys := mk_sys {
  pc : relay_pc;
  conn : Conn;
  os : option BridgeTcpStream;
  net_in : bytes;
  net_out : bytes;
  os_read : bytes;
  os_written : bytes
}.

Definition init : sys := mk_sys RSelect new_conn (Some new_stream) [] [] [] [].

Definition with_pc (s : sys) (p : relay_pc) : sys :=
  mk_sys p (conn s) (os s) (net_in s) (net_out s) (os_read s) (os_written s).

(** Returning from the relay drops its halves. *)
Definition finish (s : sys) : sys :=
  mk_sys RDone (mk_conn (ch_drop_rx (to_lcore (conn s))) (ch_drop_tx (to_os (conn s))) (close_sig (conn s)))
    (os s) (net_in s) (net_out s) (os_read s) (os_written s).

Definition RECV_BUF : Z := 65536.

Inductive relay_step : sys -> sys -> Prop :=
  (* [stream.recv] resolves *)
  | rs_recv s bs : pc s = RSelect -> bs <> [] -> (zlen bs <= RECV_BUF)%Z ->
      relay_step s (mk_sys (RToOs (Ok bs) false) (conn s) (os s) (net_in s ++ bs) (net_out s) (os_read s) (os_written s))
  | rs_eof s : pc s = RSelect -> relay_step s (with_pc s (RToOs (Ok []) true))
  | rs_recv_err s k : pc s = RSelect -> relay_step s (with_pc s (RToOs (Err (BIo k)) true))
  (* [rx_from_os.recv] resolves *)
  | rs_data s b q : pc s = RSelect -> ch_recv (to_lcore (conn s)) = Item b q ->
      relay_step s (mk_sys (RToNet b) (mk_conn q (to_os (conn s)) (close_sig (conn s))) (os s) (net_in s) (net_out s)
                      (os_read s) (os_written s))
  | rs_none s : pc s = RSelect -> ch_recv (to_lcore (conn s)) = Disconnected -> relay_step s (finish s)
  (* [close_rx] resolves *)
  | rs_close s : pc s = RSelect -> os_ready (close_sig (conn s)) = true -> relay_step s (with_pc s RClosing)
  | rs_closed s : pc s = RClosing -> relay_step s (finish s)
  (* [tx_to_os.send] completes *)
  | rs_sent s m last q : pc s = RToOs m last -> ch_send m (to_os (conn s)) = Sent q ->
      let s' := mk_sys RSelect (mk_conn (to_lcore (conn s)) q (close_sig (conn s))) (os s) (net_in s) (net_out s)
                  (os_read s) (os_written s) in
      relay_step s (if last then finish s' else s')
  | rs_send_closed s m last : pc s = RToOs m last -> ch_send m (to_os (conn s)) = SendClosed -> relay_step s (finish s)
  (* [stream.send] makes progress, completes, fails *)
  | rs_accept s rest n : pc s = RToNet rest -> 1 <= n <= length rest ->
      relay_step s (mk_sys (RToNet (drop n rest)) (conn s) (os s) (net_in s) (net_out s ++ take n rest)
                      (os_read s) (os_written s))
  | rs_send_done s : pc s = RToNet [] -> relay_step s (with_pc s RSelect)
  | rs_send_err s rest k : pc s = RToNet rest -> relay_step s (with_pc s (RToOs (Err (BIo k)) true)).

(** The OS thread uses, closes or drops its stream. *)
Inductive os_step : sys -> sys -> Prop :=
  | os_reads s b n r b' c : os s = Some b -> poll_read n b (conn s) = (r, b', c) ->
      os_step s (mk_sys (pc s) c (Some b') (net_in s) (net_out s)
                   (os_read s ++ match r with Ready (Ok bs) => bs | _ => [] end) (os_written s))
  | os_writes s b buf r c : os s = Some b -> poll_write buf (conn s) = (r, c) ->
      os_step s (mk_sys (pc s) c (Some b) (net_in s) (net_out s) (os_read s)
                   (os_written s ++ match r with Ready (Ok _) => buf | _ => [] end))
  | os_closes s b r b' c : os s = Some b -> poll_close b (conn s) = (r, b', c) ->
      os_step s (mk_sys (pc s) c (Some b') (net_in s) (net_out s) (os_read s) (os_written s))
  | os_drops s b : os s = Some b ->
      os_step s (mk_sys (pc s) (drop_bstream b (conn s)) None (net_in s) (net_out s) (os_read s) (os_written s)).

Definition step (s s' : sys) : Prop := relay_step s s' \/ os_step s s'.
Definition reachable (s : sys) : Prop := rtc step init s.

(** ** Invariant *)

Definition chunk_of (m : msg) : bytes := match m with Ok b => b | Err _ => [] end.
Definition flat (l : list msg) : bytes := concat (chunk_of <$> l).

(** What is on its way to the OS thread and to the network. *)
Definition pend_os (p : relay_pc) : bytes := match p with RToOs m _ => chunk_of m | _ => [] end.
Definition pend_net (p : relay_pc) : bytes := match p with RToNet r => r | _ => [] end.

(** The relay still forwards what the OS thread writes. *)
Definition forwarding (p : relay_pc) : bool :=
  match p with RSelect | RToNet _ | RToOs _ false => true | _ => false end.

(** Messages after which the relay ends. *)
Definition terminal (m : msg) : bool := match m with Ok (_ :: _) => false | _ => true end.

Record inv (s : sys) : Prop := {
  inv_in : match os s with
           | Some b => net_in s = os_read s ++ read_buf b ++ flat (ch_queue (to_os (conn s))) ++ pend_os (pc s)
           | None => os_read s `prefix_of` net_in s
           end;
  inv_out : if forwarding (pc s)
            then os_written s = net_out s ++ pend_net (pc s) ++ concat (ch_queue (to_lcore (conn s)))
            else net_out s `prefix_of` os_written s;
  inv_alive : (os s = None <-> ch_rx_alive (to_os (conn s)) = false) /\
              (pc s = RDone <-> ch_rx_alive (to_lcore (conn s)) = false) /\
              (pc s = RDone <-> ch_tx_alive (to_os (conn s)) = false);
  inv_pend : forall m l, pc s = RToOs m l -> l = terminal m;
  inv_queue : forall i m, ch_queue (to_os (conn s)) !! i = Some m -> terminal m = true ->
              pc s = RDone /\ S i = length (ch_queue (to_os (conn s)))
}.

End Model.

Section Proofs.
Context `{HL : ChannelsLaws}.

Lemma flat_app l k : flat (l ++ k) = flat l ++ flat k.
Proof. unfold flat. by rewrite fmap_app, concat_app. Qed.

Lemma tcp_init_inv : inv init.
Proof.
  unfold init, new_conn. destruct (new_queue bytes DATA_CHANNEL_SIZE) as (Hq1 & Hr1 & Ht1).
  destruct (new_queue msg DATA_CHANNEL_SIZE) as (Hq2 & Hr2 & Ht2).
  split; simpl; rewrite ?Hq1, ?Hq2, ?Hr1, ?Hr2, ?Ht2; try done.
Qed.

(** What the OS thread reads comes off the front of what is in flight. *)
Lemma poll_read_run n b c r b' c' : poll_read n b c = (r, b', c') ->
  let got := match r with Ready (Ok bs) => bs | _ => [] end in
  read_buf b ++ flat (ch_queue (to_os c)) = got ++ read_buf b' ++ flat (ch_queue (to_os c')) /\
  to_lcore c' = to_lcore c /\ ch_rx_alive (to_os c') = ch_rx_alive (to_os c) /\
  ch_tx_alive (to_os c') = ch_tx_alive (to_os c) /\ exists k, ch_queue (to_os c') = drop k (ch_queue (to_os c)).
Proof.
  unfold poll_read. destruct (read_buf b) as [|x rb] eqn:Eb.
  - destruct (ch_recv (to_os c)) as [m q| |] eqn:Er.
    + destruct (recv_item _ _ _ _ Er) as (Hq & Hr & Ht). rewrite Hq.
      destruct m as [[|y chunk]|e]; intros; simplify_eq/=; rewrite ?Eb; (split; [|split_and!; [done..|by exists 1]]).
      * by unfold flat.
      * unfold flat. simpl. rewrite !app_assoc. by rewrite (take_drop n (y :: chunk)).
      * by unfold flat.
    + intros; simplify_eq/=. rewrite Eb. split; [done|]. split_and!; [done..|by exists 0].
    + intros; simplify_eq/=. rewrite Eb. split; [done|]. split_and!; [done..|by exists 0].
  - intros; simplify_eq/=. split; [|split_and!; [done..|by exists 0]]. rewrite app_assoc.
    by rewrite (take_drop n (x :: rb)).
Qed.

Lemma fwd_prefix s : inv s -> net_out s `prefix_of` os_written s.
Proof. intros Hi. pose proof (inv_out _ Hi) as Ho. destruct (forwarding (pc s)); [|done]. rewrite Ho. by eexists. Qed.

Lemma in_prefix s : inv s -> os_read s `prefix_of` net_in s.
Proof. intros Hi. pose proof (inv_in _ Hi) as Ho. destruct (os s); [|done]. rewrite Ho. by eexists. Qed.

(** Moving the relay between positions where it has not returned. *)
Lemma not_done_iff p p' (b : bool) : p <> RDone -> p' <> RDone -> (p = RDone <-> b = false) -> (p' = RDone <-> b = false).
Proof. intros ? ? [? ?]. split; [done|tauto]. Qed.
Lemma some_iff {A} (a a' : A) (b : bool) : (Some a = None <-> b = false) -> (Some a' = None <-> b = false).
Proof. intros [? E]. split; [done|]. intros Hb. by apply E in Hb. Qed.
Ltac not_done := eapply not_done_iff; [| |eassumption]; done.

(** The relay returns: only what was in flight towards the network is lost. *)
Lemma finish_inv s : inv s -> (os s <> None -> pend_os (pc s) = []) -> inv (finish s).
Proof.
  intros Hi Hp. pose proof (fwd_prefix _ Hi) as Hf. destruct Hi as [Hin Hout (Ho & Hl & Ht) Hpd Hq].
  destruct (drop_rx_spec _ (to_lcore (conn s))) as (Hr1 & _ & _).
  destruct (drop_tx_spec _ (to_os (conn s))) as (Hq2 & Ht2 & Hr2).
  split; unfold finish; simpl.
  - destruct (os s) as [b|]; [|done]. rewrite Hq2, app_nil_r. rewrite Hp, app_nil_r in Hin by done. done.
  - done.
  - rewrite Hr1, Ht2, Hr2. by split_and!.
  - done.
  - rewrite Hq2. intros i m Hm Htm. split; [done|]. by apply (Hq i m Hm Htm).
Qed.

(** Changing only the relay's position, forward or out of forwarding. *)
Lemma with_pc_inv s p : inv s -> pc s <> RDone -> p <> RDone -> pend_os p = pend_os (pc s) ->
  (forwarding p = true -> forwarding (pc s) = true /\ pend_net p = pend_net (pc s)) ->
  (forall m l, p = RToOs m l -> l = terminal m) -> inv (with_pc s p).
Proof.
  intros Hi Hnd Hp Hpo Hf Hl. pose proof (fwd_prefix _ Hi) as Hpre. destruct Hi as [Hin Hout Ha Hpd Hq].
  split; unfold with_pc; simpl; try done.
  - by rewrite Hpo.
  - destruct (forwarding p); [|done]. destruct (Hf eq_refl) as [Hff Hpn]. rewrite Hff in Hout. by rewrite Hpn.
  - destruct Ha as (? & ? & ?). split_and!; [done | not_done..].
  - intros i m Hm Htm. destruct (Hq i m Hm Htm). done.
Qed.

(** Handing a message to the OS side, and ending when it was the last. *)
Lemma sent_inv s m last q : inv s -> pc s = RToOs m last -> ch_send m (to_os (conn s)) = Sent q ->
  let s1 := mk_sys RSelect (mk_conn (to_lcore (conn s)) q (close_sig (conn s))) (os s) (net_in s) (net_out s)
                  (os_read s) (os_written s) in
  inv (if last then finish s1 else s1).
Proof.
  intros Hi Hpc Hsd s1. destruct (send_sent _ _ _ _ Hsd) as (Hq1 & Hr1 & Hr2 & Ht1).
  pose proof (inv_pend _ Hi m last Hpc) as Hterm.
  assert (Hnd : pc s <> RDone) by by rewrite Hpc.
  assert (Hold : forall i m', ch_queue (to_os (conn s)) !! i = Some m' -> terminal m' = false).
  { intros i m' Hm'. destruct (terminal m') eqn:E; [|done]. by destruct (inv_queue _ Hi i m' Hm' E). }
  destruct Hi as [Hin Hout (Ha1 & Ha2 & Ha3) Hpd Hq]. rewrite Hpc in *. simpl in *.
  assert (Hin' : match os s with
    | Some b => net_in s = os_read s ++ read_buf b ++ flat (ch_queue q) ++ []
    | None => os_read s `prefix_of` net_in s end).
  { destruct (os s); [|done]. rewrite Hin, Hq1, flat_app. unfold flat. simpl. by rewrite !app_nil_r. }
  destruct last.
  + destruct (drop_rx_spec _ (to_lcore (conn s))) as (Hd1 & _ & _).
    destruct (drop_tx_spec _ q) as (Hd2 & Hd3 & Hd4).
    split; unfold finish, s1; simpl; try done.
    * by rewrite Hd2.
    * rewrite Hd1, Hd3, Hd4, Hr2. rewrite Hr1 in Ha1. by split_and!.
    * rewrite Hd2, Hq1. intros i m' Hm' Ht'. split; [done|]. rewrite length_app. simpl.
      apply lookup_app_Some in Hm' as [Hm'|[Hge Hm']]; [apply Hold in Hm'; congruence|].
      apply list_lookup_singleton_Some in Hm' as [? _]. lia.
  + split; unfold s1; simpl; try done.
    * rewrite Hr2, Ht1. rewrite Hr1 in Ha1. split_and!; [done | not_done..].
    * intros i m' Hm' Ht'. rewrite Hq1 in Hm'.
      apply lookup_app_Some in Hm' as [Hm'|[Hge Hm']]; [apply Hold in Hm'; congruence|].
      apply list_lookup_singleton_Some in Hm' as [_ <-]. congruence.
Qed.

Lemma tcp_relay_step_inv s s' : inv s -> relay_step s s' -> inv s'.
Proof.
  intros Hi Hs. destruct Hs as [s bs Hpc Hne Hlen|s Hpc|s k Hpc|s b q Hpc Hr|s Hpc Hr|s Hpc Hr|s Hpc
    |s m last q Hpc Hsd s2|s m last Hpc Hsd|s rest n Hpc Hn|s Hpc|s rest k Hpc].
  - destruct Hi as [Hin Hout Ha Hpd Hq]. rewrite Hpc in *. split; simpl; try done.
    + destruct (os s); [|by apply prefix_app_r]. rewrite Hin. simpl. by rewrite <- !app_assoc.
    + destruct Ha as (? & ? & ?). split_and!; [done | not_done..].
    + intros m l [= <- <-]. by destruct bs.
    + intros i m Hm Ht. by destruct (Hq i m Hm Ht).
  - apply with_pc_inv; rewrite ?Hpc; try done. by intros m l [= <- <-].
  - apply with_pc_inv; rewrite ?Hpc; try done. by intros m l [= <- <-].
  - destruct (recv_item _ _ _ _ Hr) as (Hq1 & Hr1 & Ht1).
    destruct Hi as [Hin Hout (Ha1 & Ha2 & Ha3) Hpd Hq]. rewrite Hpc in *. split; simpl; try done.
    + rewrite Hout, Hq1. simpl. done.
    + rewrite Hr1. split_and!; [done | not_done..].
    + intros i m Hm Ht. by destruct (Hq i m Hm Ht).
  - apply finish_inv; [done|]. by rewrite Hpc.
  - apply with_pc_inv; rewrite ?Hpc; done.
  - apply finish_inv; [done|]. by rewrite Hpc.
  - by apply (sent_inv s m).
  - apply finish_inv; [done|]. intros Hos. apply send_closed in Hsd.
    destruct (inv_alive _ Hi) as (Ha1 & _). tauto.
  - destruct Hi as [Hin Hout Ha Hpd Hq]. rewrite Hpc in *. split; simpl in *; try done.
    + rewrite Hout, <- !app_assoc. f_equal. rewrite app_assoc. by rewrite take_drop.
    + destruct Ha as (? & ? & ?). split_and!; [done | not_done..].
    + intros i m Hm Ht. by destruct (Hq i m Hm Ht).
  - apply with_pc_inv; rewrite ?Hpc; done.
  - apply with_pc_inv; rewrite ?Hpc; try done. by intros m l [= <- <-].
Qed.

Lemma tcp_os_step_inv s s' : inv s -> os_step s s' -> inv s'.
Proof.
  intros Hi Hs. pose proof (fwd_prefix _ Hi) as Hpre. pose proof (in_prefix _ Hi) as Hpin.
  destruct Hi as [Hin Hout (Ha1 & Ha2 & Ha3) Hpd Hq].
  destruct Hs as [s b n r b' c Hb Hr|s b buf r c Hb Hw|s b r b' c Hb Hc|s b Hb]; rewrite Hb in *.
  - destruct (poll_read_run _ _ _ _ _ _ Hr) as (Hd & Htl & Hra & Hta & k & Hk). split; simpl; rewrite ?Htl, ?Hra, ?Hta; try done.
    + rewrite Hin, (app_assoc (read_buf b)), Hd. by rewrite <- !app_assoc.
    + split_and!; [by eapply some_iff | done..].
    + intros i m Hm Ht. rewrite Hk in *. rewrite lookup_drop in Hm. destruct (Hq _ _ Hm Ht) as [? Hl].
      split; [done|]. rewrite length_drop. lia.
  - unfold poll_write in Hw. destruct (ch_send buf (to_lcore (conn s))) as [q| |] eqn:Es; simplify_eq/=.
    + destruct (send_sent _ _ _ _ Es) as (Hq1 & Hr1 & Hr2 & _). split; simpl; try done.
      * destruct (forwarding (pc s)); [|by apply prefix_app_r].
        rewrite Hout, Hq1, concat_app, <- !app_assoc. simpl. by rewrite app_nil_r.
      * rewrite Hr2. rewrite Hr1 in Ha2. done.
    + split; simpl; rewrite ?app_nil_r; done.
    + split; simpl; rewrite ?app_nil_r; done.
  - unfold poll_close in Hc. destruct (close_tx b); simplify_eq/=; split; simpl; try done.
    split_and!; [by eapply some_iff | done..].
  - destruct (drop_tx_spec _ (to_lcore (conn s))) as (Hd1 & Hd2 & Hd3).
    destruct (drop_rx_spec _ (to_os (conn s))) as (Hd4 & Hd5 & Hd6).
    split; simpl; rewrite ?Hd1, ?Hd2, ?Hd3, ?Hd4, ?Hd5, ?Hd6; try done.
Qed.

Lemma tcp_reachable_inv s : reachable s -> inv s.
Proof.
  intros Hr. assert (Hi := tcp_init_inv). revert Hi. unfold reachable in Hr.
  induction Hr as [|x y z [Hxy|Hxy] _ IH]; [done| |]; intros Hx; apply IH.
  - by eapply tcp_relay_step_inv.
  - by eapply tcp_os_step_inv.
Qed.

(** C3: the bridge is a pair of byte streams: at every moment of every
    interleaving of the OS thread, the relay and the network, what the OS
    thread has read is a prefix of what the DPDK stream delivered, and what the
    DPDK stream accepted is a prefix of what the OS thread wrote, in both
    directions without loss, duplication or reordering.  While the relay
    forwards, the rest is exactly what is in flight. *)
Theorem bridge_byte_streams s (Hr : reachable s) :
  os_read s `prefix_of` net_in s /\ net_out s `prefix_of` os_written s /\
  (forwarding (pc s) = true ->
     os_written s = net_out s ++ pend_net (pc s) ++ concat (ch_queue (to_lcore (conn s)))) /\
  (forall b, os s = Some b ->
     net_in s = os_read s ++ read_buf b ++ flat (ch_queue (to_os (conn s))) ++ pend_os (pc s)).
Proof.
  apply tcp_reachable_inv in Hr. split_and!; [by apply in_prefix | by apply fwd_prefix | |].
  - intros Hf. pose proof (inv_out _ Hr) as Ho. by rewrite Hf in Ho.
  - intros b Hb. pose proof (inv_in _ Hr) as Ho. by rewrite Hb in Ho.
Qed.

(** A read that returns no bytes. *)
Lemma eof_all_read s b n b' c : reachable s -> os s = Some b -> n <> 0 -> poll_read n b (conn s) = (Ready (Ok []), b', c) ->
  pc s = RDone /\ os_read s = net_in s.
Proof.
  intros Hr Hb Hn Hp. apply tcp_reachable_inv in Hr. destruct Hr as [Hin _ (_ & _ & Ha3) _ Hq]. rewrite Hb in Hin.
  unfold poll_read in Hp. destruct (read_buf b) as [|x rb] eqn:Eb; [|by destruct n].
  destruct (ch_recv (to_os (conn s))) as [m q| |] eqn:Er.
  - destruct m as [[|y chunk]|e]; simplify_eq/=; [|by destruct n].
    destruct (recv_item _ _ _ _ Er) as (Hqq & _).
    destruct (Hq 0 (Ok []) ltac:(by rewrite Hqq) eq_refl) as [Hd Hlen]. split; [done|].
    rewrite Hqq in Hin, Hlen. simpl in Hlen. destruct (ch_queue q); [|simpl in Hlen; lia].
    rewrite Hd in Hin. unfold flat in Hin. simpl in Hin. by rewrite app_nil_r in Hin.
  - done.
  - apply recv_disc in Er as [Hqq Ht]. apply Ha3 in Ht. split; [done|].
    rewrite Hqq, Ht in Hin. unfold flat in Hin. simpl in Hin. by rewrite app_nil_r in Hin.
Qed.

(** End of file is never early: when [poll_read] with a non-empty buffer
    returns no bytes, the relay has ended and the OS thread has read every byte
    that the DPDK stream delivered. *)
Theorem bridge_eof_after_all_data s b n b' c (Hr : reachable s) (Hb : os s = Some b) (Hn : n <> 0)
    (Hp : poll_read n b (conn s) = (Ready (Ok []), b', c)) :
  pc s = RDone /\ os_read s = net_in s.
Proof. by eapply eof_all_read. Qed.

End Proofs.

(** ** Data written before a close can be lost *)

#[local] Existing Instance RefChannel.ref_channels.
#[local] Existing Instance RefChannel.ref_channels_laws.

(** A run in which the network delivers one byte and then the end, the OS
    thread reads the byte, and the relay returns. *)
Definition demo_recv : sys := mk_sys (RToOs (Ok [x01]) false) new_conn (Some new_stream) [x01] [] [] [].
Definition demo_sent : sys :=
  mk_sys RSelect (mk_conn (ch_new DATA_CHANNEL_SIZE) (RefChannel.mk_rchan [Ok [x01]] DATA_CHANNEL_SIZE true true) os_new)
    (Some new_stream) [x01] [] [] [].
Definition demo_read : sys := mk_sys RSelect new_conn (Some new_stream) [x01] [] [x01] [].
Definition demo_end : sys :=
  finish (mk_sys RSelect (mk_conn (ch_new DATA_CHANNEL_SIZE) (RefChannel.mk_rchan [Ok []] DATA_CHANNEL_SIZE true true) os_new)
    (Some new_stream) [x01] [] [x01] []).

Lemma demo_sent_reachable : reachable demo_sent.
Proof.
  eapply (rtc_l _ _ demo_recv); [left; by apply (rs_recv init [x01])|]. apply rtc_once. left.
  apply (rs_sent demo_recv (Ok [x01]) false (to_os (conn demo_sent))); reflexivity.
Qed.

Lemma demo_end_reachable : reachable demo_end.
Proof.
  unfold reachable. etrans; [apply demo_sent_reachable|]. eapply (rtc_l _ _ demo_read).
  { right. apply (os_reads demo_sent new_stream 4 (Ready (Ok [x01])) new_stream (conn demo_read)); reflexivity. }
  eapply rtc_l; [left; by apply rs_eof|]. apply rtc_once. left.
  apply (rs_sent (with_pc demo_read (RToOs (Ok []) true)) (Ok []) true
    (RefChannel.mk_rchan [Ok []] DATA_CHANNEL_SIZE true true)); reflexivity.
Qed.

Lemma bridge_byte_streams_witness : [] `prefix_of` [x01] /\ net_in demo_sent = [x01].
Proof. split; [exact (proj1 (bridge_byte_streams demo_sent demo_sent_reachable))|reflexivity]. Defined.

Lemma bridge_eof_after_all_data_witness : pc demo_end = RDone /\ os_read demo_end = net_in demo_end.
Proof.
  exact (bridge_eof_after_all_data demo_end new_stream 4 new_stream _ demo_end_reachable eq_refl ltac:(lia) eq_refl).
Defined.

(** C39: closing may lose data: there is a run in which a write, a flush and a
    close all succeed and the relay ends normally, yet not a single byte of
    the write was handed to the DPDK stream, because the [select!] of the relay
    took the close signal before the chunk waiting in the channel. *)
Theorem bridge_close_loses_data :
  exists s c b c', poll_write [x01; x02] new_conn = (Ready (Ok 2), c) /\
    poll_flush = Ready (Ok tt) /\ poll_close new_stream c = (Ready (Ok tt), b, c') /\
    rtc step (mk_sys RSelect c' (Some b) [] [] [] [x01; x02]) s /\ reachable s /\
    pc s = RDone /\ os_written s = [x01; x02] /\ net_out s = [].
Proof.
  set (w := mk_sys RSelect (snd (poll_write [x01; x02] new_conn)) (Some new_stream) [] [] [] [x01; x02]).
  set (c := mk_sys RSelect (mk_conn (to_lcore (conn w)) (to_os (conn w)) (os_send (close_sig (conn w))))
              (Some (mk_bstream [] false)) [] [] [] [x01; x02]).
  assert (Hr : rtc step c (finish (with_pc c RClosing))).
  { eapply rtc_l; [left; by apply rs_close|]. apply rtc_once. left. by apply rs_closed. }
  exists (finish (with_pc c RClosing)), (conn w), (mk_bstream [] false), (conn c).
  split; [reflexivity|]. split; [reflexivity|]. split; [reflexivity|]. split; [exact Hr|]. split; [|by split_and!].
  eapply (rtc_l _ _ w).
  { right. apply (os_writes init new_stream [x01; x02] (Ready (Ok 2)) (conn w)); reflexivity. }
  eapply (rtc_l _ _ c); [|exact Hr].
  right. apply (os_closes w new_stream (Ready (Ok tt)) (mk_bstream [] false) (conn c)); reflexivity.
Qed.

End BridgeTcp.
