(* ===== verification/BridgeUdp.v ===== *)
(** * UDP over the thread bridge
      ([dpdk-net-util/src/bridge/udp.rs], [udp_relay_task] of [worker.rs])

    [BridgeUdpSocket] may be shared by several OS threads: its three mutexes
    are seen from one call, as whether another call holds the guard.  The
    methods are functions on the socket's fields and the two channels; the
    relay is a step relation, one step per resolved branch of its [select!] or
    completed await.  [PollSender] (tokio-util) is outside the repository and
    is an interface with its documented behaviour. *)

From stdpp Require Import base list relations.
From Stdlib Require Import ZArith Strings.Byte Lia.
From S2P Require Import Prelude ArpCache Smoltcp Channel BridgeTcp.

(** [tokio_util::sync::PollSender]: reserving a slot may fail for good when
    the receiver is gone; an item sent after a reservation enters the queue. *)
Class PollSender `{Channels} := {
  psender : Type;
  ps_new : psender;
  ps_get_ref : psender -> bool;
  ps_poll_reserve : forall {A}, psender -> chan A -> Poll (Result unit unit) * psender * chan A;
  ps_send_item : forall {A}, A -> psender -> chan A -> Result unit unit * psender * chan A;
  ps_abort_send : forall {A}, psender -> chan A -> psender * chan A
}.

Section Same.
Context `{Channels}.
(** The queue and the liveness of both ends are unchanged. *)
Definition ch_same {A} (c c' : chan A) : Prop :=
  ch_queue c' = ch_queue c /\ ch_rx_alive c' = ch_rx_alive c /\ ch_tx_alive c' = ch_tx_alive c.
End Same.

Class PollSenderLaws `{PollSender} : Prop := {
  ps_reserve_spec : forall A p (c : chan A) r p' c', ps_poll_reserve p c = (r, p', c') ->
    ch_same c c' /\ (forall e, r = Ready (Err e) -> ch_rx_alive c = false);
  ps_send_spec : forall A (a : A) p c p1 c1 r p2 c2, ps_poll_reserve p c = (Ready (Ok tt), p1, c1) ->
    ps_send_item a p1 c1 = (r, p2, c2) ->
    ch_rx_alive c2 = ch_rx_alive c /\ ch_tx_alive c2 = ch_tx_alive c /\
    (ch_rx_alive c = true -> r = Ok tt /\ ch_queue c2 = ch_queue c ++ [a]);
  ps_abort_spec : forall A p (c : chan A) p' c', ps_abort_send p c = (p', c') -> ch_same c c'
}.

Module BridgeUdp.

(** [std::net::SocketAddr] *)
Inductive IpAddr := V4 (a : Ipv4Addr) | V6 (segments : list Z).
Record SocketAddr := mk_addr { sa_ip : IpAddr; sa_port : Z }.

(** [UdpDatagram] *)
Record UdpDatagram := mk_dg { payload : list byte; addr : SocketAddr }.

(** [to_smoltcp_endpoint]: [unimplemented!] for IPv6. *)
Definition to_smoltcp_endpoint (a : SocketAddr) : Exec IpEndpoint :=
  match sa_ip a with V4 v4 => Ret (mk_endpoint v4 (sa_port a)) | V6 _ => Panic end.

Definition from_smoltcp_endpoint (ep : IpEndpoint) : SocketAddr := mk_addr (V4 (ep_addr ep)) (ep_port ep).

Section Model.
Context `{PollSender}.

(** [BridgeUdpSocket]; the channel ends live in [chans]. *)
Record BridgeUdpSocket := mk_bsock {
  tx : psender;
  peeked : option UdpDatagram;
  local_addr : SocketAddr;
  peer_addr : option SocketAddr
}.
Record chans := mk_chans { c_to_lcore : chan UdpDatagram; c_to_os : chan UdpDatagram }.

Definition set_tx (s : BridgeUdpSocket) p := mk_bsock p (peeked s) (local_addr s) (peer_addr s).
Definition set_peeked (s : BridgeUdpSocket) k := mk_bsock (tx s) k (local_addr s) (peer_addr s).

Definition UDP_CHANNEL_SIZE : nat := 1024.
(** [BridgeUdpSocket::new] with the channels made for it. *)
Definition new (a : SocketAddr) : BridgeUdpSocket := mk_bsock ps_new None a None.
Definition new_chans : chans := mk_chans (ch_new UDP_CHANNEL_SIZE) (ch_new UDP_CHANNEL_SIZE).

(** ** Sending.  [lk]: another call holds the [tx] mutex. *)

(** One poll of [send_to]. *)
Definition send_to (lk : bool) (buf : list byte) (target : SocketAddr) (s : BridgeUdpSocket) (c : chans)
    : Poll (Result nat IoKind) * chans :=
  if lk then (Pending, c) else
  if ps_get_ref (tx s) then
    match ch_send (mk_dg buf target) (c_to_lcore c) with
    | Sent q => (Ready (Ok (length buf)), mk_chans q (c_to_os c))
    | Full => (Pending, c)
    | SendClosed => (Ready (Err BrokenPipe), c)
    end
  else (Ready (Err BrokenPipe), c).

Definition try_send_to (lk : bool) (buf : list byte) (target : SocketAddr) (s : BridgeUdpSocket) (c : chans)
    : Result nat IoKind * chans :=
  if lk then (Err WouldBlock, c) else
  if ps_get_ref (tx s) then
    match ch_send (mk_dg buf target) (c_to_lcore c) with
    | Sent q => (Ok (length buf), mk_chans q (c_to_os c))
    | Full => (Err WouldBlock, c)
    | SendClosed => (Err BrokenPipe, c)
    end
  else (Err BrokenPipe, c).

(** The poll methods also tell whether [cx] was handed to the channel, so that
    the task will be woken. *)
Definition poll_send_to (lk : bool) (buf : list byte) (target : SocketAddr) (s : BridgeUdpSocket) (c : chans)
    : Poll (Result nat IoKind) * bool * BridgeUdpSocket * chans :=
  if lk then (Pending, false, s, c) else
  match ps_poll_reserve (tx s) (c_to_lcore c) with
  | (Ready (Ok tt), p, q) =>
      match ps_send_item (mk_dg buf target) p q with
      | (Ok tt, p, q) => (Ready (Ok (length buf)), true, set_tx s p, mk_chans q (c_to_os c))
      | (Err _, p, q) => (Ready (Err BrokenPipe), true, set_tx s p, mk_chans q (c_to_os c))
      end
  | (Ready (Err _), p, q) => (Ready (Err BrokenPipe), true, set_tx s p, mk_chans q (c_to_os c))
  | (Pending, p, q) => (Pending, true, set_tx s p, mk_chans q (c_to_os c))
  end.

Definition poll_send_ready (lk : bool) (s : BridgeUdpSocket) (c : chans)
    : Poll (Result unit IoKind) * bool * BridgeUdpSocket * chans :=
  if lk then (Pending, false, s, c) else
  match ps_poll_reserve (tx s) (c_to_lcore c) with
  | (Ready (Ok tt), p, q) =>
      let '(p, q) := ps_abort_send p q in (Ready (Ok tt), true, set_tx s p, mk_chans q (c_to_os c))
  | (Ready (Err _), p, q) => (Ready (Err BrokenPipe), true, set_tx s p, mk_chans q (c_to_os c))
  | (Pending, p, q) => (Pending, true, set_tx s p, mk_chans q (c_to_os c))
  end.

(** ** Receiving.  [lk]: another call holds the [rx] mutex; the buffer has
    room for [n] bytes and the bytes written to it are returned. *)

(** The peeked datagram, else the next of the channel. *)
Definition next_datagram (s : BridgeUdpSocket) (c : chans) : recv_res UdpDatagram (BridgeUdpSocket * chans) :=
  match peeked s with
  | Some dg => Item dg (set_peeked s None, c)
  | None =>
      match ch_recv (c_to_os c) with
      | Item dg q => Item dg (s, mk_chans (c_to_lcore c) q)
      | Empty => Empty
      | Disconnected => Disconnected
      end
  end.

Definition copy_out (n : nat) (dg : UdpDatagram) : list byte := take (Nat.min n (length (payload dg))) (payload dg).

(** One poll of [recv_from]. *)
Definition recv_from (lk : bool) (n : nat) (s : BridgeUdpSocket) (c : chans)
    : Poll (Result (list byte * SocketAddr) IoKind) * BridgeUdpSocket * chans :=
  if lk then (Pending, s, c) else
  match next_datagram s c with
  | Item dg (s, c) => (Ready (Ok (copy_out n dg, addr dg)), s, c)
  | Empty => (Pending, s, c)
  | Disconnected => (Ready (Err ConnectionReset), s, c)
  end.

Definition try_recv_from (lk : bool) (n : nat) (s : BridgeUdpSocket) (c : chans)
    : Result (list byte * SocketAddr) IoKind * BridgeUdpSocket * chans :=
  if lk then (Err WouldBlock, s, c) else
  match next_datagram s c with
  | Item dg (s, c) => (Ok (copy_out n dg, addr dg), s, c)
  | Empty => (Err WouldBlock, s, c)
  | Disconnected => (Err ConnectionReset, s, c)
  end.

Definition poll_recv_from (lk : bool) (n : nat) (s : BridgeUdpSocket) (c : chans)
    : Poll (Result (list byte * SocketAddr) IoKind) * bool * BridgeUdpSocket * chans :=
  if lk then (Pending, false, s, c) else
  match next_datagram s c with
  | Item dg (s', c) => (Ready (Ok (copy_out n dg, addr dg)), match peeked s with Some _ => false | None => true end, s', c)
  | Empty => (Pending, true, s, c)
  | Disconnected => (Ready (Err ConnectionReset), true, s, c)
  end.

Definition poll_recv_ready (lk : bool) (s : BridgeUdpSocket) (c : chans)
    : Poll (Result unit IoKind) * bool * BridgeUdpSocket * chans :=
  if lk then (Pending, false, s, c) else
  match peeked s with
  | Some _ => (Ready (Ok tt), false, s, c)
  | None =>
      match ch_recv (c_to_os c) with
      | Item dg q => (Ready (Ok tt), true, set_peeked s (Some dg), mk_chans (c_to_lcore c) q)
      | Empty => (Pending, true, s, c)
      | Disconnected => (Ready (Err ConnectionReset), true, s, c)
      end
  end.

(** ** Connected mode.  [pl]: another call holds the [peer_addr] mutex. *)

Definition connect (a : SocketAddr) (s : BridgeUdpSocket) : BridgeUdpSocket :=
  mk_bsock (tx s) (peeked s) (local_addr s) (Some a).

Definition send (pl lk : bool) (buf : list byte) (s : BridgeUdpSocket) (c : chans) : Poll (Result nat IoKind) * chans :=
  if pl then (Pending, c) else
  match peer_addr s with
  | Some a => send_to lk buf a s c
  | None => (Ready (Err NotConnectedKind), c)
  end.

Definition recv (lk : bool) (n : nat) (s : BridgeUdpSocket) (c : chans)
    : Poll (Result (list byte) IoKind) * BridgeUdpSocket * chans :=
  let '(r, s, c) := recv_from lk n s c in
  (match r with Ready r => Ready (result_map fst r) | Pending => Pending end, s, c).

Definition poll_send (pl lk : bool) (buf : list byte) (s : BridgeUdpSocket) (c : chans)
    : Poll (Result nat IoKind) * bool * BridgeUdpSocket * chans :=
  if pl then (Pending, false, s, c) else
  match peer_addr s with
  | Some a => poll_send_to lk buf a s c
  | None => (Ready (Err NotConnectedKind), false, s, c)
  end.

Definition poll_recv (lk : bool) (n : nat) (s : BridgeUdpSocket) (c : chans)
    : Poll (Result (list byte) IoKind) * bool * BridgeUdpSocket * chans :=
  let '(r, w, s, c) := poll_recv_from lk n s c in
  (match r with Ready r => Ready (result_map fst r) | Pending => Pending end, w, s, c).

(** [peer_addr()] *)
Definition get_peer_addr (pl : bool) (s : BridgeUdpSocket) : Result SocketAddr IoKind :=
  if pl then Err WouldBlock else ok_or NotConnectedKind (peer_addr s).

(** ** [udp_relay_task] *)

(** At its [select!], in [socket.send_to(..)], returned, or unwound by the
    [unimplemented!] of [to_smoltcp_endpoint]. *)
Inductive relay_pc := USelect | USending (dg : UdpDatagram) | UDone | UPanicked.

(** The socket with its relay and the history of both ends: datagrams received
    from the network, those that entered the channel to the OS, what the
    receive calls returned, datagrams whose send call reported success and
    datagrams handed to [UdpSocket::send_to] to completion. *)
Record sys := mk_sys {
  pc : relay_pc;
  ch : chans;
  sock : option BridgeUdpSocket;
  net_in : list UdpDatagram;
  queued_in : list UdpDatagram;
  os_read : list (list byte * SocketAddr);
  os_sent : list UdpDatagram;
  net_out : list UdpDatagram
}.

Definition init (a : SocketAddr) : sys := mk_sys USelect new_chans (Some (new a)) [] [] [] [] [].

Definition relay_halves_dropped (c : chans) : chans := mk_chans (ch_drop_rx (c_to_lcore c)) (ch_drop_tx (c_to_os c)).
Definition set_pc (s : sys) (p : relay_pc) (c : chans) : sys :=
  mk_sys p c (sock s) (net_in s) (queued_in s) (os_read s) (os_sent s) (net_out s).
Definition stop (s : sys) (p : relay_pc) : sys := set_pc s p (relay_halves_dropped (ch s)).

(** [let _ = tx_to_os.try_send(dg)] *)
Definition try_forward (dg : UdpDatagram) (s : sys) : sys :=
  match ch_send dg (c_to_os (ch s)) with
  | Sent q => mk_sys (pc s) (mk_chans (c_to_lcore (ch s)) q) (sock s) (net_in s ++ [dg]) (queued_in s ++ [dg])
                (os_read s) (os_sent s) (net_out s)
  | Full | SendClosed => mk_sys (pc s) (ch s) (sock s) (net_in s ++ [dg]) (queued_in s) (os_read s) (os_sent s) (net_out s)
  end.

Definition UDP_MAX_PACKET_SIZE : Z := 1500.

Inductive relay_step : sys -> sys -> Prop :=
  | us_egress s dg q ep : pc s = USelect -> ch_recv (c_to_lcore (ch s)) = Item dg q ->
      to_smoltcp_endpoint (addr dg) = Ret ep ->
      relay_step s (set_pc s (USending dg) (mk_chans q (c_to_os (ch s))))
  | us_egress_panic s dg q : pc s = USelect -> ch_recv (c_to_lcore (ch s)) = Item dg q ->
      to_smoltcp_endpoint (addr dg) = Panic ->
      relay_step s (stop (set_pc s USelect (mk_chans q (c_to_os (ch s)))) UPanicked)
  | us_sent s dg : pc s = USending dg ->
      relay_step s (mk_sys USelect (ch s) (sock s) (net_in s) (queued_in s) (os_read s) (os_sent s) (net_out s ++ [dg]))
  | us_none s : pc s = USelect -> ch_recv (c_to_lcore (ch s)) = Disconnected -> relay_step s (stop s UDone)
  | us_ingress s bs ep : pc s = USelect -> (zlen bs <= UDP_MAX_PACKET_SIZE)%Z ->
      relay_step s (try_forward (mk_dg bs (from_smoltcp_endpoint ep)) s)
  | us_ingress_err s : pc s = USelect -> relay_step s s.

(** Any of the methods on the OS side. *)
Inductive os_step : sys -> sys -> Prop :=
  | uo_send_to s b lk buf a r c : sock s = Some b -> send_to lk buf a b (ch s) = (r, c) ->
      os_step s (mk_sys (pc s) c (Some b) (net_in s) (queued_in s) (os_read s)
        (os_sent s ++ match r with Ready (Ok _) => [mk_dg buf a] | _ => [] end) (net_out s))
  | uo_try_send_to s b lk buf a r c : sock s = Some b -> try_send_to lk buf a b (ch s) = (r, c) ->
      os_step s (mk_sys (pc s) c (Some b) (net_in s) (queued_in s) (os_read s)
        (os_sent s ++ match r with Ok _ => [mk_dg buf a] | _ => [] end) (net_out s))
  | uo_poll_send_to s b lk buf a r w b' c : sock s = Some b -> poll_send_to lk buf a b (ch s) = (r, w, b', c) ->
      os_step s (mk_sys (pc s) c (Some b') (net_in s) (queued_in s) (os_read s)
        (os_sent s ++ match r with Ready (Ok _) => [mk_dg buf a] | _ => [] end) (net_out s))
  | uo_send_ready s b lk r w b' c : sock s = Some b -> poll_send_ready lk b (ch s) = (r, w, b', c) ->
      os_step s (mk_sys (pc s) c (Some b') (net_in s) (queued_in s) (os_read s) (os_sent s) (net_out s))
  | uo_recv_from s b lk n r b' c : sock s = Some b -> recv_from lk n b (ch s) = (r, b', c) ->
      os_step s (mk_sys (pc s) c (Some b') (net_in s) (queued_in s)
        (os_read s ++ match r with Ready (Ok x) => [x] | _ => [] end) (os_sent s) (net_out s))
  | uo_try_recv_from s b lk n r b' c : sock s = Some b -> try_recv_from lk n b (ch s) = (r, b', c) ->
      os_step s (mk_sys (pc s) c (Some b') (net_in s) (queued_in s)
        (os_read s ++ match r with Ok x => [x] | _ => [] end) (os_sent s) (net_out s))
  | uo_poll_recv_from s b lk n r w b' c : sock s = Some b -> poll_recv_from lk n b (ch s) = (r, w, b', c) ->
      os_step s (mk_sys (pc s) c (Some b') (net_in s) (queued_in s)
        (os_read s ++ match r with Ready (Ok x) => [x] | _ => [] end) (os_sent s) (net_out s))
  | uo_recv_ready s b lk r w b' c : sock s = Some b -> poll_recv_ready lk b (ch s) = (r, w, b', c) ->
      os_step s (mk_sys (pc s) c (Some b') (net_in s) (queued_in s) (os_read s) (os_sent s) (net_out s))
  | uo_connect s b a : sock s = Some b ->
      os_step s (mk_sys (pc s) (ch s) (Some (connect a b)) (net_in s) (queued_in s) (os_read s) (os_sent s) (net_out s))
  | uo_drop s b : sock s = Some b ->
      os_step s (mk_sys (pc s) (mk_chans (ch_drop_tx (c_to_lcore (ch s))) (ch_drop_rx (c_to_os (ch s)))) None
        (net_in s) (queued_in s) (os_read s) (os_sent s) (net_out s)).

Definition step (s s' : sys) : Prop := relay_step s s' \/ os_step s s'.
Definition reachable (a : SocketAddr) (s : sys) : Prop := rtc step (init a) s.

(** ** Invariant *)

Definition relay_alive (p : relay_pc) : bool := match p with USelect | USending _ => true | _ => false end.
Definition sending (p : relay_pc) : list UdpDatagram := match p with USending dg => [dg] | _ => [] end.
(** A returned datagram is a possibly truncated copy. *)
Definition copy_of (x : list byte * SocketAddr) (dg : UdpDatagram) : Prop :=
  x.1 `prefix_of` payload dg /\ x.2 = addr dg.

Record inv (s : sys) : Prop := {
  inv_in : queued_in s `sublist_of` net_in s;
  inv_read : exists del, Forall2 copy_of (os_read s) del /\
    match sock s with
    | Some b => queued_in s = del ++ option_list (peeked b) ++ ch_queue (c_to_os (ch s))
    | None => del `prefix_of` queued_in s
    end;
  inv_out : if relay_alive (pc s)
            then os_sent s = net_out s ++ sending (pc s) ++ ch_queue (c_to_lcore (ch s))
            else net_out s `prefix_of` os_sent s;
  inv_rx : ch_rx_alive (c_to_lcore (ch s)) = relay_alive (pc s) /\
           ch_tx_alive (c_to_os (ch s)) = relay_alive (pc s) /\
           (sock s = None -> ch_rx_alive (c_to_os (ch s)) = false)
}.

End Model.

Section Proofs.
Context `{HL : ChannelsLaws} {HP : PollSender} {HPL : PollSenderLaws}.

Lemma udp_init_inv a : inv (init a).
Proof.
  unfold init, new_chans. destruct (new_queue UdpDatagram UDP_CHANNEL_SIZE) as (Hq & Hr & Ht).
  split; simpl; rewrite ?Hq, ?Hr, ?Ht; try done. by exists [].
Qed.

Lemma out_prefix s : inv s -> net_out s `prefix_of` os_sent s.
Proof. intros Hi. pose proof (inv_out _ Hi) as Ho. destruct (relay_alive (pc s)); [|done]. rewrite Ho. by eexists. Qed.

(** ** Effect of the methods on what is in flight *)

(** A send call appends its datagram to the queue exactly when it reports
    success, or the relay is gone. *)
Definition sends (ok : bool) (dg : UdpDatagram) (c c' : chans) : Prop :=
  c_to_os c' = c_to_os c /\ ch_rx_alive (c_to_lcore c') = ch_rx_alive (c_to_lcore c) /\
  (ch_rx_alive (c_to_lcore c) = true ->
     ch_queue (c_to_lcore c') = ch_queue (c_to_lcore c) ++ (if ok then [dg] else [])).

Definition ready_ok {A E} (r : Poll (Result A E)) : bool := match r with Ready (Ok _) => true | _ => false end.

Lemma sends_nop dg c : sends false dg c c.
Proof. split_and!; [done..|]. by rewrite app_nil_r. Qed.

Lemma send_to_run lk buf a b c r c' : send_to lk buf a b c = (r, c') -> sends (ready_ok r) (mk_dg buf a) c c'.
Proof.
  unfold send_to. destruct lk; [intros [= <- <-]; apply sends_nop|].
  destruct (ps_get_ref (tx b)); [|intros [= <- <-]; apply sends_nop].
  destruct (ch_send _ _) as [q| |] eqn:E; intros [= <- <-]; try apply sends_nop.
  destruct (send_sent _ _ _ _ E) as (? & ? & ? & _). split_and!; simpl; congruence.
Qed.

Lemma try_send_to_run lk buf a b c r c' : try_send_to lk buf a b c = (r, c') -> sends (is_ok r) (mk_dg buf a) c c'.
Proof.
  unfold try_send_to. destruct lk; [intros [= <- <-]; apply sends_nop|].
  destruct (ps_get_ref (tx b)); [|intros [= <- <-]; apply sends_nop].
  destruct (ch_send _ _) as [q| |] eqn:E; intros [= <- <-]; try apply sends_nop.
  destruct (send_sent _ _ _ _ E) as (? & ? & ? & _). split_and!; simpl; congruence.
Qed.

Lemma same_sends dg c q : ch_same (c_to_lcore c) q -> sends false dg c (mk_chans q (c_to_os c)).
Proof. intros (Hq & Hr & _). split_and!; simpl; [done..|]. by rewrite app_nil_r. Qed.

Lemma poll_send_to_run lk buf a b c r w b' c' : poll_send_to lk buf a b c = (r, w, b', c') ->
  sends (ready_ok r) (mk_dg buf a) c c' /\ peeked b' = peeked b.
Proof.
  unfold poll_send_to. destruct lk; [intros [= <- <- <- <-]; split; [apply sends_nop|done]|].
  destruct (ps_poll_reserve (tx b) (c_to_lcore c)) as [[[[[]|e]|] p] q] eqn:E;
    pose proof (ps_reserve_spec _ _ _ _ _ _ E) as [Hs He].
  - destruct (ps_send_item (mk_dg buf a) p q) as [[[[]|e] p2] q2] eqn:E2;
      destruct (ps_send_spec _ _ _ _ _ _ _ _ _ E E2) as (Hr & Ht & Hq); intros [= <- <- <- <-]; (split; [|done]).
    + split_and!; simpl; [done..|]. intros Ha. by destruct (Hq Ha) as [_ ->].
    + split_and!; simpl; [done..|]. intros Ha. by destruct (Hq Ha).
  - intros [= <- <- <- <-]. split; [by apply same_sends|done].
  - intros [= <- <- <- <-]. split; [by apply same_sends|done].
Qed.

Lemma poll_send_ready_run lk b c r w b' c' : poll_send_ready lk b c = (r, w, b', c') ->
  (forall dg, sends false dg c c') /\ peeked b' = peeked b.
Proof.
  unfold poll_send_ready. destruct lk; [intros [= <- <- <- <-]; split; [intros; apply sends_nop|done]|].
  destruct (ps_poll_reserve (tx b) (c_to_lcore c)) as [[[[[]|e]|] p] q] eqn:E;
    pose proof (ps_reserve_spec _ _ _ _ _ _ E) as [Hs He].
  - destruct (ps_abort_send p q) as [p2 q2] eqn:E2. pose proof (ps_abort_spec _ _ _ _ _ E2) as Ha.
    intros [= <- <- <- <-]. split; [|done]. intros. apply same_sends.
    destruct Hs as (? & ? & ?), Ha as (? & ? & ?). unfold ch_same. intuition congruence.
  - intros [= <- <- <- <-]. split; [intros; by apply same_sends|done].
  - intros [= <- <- <- <-]. split; [intros; by apply same_sends|done].
Qed.

(** What the OS side may still read: the peeked datagram, then the queue. *)
Definition readable (b : BridgeUdpSocket) (c : chans) : list UdpDatagram :=
  option_list (peeked b) ++ ch_queue (c_to_os c).

(** A receive call takes the first readable datagram and returns a copy. *)
Definition receives (x : option (list byte * SocketAddr)) (b : BridgeUdpSocket) (c : chans) (b' : BridgeUdpSocket) (c' : chans)
    : Prop :=
  c_to_lcore c' = c_to_lcore c /\ ch_rx_alive (c_to_os c') = ch_rx_alive (c_to_os c) /\
  ch_tx_alive (c_to_os c') = ch_tx_alive (c_to_os c) /\
  match x with
  | Some y => exists dg, copy_of y dg /\ readable b c = dg :: readable b' c'
  | None => readable b' c' = readable b c
  end.

Lemma receives_nop b c : receives None b c b c.
Proof. by split_and!. Qed.

Lemma next_datagram_run n b c dg b' c' : next_datagram b c = Item dg (b', c') ->
  receives (Some (copy_out n dg, addr dg)) b c b' c'.
Proof.
  intros E. assert (Hc : copy_of (copy_out n dg, addr dg) dg).
  { split; [|done]. eexists. symmetry. apply take_drop. }
  unfold next_datagram in E. destruct (peeked b) as [d|] eqn:Ep.
  - simplify_eq/=. split_and!; try done. exists dg. split; [done|]. unfold readable. by rewrite Ep.
  - destruct (ch_recv (c_to_os c)) as [d q| |] eqn:Er; simplify_eq.
    destruct (recv_item _ _ _ _ Er) as (Hq & Hr & Ht). split_and!; simpl; try done.
    exists dg. split; [done|]. unfold readable. by rewrite Ep, Hq.
Qed.

Lemma recv_from_run lk n b c r b' c' : recv_from lk n b c = (r, b', c') ->
  receives (match r with Ready (Ok x) => Some x | _ => None end) b c b' c'.
Proof.
  unfold recv_from. destruct lk; [intros [= <- <- <-]; apply receives_nop|].
  destruct (next_datagram b c) as [dg [b1 c1]| |] eqn:E; intros [= <- <- <-]; try apply receives_nop.
  by apply next_datagram_run.
Qed.

Lemma try_recv_from_run lk n b c r b' c' : try_recv_from lk n b c = (r, b', c') ->
  receives (match r with Ok x => Some x | _ => None end) b c b' c'.
Proof.
  unfold try_recv_from. destruct lk; [intros [= <- <- <-]; apply receives_nop|].
  destruct (next_datagram b c) as [dg [b1 c1]| |] eqn:E; intros [= <- <- <-]; try apply receives_nop.
  by apply next_datagram_run.
Qed.

Lemma poll_recv_from_run lk n b c r w b' c' : poll_recv_from lk n b c = (r, w, b', c') ->
  receives (match r with Ready (Ok x) => Some x | _ => None end) b c b' c'.
Proof.
  unfold poll_recv_from. destruct lk; [intros [= <- <- <- <-]; apply receives_nop|].
  destruct (next_datagram b c) as [dg [b1 c1]| |] eqn:E; intros [= <- <- <- <-]; try apply receives_nop.
  by apply next_datagram_run.
Qed.

Lemma poll_recv_ready_run lk b c r w b' c' : poll_recv_ready lk b c = (r, w, b', c') -> receives None b c b' c'.
Proof.
  unfold poll_recv_ready. destruct lk; [intros [= <- <- <- <-]; apply receives_nop|].
  destruct (peeked b) as [d|] eqn:Ep; [intros [= <- <- <- <-]; apply receives_nop|].
  destruct (ch_recv (c_to_os c)) as [d q| |] eqn:Er; intros [= <- <- <- <-]; try apply receives_nop.
  destruct (recv_item _ _ _ _ Er) as (Hq & Hr & Ht). split_and!; simpl; try done.
  unfold readable. simpl. by rewrite Ep, Hq.
Qed.

(** ** Preservation *)

Lemma sends_inv s b b' c ok dg : inv s -> sock s = Some b -> peeked b' = peeked b -> sends ok dg (ch s) c ->
  inv (mk_sys (pc s) c (Some b') (net_in s) (queued_in s) (os_read s) (os_sent s ++ if ok then [dg] else []) (net_out s)).
Proof.
  intros Hi Hb Hp (Ho & Hr & Hq). pose proof (out_prefix _ Hi) as Hpre. destruct Hi as [Hin (del & Hf & Hd) Hout (Ha & Ht & Hn)].
  rewrite Hb in Hd. split; simpl; try done.
  - exists del. split; [done|]. by rewrite Hp, Ho.
  - rewrite Ha in Hq. destruct (relay_alive (pc s)); [|by apply prefix_app_r].
    rewrite Hq by done. by rewrite Hout, <- !app_assoc.
  - rewrite Hr, Ho. by split_and!.
Qed.

Lemma receives_inv s b b' c x : inv s -> sock s = Some b -> receives x b (ch s) b' c ->
  inv (mk_sys (pc s) c (Some b') (net_in s) (queued_in s) (os_read s ++ option_list x) (os_sent s) (net_out s)).
Proof.
  intros Hi Hb (Ho & Hr & Ht & Hx). destruct Hi as [Hin (del & Hf & Hd) Hout Ha].
  rewrite Hb in Hd. split; simpl; try done.
  - destruct x as [y|].
    + destruct Hx as (dg & Hc & Hrd). exists (del ++ [dg]). split; [apply Forall2_app; [done|by constructor; [|constructor]]|].
      unfold readable in Hrd. by rewrite Hd, Hrd, <- app_assoc.
    + exists del. simpl. rewrite app_nil_r. split; [done|]. unfold readable in Hx. by rewrite Hx.
  - by rewrite Ho.
  - rewrite Ho, Ht. destruct Ha as (? & ? & ?). by split_and!.
Qed.

Lemma udp_os_step_inv s s' : inv s -> os_step s s' -> inv s'.
Proof.
  intros Hi Hs.
  destruct Hs as [s b lk buf a r c Hb E|s b lk buf a r c Hb E|s b lk buf a r w b' c Hb E|s b lk r w b' c Hb E
    |s b lk n r b' c Hb E|s b lk n r b' c Hb E|s b lk n r w b' c Hb E|s b lk r w b' c Hb E|s b a Hb|s b Hb].
  - pose proof (sends_inv s b b c _ _ Hi Hb eq_refl (send_to_run _ _ _ _ _ _ _ E)) as H1. by destruct r as [[]|].
  - pose proof (sends_inv s b b c _ _ Hi Hb eq_refl (try_send_to_run _ _ _ _ _ _ _ E)) as H1. by destruct r.
  - destruct (poll_send_to_run _ _ _ _ _ _ _ _ _ E) as [H1 H2].
    pose proof (sends_inv s b b' c _ _ Hi Hb H2 H1) as H3. by destruct r as [[]|].
  - destruct (poll_send_ready_run _ _ _ _ _ _ _ E) as [H1 H2].
    pose proof (sends_inv s b b' c _ _ Hi Hb H2 (H1 (mk_dg [] (local_addr b)))) as H3. by rewrite app_nil_r in H3.
  - pose proof (receives_inv s b b' c _ Hi Hb (recv_from_run _ _ _ _ _ _ _ E)) as H1. by destruct r as [[]|].
  - pose proof (receives_inv s b b' c _ Hi Hb (try_recv_from_run _ _ _ _ _ _ _ E)) as H1. by destruct r.
  - pose proof (receives_inv s b b' c _ Hi Hb (poll_recv_from_run _ _ _ _ _ _ _ _ E)) as H1. by destruct r as [[]|].
  - pose proof (receives_inv s b b' c _ Hi Hb (poll_recv_ready_run _ _ _ _ _ _ _ E)) as H1. by rewrite app_nil_r in H1.
  - pose proof (sends_inv s b (connect a b) (ch s) _ _ Hi Hb eq_refl (sends_nop (mk_dg [] a) (ch s))) as H1. by rewrite app_nil_r in H1.
  - destruct Hi as [Hin (del & Hf & Hd) Hout (Ha & Ht & Hn)]. rewrite Hb in Hd.
    destruct (drop_tx_spec _ (c_to_lcore (ch s))) as (Hd1 & Hd2 & Hd3).
    destruct (drop_rx_spec _ (c_to_os (ch s))) as (Hd4 & Hd5 & Hd6).
    split; simpl; rewrite ?Hd1, ?Hd3, ?Hd6; try done. exists del. split; [done|]. rewrite Hd. by eexists.
Qed.

(** The relay ends: what was still queued towards the network is dropped. *)
Lemma stop_inv s p : inv s -> relay_alive p = false -> inv (stop s p).
Proof.
  intros Hi Hp. pose proof (out_prefix _ Hi). destruct Hi as [Hin (del & Hf & Hd) Hout (Ha & Ht & Hn)].
  destruct (drop_rx_spec _ (c_to_lcore (ch s))) as (Hd1 & _ & _).
  destruct (drop_tx_spec _ (c_to_os (ch s))) as (Hd2 & Hd3 & Hd4).
  split; simpl; rewrite ?Hp; try done.
  - exists del. by rewrite Hd2.
  - rewrite Hd1, Hd3, Hd4. by split_and!.
Qed.

(** Taking the next datagram off the queue towards the network, to send it or
    to be unwound by it. *)
Lemma egress_inv s dg q : inv s -> pc s = USelect -> ch_recv (c_to_lcore (ch s)) = Item dg q ->
  inv (set_pc s (USending dg) (mk_chans q (c_to_os (ch s)))).
Proof.
  intros Hi Hpc Hr. destruct (recv_item _ _ _ _ Hr) as (Hq & Hr1 & _).
  destruct Hi as [Hin Hrd Hout (Ha & Ht & Hn)]. rewrite Hpc in *. simpl in *. split; simpl; try done.
  - by rewrite Hout, Hq.
  - by rewrite Hr1.
Qed.

Lemma try_forward_inv s dg : inv s -> inv (try_forward dg s).
Proof.
  intros [Hin (del & Hf & Hd) Hout (Ha & Ht & Hn)]. unfold try_forward.
  assert (Hdrop : queued_in s `sublist_of` net_in s ++ [dg]) by by apply sublist_inserts_r.
  destruct (ch_send dg (c_to_os (ch s))) as [q| |] eqn:E; [|split; simpl; eauto..].
  destruct (send_sent _ _ _ _ E) as (Hq & Hr & Hr' & Ht'). split; simpl; try done.
  - by apply sublist_app.
  - exists del. split; [done|]. destruct (sock s) as [b|]; [|exfalso; specialize (Hn eq_refl); congruence].
    by rewrite Hd, Hq, <- !app_assoc.
  - split_and!; [done|congruence|]. intros E'. specialize (Hn E'). congruence.
Qed.

Lemma udp_relay_step_inv s s' : inv s -> relay_step s s' -> inv s'.
Proof.
  intros Hi Hs. destruct Hs as [s dg q ep Hpc Hr He|s dg q Hpc Hr He|s dg Hpc|s Hpc Hr|s bs ep Hpc Hl|s Hpc].
  - by apply egress_inv.
  - pose proof (egress_inv _ _ _ Hi Hpc Hr) as H1. by apply (stop_inv _ UPanicked) in H1.
  - destruct Hi as [Hin Hrd Hout Ha]. rewrite Hpc in *. simpl in *. split; simpl; try done.
    by rewrite Hout, <- app_assoc.
  - by apply stop_inv.
  - by apply try_forward_inv.
  - done.
Qed.

Lemma udp_reachable_inv a s : reachable a s -> inv s.
Proof.
  intros Hr. pose proof (udp_init_inv a) as Hi. revert Hi. unfold reachable in Hr.
  induction Hr as [|x y z [Hxy|Hxy] _ IH]; [done| |]; intros Hx; apply IH.
  - by eapply udp_relay_step_inv.
  - by eapply udp_os_step_inv.
Qed.


(** A receive call reports [ConnectionReset] only at the end: the relay is
    gone and every datagram that entered the channel has been returned. *)
Theorem bridge_udp_reset_is_final a s b n b' c (Hr : reachable a s) (Hb : sock s = Some b)
    (Hp : recv_from false n b (ch s) = (Ready (Err ConnectionReset), b', c)) :
  relay_alive (pc s) = false /\ Forall2 copy_of (os_read s) (queued_in s).
Proof.
  apply udp_reachable_inv in Hr. destruct (inv_read _ Hr) as (del & Hf & Hd). rewrite Hb in Hd.
  destruct (inv_rx _ Hr) as (_ & Ht & _). unfold recv_from, next_datagram in Hp. cbn in Hp.
  destruct (peeked b); [done|]. destruct (ch_recv (c_to_os (ch s))) as [|  |] eqn:E; try done.
  apply recv_disc in E as [Hq Hta]. split; [congruence|]. rewrite Hd, Hq. simpl. by rewrite app_nil_r.
Qed.

(** Wake-ups of the poll methods: a [Pending] result has handed the task's
    context to the channel exactly when the mutex was free.  Under contention
    ([try_lock] fails) the task is left without a waker. *)
Theorem bridge_udp_pending_wakers lk buf a n b c :
  (forall w b' c', poll_send_to lk buf a b c = (Pending, w, b', c') -> w = negb lk) /\
  (forall w b' c', poll_send_ready lk b c = (Pending, w, b', c') -> w = negb lk) /\
  (forall w b' c', poll_recv_from lk n b c = (Pending, w, b', c') -> w = negb lk) /\
  (forall w b' c', poll_recv_ready lk b c = (Pending, w, b', c') -> w = negb lk) /\
  poll_recv_from true n b c = (Pending, false, b, c).
Proof.
  split_and!; [intros w b' c'..|done].
  - unfold poll_send_to. destruct lk; [by intros; simplify_eq|]. repeat case_match; intros; by simplify_eq.
  - unfold poll_send_ready. destruct lk; [by intros; simplify_eq|]. repeat case_match; intros; by simplify_eq.
  - unfold poll_recv_from. destruct lk; [by intros; simplify_eq|]. repeat case_match; intros; by simplify_eq.
  - unfold poll_recv_ready. destruct lk; [by intros; simplify_eq|]. repeat case_match; intros; by simplify_eq.
Qed.

(** One IPv6 target ends the socket: the send call reports success, the
    relay that takes the datagram unwinds, and from then on every send fails
    with [BrokenPipe]. *)
Theorem bridge_udp_ipv6_kills a s b buf segs port c (Hr : reachable a s) (Hb : sock s = Some b) (Hpc : pc s = USelect)
    (Hq : ch_queue (c_to_lcore (ch s)) = [])
    (Hs : send_to false buf (mk_addr (V6 segs) port) b (ch s) = (Ready (Ok (length buf)), c)) :
  exists s', reachable a s' /\ pc s' = UPanicked /\ net_out s' = net_out s /\
    forall buf' t, send_to false buf' t b (ch s') = (Ready (Err BrokenPipe), ch s').
Proof.
  pose proof (send_to_run _ _ _ _ _ _ _ Hs) as (_ & _ & Hqq).
  rewrite (proj1 (inv_rx _ (udp_reachable_inv _ _ Hr))), Hpc, Hq in Hqq. specialize (Hqq eq_refl). simpl in Hqq.
  set (s1 := mk_sys (pc s) c (Some b) (net_in s) (queued_in s) (os_read s) (os_sent s ++ [mk_dg buf (mk_addr (V6 segs) port)]) (net_out s)).
  assert (H1 : reachable a s1).
  { eapply rtc_r; [exact Hr|]. right. by apply (uo_send_to s b false buf (mk_addr (V6 segs) port) (Ready (Ok (length buf))) c). }
  destruct (ch_recv (c_to_lcore c)) as [dg q| |] eqn:E.
  2,3: exfalso; assert (Hn : ch_queue (c_to_lcore c) = []) by (apply recv_empty; auto); rewrite Hn in Hqq; done.
  destruct (recv_item _ _ _ _ E) as (Hd & _). rewrite Hqq in Hd. simplify_eq.
  eexists. split; [eapply rtc_r; [exact H1|]; left; by eapply us_egress_panic|]. split_and!; [done..|].
  intros buf' t. unfold send_to. simpl. destruct (ps_get_ref (tx b)); [|done].
  destruct (drop_rx_spec _ q) as (Hd1 & _). by apply (send_closed _ (mk_dg buf' t)) in Hd1 as ->.
Qed.

End Proofs.

(** ** A reference sender and concrete runs *)

#[local] Existing Instance RefChannel.ref_channels.
#[local] Existing Instance RefChannel.ref_channels_laws.

Definition ref_reserve {A} (p : bool) (c : RefChannel.rchan A) : Poll (Result unit unit) * bool * RefChannel.rchan A :=
  if RefChannel.rc_rx c then
    if (length (RefChannel.rc_queue c) <? Nat.max 1 (RefChannel.rc_cap c))%nat then (Ready (Ok tt), p, c) else (Pending, p, c)
  else (Ready (Err tt), false, c).
Definition ref_send_item {A} (a : A) (p : bool) (c : RefChannel.rchan A) : Result unit unit * bool * RefChannel.rchan A :=
  match ch_send (a : A) (c : chan A) with Sent c => (Ok tt, p, c) | _ => (Err tt, p, c) end.

#[export] Instance ref_psender : @PollSender RefChannel.ref_channels := {|
  psender := bool;
  ps_new := true;
  ps_get_ref p := p;
  ps_poll_reserve := @ref_reserve;
  ps_send_item := @ref_send_item;
  ps_abort_send A p c := (p, c)
|}.

#[export] Instance ref_psender_laws : PollSenderLaws.
Proof.
  split; simpl; unfold ref_reserve, ref_send_item; simpl.
  - intros A p c r p' c'. destruct (RefChannel.rc_rx c) eqn:E; [case_match|]; intros [= <- <- <-]; by split.
  - intros A a p c p1 c1 r p2 c2. destruct (RefChannel.rc_rx c) eqn:E; [|done].
    destruct (_ <? _) eqn:El; [|done]. intros [= <- <-]. rewrite E, El. intros [= <- <- <-]. by split_and!.
  - intros A p c p' c' [= <- <-]. by split.
Qed.

Definition demo_addr : SocketAddr := mk_addr (V4 (ipv4 x0a x00 x00 x01)) 5353.
Definition v6_addr : SocketAddr := mk_addr (V6 [1%Z]) 5353.
Definition demo_dg : UdpDatagram := mk_dg [x01; x02] demo_addr.
Definition demo_in : sys := try_forward demo_dg (init demo_addr).
(** Readiness moves the datagram to the peek slot; a read with room for one
    byte truncates it. *)
Definition demo_peek : sys :=
  mk_sys USelect new_chans (Some (set_peeked (new demo_addr) (Some demo_dg))) [demo_dg] [demo_dg] [] [] [].
Definition demo_read : sys :=
  mk_sys USelect new_chans (Some (new demo_addr)) [demo_dg] [demo_dg] [([x01], demo_addr)] [] [].

Lemma demo_read_reachable : reachable demo_addr demo_read.
Proof.
  eapply (rtc_l _ _ demo_in).
  { left. by apply (us_ingress (init demo_addr) [x01; x02] (mk_endpoint (ipv4 x0a x00 x00 x01) 5353)). }
  eapply (rtc_l _ _ demo_peek).
  { right. by apply (uo_recv_ready demo_in (new demo_addr) false (Ready (Ok tt)) true). }
  apply rtc_once. right.
  by apply (uo_poll_recv_from demo_peek (set_peeked (new demo_addr) (Some demo_dg)) false 1 (Ready (Ok ([x01], demo_addr))) false).
Qed.


Definition demo_v6 : sys :=
  mk_sys USelect (snd (send_to false [x01] v6_addr (new demo_addr) new_chans)) (Some (new demo_addr)) [] [] [] [mk_dg [x01] v6_addr] [].
Definition demo_dead : sys := stop (set_pc demo_v6 USelect new_chans) UPanicked.

Lemma demo_dead_reachable : reachable demo_addr demo_dead.
Proof.
  eapply (rtc_l _ _ demo_v6).
  { right. by apply (uo_send_to (init demo_addr) (new demo_addr) false [x01] v6_addr (Ready (Ok 1))). }
  apply rtc_once. left. by apply (us_egress_panic demo_v6 (mk_dg [x01] v6_addr) (c_to_lcore new_chans)).
Qed.

Lemma bridge_udp_reset_is_final_witness : relay_alive (pc demo_dead) = false /\ Forall2 copy_of [] [].
Proof.
  exact (bridge_udp_reset_is_final demo_addr demo_dead (new demo_addr) 8 _ _ demo_dead_reachable eq_refl eq_refl).
Defined.

Lemma bridge_udp_ipv6_kills_witness : exists s', reachable demo_addr s' /\ pc s' = UPanicked.
Proof.
  assert (Hq : ch_queue (c_to_lcore (ch (init demo_addr))) = []) by reflexivity.
  destruct (bridge_udp_ipv6_kills demo_addr (init demo_addr) (new demo_addr) [x01] [1%Z] 5353 _
    (rtc_refl _ _) eq_refl eq_refl Hq eq_refl) as (s' & H1 & H2 & _).
  exists s'. split; [exact H1 | exact H2].
Defined.

End BridgeUdp.
