(* ===== verification/Worker.v ===== *)
(** * Bridge workers and the OS-side handle
      ([dpdk-net-util/src/bridge/{worker,command,handle}.rs])

    The registry of workers with its round robin and its readiness
    notification, the ephemeral port allocator, the command loop of
    [bridge_worker], the accept loop, and the three requests of [DpdkBridge].
    The relays the worker spawns are in the files of the TCP and UDP bridge. *)

From stdpp Require Import base gmap list fin_maps relations.
From Stdlib Require Import ZArith Strings.Byte Lia.
From S2P Require Import Prelude Mbuf Pktmbuf Queue ArpCache Device Smoltcp Reactor Tcp Udp Sockets Channel BridgeTcp BridgeUdp.

Module Worker.
Import Reactor.

(** ** [WorkerRegistry] *)

(** [workers] is one snapshot of the [ArcSwap]; [next] a wrapping [usize]. *)
Record WorkerRegistry (W : Type) := mk_registry { workers : list W; next : Z }.
Arguments mk_registry {W}.
Arguments workers {W}.
Arguments next {W}.

Definition registry_new {W} : WorkerRegistry W := mk_registry [] 0.

Definition select {W} (g : WorkerRegistry W) : Exec (option W * WorkerRegistry W) :=
  match workers g with
  | [] => Ret (None, g)
  | _ =>
      w ← index (workers g) (Z.to_nat (next g mod zlen (workers g)));
      Ret (Some w, mk_registry (workers g) (as_usize (next g + 1)))
  end.

(** The registration of [BridgeWorkers::spawn]. *)
Definition register {W} (w : W) (g : WorkerRegistry W) : WorkerRegistry W := mk_registry (workers g ++ [w]) (next g).

(** [n] calls of [select] in a row. *)
Fixpoint selects {W} (n : nat) (g : WorkerRegistry W) : Exec (list (option W) * WorkerRegistry W) :=
  match n with
  | O => Ret ([], g)
  | S n => '(w, g) ← select g; '(ws, g) ← selects n g; Ret (w :: ws, g)
  end.

(** ** [EphemeralPorts] *)

Record EphemeralPorts := mk_ports { next_port : Z }.
Definition ports_new : EphemeralPorts := mk_ports 49152.
Definition allocate (p : EphemeralPorts) : Z * EphemeralPorts :=
  (next_port p, mk_ports (if (next_port p =? 65535)%Z then 49152 else next_port p + 1)%Z).

Fixpoint allocates (n : nat) (p : EphemeralPorts) : list Z :=
  match n with O => [] | S n => let '(x, p) := allocate p in x :: allocates n p end.

(** ** [bridge_worker] *)

Definition RX_BUF_SIZE : Z := 65536.
Definition TX_BUF_SIZE : Z := 65536.
Definition UDP_RX_PACKETS : Z := 256.
Definition UDP_TX_PACKETS : Z := 256.
Definition UDP_MAX_PACKET_SIZE : Z := 1500.
Definition UNSPECIFIED : Ipv4Addr := ipv4 x00 x00 x00 x00.

(** [BridgeCommand]; the reply channel is the reply the handler yields. *)
Inductive BridgeCommand :=
  | CConnect (remote_addr : Ipv4Addr) (remote_port : Z)
  | CListen (port : Z)
  | CBindUdp (port : Z).

Section Model.
Context `{Smoltcp} {HC : Channels} {HP : PollSender}.

Inductive BridgeReply :=
  | RConnect (r : Result BridgeTcp.Conn BridgeError)
  | RListen (r : Result unit BridgeError)
  | RBindUdp (r : Result (BridgeUdp.BridgeUdpSocket * BridgeUdp.chans) BridgeError).

(** The tasks given to [spawn_local]. *)
Inductive Task :=
  | TRelay (s : Tcp.TcpStream) (c : BridgeTcp.Conn)
  | TAccept (l : Tcp.TcpListener)
  | TUdpRelay (u : Udp.UdpSocket) (c : BridgeUdp.chans).

(** [stream.wait_connected().await]: between two polls other tasks of the
    lcore run, [others] in turn; [None] while it still waits when they are
    used up. *)
Fixpoint await_connected (cx : Waker) (others : list (ReactorInner -> ReactorInner)) (t : Tcp.TcpStream) (r : ReactorInner)
    : Exec (option (Result unit unit) * ReactorInner) :=
  '(p, r) ← Tcp.poll_wait_connected cx t r;
  match p, others with
  | Ready x, _ => Ret (Some x, r)
  | Pending, f :: others => await_connected cx others t (f r)
  | Pending, [] => Ret (None, r)
  end.

(** One turn of the [while let] loop: the reply (none while still waiting),
    the spawned task, the ports and the reactor. *)
Definition handle_command (cx : Waker) (others : list (ReactorInner -> ReactorInner)) (cmd : BridgeCommand)
    (ports : EphemeralPorts) (r : ReactorInner)
    : Exec (option (BridgeReply * option Task) * EphemeralPorts * ReactorInner) :=
  match cmd with
  | CConnect remote_addr remote_port =>
      let '(local_port, ports) := allocate ports in
      match Tcp.connect remote_addr remote_port local_port RX_BUF_SIZE TX_BUF_SIZE r with
      | (Err e, r) => Ret (Some (RConnect (Err (BConnect e)), None), ports, r)
      | (Ok stream, r) =>
          '(x, r) ← await_connected cx others stream r;
          match x with
          | None => Ret (None, ports, r)
          | Some (Err _) =>
              r ← Tcp.drop_stream stream r;
              Ret (Some (RConnect (Err BConnectionFailed), None), ports, r)
          | Some (Ok _) =>
              let c := BridgeTcp.new_conn in
              Ret (Some (RConnect (Ok c), Some (TRelay stream c)), ports, r)
          end
      end
  | CListen port =>
      match Tcp.bind port RX_BUF_SIZE TX_BUF_SIZE r with
      | (Err e, r) => Ret (Some (RListen (Err (BListen e)), None), ports, r)
      | (Ok listener, r) => Ret (Some (RListen (Ok tt), Some (TAccept listener)), ports, r)
      end
  | CBindUdp port =>
      match Udp.bind port UDP_RX_PACKETS UDP_TX_PACKETS UDP_MAX_PACKET_SIZE r with
      | (Err e, r) => Ret (Some (RBindUdp (Err (BUdpBind e)), None), ports, r)
      | (Ok socket, r) =>
          let local_ip := default UNSPECIFIED (ip_addr r) in
          let local_addr := BridgeUdp.mk_addr (BridgeUdp.V4 local_ip) port in
          let c := BridgeUdp.new_chans in
          Ret (Some (RBindUdp (Ok (BridgeUdp.new local_addr, c)), Some (TUdpRelay socket c)), ports, r)
      end
  end.

(** ** [accept_loop] *)

(** One turn: what [listener.accept()] gave, and whether the receiver of
    [accept_tx] was still there when the message was sent. *)
Record AcceptLoop := mk_accept { running : bool; relays : list Tcp.TcpStream; messages : list (Result Tcp.TcpStream ListenError) }.

Definition accept_turn (ev : Result Tcp.TcpStream ListenError * bool) (a : AcceptLoop) : AcceptLoop :=
  if running a then
    match ev with
    | (Err e, sent) => mk_accept true (relays a) (if sent then messages a ++ [Err e] else messages a)
    | (Ok s, true) => mk_accept true (relays a ++ [s]) (messages a ++ [Ok s])
    | (Ok s, false) => mk_accept false (relays a) (messages a)
    end
  else a.

Definition accept_loop (evs : list (Result Tcp.TcpStream ListenError * bool)) : AcceptLoop :=
  fold_left (fun a ev => accept_turn ev a) evs (mk_accept true [] []).

End Model.

(** ** [DpdkBridge] *)

(** [connect], [listen] and [bind_udp] differ in the command and the reply
    type only: select a worker, send the command (which fails when that
    worker's receiver is gone), await the reply (which fails when the worker
    drops the sender). *)
Definition request {W A} (alive : W -> bool) (reply : W -> option (Result A BridgeError)) (g : WorkerRegistry W)
    : Exec (Result A BridgeError * WorkerRegistry W) :=
  '(w, g) ← select g;
  match w with
  | None => Ret (Err BDisconnected, g)
  | Some w =>
      if alive w then
        match reply w with
        | Some r => Ret (r, g)
        | None => Ret (Err BDisconnected, g)
        end
      else Ret (Err BDisconnected, g)
  end.

(** The worker answers a [Connect] with the ends of the channels, around which
    [connect] builds the stream. *)
Definition bridge_connect `{Channels} {W} (alive : W -> bool) (reply : W -> option (Result BridgeTcp.Conn BridgeError))
    (g : WorkerRegistry W) : Exec (Result (BridgeTcp.BridgeTcpStream * BridgeTcp.Conn) BridgeError * WorkerRegistry W) :=
  '(r, g) ← request alive reply g;
  Ret (result_map (fun channels => (BridgeTcp.new_stream, channels)) r, g).
Definition bridge_listen {W} (alive : W -> bool) (reply : W -> option (Result unit BridgeError)) := request alive reply.
Definition bridge_bind_udp {W U} (alive : W -> bool) (reply : W -> option (Result U BridgeError)) := request alive reply.

(** ** [wait_ready] against [spawn] *)

(** The waiter loads [workers], creates the [Notified] future and awaits it;
    the future receives the calls of [notify_waiters] made after its creation.
    A spawner publishes its channel, then calls [notify_waiters]. *)
Inductive waiter := WLoad | WCreate | WAwait (notified : bool) | WReturned.
Record ready_sys := mk_ready { registered : nat; to_notify : nat; wpc : waiter }.

Definition ready_init : ready_sys := mk_ready 0 0 WLoad.

Inductive ready_step : ready_sys -> ready_sys -> Prop :=
  | rd_publish s : ready_step s (mk_ready (S (registered s)) (S (to_notify s)) (wpc s))
  | rd_notify s n : to_notify s = S n ->
      ready_step s (mk_ready (registered s) n (match wpc s with WAwait _ => WAwait true | w => w end))
  | rd_load_some s : wpc s = WLoad -> registered s <> 0 -> ready_step s (mk_ready (registered s) (to_notify s) WReturned)
  | rd_load_none s : wpc s = WLoad -> registered s = 0 -> ready_step s (mk_ready (registered s) (to_notify s) WCreate)
  | rd_create s : wpc s = WCreate -> ready_step s (mk_ready (registered s) (to_notify s) (WAwait false))
  | rd_woken s : wpc s = WAwait true -> ready_step s (mk_ready (registered s) (to_notify s) WLoad).

(** ** Proofs *)

Section RegistryProofs.
Context {W : Type}.
Local Open Scope Z_scope.

Lemma select_run (g : WorkerRegistry W) : workers g <> [] -> 0 <= next g ->
  exists w, select g = Ret (Some w, mk_registry (workers g) (as_usize (next g + 1))) /\
    workers g !! Z.to_nat (next g mod zlen (workers g)) = Some w.
Proof.
  intros Hne Hn. unfold select, index. destruct (workers g) as [|w0 ws] eqn:E; [done|]. rewrite <- E in *.
  assert (0 < zlen (workers g)) by (rewrite E; unfold zlen; simpl; lia).
  pose proof (Z.mod_pos_bound (next g) (zlen (workers g)) ltac:(done)).
  destruct (lookup_lt_is_Some_2 (workers g) (Z.to_nat (next g mod zlen (workers g)))) as [w Hw].
  { unfold zlen in *. lia. }
  exists w. rewrite Hw. simpl. by rewrite E.
Qed.

Lemma selects_run n (g : WorkerRegistry W) : workers g <> [] -> 0 <= next g -> next g + Z.of_nat n <= 2 ^ 64 ->
  exists ws g', selects n g = Ret (Some <$> ws, g') /\ length ws = n /\
    forall i, (i < n)%nat -> ws !! i = workers g !! Z.to_nat ((next g + Z.of_nat i) mod zlen (workers g)).
Proof.
  revert g. induction n as [|n IH]; intros g Hne H0 Hw; [exists [], g; split_and!; [done..|lia]|].
  destruct (select_run g Hne H0) as (w & E & Hl).
  set (g1 := mk_registry (workers g) (as_usize (next g + 1))) in *.
  destruct (decide (n = O)) as [->|Hn0].
  { exists [w], g1. simpl. rewrite E. split_and!; [done..|]. intros [|i] Hi; [|lia]. by rewrite Z.add_0_r, Hl. }
  assert (Hnext : next g1 = next g + 1) by (apply wrap_small; lia).
  destruct (IH g1) as (ws & g' & E' & Hlen & Hws); [done | lia | lia |].
  exists (w :: ws), g'. simpl. rewrite E. simpl. rewrite E'. simpl. split_and!; [done | lia |].
  intros [|i] Hi; [by rewrite Z.add_0_r, Hl|]. simpl. rewrite Hws by lia. rewrite Hnext. simpl. do 3 f_equal. lia.
Qed.

(** One full round visits the workers in rotated order. *)
Lemma round_rotate (g : WorkerRegistry W) ws : 0 <= next g -> length ws = length (workers g) ->
  (forall i, (i < length ws)%nat -> ws !! i = workers g !! Z.to_nat ((next g + Z.of_nat i) mod zlen (workers g))) ->
  ws = rotate (Z.to_nat (next g)) (workers g).
Proof.
  intros H0 Hlen Hws. apply list_eq_same_length with (length (workers g)); [by rewrite length_rotate | done |].
  intros i x y Hi. rewrite Hws by lia. rewrite lookup_rotate_r by done. unfold rotate_nat_add.
  rewrite Z2Nat.id by done. unfold zlen. intros -> [= ->]. done.
Qed.

Lemma rotate_perm n (l : list W) : rotate n l ≡ₚ l.
Proof. unfold rotate. rewrite Permutation_app_comm. by rewrite take_drop. Qed.

(** Round robin: as long as the [usize] counter does not wrap, as many
    consecutive calls of [select] as there are workers succeed and yield every
    registered worker exactly once, in registration order starting from the
    counter's position. *)
Theorem select_round_robin (g : WorkerRegistry W) (Hne : workers g <> []) (H0 : 0 <= next g)
    (Hw : next g + zlen (workers g) <= 2 ^ 64) :
  exists ws g', selects (length (workers g)) g = Ret (Some <$> ws, g') /\
    ws = rotate (Z.to_nat (next g)) (workers g) /\ ws ≡ₚ workers g.
Proof.
  destruct (selects_run (length (workers g)) g Hne H0 Hw) as (ws & g' & E & Hlen & Hws).
  assert (Hr : ws = rotate (Z.to_nat (next g)) (workers g)).
  { apply round_rotate; [done..|]. intros i Hi. apply Hws. by rewrite <- Hlen. }
  exists ws, g'. split_and!; [done..|]. rewrite Hr. apply rotate_perm.
Qed.

(** ** Requests *)

(** [n] requests in a row. *)
Fixpoint requests {A} (alive : W -> bool) (reply : W -> option (Result A BridgeError)) (n : nat) (g : WorkerRegistry W)
    : Exec (list (Result A BridgeError)) :=
  match n with
  | O => Ret []
  | S n => '(r, g) ← request alive reply g; rs ← requests alive reply n g; Ret (r :: rs)
  end.

Definition answer {A} (alive : W -> bool) (reply : W -> option (Result A BridgeError)) (w : W) : Result A BridgeError :=
  if alive w then default (Err BDisconnected) (reply w) else Err BDisconnected.

Lemma requests_selects {A} (alive : W -> bool) (reply : W -> option (Result A BridgeError)) n g ws g' :
  selects n g = Ret (Some <$> ws, g') -> requests alive reply n g = Ret (answer alive reply <$> ws).
Proof.
  revert g ws. induction n as [|n IH]; intros g ws E; simpl in *.
  { injection E as E _. symmetry in E. apply fmap_nil_inv in E. by subst. }
  unfold request, answer. destruct (select g) as [[w g1]| |] eqn:Es; simpl in *; try done.
  destruct (selects n g1) as [[ws1 g2]| |] eqn:E1; simpl in *; try done. injection E as E ->.
  destruct ws as [|w' ws]; [done|]. injection E as -> ->. pose proof (IH _ _ E1) as Hr. simpl.
  destruct (alive w'); [destruct (reply w')|]; simpl; rewrite Hr; done.
Qed.

(** A live worker is found: dead workers stay registered, so a single
    request may report [Disconnected], but among as many consecutive requests
    as there are workers one is answered by any given live worker. *)
Theorem bridge_reaches_live_worker {A} (alive : W -> bool) (reply : W -> option (Result A BridgeError)) g w r
    (H0 : 0 <= next g) (Hw : next g + zlen (workers g) <= 2 ^ 64) (Hin : w ∈ workers g)
    (Ha : alive w = true) (Hr : reply w = Some r) :
  exists rs, requests alive reply (length (workers g)) g = Ret rs /\ r ∈ rs.
Proof.
  assert (Hne : workers g <> []) by (intros E; rewrite E in Hin; by apply elem_of_nil in Hin).
  destruct (selects_run (length (workers g)) g Hne H0 Hw) as (ws & g' & E & Hlen & Hws).
  exists (answer alive reply <$> ws). split; [by eapply requests_selects|].
  apply list_elem_of_fmap. exists w. split; [unfold answer; by rewrite Ha, Hr|].
  rewrite (round_rotate g ws), rotate_perm; [done..|]. intros i Hi. apply Hws. by rewrite <- Hlen.
Qed.

End RegistryProofs.

Section PortProofs.
Local Open Scope Z_scope.

Lemma allocate_cycle k : 0 <= k -> allocate (mk_ports (49152 + k mod 16384)) =
  (49152 + k mod 16384, mk_ports (49152 + (k + 1) mod 16384)).
Proof.
  intros Hk. unfold allocate. simpl. do 2 f_equal. pose proof (Z.mod_pos_bound k 16384 ltac:(lia)).
  rewrite (Z.add_mod k 1) by lia. change (1 mod 16384) with 1. destruct (Z.eqb_spec (49152 + k mod 16384) 65535).
  - replace (k mod 16384) with 16383 by lia. done.
  - rewrite (Z.mod_small (k mod 16384 + 1)) by lia. lia.
Qed.

Lemma allocates_cycle n k : 0 <= k -> allocates n (mk_ports (49152 + k mod 16384)) =
  (fun i => 49152 + (k + Z.of_nat i) mod 16384) <$> seq 0 n.
Proof.
  revert k. induction n as [|n IH]; intros k Hk; [done|]. cbn [allocates]. rewrite allocate_cycle by done.
  rewrite IH by lia. cbn [seq fmap list_fmap]. f_equal; [by rewrite Z.add_0_r|].
  rewrite <- fmap_S_seq, <- list_fmap_compose. apply list_fmap_ext. intros i x _. simpl. do 2 f_equal. lia.
Qed.

(** Ephemeral ports: the [i]-th connection of a worker uses port
    [49152 + i mod 16384]; all ports are in the IANA range, the first 16384 are
    distinct, and connection 16384 reuses port 49152 whether or not it is
    still in use. *)
Theorem ephemeral_ports_cycle n :
  allocates n ports_new = ((fun i => 49152 + Z.of_nat i mod 16384) <$> seq 0 n) /\
  (forall p, p ∈ allocates n ports_new -> 49152 <= p <= 65535) /\
  (Z.of_nat n <= 16384 -> NoDup (allocates n ports_new)) /\
  (16384 < Z.of_nat n -> allocates n ports_new !! Z.to_nat 16384 = allocates n ports_new !! 0%nat).
Proof.
  assert (E : allocates n ports_new = ((fun i => 49152 + Z.of_nat i mod 16384) <$> seq 0 n)).
  { change ports_new with (mk_ports (49152 + 0 mod 16384)). by rewrite allocates_cycle. }
  rewrite E. split; [done|]. split; [|split].
  - intros p (i & -> & _)%list_elem_of_fmap. pose proof (Z.mod_pos_bound (Z.of_nat i) 16384 ltac:(lia)). lia.
  - intros Hn. apply NoDup_fmap_2_strong; [|apply NoDup_seq]. intros x y Hx%elem_of_seq Hy%elem_of_seq.
    rewrite !Z.mod_small by lia. lia.
  - intros Hn. rewrite !list_lookup_fmap, !lookup_seq_lt by lia. cbn [fmap option_fmap option_map].
    rewrite !Nat.add_0_l. by rewrite Z2Nat.id by lia.
Qed.

End PortProofs.

Section WorkerProofs.
Context `{HL : EthBurstLaws} {HI : HashMapIter} {HS : Smoltcp} {HSL : SmoltcpLaws} {HC : Channels} {HP : PollSender}.
Import Sockets.

(** Other tasks leave the sockets of this one alone. *)
Definition keeps (f : ReactorInner -> ReactorInner) : Prop := forall r T U, holds r T U -> holds (f r) T U.

Definition task_tcp (t : option Task) : list SocketHandle :=
  match t with Some (TRelay s _) => [Tcp.handle s] | Some (TAccept l) => Tcp.handles l | _ => [] end.
Definition task_udp (t : option Task) : list SocketHandle :=
  match t with Some (TUdpRelay u _) => [Udp.udp_handle u] | _ => [] end.
Definition reply_ok (r : BridgeReply) : bool :=
  match r with RConnect r => is_ok r | RListen r => is_ok r | RBindUdp r => is_ok r end.

Lemma await_holds cx others t r T U : Forall keeps others -> holds r T U -> Tcp.handle t ∈ T ->
  exists x r', await_connected cx others t r = Ret (x, r') /\ holds r' T U.
Proof.
  intros Ho. revert r. induction Ho as [|f others Hf Ho IH]; intros r Hh Hin; simpl.
  all: destruct (with_tcp_to (Tcp.handle t) (fun s => match tcp_state s with
      | Established => (Ready (Ok tt), s) | Closed | TimeWait => (Ready (Err tt), s)
      | _ => (Pending, tcp_register_send_waker cx s) end) r T U Hh Hin) as (p & r1 & E & [Hh1 _]);
    unfold Tcp.poll_wait_connected; rewrite E; simpl; destruct p as [x|]; eauto.
Qed.

Ltac reply_done := split; [done|]; simpl; split; [done|]; first [done | by intros []].


(** C40: a connection that the peer closes before the worker looks blocks the
    worker: with the socket in [CloseWait], and as long as nobody else moves it
    out of that state, [wait_connected] never completes, so neither this nor any
    later command of the lcore is answered. *)
Theorem close_wait_blocks_worker cx others t r s (Hs : Tcp.sock_of t r = Some s) (Hst : tcp_state s = CloseWait)
    (Ho : Forall (fun f => forall r s, Tcp.sock_of t r = Some s -> tcp_state s = CloseWait ->
            exists s', Tcp.sock_of t (f r) = Some s' /\ tcp_state s' = CloseWait) others) :
  exists r', await_connected cx others t r = Ret (None, r').
Proof.
  assert (Hpoll : forall r s, Tcp.sock_of t r = Some s -> tcp_state s = CloseWait ->
    exists r' s', Tcp.poll_wait_connected cx t r = Ret (Pending, r') /\ Tcp.sock_of t r' = Some s' /\ tcp_state s' = CloseWait).
  { clear Ho others Hs Hst r s. intros r s Hs Hst. unfold Tcp.poll_wait_connected.
    destruct (Tcp.with_tcp_stream t (fun s => match tcp_state s with
      | Established => (Ready (Ok tt), s) | Closed | TimeWait => (Ready (Err tt), s)
      | _ => (Pending, tcp_register_send_waker cx s) end) r s Hs) as (r' & -> & Hs').
    rewrite Hst in *. eexists _, _. split_and!; [done | exact Hs' |]. simpl. by rewrite send_waker_state. }
  revert r s Hs Hst. induction Ho as [|f others Hf Ho IH]; intros r s Hs Hst; simpl;
    destruct (Hpoll r s Hs Hst) as (r1 & s1 & -> & Hs1 & Hst1); simpl; [by eauto|].
  destruct (Hf r1 s1 Hs1 Hst1) as (s2 & Hs2 & Hst2). by eapply IH.
Qed.

(** The accept loop starts a relay for exactly the connections it handed to
    the OS thread, in order, and ends exactly when an accepted connection
    cannot be delivered; a failing [accept] never ends it, even when nobody
    listens any more. *)
Theorem accept_loop_relays evs :
  let a := accept_loop evs in
  relays a = omap (fun m => match m with Ok s => Some s | Err _ => None end) (messages a) /\
  (running a = false <-> exists s, (Ok s, false) ∈ evs) /\
  (running a = true -> messages a = omap (fun ev => if ev.2 : bool then Some ev.1 else None) evs).
Proof.
  unfold accept_loop. induction evs as [|ev evs IH] using rev_ind; simpl.
  { split_and!; try done. split; [done|]. by intros [? ?%elem_of_nil]. }
  rewrite fold_left_app. simpl. destruct IH as (Hr & Hrun & Hm).
  set (a := fold_left _ evs _) in *. unfold accept_turn. destruct (running a) eqn:Ea.
  - specialize (Hm eq_refl). rewrite omap_app, <- Hm.
    assert (Hno : ~ exists s, (Ok s, false) ∈ evs) by (intros Hx; apply Hrun in Hx; done).
    destruct ev as [[s|e] []]; simpl; rewrite ?omap_app, <- ?Hr, ?app_nil_r; simpl; rewrite ?app_nil_r;
      split_and!; try done; split; try done.
    all: try (intros [s' [Hx|Hx%list_elem_of_singleton]%elem_of_app]; [by destruct Hno; eauto | simplify_eq]).
    intros _. exists s. apply elem_of_app. right. by apply list_elem_of_singleton.
  - rewrite Ea. split_and!; try done. split; [|done]. intros _. destruct (proj1 Hrun eq_refl) as [s Hs].
    exists s. apply elem_of_app. by left.
Qed.

End WorkerProofs.

(** ** Readiness *)

Lemma ready_registered s s' : rtc ready_step s s' -> (registered s <= registered s')%nat.
Proof. induction 1 as [|x y z Hxy _ IH]; [done|]. etrans; [|exact IH]. destruct Hxy; simpl; lia. Qed.

Lemma ready_sound s : rtc ready_step ready_init s -> wpc s = WReturned -> registered s <> 0.
Proof.
  intros Hr. revert s Hr.
  apply (rtc_ind_r (R := ready_step) (fun s => wpc s = WReturned -> registered s <> 0) ready_init); [done|].
  intros y z _ Hyz IH. destruct Hyz as [s|s n Hn|s Hl Hn|s Hl Hn|s Hl|s Hl]; simpl; try done; try lia.
  intros E. apply IH. by destruct (wpc s).
Qed.

Lemma ready_stuck s s' : rtc ready_step s s' -> wpc s = WAwait false -> to_notify s = 0 ->
  registered s' = registered s -> wpc s' = WAwait false.
Proof.
  induction 1 as [|x y z Hxy Hyz IH]; [done|]. intros Hw Hn Hreg. pose proof (ready_registered _ _ Hyz) as Hle.
  destruct Hxy as [s|s n Hn'|s Hl Hn'|s Hl Hn'|s Hl|s Hl]; simpl in *; try congruence; try lia.
Qed.

(** [wait_ready] returns only when a worker is registered; but it can miss
    the notification: a worker that registers and notifies between the
    waiter's load and the creation of its [Notified] future leaves it waiting,
    and it waits for as long as no further worker registers. *)
Theorem wait_ready_can_miss :
  (forall s, rtc ready_step ready_init s -> wpc s = WReturned -> registered s <> 0) /\
  exists s, rtc ready_step ready_init s /\ registered s = 1 /\ to_notify s = 0 /\
    forall s', rtc ready_step s s' -> registered s' = 1 -> wpc s' = WAwait false.
Proof.
  split; [apply ready_sound|]. exists (mk_ready 1 0 (WAwait false)). split_and!; [|done|done|].
  - eapply rtc_l; [by apply rd_load_none|]. eapply rtc_l; [apply rd_publish|].
    eapply rtc_l; [by apply (rd_notify _ 0)|]. apply rtc_once. by apply (rd_create (mk_ready 1 0 WCreate)).
  - intros s' Hs' Hreg. by apply (ready_stuck _ _ Hs').
Qed.

(** ** Concrete runs *)

#[local] Existing Instance Mbuf.ref_pktmbuf.
#[local] Existing Instance Queue.ref_mempool.
#[local] Existing Instance Queue.ref_burst.
#[local] Existing Instance Queue.ref_burst_laws.
#[local] Existing Instance Device.ref_hm_iter.
#[local] Existing Instance RefStack.ref_smoltcp.
#[local] Existing Instance RefStack.ref_smoltcp_laws.
#[local] Existing Instance RefChannel.ref_channels.
#[local] Existing Instance BridgeUdp.ref_psender.

Lemma select_round_robin_witness :
  exists ws g', selects 3 (mk_registry [10; 20; 30] 4) = Ret (Some <$> ws, g') /\ ws = [20; 30; 10].
Proof.
  destruct (select_round_robin (mk_registry [10; 20; 30] 4) ltac:(done) ltac:(done) ltac:(done)) as (ws & g' & E & Hw & _).
  exists ws, g'. split; [exact E | rewrite Hw; reflexivity].
Defined.

Lemma bridge_reaches_live_worker_witness :
  exists rs, requests (fun w => (w =? 20)%nat) (fun w => Some (Ok w)) 3 (mk_registry [10; 20; 30] 2) = Ret rs /\ Ok 20 ∈ rs.
Proof.
  refine (bridge_reaches_live_worker (fun w => (w =? 20)%nat) (fun w => Some (Ok w)) (mk_registry [10; 20; 30] 2) 20 (Ok 20)
    _ _ _ _ _); [done | done | | done | done].
  apply list_elem_of_In. simpl. auto.
Defined.

(** The network completes the handshake of socket 0. *)
Definition establish (r : ReactorInner) : ReactorInner :=
  match set_get (sockets r) 0 with
  | Some (inl s) => set_sockets r (set_put 0 (inl (RefStack.with_state Established s)) (sockets r))
  | _ => r
  end.

Lemma establish_keeps : keeps establish.
Proof.
  intros r T U Hh. unfold establish. destruct (set_get (sockets r) 0) as [[s|s]|] eqn:E; [|done|done].
  unfold Sockets.holds in *. eapply Sockets.owns_same; [|exact Hh]. by eapply Sockets.put_same.
Qed.


Lemma close_wait_blocks_worker_witness :
  let r := set_sockets (Sockets.reactor Sockets.fresh) [Some (Reactor.sock_in CloseWait)] in
  exists r', await_connected 7 [id; id; id] (Tcp.mk_stream 0) r = Ret (None, r').
Proof.
  intros r. eapply (close_wait_blocks_worker 7 [id; id; id] (Tcp.mk_stream 0) r); [reflexivity | reflexivity |].
  repeat constructor; intros r0 s Hs Hst; eauto.
Defined.

End Worker.
