(* ===== verification/App.v ===== *)
(** * The application runner ([dpdk-net-util/src/app.rs])

    [DpdkApp::run] composes the other components: it collects the lcores,
    creates the packet pool, configures the port with one queue pair per lcore,
    launches a worker on every lcore but the main one and runs the main lcore's
    worker itself.  The EAL, the driver and the pool are those of the files it
    calls. *)

From stdpp Require Import base gmap list fin_maps numbers.
From Stdlib Require Import ZArith Strings.Byte Lia.
From S2P Require Import Prelude Mbuf Pktmbuf Queue ArpCache Device Eth Eal Lcore.

Local Open Scope Z_scope.

Module App.
Import Lcore Queue.

Definition DEFAULT_MBUF_HEADROOM : Z := 128.
Definition DEFAULT_MBUF_DATA_ROOM_SIZE : Z := 2048 + as_u16 DEFAULT_MBUF_HEADROOM.
Definition DEFAULT_MTU : Z := 1500.

(** [DpdkApp] and its builder. *)
Record DpdkApp := mk_app {
  port_id : Z;
  ip_addr : option Ipv4Addr;
  gateway : option Ipv4Addr;
  mbufs_per_queue : Z;
  rx_desc : Z;
  tx_desc : Z
}.

Definition new : DpdkApp := mk_app 0 None None 8192 1024 1024.
Definition with_eth_dev (p : Z) (a : DpdkApp) := mk_app p (ip_addr a) (gateway a) (mbufs_per_queue a) (rx_desc a) (tx_desc a).
Definition with_ip (x : Ipv4Addr) (a : DpdkApp) := mk_app (port_id a) (Some x) (gateway a) (mbufs_per_queue a) (rx_desc a) (tx_desc a).
Definition with_gateway (x : Ipv4Addr) (a : DpdkApp) := mk_app (port_id a) (ip_addr a) (Some x) (mbufs_per_queue a) (rx_desc a) (tx_desc a).
Definition with_mbufs_per_queue (n : Z) (a : DpdkApp) := mk_app (port_id a) (ip_addr a) (gateway a) n (rx_desc a) (tx_desc a).
Definition with_descriptors (rx tx : Z) (a : DpdkApp) := mk_app (port_id a) (ip_addr a) (gateway a) (mbufs_per_queue a) rx tx.

(** [u32] multiplication: a panic with overflow checks, else wrap-around. *)
Definition mul_u32 (overflow_checks : bool) (a b : Z) : Exec Z :=
  if a * b <=? u32_max then Ret (a * b) else if overflow_checks then Panic else Ret (as_u32 (a * b)).


Definition mac_of_bytes (l : list byte) : MacAddress :=
  match l with [a; b; c; d; e; f] => mac6 a b c d e f | _ => mac6 x00 x00 x00 x00 x00 x00 end.

Section Model.
Context `{PktMbuf} `{EthBurst} `{HashMapIter}.

(** ** [run_worker]: the device it sets up *)

Definition worker_device (queue_id port_id : Z) (mempool : pool_ptr) (mac : MacAddress) (ip : Ipv4Addr)
    (shared_arp_cache : option Device.ArpHandle) : Exec Device.DpdkDevice :=
  let mbuf_capacity := DEFAULT_MBUF_DATA_ROOM_SIZE - DEFAULT_MBUF_HEADROOM in
  device ← Device.new (mk_rxq port_id queue_id) (mk_txq port_id queue_id) mempool DEFAULT_MTU mbuf_capacity;
  Ret (match shared_arp_cache with
       | Some cache => Device.with_shared_arp_cache device queue_id cache mac ip
       | None => device
       end).

(** The lcore functions of the EAL. *)
Variable RTE_MAX_LCORE : Z.
Variable rte_lcore_is_enabled : Z -> bool.
Variable main_lcore : Z.
Variable rte_get_next_lcore : Z -> Z -> Z -> Z.
Context {st : Type}.
Variable rte_eal_remote_launch : (unit -> Z) -> Z -> st -> Z * st.
Variable rte_eal_mp_wait_lcore : st -> st.

(** The port's driver. *)
Context {rxconf txconf drv : Type}.
Abbreviation call := (@Eth.eth_call pool_ptr rxconf txconf).
Variable drv_run : call -> drv -> Z * Eth.eth_out * drv.
Variable drv_errno : drv -> Z.
Variables TCP4 TCP6 : Z.

(** ** [run] *)

(** The [for] loop over the enumerated lcores: the queue of the main lcore and
    the workers launched, with their queues.  A launched closure runs
    [run_worker] and returns 0. *)
Fixpoint launch_workers (i : Z) (lcores : list Lcore) (main_queue_id : Z) (s : lc (st := st))
    : Exec (Z * list (Lcore * Z) * lc (st := st)) :=
  match lcores with
  | [] => Ret (main_queue_id, [], s)
  | l :: lcores =>
      if is_main main_lcore l then launch_workers (i + 1) lcores (as_u16 i) s
      else
        match launch rte_eal_remote_launch l (fun _ => 0) s with
        | (Err _, _) => Panic
        | (Ok _, s) =>
            '(m, started, s) ← launch_workers (i + 1) lcores main_queue_id s;
            Ret (m, (l, as_u16 i) :: started, s)
        end
  end.

Definition eth_conf (reta_size num_queues : Z) : Eth.EthConf :=
  if (0 <? reta_size) && (1 <? num_queues) then Eth.rss_with_hash (Z.lor TCP4 TCP6) Eth.EthConf_new else Eth.EthConf_new.

Definition dev_builder (a : DpdkApp) (reta_size num_queues : Z) : Eth.EthDevBuilder (rxconf := rxconf) (txconf := txconf) :=
  Eth.b_with_tx_queue_conf (Eth.with_nb_desc (tx_desc a) Eth.QueueConf_default)
    (Eth.b_with_rx_queue_conf (Eth.with_nb_desc (rx_desc a) Eth.QueueConf_default)
      (Eth.b_with_nb_tx_queues (as_u16 num_queues)
        (Eth.b_with_nb_rx_queues (as_u16 num_queues)
          (Eth.b_with_eth_conf (eth_conf reta_size num_queues) (Eth.Builder_new (port_id a)))))).

(** The world of a run: the driver with its call log, the DPDK memory and the
    EAL's lcores. *)
Record world := mk_world { w_eth : drv * list call; w_rte : rte; w_lc : lc (st := st) }.

Definition POOL_NAME : list byte := [x64; x70; x64; x6b; x5f; x61; x70; x70; x5f; x70; x6f; x6f; x6c].

(** The workers of a run (lcore, queue, device), the main lcore's last. *)
Record worker := mk_worker { wk_lcore : Lcore; wk_queue : Z; wk_device : Device.DpdkDevice }.

Fixpoint start_workers (port : Z) (pool : pool_ptr) (mac : MacAddress) (ip : Ipv4Addr) (cache : option Device.ArpHandle)
    (ws : list (Lcore * Z)) : Exec (list worker) :=
  match ws with
  | [] => Ret []
  | (l, q) :: ws =>
      d ← worker_device q port pool mac ip cache;
      rest ← start_workers port pool mac ip cache ws;
      Ret (mk_worker l q d :: rest)
  end.

Definition run (overflow_checks : bool) (a : DpdkApp) (w : world) : Exec (list worker * world) :=
  ip ← expect (ip_addr a);
  _ ← expect (gateway a);
  lcores ← expect (collect RTE_MAX_LCORE rte_get_next_lcore (S (Z.to_nat RTE_MAX_LCORE)) all);
  let num_queues := zlen lcores in
  if num_queues =? 0 then Panic else
  let '(info, eth) := Eth.info drv_run drv_errno (Eth.mk_ethdev (port_id a)) (w_eth w) in
  reta_size ← unwrap_result info;
  total_mbufs ← mul_u32 overflow_checks (mbufs_per_queue a) (as_u32 num_queues);
  let config := Pktmbuf.with_data_room_size DEFAULT_MBUF_DATA_ROOM_SIZE (Pktmbuf.with_num_mbufs total_mbufs Pktmbuf.MemPoolConfig_new) in
  let '(pool, r) := Pktmbuf.create POOL_NAME config (w_rte w) in
  mempool ← unwrap_result pool;
  let '(built, eth) := Eth.build drv_run drv_errno (dev_builder a reta_size num_queues) mempool eth in
  eth_dev ← (b ← built; unwrap_result b);
  let '(mac, eth) := Eth.mac_addr drv_run drv_errno eth_dev eth in
  mac ← unwrap_result mac;
  let mac_addr := mac_of_bytes mac in
  let shared_arp_cache := if 1 <? num_queues then Some Device.arp_handle else None in
  '(main_queue_id, started, s) ← launch_workers 0 lcores 0 (w_lc w);
  workers ← start_workers (port_id a) mempool mac_addr ip shared_arp_cache
    (started ++ [(main main_lcore, main_queue_id)]);
  let s := mk_lc (boxes s - zlen started) (rte_eal_mp_wait_lcore (eal s)) in
  let '(_, eth) := Eth.stop drv_run drv_errno eth_dev eth in
  let '(_, eth) := Eth.close drv_run drv_errno eth_dev eth in
  Ret (workers, mk_world eth (rte_mempool_free mempool r) s).

End Model.

Section Proofs.
Context `{HL : EthBurstLaws} {HI : HashMapIter}.
Variable RTE_MAX_LCORE : Z.
Variable rte_lcore_is_enabled : Z -> bool.
Variable main_lcore : Z.
Variable rte_get_next_lcore : Z -> Z -> Z -> Z.
Context {st : Type}.
Variable rte_eal_remote_launch : (unit -> Z) -> Z -> st -> Z * st.
Variable rte_eal_mp_wait_lcore : st -> st.
Context {rxconf txconf drv : Type}.
Variable drv_run : @Eth.eth_call pool_ptr rxconf txconf -> drv -> Z * Eth.eth_out * drv.
Variable drv_errno : drv -> Z.
Variables TCP4 TCP6 : Z.

Abbreviation app_run := (run RTE_MAX_LCORE main_lcore rte_get_next_lcore rte_eal_remote_launch
  rte_eal_mp_wait_lcore drv_run drv_errno TCP4 TCP6).
Abbreviation launch_all := (launch_workers main_lcore rte_eal_remote_launch).

(** Lcores numbered from [i]. *)
Definition enumerate (i : Z) (ls : list Lcore) : list (Lcore * Z) := zip ls (seqZ i (zlen ls)).

Lemma enumerate_cons i l ls : enumerate i (l :: ls) = (l, i) :: enumerate (i + 1) ls.
Proof. unfold enumerate. rewrite zlen_cons, seqZ_cons by (pose proof (zlen_nonneg ls); lia). simpl. by replace (Z.pred (zlen ls + 1)) with (zlen ls) by lia. Qed.

Lemma main_spec l : is_main main_lcore l = true <-> l = main main_lcore.
Proof. unfold is_main, main. destruct l as [i]. simpl. rewrite Z.eqb_eq. split; [by intros ->|by intros [= ->]]. Qed.

(** Every lcore of the list gets its own index; the main one is reported. *)
Lemma launch_workers_run i ls mq s m started s' : 0 <= i -> i + zlen ls <= 65536 -> NoDup ls ->
  launch_all i ls mq s = Ret (m, started, s') ->
  (main main_lcore ∈ ls -> (main main_lcore, m) :: started ≡ₚ enumerate i ls) /\
  ((main main_lcore ∉ ls) -> m = mq /\ started = enumerate i ls) /\
  Forall (fun x => x.1 <> main main_lcore) started.
Proof.
  revert i mq s started. induction ls as [|l ls IH]; intros i mq s started Hi0 Hb Hnd E; cbn [launch_workers] in E.
  { simplify_eq. split_and!; [by intros ?%elem_of_nil | done | constructor]. }
  rewrite zlen_cons in Hb. pose proof (zlen_nonneg ls). apply list.NoDup_cons in Hnd as [Hl Hnd].
  assert (Hi : as_u16 i = i) by (apply wrap_small; lia). rewrite Hi in E. rewrite enumerate_cons.
  destruct (is_main main_lcore l) eqn:Em.
  - apply main_spec in Em. subst l. destruct (IH (i + 1) i s started) as (_ & Hno & Hf); [lia..|done|done|].
    destruct (Hno Hl) as [-> ->]. split_and!; [done | | done]. intros Hn. destruct Hn. by left.
  - assert (Hne : l <> main main_lcore) by (intros ->; by rewrite (proj2 (main_spec _) eq_refl) in Em).
    destruct (launch _ l _ s) as [[[]|] s1]; [|done].
    destruct (launch_all (i + 1) ls mq s1) as [[[m1 st1] s2]| |] eqn:E1; simpl in E; simplify_eq.
    destruct (IH (i + 1) mq s1 st1) as (Hin & Hno & Hf); [lia..|done|done|].
    split_and!; [| | by constructor].
    + intros [He|Hm]%elem_of_cons; [congruence|]. rewrite Permutation_swap. by rewrite Hin.
    + intros Hn. destruct Hno as [-> ->]; [|done]. intros Hx. apply Hn. by right.
Qed.

(** The capacity assertion of the device holds for the constants used. *)
Lemma worker_device_run q port pool mac ip cache :
  exists d, worker_device q port pool mac ip cache = Ret d /\ Device.dev_wf d /\
    Device.rxq d = mk_rxq port q /\ Device.txq d = mk_txq port q /\ Device.mempool d = pool /\
    Device.shared_arp_cache d = cache /\ (cache <> None -> Device.queue_id d = q).
Proof.
  unfold worker_device, Device.new. eexists. split; [reflexivity|].
  destruct cache; (split; [split; simpl; [apply Nat.le_0_l | apply Nat.le_0_l | apply Forall_nil_2 | apply Forall_nil_2 | by vm_compute]|]);
    by split_and!.
Qed.

Definition worker_ok (port : Z) (cache : option Device.ArpHandle) (k : worker) : Prop :=
  Device.dev_wf (wk_device k) /\ Device.rxq (wk_device k) = mk_rxq port (wk_queue k) /\
  Device.txq (wk_device k) = mk_txq port (wk_queue k) /\ Device.shared_arp_cache (wk_device k) = cache /\
  (cache <> None -> Device.queue_id (wk_device k) = wk_queue k).

Lemma start_workers_run port pool mac ip cache ws :
  exists ks, start_workers port pool mac ip cache ws = Ret ks /\
    ((fun k => (wk_lcore k, wk_queue k)) <$> ks) = ws /\ Forall (worker_ok port cache) ks.
Proof.
  induction ws as [|[l q] ws (ks & E & Hk & Hf)]; cbn [start_workers]; [by exists []|].
  destruct (worker_device_run q port pool mac ip cache) as (d & -> & ? & ? & ? & ? & ? & ?).
  cbn [mbind exec_bind]. rewrite E. cbn [mbind exec_bind].
  eexists. split; [reflexivity|]. rewrite fmap_cons, Hk. split; [done|]. by constructor.
Qed.

(** Documented behaviour of the lcore functions, as for the iterator; the main
    lcore is enabled; there are at most 65536 lcores. *)
Hypothesis max_u16 : 0 <= RTE_MAX_LCORE <= 65536.
Hypothesis next_lcore_spec : forall i skip, 0 <= i <= u32_max ->
  let r := rte_get_next_lcore i (if skip : bool then 1 else 0) 0 in
  as_u32 (i + 1) <= RTE_MAX_LCORE ->
  (r = RTE_MAX_LCORE \/ (as_u32 (i + 1) <= r < RTE_MAX_LCORE /\ eligible rte_lcore_is_enabled main_lcore skip r = true)) /\
  (forall j, as_u32 (i + 1) <= j < r -> eligible rte_lcore_is_enabled main_lcore skip j = false).
Hypothesis main_enabled : 0 <= main_lcore < RTE_MAX_LCORE /\ rte_lcore_is_enabled main_lcore = true.

(** The enabled lcores in increasing order. *)
Definition enabled_lcores : list Lcore := mk_lcore <$> List.filter rte_lcore_is_enabled (seqZ 0 RTE_MAX_LCORE).

Lemma collect_all : collect RTE_MAX_LCORE rte_get_next_lcore (S (Z.to_nat RTE_MAX_LCORE)) all = Some enabled_lcores.
Proof.
  unfold all. rewrite (collect_run RTE_MAX_LCORE rte_lcore_is_enabled main_lcore rte_get_next_lcore).
  - unfold remaining, enabled_lcores. simpl. replace (as_u32 (u32_max + 1)) with 0 by done. rewrite Z.sub_0_r.
    do 2 f_equal. apply List.filter_ext. intros j. unfold eligible. simpl. by rewrite andb_true_r.
  - unfold u32_max. lia.
  - exact next_lcore_spec.
  - apply start_ok. unfold u32_max. lia.
  - simpl. replace (as_u32 (u32_max + 1)) with 0 by done. lia.
Qed.

Lemma main_in : main main_lcore ∈ enabled_lcores.
Proof.
  apply list_elem_of_fmap. exists main_lcore. split; [done|]. apply list_elem_of_In, List.filter_In.
  split; [|apply main_enabled]. apply list_elem_of_In, elem_of_seqZ. lia.
Qed.

Lemma enabled_nodup : NoDup enabled_lcores.
Proof.
  apply NoDup_fmap_2; [by intros x y [= ->]|]. apply NoDup_ListNoDup, List.NoDup_filter, NoDup_ListNoDup, NoDup_seqZ.
Qed.

Lemma enabled_len : zlen enabled_lcores <= 65536.
Proof.
  unfold zlen, enabled_lcores. rewrite length_fmap.
  pose proof (List.filter_length_le rte_lcore_is_enabled (seqZ 0 RTE_MAX_LCORE)) as Hl. rewrite length_seqZ in Hl. lia.
Qed.

(** The workers of a run. *)
Lemma run_workers oc a w ws w' (Hrun : app_run oc a w = Ret (ws, w')) :
  ((fun k => (wk_lcore k, wk_queue k)) <$> ws) ≡ₚ enumerate 0 enabled_lcores /\
  (wk_queue <$> ws) ≡ₚ seqZ 0 (zlen enabled_lcores) /\
  Forall (worker_ok (port_id a) (if 1 <? zlen enabled_lcores then Some Device.arp_handle else None)) ws.
Proof.
  unfold run in Hrun. destruct (ip_addr a) as [ip|]; [|done]. destruct (gateway a); [|done]. cbn [mbind exec_bind expect unwrap_result] in Hrun.
  rewrite collect_all in Hrun. cbn [mbind exec_bind expect unwrap_result] in Hrun. destruct (zlen enabled_lcores =? 0); [done|].
  destruct (Eth.info _ _ _ _) as [[info|] eth]; [|done]. cbn [mbind exec_bind expect unwrap_result] in Hrun.
  destruct (mul_u32 _ _ _); try done. cbn [mbind exec_bind expect unwrap_result] in Hrun.
  destruct (Pktmbuf.create _ _ _) as [[pool|] r]; [|done]. cbn [mbind exec_bind expect unwrap_result] in Hrun.
  destruct (Eth.build _ _ _ _ _) as [[[dev|]| |] eth1]; try done. cbn [mbind exec_bind expect unwrap_result] in Hrun.
  destruct (Eth.mac_addr _ _ _ _) as [[mac|] eth2]; [|done]. cbn [mbind exec_bind expect unwrap_result] in Hrun.
  destruct (launch_all 0 enabled_lcores 0 (w_lc w)) as [[[m started] s]| |] eqn:El; try done. cbn [mbind exec_bind expect unwrap_result] in Hrun.
  destruct (launch_workers_run _ _ _ _ _ _ _ (Z.le_refl 0) enabled_len enabled_nodup El) as (Hin & _ & _).
  specialize (Hin main_in).
  destruct (start_workers_run (port_id a) pool (mac_of_bytes mac) ip
    (if 1 <? zlen enabled_lcores then Some Device.arp_handle else None) (started ++ [(main main_lcore, m)])) as (ks & Ek & Hk & Hf).
  rewrite Ek in Hrun. cbn [mbind exec_bind expect unwrap_result] in Hrun. destruct (Eth.stop _ _ _ _) as [? eth3], (Eth.close _ _ _ _) as [? eth4]. simplify_eq.
  assert (Hp : ((fun k => (wk_lcore k, wk_queue k)) <$> ws) ≡ₚ enumerate 0 enabled_lcores).
  { rewrite Hk, <- Hin. by rewrite Permutation_app_comm. }
  split_and!; [done | | done].
  replace (wk_queue <$> ws) with (snd <$> ((fun k => (wk_lcore k, wk_queue k)) <$> ws)) by by rewrite <- list_fmap_compose.
  rewrite Hp. unfold enumerate. rewrite snd_zip; [done|]. rewrite length_seqZ. unfold zlen. lia.
Qed.

(** C10: one lcore per queue: when [run] gets as far as running the workers, the
    workers are exactly the enabled lcores, numbered in increasing order: every
    lcore, the main one included, runs one worker, every queue from 0 to the
    number of lcores is polled by exactly one of them through its own device,
    and the ARP cache is shared exactly in the multi-queue case, with the
    device of queue 0 as its only producer. *)
Theorem app_serves_each_queue_once oc a w ws w' (Hrun : app_run oc a w = Ret (ws, w')) :
  ((fun k => (wk_lcore k, wk_queue k)) <$> ws) ≡ₚ enumerate 0 enabled_lcores /\
  (wk_queue <$> ws) ≡ₚ seqZ 0 (zlen enabled_lcores) /\
  Forall (worker_ok (port_id a) (if 1 <? zlen enabled_lcores then Some Device.arp_handle else None)) ws.
Proof. exact (run_workers oc a w ws w' Hrun). Qed.

(** ** The run completes *)

(** No driver call fails. *)
Hypothesis drv_ok : forall c d, 0 <= (drv_run c d).1.1.
Hypothesis reta_size_u16 : forall c d r n d', drv_run c d = (r, Eth.OInfo n, d') -> 0 <= n <= u16_max.

Abbreviation port := (drv * list (@Eth.eth_call pool_ptr rxconf txconf))%type.
Definition succeeds {A} (m : Eth.M (pool := pool_ptr) (rxconf := rxconf) (txconf := txconf) (drv := drv) (Result A Errno)) : Prop :=
  forall s : port, exists a s', m s = (Ok a, s').

Lemma simple_succeeds c : succeeds (Eth.simple drv_run drv_errno c).
Proof.
  intros [d log]. unfold Eth.simple, Eth.bind, Eth.ffi, Eth.check. pose proof (drv_ok c d) as Hc.
  destruct (drv_run c d) as [[r o] d']. simpl in *. unfold check_rte_success.
  destruct (Z.ltb_spec r 0); [lia|]. eauto.
Qed.

Lemma try_succeeds {A} (m : Eth.M (Result unit Errno)) (k : Eth.M (Result A Errno)) : succeeds m -> succeeds k -> succeeds (Eth.try m k).
Proof. intros Hm Hk s. unfold Eth.try, Eth.bind. destruct (Hm s) as (a & s1 & ->). apply Hk. Qed.

Lemma for_succeeds op k q : (forall q, succeeds (op q)) -> succeeds (Eth.for_queues op k q).
Proof.
  intros Ho. revert q. induction k as [|k IH]; intros q; cbn [Eth.for_queues]; [intros s; by eexists _, _|].
  by apply try_succeeds.
Qed.

Lemma bind_succeeds {A B} (m : Eth.M A) (k : A -> Eth.M (Result B Errno)) : (forall a, succeeds (k a)) -> succeeds (Eth.bind m k).
Proof. intros Hk s. unfold Eth.bind. destruct (m s) as [a s1]. apply Hk. Qed.

Lemma get_succeeds {A} c (f : Z * Eth.eth_out -> A) :
  succeeds (Eth.bind (Eth.ffi drv_run c) (fun x => Eth.try (Eth.check drv_errno x.1) (Eth.ret (Ok (f x))))).
Proof.
  intros [d log]. unfold Eth.bind, Eth.try, Eth.ffi, Eth.check, Eth.bind, Eth.ret. pose proof (drv_ok c d) as Hc.
  destruct (drv_run c d) as [[r o] d']. simpl in *. unfold check_rte_success.
  destruct (Z.ltb_spec r 0); [lia|]. eauto.
Qed.

Lemma build_succeeds b p s : Eth.b_nb_rx_queues b <= 65535 ->
  exists d s', Eth.build drv_run drv_errno b p s = (Ret (Ok d), s').
Proof.
  intros Hn. unfold Eth.build, Eth.bind at 1.
  match goal with |- context [Eth.try ?m ?k s] => assert (Hq : succeeds (Eth.try m k)) end.
  { apply try_succeeds; [apply simple_succeeds|].
    apply try_succeeds; apply for_succeeds; intros q; apply bind_succeeds; intros; apply simple_succeeds. }
  destruct (Hq s) as (u & s1 & ->). clear Hq.
  destruct s1 as [d1 log1].
  destruct (Eth.setup_rss_adds drv_run drv_errno reta_size_u16 b (Eth.mk_ethdev (Eth.b_port_id b)) d1 log1 Hn)
    as (d2 & log2 & l & [E _] & _). unfold Eth.bind. rewrite E.
  assert (Hp : succeeds (if Eth.b_promiscuous b then Eth.promiscuous_enable drv_run drv_errno (Eth.mk_ethdev (Eth.b_port_id b))
    else Eth.ret (Ok tt))) by (destruct (Eth.b_promiscuous b); [apply simple_succeeds | intros ?; by eexists _, _]).
  destruct (Hp (d2, log2)) as (u2 & s2 & ->).
  destruct (simple_succeeds (Eth.Start (Eth.port_id (Eth.mk_ethdev (Eth.b_port_id b)))) s2) as (u3 & s3 & E3).
  unfold Eth.start. rewrite E3. by eexists _, _.
Qed.

Lemma launch_workers_succeeds i ls mq s : (forall f j e, (rte_eal_remote_launch f j e).1 = 0) ->
  is_ret (launch_all i ls mq s).
Proof.
  intros Hl. revert i mq s. induction ls as [|l ls IH]; intros i mq s; cbn [launch_workers]; [by eexists|].
  destruct (is_main main_lcore l); [apply IH|]. unfold launch. pose proof (Hl (fun _ => 0) (id l) (eal s)) as Hr.
  destruct (rte_eal_remote_launch _ _ _) as [r e]. simpl in Hr. subst r. cbn.
  destruct (IH (i + 1) mq (mk_lc (boxes s + 1) e)) as [[[m started] s1] ->]. by eexists.
Qed.

Lemma run_completes oc a w (Hip : ip_addr a <> None) (Hgw : gateway a <> None) (Hn : zlen enabled_lcores <= 65535)
    (Hm : 0 <= mbufs_per_queue a * zlen enabled_lcores <= u32_max)
    (Hpool : forall n c p d s r, exists ptr r', rte_pktmbuf_pool_create POOL_NAME n c p d s r = (Some ptr, r'))
    (Hl : forall f j e, (rte_eal_remote_launch f j e).1 = 0) :
  exists ws w', app_run oc a w = Ret (ws, w').
Proof.
  pose proof (zlen_nonneg enabled_lcores). unfold run. destruct (ip_addr a) as [ip|]; [|done]. destruct (gateway a); [|done].
  cbn [mbind exec_bind expect]. rewrite collect_all. cbn [mbind exec_bind expect].
  destruct (Z.eqb_spec (zlen enabled_lcores) 0) as [Hz|_].
  { pose proof main_in as Hx. unfold zlen in Hz. destruct enabled_lcores; [by apply elem_of_nil in Hx | simpl in Hz; lia]. }
  destruct (get_succeeds (Eth.InfoGet (Eth.port_id (Eth.mk_ethdev (port_id a)))) (fun x => match x.2 with Eth.OInfo n => n | _ => 0 end) (w_eth w))
    as (n & eth & Ei). unfold Eth.info. rewrite Ei. cbn [mbind exec_bind unwrap_result].
  assert (Hu : as_u32 (zlen enabled_lcores) = zlen enabled_lcores) by (apply wrap_small; lia).
  unfold mul_u32. rewrite Hu. rewrite (proj2 (Z.leb_le _ _)) by lia. cbn [mbind exec_bind].
  unfold Pktmbuf.create. assert (Hcs : CString_new POOL_NAME = Some POOL_NAME) by (vm_compute; reflexivity). rewrite Hcs.
  match goal with |- context [rte_pktmbuf_pool_create ?a ?n ?c ?p ?d ?s ?r] => destruct (Hpool n c p d s r) as (ptr & r' & ->) end.
  cbn [ok_or mbind exec_bind unwrap_result].
  destruct (build_succeeds (dev_builder TCP4 TCP6 a n (zlen enabled_lcores)) ptr eth) as (dev & eth1 & ->).
  { simpl. unfold as_u16. rewrite wrap_small by lia. done. }
  cbn [mbind exec_bind unwrap_result].
  destruct (get_succeeds (Eth.MacGet (Eth.port_id dev)) (fun x => match x.2 with Eth.OMac m => m | _ => [] end) eth1) as (mac & eth2 & Em).
  unfold Eth.mac_addr. rewrite Em. cbn [mbind exec_bind unwrap_result].
  destruct (launch_workers_succeeds 0 enabled_lcores 0 (w_lc w) Hl) as [[[m started] s] ->]. cbn [mbind exec_bind].
  match goal with |- context [start_workers ?p ?q ?m ?i ?c ?l] => destruct (start_workers_run p q m i c l) as (ks & -> & _) end.
  cbn [mbind exec_bind]. destruct (Eth.stop _ _ _ _) as [? eth3], (Eth.close _ _ _ _) as [? eth4]. by eexists _, _.
Qed.


End Proofs.

(** ** On lcores 0, 2 and 3, with every call succeeding *)

#[local] Existing Instance Mbuf.ref_pktmbuf.
#[local] Existing Instance Queue.ref_mempool.
#[local] Existing Instance Queue.ref_burst.
#[local] Existing Instance Queue.ref_burst_laws.
#[local] Existing Instance Device.ref_hm_iter.

Definition demo_app : DpdkApp := with_ip Device.ip_a (with_gateway Device.ip_b new).
Definition demo_launch (f : unit -> Z) (i : Z) (e : unit) : Z * unit := (0, e).
Definition demo_world : world (st := unit) (rxconf := unit) (txconf := unit) (drv := unit) :=
  mk_world (tt, []) (Queue.world0 8 [] 4) (mk_lc 0 tt).
Definition demo_run : Exec (list worker * world) :=
  run 8 0 ref_next demo_launch (fun e => e) Eth.ref_driver (fun _ => 0) 1 2 true demo_app demo_world.

Lemma app_serves_each_queue_once_witness :
  exists ws w', demo_run = Ret (ws, w') /\ (wk_queue <$> ws) ≡ₚ [0; 1; 2].
Proof.
  assert (match demo_run with Ret _ => true | _ => false end = true) as Hr by (vm_compute; reflexivity).
  destruct demo_run as [[ws w']| |] eqn:E; try discriminate Hr. exists ws, w'. split; [reflexivity|].
  refine (proj1 (proj2 (app_serves_each_queue_once 8 ref_enabled 0 ref_next demo_launch (fun e => e) Eth.ref_driver (fun _ => 0) 1 2
    _ _ _ true demo_app demo_world ws w' E))); [lia | exact ref_next_spec | split; [lia|reflexivity]].
Defined.


End App.
