(* ===== verification/WorkerRun.v ===== *)
(** * A worker on its lcore ([run_worker] of [dpdk-net-util/src/app.rs])

    The set-up of a worker and what its local executor runs: the future of
    [block_on] (the user's server, then the cancellation and the wait for the
    reactor) and the reactor as a spawned task.  The executor polls tasks that
    were woken, in any order, interleaved with the other tasks the server
    spawned; a panic inside the reactor task ends only that task, as tokio
    catches it and hands it to the [JoinHandle]. *)

From stdpp Require Import base gmap list fin_maps relations.
From Stdlib Require Import ZArith Strings.Byte Lia.
From S2P Require Import Prelude Mbuf Pktmbuf Queue ArpCache Device Smoltcp Reactor Lcore Eth App.

Module WorkerRun.
Import Reactor.

Section Model.
Context `{Smoltcp} `{!SmoltcpSetup Device.DpdkDevice}.

(** ** Set-up *)

(** [WorkerContext], with the reactor it gives access to. *)
Record WorkerContext := mk_context { lcore : Lcore.Lcore; queue_id : Z; socket_id : Z; reactor : ReactorInner }.

(** [run_worker] up to [block_on]; [current] is [Lcore::current()] and
    [to_socket] the socket of an lcore.  Building the tokio runtime is taken to
    succeed. *)
Definition setup (current : option Lcore.Lcore) (to_socket : Z -> Z) (queue_id port_id : Z) (mempool : pool_ptr) (mac_addr : MacAddress)
    (ip_addr gateway : Ipv4Addr) (shared_arp_cache : option Device.ArpHandle) (now : Z) (w : Device.World) : Exec WorkerContext :=
  lcore ← expect current;
  device ← App.worker_device queue_id port_id mempool mac_addr ip_addr shared_arp_cache;
  let '(iface, device) := iface_new mac_addr device now in
  iface ← expect (push_ip_addr ip_addr 24 iface);
  iface ← expect (add_default_ipv4_route gateway iface);
  Ret (mk_context lcore queue_id (to_socket (Lcore.id lcore)) (Reactor.new device w iface)).

(** ** [block_on] *)

(** The user's server: a future that uses the reactor. *)
Context {fut : Type}.
Variable server_poll : fut -> ReactorInner -> Poll unit * fut * ReactorInner.

Inductive main_future := MServing (f : fut) | MJoining | MReturned.
Inductive task := Alive (st : RunState) (woken : bool) | Finished | Panicked.
Record worker := mk_worker { main : main_future; main_woken : bool; reactor_cancel : bool; reactor_task : task; inner : ReactorInner }.

Definition start (f : fut) (c : WorkerContext) : worker := mk_worker (MServing f) true false (Alive RunStart true) (reactor c).

Definition over (t : task) : bool := match t with Alive _ _ => false | _ => true end.
Definition joining (m : main_future) : bool := match m with MJoining => true | _ => false end.

(** Polling the [JoinHandle]. *)
Definition join (t : task) : main_future := if over t then MReturned else MJoining.

Inductive label := LMain | LReactor | LOthers.

(** [wk]: the step wakes the server's future, as new packets do. *)
Inductive wstep : label -> worker -> worker -> Prop :=
  | step_serve f f' r' wk cancel t r : server_poll f r = (Pending, f', r') ->
      wstep LMain (mk_worker (MServing f) true cancel t r) (mk_worker (MServing f') wk cancel t r')
  | step_served f f' r' cancel t r : server_poll f r = (Ready tt, f', r') ->
      wstep LMain (mk_worker (MServing f) true cancel t r) (mk_worker (join t) false true t r')
  | step_join cancel t r : wstep LMain (mk_worker MJoining true cancel t r) (mk_worker (join t) false cancel t r)
  | step_tick m mw wk cancel st ts woken st' r r' : run cancel ts st r = Ret (Some (Pending, woken, st', r')) ->
      wstep LReactor (mk_worker m mw cancel (Alive st true) r) (mk_worker m (mw || wk) cancel (Alive st' woken) r')
  | step_done m mw cancel st ts woken st' r r' : run cancel ts st r = Ret (Some (Ready tt, woken, st', r')) ->
      wstep LReactor (mk_worker m mw cancel (Alive st true) r) (mk_worker m (mw || joining m) cancel Finished r')
  | step_panic m mw cancel st ts r r' : run cancel ts st r = Panic ->
      wstep LReactor (mk_worker m mw cancel (Alive st true) r) (mk_worker m (mw || joining m) cancel Panicked r')
  | step_others m mw wk cancel t r r' : (device_ok r -> device_ok r') -> (orphans_ok r -> orphans_ok r') ->
      wstep LOthers (mk_worker m mw cancel t r) (mk_worker m (mw || wk) cancel t r').

Definition runs (w w' : worker) : Prop := rtc (fun a b => exists l, wstep l a b) w w'.

End Model.
Section Proofs.
Context `{HL : EthBurstLaws} {HI : HashMapIter} {HS : Smoltcp} {HSL : SmoltcpLaws} {HP : SmoltcpSetup Device.DpdkDevice}.
Context {fut : Type} (server_poll : fut -> ReactorInner -> Poll unit * fut * ReactorInner).

(** The server keeps what the reactor relies on, as the sockets do. *)
Context (server_keeps : forall f r p f' r', server_poll f r = (p, f', r') ->
  (device_ok r -> device_ok r') /\ (orphans_ok r -> orphans_ok r')).

Abbreviation ws := (wstep server_poll).

Record worker_ok (w : worker (fut := fut)) : Prop := {
  wo_sound : reactor_task w <> Panicked -> device_ok (inner w) /\ orphans_ok (inner w);
  wo_alive : forall st wk, reactor_task w = Alive st wk -> wk = true /\ run_ok st;
  wo_finished : reactor_task w = Finished -> reactor_cancel w = true;
  wo_main : reactor_cancel w = match main w with MServing _ => false | _ => true end;
  wo_join : main w = MJoining -> over (reactor_task w) = true -> main_woken w = true;
  wo_returned : main w = MReturned -> over (reactor_task w) = true
}.

Lemma start_worker_ok f c : device_ok (reactor c) -> orphans_ok (reactor c) -> worker_ok (start f c).
Proof. intros Hd Ho. split; simpl; try done. by intros st wk [= <- <-]. Qed.

Lemma join_ok (t : task) : (join (fut := fut) t = MJoining -> over t = false) /\ (join (fut := fut) t = MReturned -> over t = true) /\
  match join (fut := fut) t with MServing _ => False | _ => True end.
Proof. unfold join. by destruct (over t). Qed.

(** What a poll of the reactor task gives. *)
Lemma run_poll cancel ts st r p woken st' r' : run_ok st -> device_ok r -> orphans_ok r -> run cancel ts st r = Ret (Some (p, woken, st', r')) ->
  device_ok r' /\ orphans_ok r' /\ (if cancel then p = Ready tt /\ r' = r else p = Pending /\ woken = true /\ run_ok st').
Proof.
  intros Hst Hd Ho E. pose proof (poll_run_ok DEFAULT_INGRESS_BATCH_SIZE cancel ts st r Hst Hd Ho) as Hp. unfold run in E. rewrite E in Hp. by destruct Hp as (? & _ & ? & _ & ?).
Qed.

Lemma run_cancelled ts st r : run_ok st -> run true ts st r = Ret (Some (Ready tt, false, RunDone, r)).
Proof. destruct st as [|[[]]|]; done. Qed.

Lemma wstep_ok l w w' : ws l w w' -> worker_ok w -> worker_ok w'.
Proof.
  intros Hs [Hsd Hal Hfi Hma Hjo Hre].
  destruct Hs as [f f' r' wk cancel t r E|f f' r' cancel t r E|cancel t r|m mw wk cancel st ts woken st' r r' E|m mw cancel st ts woken st' r r' E|
    m mw cancel st ts r r' E|m mw wk cancel t r r' Hd' Ho']; simpl in *.
  - destruct (server_keeps _ _ _ _ _ E) as [Kd Ko]. split; simpl; try done. intros Hn. destruct (Hsd Hn). auto.
  - destruct (server_keeps _ _ _ _ _ E) as [Kd Ko]. destruct (join_ok t) as (J1 & J2 & J3). split; simpl; try done.
    + intros Hn. destruct (Hsd Hn). auto.
    + by destruct (join t).
    + intros Hj Hov. rewrite (J1 Hj) in Hov. done.
  - destruct (join_ok t) as (J1 & J2 & J3). split; simpl; try done.
    + rewrite Hma. by destruct (join t).
    + intros Hj Hov. rewrite (J1 Hj) in Hov. done.
  - destruct (Hal st true eq_refl) as [_ Hst]. destruct (Hsd ltac:(done)) as [Hd Ho].
    destruct (run_poll _ _ _ _ _ _ _ _ Hst Hd Ho E) as (Hd1 & Ho1 & Hc). destruct cancel; [by destruct Hc|]. destruct Hc as (_ & -> & Hst').
    split; simpl; try done. by intros ? ? [= <- <-].
  - destruct (Hal st true eq_refl) as [_ Hst]. destruct (Hsd ltac:(done)) as [Hd Ho].
    destruct (run_poll _ _ _ _ _ _ _ _ Hst Hd Ho E) as (Hd1 & Ho1 & Hc). destruct cancel; [|by destruct Hc].
    split; simpl; try done. intros -> _. simpl. by rewrite orb_true_r.
  - split; simpl; try done. intros -> _. simpl. by rewrite orb_true_r.
  - split; simpl; try done.
    + intros Hn. destruct (Hsd Hn). auto.
    + intros Hj Hov. by rewrite (Hjo Hj Hov).
Qed.

Lemma runs_ok w w' : runs server_poll w w' -> worker_ok w -> worker_ok w'.
Proof. induction 1 as [|w1 w2 w3 [l Hs] _ IH]; [done|]. intros Hok. by apply IH, (wstep_ok _ _ _ Hs). Qed.

(** The reactor task can always be polled while it lives. *)
Lemma reactor_enabled w st wk : worker_ok w -> reactor_task w = Alive st wk -> exists w', ws LReactor w w'.
Proof.
  intros [Hsd Hal _ _ _ _] Ht. destruct w as [m mw cancel t r]. simpl in *. subst t. destruct (Hal st wk eq_refl) as [-> Hst].
  destruct (Hsd ltac:(done)) as [Hd Ho]. pose proof (poll_run_ok DEFAULT_INGRESS_BATCH_SIZE cancel 0 st r Hst Hd Ho) as Hp. fold (run cancel 0 st r) in Hp.
  destruct (run cancel 0 st r) as [[[[[[[]|] woken] st'] r']|]| |] eqn:E; try done.
  - eexists. by eapply step_done.
  - eexists. by apply (step_tick _ m mw false) with (ts := 0%Z).
  - exists (mk_worker m (mw || joining m) cancel Panicked r). by eapply step_panic.
Qed.

(** C38: a worker on its lcore, in every interleaving of the server, the tasks it
    spawned and the reactor: as long as the server runs the reactor is there to
    be polled again, unless it panicked, which a step can only make it do when
    device calls can fill the TX batch; and once the server has completed, the
    next poll of the reactor ends it without touching the stack and wakes
    [block_on], whose next poll returns. *)
Theorem worker_lifecycle f c w (Hd : device_ok (reactor c)) (Ho : orphans_ok (reactor c)) (Hr : runs server_poll (start f c) w) :
  (forall l w', ws l w w' -> reactor_task w <> Panicked -> reactor_task w' = Panicked -> can_fill_tx (inner w)) /\
  match main w with
  | MServing _ => reactor_task w = Panicked \/ exists w', ws LReactor w w'
  | MJoining =>
      if over (reactor_task w) then main_woken w = true /\ forall w', ws LMain w w' -> main w' = MReturned
      else (exists w', ws LReactor w w') /\
        forall w', ws LReactor w w' -> reactor_task w' = Finished /\ inner w' = inner w /\ main_woken w' = true
  | MReturned => over (reactor_task w) = true
  end.
Proof.
  pose proof (runs_ok _ _ Hr (start_worker_ok f c Hd Ho)) as Hok. pose proof Hok as [Hsd Hal Hfi Hma Hjo Hre]. split.
  - intros l w' Hs Hn Hp. destruct Hs; simpl in *; try done.
    destruct (Hal st true eq_refl) as [_ Hst]. destruct (Hsd ltac:(done)) as [Hd1 Ho1].
    pose proof (poll_run_ok DEFAULT_INGRESS_BATCH_SIZE cancel ts st r Hst Hd1 Ho1) as Hpo. unfold run in *. by destruct (poll_run _ _ _ _ _).
  - destruct (main w) as [f1| |] eqn:Em; [|destruct (over (reactor_task w)) eqn:Eo|by apply Hre].
    + destruct (reactor_task w) as [st wk| |] eqn:Et; [right; by eapply reactor_enabled| |by left].
      rewrite (Hfi eq_refl) in Hma. done.
    + split; [by apply Hjo|]. intros w' Hs. inversion Hs; subst; simpl in *; try done. unfold join. by rewrite Eo.
    + destruct (reactor_task w) as [st wk| |] eqn:Et; [|done..]. split; [by eapply reactor_enabled|]. intros w' Hs.
      destruct (Hal st wk eq_refl) as [-> Hst]. destruct (Hsd ltac:(done)) as [Hd1 Ho1].
      inversion Hs as [| | |m mw wk' cancel st1 ts woken st' r r' E|m mw cancel st1 ts woken st' r r' E|m mw cancel st1 ts r r' E|]; subst; simpl in *;
        injection Et as ->; subst m; rewrite Hma in E.
      * by destruct (run_poll _ _ _ _ _ _ _ _ Hst Hd1 Ho1 E) as (_ & _ & [=] & _).
      * destruct (run_poll _ _ _ _ _ _ _ _ Hst Hd1 Ho1 E) as (_ & _ & _ & ->). split_and!; try done. simpl. by rewrite orb_true_r.
      * by rewrite (run_cancelled ts st r Hst) in E.
Qed.

(** A panic of the reactor task is seen only when the server completes: if the
    server waits for the network at that moment, the executor has nothing left
    to poll, and whatever the other tasks do, no packet is processed any more. *)
Definition no_reactor (w : worker (fut := fut)) : Prop := forall l w', ws l w w' -> l <> LReactor.

Theorem reactor_panic_stalls f f' c r ts r' (Hw : server_poll f (reactor c) = (Pending, f', r)) (Hp : run false ts RunStart r = Panic) :
  exists w, runs server_poll (start f c) w /\ main w = MServing f' /\ inner w = r' /\
    (forall l w', ws l w w' -> l = LOthers) /\ (forall w', runs server_poll w w' -> no_reactor w' /\ reactor_task w' = Panicked).
Proof.
  exists (mk_worker (MServing f') false false Panicked r'). split_and!; try done.
  - eapply rtc_l; [exists LMain; by apply (step_serve _ f f' r false)|]. apply rtc_once. exists LReactor.
    by apply (step_panic _ (MServing f') false false RunStart ts).
  - intros l w' Hs. by inversion Hs.
  - assert (forall w1 w2, runs server_poll w1 w2 -> reactor_task w1 = Panicked -> reactor_task w2 = Panicked) as Hk.
    { induction 1 as [|w1 w2 w3 [l Hs] _ IH]; [done|]. intros Ht. apply IH. by destruct Hs. }
    intros w' Hr. pose proof (Hk _ _ Hr eq_refl) as Ht. split; [|done]. intros l w2 Hs ->. inversion Hs; subst; done.
Qed.

(** [run_worker]'s set-up with a pool of the size [run] creates: it panics only
    if the thread is no lcore or smoltcp refuses the address or the route, and
    the reactor it starts is in order. *)
Theorem worker_setup_outcome current to_socket q p mempool mac ip gw cache now w
    (Hnew : forall d, (iface_new mac d now).2 = d) (Hroom : (RTE_PKTMBUF_HEADROOM + 2048 <= rte_pktmbuf_data_room_size mempool (Device.w_rte w))%Z) :
  match setup current to_socket q p mempool mac ip gw cache now w with
  | Ret c => device_ok (reactor c) /\ orphans_ok (reactor c) /\ current = Some (lcore c) /\ queue_id c = q /\
      Device.rxq (device (reactor c)) = Queue.mk_rxq p q /\ Device.txq (device (reactor c)) = Queue.mk_txq p q
  | Panic => current = None \/ exists d i, iface_new mac d now = (i, d) /\
      (push_ip_addr ip 24 i = None \/ exists i', push_ip_addr ip 24 i = Some i' /\ add_default_ipv4_route gw i' = None)
  | UB => False
  end.
Proof.
  unfold setup. destruct current as [l|]; [|by left]. cbn [expect mbind exec_bind]. unfold App.worker_device, Device.new.
  change (_ <=? _)%Z with true. cbn [assert_ mbind exec_bind].
  set (d := match cache with Some _ => _ | None => _ end). pose proof (Hnew d) as Hd. destruct (iface_new mac d now) as [i d'] eqn:Ei. simpl in Hd. subst d'.
  destruct (push_ip_addr ip 24 i) as [i1|] eqn:Ep; cbn [expect mbind exec_bind]; [|right; exists d, i; by auto].
  destruct (add_default_ipv4_route gw i1) as [i2|] eqn:Eg; cbn [expect mbind exec_bind]; [|right; exists d, i; eauto 6].
  assert (Device.rx_batch d = [] /\ Device.tx_batch d = [] /\ Device.mtu d = 1500%Z /\ Device.mbuf_capacity d = 2048%Z /\ Device.mempool d = mempool /\
    Device.rxq d = Queue.mk_rxq p q /\ Device.txq d = Queue.mk_txq p q) as (Er & Et & Em & Ec & Epo & Erq & Etq) by (by destruct cache).
  split_and!; try done.
  - split; simpl.
    + split; rewrite ?Er, ?Et, ?Em, ?Ec; try done; try (simpl; lia). 
    + unfold Device.pool_fits. by rewrite Ec, Epo.
  - split; simpl; constructor.
Qed.

End Proofs.

(** ** An example: a server that completes after some polls, on the reference
    stack. *)
Module RefWorker.
#[local] Existing Instance Mbuf.ref_pktmbuf.
#[local] Existing Instance Queue.ref_mempool.
#[local] Existing Instance Queue.ref_burst.
#[local] Existing Instance Queue.ref_burst_laws.
#[local] Existing Instance Device.ref_hm_iter.
#[local] Existing Instance RefStack.ref_smoltcp.
#[local] Existing Instance RefStack.ref_smoltcp_laws.

#[local] Instance ref_setup : SmoltcpSetup Device.DpdkDevice := {|
  iface_new _ d _ := ([], d);
  push_ip_addr ip _ i := Some (i ++ [ip]);
  add_default_ipv4_route _ i := Some i
|}.

Definition countdown (n : nat) (r : ReactorInner) : Poll unit * nat * ReactorInner :=
  match n with O => (Ready tt, O, r) | S n => (Pending, n, r) end.

Lemma countdown_keeps f r p f' r' : countdown f r = (p, f', r') -> (device_ok r -> device_ok r') /\ (orphans_ok r -> orphans_ok r').
Proof. destruct f; by intros [= <- <- <-]. Qed.

Definition ctx : WorkerContext := mk_context (Lcore.mk_lcore 0) 0 0 reactor0.
Definition after_server : worker (fut := nat) := mk_worker MJoining false true (Alive RunStart true) reactor0.

Lemma worker_lifecycle_witness :
  exists w', wstep countdown LReactor after_server w' /\ reactor_task w' = Finished /\ main_woken w' = true.
Proof.
  pose proof (worker_lifecycle countdown countdown_keeps 0%nat ctx after_server reactor0_device reactor0_orphans) as [_ Hm].
  { apply rtc_once. exists LMain. exact (step_served countdown 0%nat 0%nat reactor0 false (Alive RunStart true) reactor0 eq_refl). }
  destruct Hm as ((w' & Hs) & Hf). exists w'. destruct (Hf w' Hs) as (? & _ & ?). done.
Defined.

(** An orphan that is not in the socket set makes the reactor panic. *)
Definition broken : ReactorInner := mk_reactor (Device.dev0 0 [] []) (Device.arp_world 8 [] 4) [Device.ip_a] [] [7].

Lemma reactor_panic_stalls_witness :
  exists w, runs countdown (start 3%nat (mk_context (Lcore.mk_lcore 0) 0 0 broken)) w /\ main w = MServing 2%nat /\
    (forall l w', wstep countdown l w w' -> l = LOthers).
Proof.
  assert (match run false 0 RunStart broken with Panic => true | _ => false end = true) as Hb by (vm_compute; reflexivity).
  destruct (reactor_panic_stalls countdown 3%nat 2%nat (mk_context (Lcore.mk_lcore 0) 0 0 broken) broken 0 broken eq_refl) as (w & Hr & Hm & _ & Hs & _).
  - by destruct (run false 0 RunStart broken).
  - exists w. exact (conj Hr (conj Hm Hs)).
Defined.

Lemma worker_setup_outcome_witness :
  match setup (Some (Lcore.mk_lcore 0)) (fun _ => 0%Z) 1 0 Queue.pool0 Device.mac_a Device.ip_a Device.ip_a None 0 (Device.arp_world 8 [] 4) with
  | Ret c => queue_id c = 1%Z
  | _ => False
  end.
Proof.
  pose proof (worker_setup_outcome (Some (Lcore.mk_lcore 0)) (fun _ => 0%Z) 1 0 Queue.pool0 Device.mac_a Device.ip_a Device.ip_a None 0 (Device.arp_world 8 [] 4)
    (fun d => eq_refl) ltac:(vm_compute; discriminate)) as Hs.
  destruct (setup _ _ _ _ _ _ _ _ _ _ _) as [c| |] eqn:E; [by destruct Hs as (_ & _ & _ & -> & _)| |done].
  destruct Hs as [[=]|(d & i & _ & [[=]|(i' & _ & [=])])].
Defined.

End RefWorker.

End WorkerRun.
