(* ===== verification/Http.v ===== *)
(** * HTTP connections and their pool
      ([dpdk-net-util/src/{connection,connect,client,pool,error}.rs])

    hyper is outside the repository: its send handles are opaque values with a
    readiness test, and its handshake is a function on the connected stream.
    Establishing a connection is modelled down to the TCP socket; the pool is a
    finite map from hosts to lists of connections. *)

From stdpp Require Import base gmap list fin_maps.
From Stdlib Require Import ZArith Strings.Byte Lia.
From S2P Require Import Prelude Mbuf Pktmbuf Queue ArpCache Device Smoltcp Reactor Tcp Udp Sockets Channel BridgeTcp BridgeUdp Worker.

Module Http.
Import Reactor.

Inductive HttpVersion := Http1 | Http2.
#[export] Instance HttpVersion_eq_dec : EqDecision HttpVersion.
Proof. solve_decision. Defined.

Section Model.
Context `{Smoltcp}.
(** hyper's [http1::SendRequest], [http2::SendRequest], errors, requests and
    responses. *)
Context {send1 send2 hyper_error Req Resp : Type}.
Variable ready1 : send1 -> bool.
Variable ready2 : send2 -> bool.
Variable handshake1 : Tcp.TcpStream -> Result send1 hyper_error.
Variable handshake2 : Tcp.TcpStream -> Result send2 hyper_error.
Variable request1 : Req -> send1 -> Result Resp hyper_error * send1.
Variable request2 : Req -> send2 -> Result Resp hyper_error * send2.

(** [Error] *)
Inductive Error :=
  | EConnect (e : ConnectError)
  | EConnectionFailed
  | EHandshake (e : hyper_error)
  | ERequest (e : hyper_error)
  | EMissingHost
  | EConnectionNotReady.

(** [Connection] with its [ConnectionSender] *)
Inductive Connection := SHttp1 (s : send1) | SHttp2 (s : send2).

Definition is_ready (c : Connection) : bool := match c with SHttp1 s => ready1 s | SHttp2 s => ready2 s end.
Definition version (c : Connection) : HttpVersion := match c with SHttp1 _ => Http1 | SHttp2 _ => Http2 end.

(** [send_request]: dispatched at once; the response is that of the future. *)
Definition send_request (q : Req) (c : Connection) : Result Resp Error * Connection :=
  match c with
  | SHttp1 s => let '(r, s) := request1 q s in (map_err ERequest r, SHttp1 s)
  | SHttp2 s => let '(r, s) := request2 q s in (map_err ERequest r, SHttp2 s)
  end.

(** [connect_tcp]; [None] while the handshake still waits when [others] are
    used up. *)
Definition connect_tcp (cx : Waker) (others : list (ReactorInner -> ReactorInner)) (addr : Ipv4Addr)
    (port local_port rx_buffer tx_buffer : Z) (r : ReactorInner) : Exec (option (Result Tcp.TcpStream Error) * ReactorInner) :=
  match Tcp.connect addr port local_port rx_buffer tx_buffer r with
  | (Err e, r) => Ret (Some (Err (EConnect e)), r)
  | (Ok stream, r) =>
      '(x, r) ← Worker.await_connected cx others stream r;
      match x with
      | None => Ret (None, r)
      | Some (Ok _) => Ret (Some (Ok stream), r)
      | Some (Err _) => r ← Tcp.drop_stream stream r; Ret (Some (Err EConnectionFailed), r)
      end
  end.

(** The common part of [Connection::http1] and [Connection::http2]: on success
    the spawned driver owns the stream, on a failed handshake it is dropped. *)
Definition establish {S} (handshake : Tcp.TcpStream -> Result S hyper_error) (wrap : S -> Connection)
    (io : Exec (option (Result Tcp.TcpStream Error) * ReactorInner))
    : Exec (option (Result Connection Error) * option Tcp.TcpStream * ReactorInner) :=
  '(x, r) ← io;
  match x with
  | None => Ret (None, None, r)
  | Some (Err e) => Ret (Some (Err e), None, r)
  | Some (Ok stream) =>
      match handshake stream with
      | Ok sender => Ret (Some (Ok (wrap sender)), Some stream, r)
      | Err e => r ← Tcp.drop_stream stream r; Ret (Some (Err (EHandshake e)), None, r)
      end
  end.

Definition http1 cx others addr port local_port rx tx r :=
  establish handshake1 SHttp1 (connect_tcp cx others addr port local_port rx tx r).
Definition http2 cx others addr port local_port rx tx r :=
  establish handshake2 SHttp2 (connect_tcp cx others addr port local_port rx tx r).

(** [http1_connect], [http2_connect] *)
Definition http1_connect := http1.
Definition http2_connect := http2.

(** [ClientConfig]; the timeout (seconds) is not enforced by the code. *)
Record ClientConfig := mk_config { rx_buffer_size : Z; tx_buffer_size : Z; http_version : HttpVersion; connect_timeout : Z }.
Definition ClientConfig_default : ClientConfig := mk_config 16384 16384 Http1 5.

(** [DpdkHttpClient::connect] *)
Definition client_connect (c : ClientConfig) cx others addr port local_port r :=
  match http_version c with
  | Http1 => http1 cx others addr port local_port (rx_buffer_size c) (tx_buffer_size c) r
  | Http2 => http2 cx others addr port local_port (rx_buffer_size c) (tx_buffer_size c) r
  end.

(** [DpdkHttpClient::request]: the connection lives for one request. *)
Definition client_request (c : ClientConfig) cx others addr port local_port (q : Req) r
    : Exec (option (Result Resp Error) * option Tcp.TcpStream * ReactorInner) :=
  '(x, driver, r) ← client_connect c cx others addr port local_port r;
  Ret (match x with
       | Some (Ok conn) => Some (send_request q conn).1
       | Some (Err e) => Some (Err e)
       | None => None
       end, driver, r).

(** ** [ConnectionPool] *)

Definition host : Type := Ipv4Addr * Z.
Record ConnectionPool := mk_pool { config : ClientConfig; connections : gmap host (list Connection); max_idle_per_host : nat }.

Definition pool_new : ConnectionPool := mk_pool ClientConfig_default ∅ 8.
Definition pool_with_config (c : ClientConfig) (n : nat) : ConnectionPool := mk_pool c ∅ n.
Definition clear (p : ConnectionPool) : ConnectionPool := mk_pool (config p) ∅ (max_idle_per_host p).

(** [iter().position(|c| c.is_ready())] *)
Fixpoint position (l : list Connection) : option nat :=
  match l with
  | [] => None
  | c :: l => if is_ready c then Some O else S <$> position l
  end.

(** [Vec::remove(0)] panics on an empty vector. *)
Definition remove0 (l : list Connection) : Exec (list Connection) := match l with [] => Panic | _ :: l => Ret l end.

(** The end of [connection]: the new connection is stored last, the oldest one
    making room at the limit; its position is returned. *)
Definition store (key : host) (conn : Connection) (p : ConnectionPool) : Exec (nat * ConnectionPool) :=
  let conns := default [] (connections p !! key) in
  conns ← (if (max_idle_per_host p <=? length conns)%nat then remove0 conns else Ret conns);
  Ret (length conns, mk_pool (config p) (<[key := conns ++ [conn]]> (connections p)) (max_idle_per_host p)).

(** [ConnectionPool::connection]: the position of the connection lent out, and
    the stream whose driver was spawned; [None] while the handshake waits. *)
Definition connection cx others (addr : Ipv4Addr) (port local_port : Z) (p : ConnectionPool) (r : ReactorInner)
    : Exec (option (Result nat Error) * ConnectionPool * option Tcp.TcpStream * ReactorInner) :=
  let key : host := (addr, port) in
  let has_ready := match connections p !! key with Some conns => existsb is_ready conns | None => false end in
  if has_ready then
    conns ← expect (connections p !! key);
    pos ← expect (position conns);
    _ ← index conns pos;
    Ret (Some (Ok pos), p, None, r)
  else
    '(x, driver, r) ← match http_version (config p) with
                      | Http1 => http1 cx others addr port local_port (rx_buffer_size (config p)) (tx_buffer_size (config p)) r
                      | Http2 => http2 cx others addr port local_port (rx_buffer_size (config p)) (tx_buffer_size (config p)) r
                      end;
    match x with
    | None => Ret (None, p, driver, r)
    | Some (Err e) => Ret (Some (Err e), p, driver, r)
    | Some (Ok conn) => '(pos, p) ← store key conn p; Ret (Some (Ok pos), p, driver, r)
    end.

(** [ConnectionPool::request] *)
Definition pool_request cx others (addr : Ipv4Addr) (port local_port : Z) (q : Req) (p : ConnectionPool) (r : ReactorInner)
    : Exec (option (Result Resp Error) * ConnectionPool * option Tcp.TcpStream * ReactorInner) :=
  '(x, p, driver, r) ← connection cx others addr port local_port p r;
  match x with
  | None => Ret (None, p, driver, r)
  | Some (Err e) => Ret (Some (Err e), p, driver, r)
  | Some (Ok pos) =>
      let conns := default [] (connections p !! (addr, port)) in
      c ← index conns pos;
      let '(y, c) := send_request q c in
      Ret (Some y, mk_pool (config p) (<[(addr, port) := <[pos := c]> conns]> (connections p)) (max_idle_per_host p), driver, r)
  end.

Definition pool_ok (p : ConnectionPool) : Prop :=
  map_Forall (fun _ l => (length l <= max_idle_per_host p)%nat) (connections p).

Lemma position_some l : existsb is_ready l = true -> exists i c, position l = Some i /\ l !! i = Some c /\ is_ready c = true /\
  forall j c', (j < i)%nat -> l !! j = Some c' -> is_ready c' = false.
Proof.
  induction l as [|c l IH]; simpl; [done|]. destruct (is_ready c) eqn:E; simpl.
  - intros _. exists 0%nat, c. split_and!; [done..|lia].
  - intros Hl. destruct (IH Hl) as (i & c' & -> & Hi & Hr & Hf). exists (S i), c'. split_and!; [done..|].
    intros [|j] c2 Hj; simpl; [by intros [= <-] | apply Hf; lia].
Qed.

(** Storing keeps the host within a limit of at least one. *)
Lemma store_run key conn p : pool_ok p -> (1 <= max_idle_per_host p)%nat ->
  let old := default [] (connections p !! key) in
  let l := if (max_idle_per_host p <=? length old)%nat then tail old else old in
  let p' := mk_pool (config p) (<[key := l ++ [conn]]> (connections p)) (max_idle_per_host p) in
  store key conn p = Ret (length l, p') /\ pool_ok p'.
Proof.
  intros Hp Hm. unfold store. set (old := default [] (connections p !! key)).
  assert (Hlen : (length old <= max_idle_per_host p)%nat).
  { unfold old. destruct (connections p !! key) eqn:E; simpl; [by apply (Hp _ _ E) | lia]. }
  destruct (Nat.leb_spec (max_idle_per_host p) (length old)); cbn.
  - destruct old as [|c old]; simpl in *; [lia|]. split; [done|].
    apply map_Forall_insert_2; [rewrite length_app; simpl; lia | exact Hp].
  - split; [done|]. apply map_Forall_insert_2; [rewrite length_app; simpl; lia | exact Hp].
Qed.

(** A pool with limit 0, which the constructor accepts, panics on the first
    connection it stores: [remove(0)] on an empty vector. *)
Theorem pool_limit_zero_panics c key conn : store key conn (pool_with_config c 0) = Panic.
Proof. unfold store, pool_with_config. simpl. by rewrite lookup_empty. Qed.

End Model.

Arguments EConnect {hyper_error} e.
Arguments EConnectionFailed {hyper_error}.

Section Proofs.
Context `{HL : EthBurstLaws} {HI : HashMapIter} {HS : Smoltcp} {HSL : SmoltcpLaws}.
Context {send1 send2 hyper_error : Type}.
Variable handshake1 : Tcp.TcpStream -> Result send1 hyper_error.
Variable handshake2 : Tcp.TcpStream -> Result send2 hyper_error.
Import Sockets.

Lemma connect_tcp_holds cx others addr port lp rx tx r T U : holds r T U -> Forall Worker.keeps others ->
  exists x r', connect_tcp (hyper_error := hyper_error) cx others addr port lp rx tx r = Ret (x, r') /\
    match x with
    | Some (Ok t) => holds r' (Tcp.handle t :: T) U
    | Some (Err _) => holds r' T U
    | None => exists t, holds r' (Tcp.handle t :: T) U
    end.
Proof.
  intros Hh Ho. unfold connect_tcp. pose proof (connect_to addr port lp rx tx r T U Hh) as Hc.
  destruct (Tcp.connect addr port lp rx tx r) as [[t|e] r1]; [|subst; by eexists _, _].
  destruct (Worker.await_holds cx others t r1 (Tcp.handle t :: T) U Ho (proj1 Hc)) as (x & r2 & -> & H2); [by left|]. cbn.
  destruct x as [[u|u]|]; [by eexists _, _ | | eexists _, _; split; [done|]; by exists t].
  destruct (drop_stream_to t r2 T U H2) as (r3 & -> & [H3 _]). cbn. by eexists _, _.
Qed.

Lemma establish_holds {S} (hs : Tcp.TcpStream -> Result S hyper_error) (wrap : S -> Connection (send1 := send1) (send2 := send2))
    cx others addr port lp rx tx r T U v : holds r T U -> Forall Worker.keeps others -> (forall s, version (wrap s) = v) ->
  exists x owned r', establish hs wrap (connect_tcp cx others addr port lp rx tx r) = Ret (x, owned, r') /\
    match x with
    | Some (Ok c) => version c = v /\ exists t, owned = Some t /\ holds r' (Tcp.handle t :: T) U
    | Some (Err _) => owned = None /\ holds r' T U
    | None => exists t, holds r' (Tcp.handle t :: T) U
    end.
Proof.
  intros Hh Ho Hv. destruct (connect_tcp_holds cx others addr port lp rx tx r T U Hh Ho) as (x & r1 & E & Hx).
  unfold establish. rewrite E. cbn. destruct x as [[t|e]|]; [|by eexists _, _, _..].
  destruct (hs t) as [s|e].
  - eexists _, _, _. split; [done|]. split; [done|]. by exists t.
  - destruct (drop_stream_to t r1 T U Hx) as (r3 & -> & [H3 _]). cbn. by eexists _, _, _.
Qed.

Lemma client_connect_holds conf cx others addr port lp r T U : holds r T U -> Forall Worker.keeps others ->
  exists x owned r', client_connect handshake1 handshake2 conf cx others addr port lp r = Ret (x, owned, r') /\
    match x with
    | Some (Ok c) => version c = http_version conf /\ exists t, owned = Some t /\ holds r' (Tcp.handle t :: T) U
    | Some (Err _) => owned = None /\ holds r' T U
    | None => exists t, holds r' (Tcp.handle t :: T) U
    end.
Proof. intros Hh Ho. unfold client_connect. destruct (http_version conf); by apply establish_holds. Qed.

(** Opening an HTTP connection accounts for its TCP socket: on success the
    connection has the configured version and its driver owns the one new
    socket; after a failed connect, wait or handshake no socket is left. *)
Theorem http_connect_accounted conf cx others addr port lp r T U (Hh : holds r T U) (Ho : Forall Worker.keeps others) :
  exists x owned r', client_connect handshake1 handshake2 conf cx others addr port lp r = Ret (x, owned, r') /\
    match x with
    | Some (Ok c) => version c = http_version conf /\ exists t, owned = Some t /\ holds r' (Tcp.handle t :: T) U
    | Some (Err _) => owned = None /\ holds r' T U
    | None => exists t, holds r' (Tcp.handle t :: T) U
    end.
Proof. by apply client_connect_holds. Qed.

(** ** The pool on the reactor *)

Variable ready1 : send1 -> bool.
Variable ready2 : send2 -> bool.

Abbreviation pool := (ConnectionPool (send1 := send1) (send2 := send2)).
Abbreviation acquire := (connection ready1 ready2 handshake1 handshake2).
Abbreviation ready := (is_ready ready1 ready2).

(** The sockets of the drivers spawned. *)
Definition driver_handles (o : option Tcp.TcpStream) : list SocketHandle := Tcp.handle <$> option_list o.

(** What a call of [connection] on the pool [p] may give. *)
Definition acquired (key : host) (p : pool) (x : Result nat (Error (hyper_error := hyper_error))) (p' : pool) (driver : option Tcp.TcpStream) : Prop :=
  let old := default [] (connections p !! key) in
  match x with
  | Err e => p' = p /\ driver = None /\ Forall (fun c => ready c = false) old
  | Ok pos => exists c, default [] (connections p' !! key) !! pos = Some c /\
      ((ready c = true /\ p' = p /\ driver = None /\ forall j c', (j < pos)%nat -> old !! j = Some c' -> ready c' = false) \/
       (version c = http_version (config p) /\ is_Some driver /\ Forall (fun c => ready c = false) old /\
        default [] (connections p' !! key) = (if (max_idle_per_host p <=? length old)%nat then tail old else old) ++ [c]))
  end.

Lemma none_ready conns : existsb ready conns = false -> Forall (fun c => ready c = false) conns.
Proof.
  intros Hn. apply Forall_forall. intros c Hc. destruct (ready c) eqn:E; [|done].
  assert (existsb ready conns = true) as Ht; [|congruence]. apply existsb_exists. exists c. by rewrite <- list_elem_of_In.
Qed.

Lemma connection_run cx others addr port lp (p : pool) r T U : pool_ok p -> (1 <= max_idle_per_host p)%nat ->
  holds r T U -> Forall Worker.keeps others ->
  exists x p' driver r', acquire cx others addr port lp p r = Ret (x, p', driver, r') /\
    pool_ok p' /\ config p' = config p /\ max_idle_per_host p' = max_idle_per_host p /\
    (forall k, k <> (addr, port) -> connections p' !! k = connections p !! k) /\
    match x with
    | None => p' = p /\ exists t, holds r' (Tcp.handle t :: T) U
    | Some x => holds r' (driver_handles driver ++ T) U /\ acquired (addr, port) p x p' driver
    end.
Proof.
  intros Hp Hm Hh Ho. unfold connection. set (key := (addr, port) : host).
  destruct (match connections p !! key with Some conns => existsb ready conns | None => false end) eqn:Er.
  - destruct (connections p !! key) as [conns|] eqn:Ek; [|done]. cbn.
    destruct (position_some _ _ _ Er) as (i & c & -> & Hi & Hr & Hf). cbn. unfold index. rewrite Hi. cbn.
    eexists _, p, _, r. do 5 (split; [done|]). split; [done|]. exists c. rewrite Ek. simpl. split; [done|]. left. by split_and!.
  - assert (Forall (fun c => ready c = false) (default [] (connections p !! key))) as Hno.
    { destruct (connections p !! key) as [conns|]; [by apply none_ready | constructor]. }
    destruct (client_connect_holds (config p) cx others addr port lp r T U Hh Ho) as (x & driver & r' & E & Hx).
    unfold client_connect in E. rewrite E. cbn [mbind exec_bind]. destruct x as [[conn|e]|].
    + destruct Hx as (Hv & t & -> & H'). pose proof (store_run key conn p Hp Hm) as [Hs Hok]. rewrite Hs. cbn [mbind exec_bind].
      eexists _, _, _, r'. split; [done|]. split; [done|]. split_and!; [done|done| |done|].
      * intros k Hk. simpl. by rewrite lookup_insert_ne by congruence.
      * exists conn. simpl. rewrite lookup_insert_eq. simpl. rewrite list_lookup_middle by done. split; [done|]. right. by split_and!.
    + destruct Hx as [-> H']. eexists _, p, _, r'. by split_and!.
    + eexists _, p, _, r'. by split_and!.
Qed.

(** The pool on the reactor: with a limit of at least one, acquiring a
    connection never panics, keeps every host within the limit and touches no
    other host.  If a pooled connection of the host is ready, the first ready
    one is lent and no socket is opened; otherwise a failure to connect is
    reported and leaves pool and sockets as they were, or the new connection, of
    the configured version, is stored last and lent, its driver owning the one
    new socket, the oldest connection making room at the limit. *)
Theorem pool_connection_correct cx others addr port lp (p : pool) r T U (Hp : pool_ok p) (Hm : (1 <= max_idle_per_host p)%nat)
    (Hh : holds r T U) (Ho : Forall Worker.keeps others) :
  exists x p' driver r', acquire cx others addr port lp p r = Ret (x, p', driver, r') /\
    pool_ok p' /\ config p' = config p /\ max_idle_per_host p' = max_idle_per_host p /\
    (forall k, k <> (addr, port) -> connections p' !! k = connections p !! k) /\
    match x with
    | None => p' = p /\ exists t, holds r' (Tcp.handle t :: T) U
    | Some x => holds r' (driver_handles driver ++ T) U /\ acquired (addr, port) p x p' driver
    end.
Proof. by apply connection_run. Qed.

(** *** Any use of a pool *)

Context {Req Resp : Type}.
Variable request1 : Req -> send1 -> Result Resp hyper_error * send1.
Variable request2 : Req -> send2 -> Result Resp hyper_error * send2.

Inductive pool_op :=
  | PConnection (addr : Ipv4Addr) (port local_port : Z)
  | PRequest (addr : Ipv4Addr) (port local_port : Z) (q : Req)
  | PClear.

(** The pool, the streams of the drivers it has spawned, and the reactor. *)
Record pool_sys := mk_psys { ps_pool : pool; ps_drivers : list Tcp.TcpStream; ps_reactor : ReactorInner }.

Definition with_driver (p : pool) (driver : option Tcp.TcpStream) (r : ReactorInner) (s : pool_sys) : pool_sys :=
  mk_psys p (option_list driver ++ ps_drivers s) r.

(** One operation, other tasks running between its polls; [None] while it
    waits for a handshake. *)
Definition pool_step (cx : Waker) (others : list (ReactorInner -> ReactorInner)) (op : pool_op) (s : pool_sys) : Exec (option pool_sys) :=
  match op with
  | PConnection addr port lp =>
      '(x, p, driver, r) ← acquire cx others addr port lp (ps_pool s) (ps_reactor s);
      Ret (match x with Some _ => Some (with_driver p driver r s) | None => None end)
  | PRequest addr port lp q =>
      '(x, p, driver, r) ← pool_request ready1 ready2 handshake1 handshake2 request1 request2 cx others addr port lp q (ps_pool s) (ps_reactor s);
      Ret (match x with Some _ => Some (with_driver p driver r s) | None => None end)
  | PClear => Ret (Some (mk_psys (clear (ps_pool s)) (ps_drivers s) (ps_reactor s)))
  end.

Fixpoint pool_run (cx : Waker) (ops : list (list (ReactorInner -> ReactorInner) * pool_op)) (s : pool_sys) : Exec (option pool_sys) :=
  match ops with
  | [] => Ret (Some s)
  | (others, op) :: ops =>
      o ← pool_step cx others op s;
      match o with Some s => pool_run cx ops s | None => Ret None end
  end.

(** Within its limit, of one version, and every socket beyond those held before
    is a driver's. *)
Record pool_inv (c : ClientConfig) (n : nat) (T U : list SocketHandle) (s : pool_sys) : Prop := {
  pi_ok : pool_ok (ps_pool s);
  pi_conf : config (ps_pool s) = c /\ max_idle_per_host (ps_pool s) = n;
  pi_version : map_Forall (fun _ => Forall (fun k => version k = http_version c)) (connections (ps_pool s));
  pi_holds : holds (ps_reactor s) ((Tcp.handle <$> ps_drivers s) ++ T) U
}.

(** The versions at the host after a connection was acquired. *)
Lemma acquired_versions v key (p p' : pool) x driver : http_version (config p) = v ->
  Forall (fun k => version k = v) (default [] (connections p !! key)) -> acquired key p x p' driver ->
  Forall (fun k => version k = v) (default [] (connections p' !! key)).
Proof.
  intros Hv Hold Ha. destruct x as [pos|e]; [|by destruct Ha as [-> _]].
  destruct Ha as (c & Hc & [(_ & -> & _)|(Hcv & _ & _ & ->)]); [done|].
  apply Forall_app. split; [|constructor; [congruence|constructor]]. destruct (_ <=? _)%nat; [|done]. by destruct Hold.
Qed.

Lemma pool_acquire_inv c n T U cx others addr port lp s : pool_inv c n T U s -> (1 <= n)%nat -> Forall Worker.keeps others ->
  exists x p' driver r', acquire cx others addr port lp (ps_pool s) (ps_reactor s) = Ret (x, p', driver, r') /\
    match x with
    | None => True
    | Some x => pool_inv c n T U (with_driver p' driver r' s) /\
        forall pos, x = Ok pos -> exists k, default [] (connections p' !! (addr, port)) !! pos = Some k
    end.
Proof.
  intros [Hok [Hc Hn] Hv Hh] Hm Ho.
  destruct (connection_run cx others addr port lp (ps_pool s) (ps_reactor s) _ U Hok ltac:(lia) Hh Ho)
    as (x & p' & driver & r' & E & Hok' & Hc' & Hn' & Hk & Hx).
  exists x, p', driver, r'. split; [done|]. destruct x as [x|]; [|done]. destruct Hx as [Hh' Ha]. split.
  - split; simpl; [done|split; congruence| |].
    + intros k l Hl. destruct (decide (k = (addr, port))) as [->|Hne]; [|rewrite Hk in Hl by done; by apply (Hv k)].
      assert (Forall (fun k => version k = http_version c) (default [] (connections (ps_pool s) !! (addr, port)))) as Hold.
      { destruct (connections (ps_pool s) !! (addr, port)) eqn:El; [by apply (Hv _ _ El)|constructor]. }
      pose proof (acquired_versions (http_version c) _ _ _ _ _ ltac:(by rewrite Hc) Hold Ha) as Hnew. by rewrite Hl in Hnew.
    + unfold driver_handles in Hh'. by rewrite fmap_app, <- app_assoc.
  - intros pos ->. destruct Ha as (k & Hpos & _). by exists k.
Qed.

Lemma send_request_version q (k : Connection (send1 := send1) (send2 := send2)) :
  version (send_request (hyper_error := hyper_error) request1 request2 q k).2 = version k.
Proof. destruct k as [k|k]; simpl; [by destruct (request1 q k)|by destruct (request2 q k)]. Qed.

(** Replacing a connection by one of the same version. *)
Lemma pool_inv_replace c n T U key pos k k' s : pool_inv c n T U s -> default [] (connections (ps_pool s) !! key) !! pos = Some k ->
  version k' = version k ->
  let p := ps_pool s in
  pool_inv c n T U (mk_psys (mk_pool (config p) (<[key := <[pos := k']> (default [] (connections p !! key))]> (connections p)) (max_idle_per_host p))
    (ps_drivers s) (ps_reactor s)).
Proof.
  intros [Hok Hc Hv Hh] Hpos Hkv p. destruct (connections (ps_pool s) !! key) as [l|] eqn:El; [|done]. simpl in Hpos. fold p in El.
  split; [| |simpl; rewrite El; simpl|]; [|done| |done].
  - unfold pool_ok. simpl. rewrite El. simpl. apply map_Forall_insert_2; [rewrite length_insert; exact (Hok _ _ El)|exact Hok].
  - apply map_Forall_insert_2; [|exact Hv]. pose proof (Hv _ _ El) as Hl. apply Forall_insert; [done|]. rewrite Forall_forall in Hl.
    rewrite Hkv. apply Hl. by eapply list_elem_of_lookup_2.
Qed.

Lemma pool_step_inv c n T U cx others op s : pool_inv c n T U s -> (1 <= n)%nat -> Forall Worker.keeps others ->
  exists o, pool_step cx others op s = Ret o /\ match o with Some s' => pool_inv c n T U s' | None => True end.
Proof.
  intros Hi Hn Ho. destruct op as [addr port lp|addr port lp q|]; unfold pool_step, pool_request.
  - destruct (pool_acquire_inv c n T U cx others addr port lp s Hi Hn Ho) as (x & p & d & r & -> & Hx). cbn.
    destruct x as [x|]; [|by eexists]. eexists. split; [done|]. apply Hx.
  - destruct (pool_acquire_inv c n T U cx others addr port lp s Hi Hn Ho) as (x & p & d & r & -> & Hx). cbn [mbind exec_bind].
    destruct x as [[pos|e]|]; [|eexists; split; [done|]; apply Hx|by eexists].
    destruct Hx as [Hi' Hpos]. destruct (Hpos pos eq_refl) as (k & Hk). unfold index. rewrite Hk. cbn [mbind exec_bind expect].
    pose proof (send_request_version q k) as Hkv. destruct (send_request request1 request2 q k) as [y k'].
    eexists. split; [done|]. by apply (pool_inv_replace c n T U (addr, port) pos k k' (with_driver p d r s)).
  - eexists. split; [done|]. destruct Hi as [Hok Hc Hv Hh]. split; simpl; [by intros ? ?|done|by intros ? ?|done].
Qed.


End Proofs.

#[local] Existing Instance Mbuf.ref_pktmbuf.
#[local] Existing Instance Queue.ref_mempool.
#[local] Existing Instance Queue.ref_burst.
#[local] Existing Instance Queue.ref_burst_laws.
#[local] Existing Instance Device.ref_hm_iter.
#[local] Existing Instance RefStack.ref_smoltcp.
#[local] Existing Instance RefStack.ref_smoltcp_laws.

(** A handle is its own readiness; a full host with no ready connection. *)
Definition full_pool : ConnectionPool (send1 := bool) (send2 := bool) :=
  mk_pool ClientConfig_default {[ (Device.ip_b, 80%Z) := [SHttp1 false; SHttp2 false] ]} 2.

Lemma full_pool_ok : pool_ok full_pool.
Proof. apply map_Forall_singleton. simpl. lia. Qed.

Lemma pool_connection_correct_witness :
  exists x p' driver r', connection (hyper_error := unit) id id (fun _ => Ok true) (fun _ => Ok true) 7 [Worker.establish] Device.ip_b 80 50000
      full_pool (Sockets.reactor Sockets.fresh) = Ret (Some x, p', driver, r') /\
    Sockets.holds r' (driver_handles driver ++ []) [] /\ acquired id id (Device.ip_b, 80%Z) full_pool x p' driver.
Proof.
  destruct (pool_connection_correct (hyper_error := unit) (fun _ => Ok true) (fun _ => Ok true) id id 7 [Worker.establish] Device.ip_b 80 50000
    full_pool (Sockets.reactor Sockets.fresh) [] [] full_pool_ok ltac:(simpl; lia) (Sockets.sys_owns _ Sockets.fresh_ok)
    ltac:(constructor; [exact Worker.establish_keeps | constructor])) as (x & p' & driver & r' & E & _ & _ & _ & _ & Hx).
  assert (match connection (hyper_error := unit) id id (fun _ => Ok true) (fun _ => Ok true) 7 [Worker.establish] Device.ip_b 80 50000
      full_pool (Sockets.reactor Sockets.fresh) with Ret (Some _, _, _, _) => true | _ => false end = true) as Hr by (vm_compute; reflexivity).
  rewrite E in Hr. destruct x as [x|]; [|discriminate Hr]. exists x, p', driver, r'. split; [exact E | exact Hx].
Defined.

(** The first request opens a connection, which the second finds ready. *)
Definition demo_ops : list (list (ReactorInner -> ReactorInner) * pool_op (Req := bool)) :=
  [([Worker.establish], PRequest Device.ip_b 80 50000 true); ([], PRequest Device.ip_b 80 50001 true); ([], PClear)].

Definition demo_pool_run : Exec (option (pool_sys (send1 := bool) (send2 := bool))) :=
  pool_run (hyper_error := unit) (fun _ => Ok true) (fun _ => Ok true) id id (fun q _ => (Ok tt, q)) (fun q _ => (Ok tt, q)) 7 demo_ops
    (mk_psys (pool_with_config ClientConfig_default 2) [] (Sockets.reactor Sockets.fresh)).


Lemma http_connect_accounted_witness :
  exists owned r', client_connect (send1 := bool) (send2 := bool) (fun _ => Ok true) (fun _ => Err tt) (mk_config 16 16 Http2 5) 7 [Worker.establish]
      Device.ip_b 80 50000 (Sockets.reactor Sockets.fresh) =
    Ret (Some (Err (EHandshake tt)), owned, r') /\ owned = None /\ Sockets.holds r' [] [].
Proof.
  destruct (http_connect_accounted (send1 := bool) (send2 := bool) (fun _ => Ok true) (fun _ => Err tt) (mk_config 16 16 Http2 5) 7
    [Worker.establish] Device.ip_b 80 50000 (Sockets.reactor Sockets.fresh) [] [] (Sockets.sys_owns _ Sockets.fresh_ok)
    ltac:(constructor; [exact Worker.establish_keeps | constructor])) as (x & owned & r' & E & Hx).
  assert (match client_connect (send1 := bool) (send2 := bool) (fun _ => Ok true) (fun _ => Err tt) (mk_config 16 16 Http2 5) 7 [Worker.establish]
      Device.ip_b 80 50000 (Sockets.reactor Sockets.fresh) with Ret (Some (Err (EHandshake tt)), _, _) => true | _ => false end = true) as Hr
    by (vm_compute; reflexivity).
  rewrite E in Hr. destruct x as [[c|[| |[]| | |]]|]; try discriminate Hr.
  exists owned, r'. split; [exact E | exact Hx].
Defined.

End Http.
