(* ===== verification/Adapters.v ===== *)
(** * Adapters for quinn, tonic and axum
      ([dpdk-net-quinn/src/socket.rs], [dpdk-net-tonic/src/{axum/serve,tonic/channel,tonic/serve,tonic/bridge/connector}.rs])

    Thin layers over the bridge and the HTTP connections, modelled for the
    decisions they take themselves: buffer and metadata slots, URI checks and
    their panics, the ports they connect from. *)

From stdpp Require Import base gmap list fin_maps.
From Stdlib Require Import ZArith Strings.Byte Lia.
From S2P Require Import Prelude Mbuf Pktmbuf Queue ArpCache Device Smoltcp Reactor Tcp Udp Sockets Channel BridgeTcp BridgeUdp Worker Http.

Module Adapters.
Import Reactor.

(** ** [DpdkQuinnSocket] *)

Section Quinn.
Context `{HP : PollSender}.
Import BridgeUdp.

(** [quinn::udp::RecvMeta] *)
Record RecvMeta := mk_meta { m_addr : SocketAddr; m_len : nat; m_stride : nat; m_ecn : option Z; m_dst_ip : option IpAddr }.

Definition try_send (lk : bool) (contents : list byte) (destination : SocketAddr) (s : BridgeUdpSocket) (c : chans)
    : Result unit IoKind * chans :=
  let '(r, c) := try_send_to lk contents destination s c in (result_map (fun _ => tt) r, c).

(** [poll_recv]: the buffers by their sizes, the metadata slots; the bytes
    written to the first buffer are part of the result. *)
Definition poll_recv (lk : bool) (bufs : list nat) (meta : list RecvMeta) (s : BridgeUdpSocket) (c : chans)
    : Exec (Poll (Result nat IoKind) * list byte * list RecvMeta * BridgeUdpSocket * chans) :=
  n ← index bufs 0;
  match poll_recv_from lk n s c with
  | (Ready (Ok (bytes, addr)), _, s', c) =>
      _ ← index meta 0;
      let len := length bytes in
      let m := mk_meta addr len len None (Some (sa_ip (local_addr s'))) in
      Ret (Ready (Ok 1), bytes, <[0 := m]> meta, s', c)
  | (Ready (Err e), _, s', c) => Ret (Ready (Err e), [], meta, s', c)
  | (Pending, _, s', c) => Ret (Pending, [], meta, s', c)
  end.

Definition max_transmit_segments : nat := 1.
Definition max_receive_segments : nat := 1.
Definition may_fragment : bool := false.

(** [DpdkUdpPoller::poll_writable] *)
Definition poll_writable (lk : bool) (s : BridgeUdpSocket) (c : chans) := poll_send_ready lk s c.

(** [poll_recv] with at least one buffer and one metadata slot never
    panics; it reports at most one datagram, whose metadata length and stride
    are the number of bytes written, at most the buffer's size, from the next
    datagram the socket holds. *)
Theorem quinn_poll_recv_correct lk n bufs m meta s c :
  exists r bytes meta' s' c', poll_recv lk (n :: bufs) (m :: meta) s c = Ret (r, bytes, meta', s', c') /\
    match r with
    | Ready (Ok k) => k = 1 /\ exists dg, next_datagram s c = Item dg (s', c') /\ bytes `prefix_of` payload dg /\
        (length bytes <= n)%nat /\ exists dst, meta' = mk_meta (addr dg) (length bytes) (length bytes) None dst :: meta
    | _ => bytes = [] /\ meta' = m :: meta /\ s' = s /\ c' = c
    end.
Proof.
  unfold poll_recv, poll_recv_from, index. cbn. destruct lk; [eexists _, _, _, _, _; by split_and!|].
  destruct (next_datagram s c) as [dg [s1 c1]| |] eqn:E; cbn; [|eexists _, _, _, _, _; by split_and!..].
  eexists _, _, _, _, _. split; [done|]. split; [done|]. exists dg. split_and!; [done | | |by eexists].
  - unfold copy_out. eexists. symmetry. apply take_drop.
  - unfold copy_out. rewrite length_take. lia.
Qed.
End Quinn.

(** ** URIs *)

(** [http::Uri]: the parts the adapters read; the host is given with what
    [IpAddress::from_str] makes of it. *)
Record Uri := mk_uri { u_scheme : option nat; u_host : option (option Ipv4Addr); u_port : option Z; u_path : option (list byte) }.

(** [uri.host().expect(..).parse().expect(..)], [uri.port_u16().expect(..)] *)
Definition uri_addr (u : Uri) : Exec Ipv4Addr := h ← expect (u_host u); expect h.
Definition uri_port (u : Uri) : Exec Z := expect (u_port u).

Section Tonic.
Context `{Smoltcp}.

(** [BridgeConnector::call] and [BridgeTransport::connect] *)
Definition connector_call {HC : Channels} {W} (alive : W -> bool)
    (reply : Ipv4Addr -> Z -> W -> option (Result BridgeTcp.Conn BridgeError)) (u : Uri) (g : Worker.WorkerRegistry W)
    : Exec (Result (BridgeTcp.BridgeTcpStream * BridgeTcp.Conn) BridgeError * Worker.WorkerRegistry W) :=
  addr ← uri_addr u;
  port ← uri_port u;
  Worker.bridge_connect alive (reply addr port) g.

(** ** [DpdkGrpcChannel] *)

Context {send1 send2 hyper_error Req Resp : Type}.
Variable ready1 : send1 -> bool.
Variable ready2 : send2 -> bool.
Variable handshake2 : Tcp.TcpStream -> Result send2 hyper_error.
Variable request1 : Req -> send1 -> Result Resp hyper_error * send1.
Variable request2 : Req -> send2 -> Result Resp hyper_error * send2.

Record DpdkGrpcChannel := mk_channel { conn : Http.Connection (send1 := send1) (send2 := send2); scheme : nat; authority : Ipv4Addr * Z }.

Definition connect_with cx others (u : Uri) (local_port rx_buffer tx_buffer : Z) (r : ReactorInner)
    : Exec (option (Result DpdkGrpcChannel (Http.Error (hyper_error := hyper_error))) * ReactorInner) :=
  sch ← expect (u_scheme u);
  addr ← uri_addr u;
  port ← uri_port u;
  '(x, _, r) ← Http.http2 handshake2 cx others addr port local_port rx_buffer tx_buffer r;
  Ret (match x with
       | Some (Ok c) => Some (Ok (mk_channel c sch (addr, port)))
       | Some (Err e) => Some (Err e)
       | None => None
       end, r).

Definition grpc_connect cx others u r := connect_with cx others u 0 4096 4096 r.

Definition grpc_is_ready (c : DpdkGrpcChannel) : bool := Http.is_ready ready1 ready2 (conn c).

(** [Service::poll_ready] *)
Definition poll_ready (c : DpdkGrpcChannel) : Poll (Result unit (Http.Error (hyper_error := hyper_error))) :=
  if grpc_is_ready c then Ready (Ok tt) else Ready (Err Http.EConnectionNotReady).

(** The URI rewriting of [Service::call]: scheme and authority are injected
    into a request that has only a path. *)
Definition full_uri (c : DpdkGrpcChannel) (u : Uri) : Uri :=
  match u_scheme u with
  | Some _ => u
  | None => mk_uri (Some (scheme c)) (Some (Some (authority c).1)) (Some (authority c).2) (Some (default [x2f] (u_path u)))
  end.

Definition grpc_call (c : DpdkGrpcChannel) (set_uri : (Uri -> Uri) -> Req -> Req) (q : Req)
    : Result Resp (Http.Error (hyper_error := hyper_error)) * DpdkGrpcChannel :=
  let '(r, k) := Http.send_request request1 request2 (set_uri (full_uri c) q) (conn c) in
  (r, mk_channel k (scheme c) (authority c)).

(** smoltcp documents that [connect] fails with [Unaddressable] when the local
    port is zero. *)
Hypothesis connect_port_zero : forall i ep s, tcp_connect i ep 0 s = Err ConnectUnaddressable.

(** [DpdkGrpcChannel::connect] never connects: it asks for local port 0,
    which smoltcp does not turn into an ephemeral port, so on every well-formed
    URI it fails at once with [Unaddressable] and changes nothing. *)
Theorem grpc_connect_always_fails cx others sch addr port path r :
  grpc_connect cx others (mk_uri (Some sch) (Some (Some addr)) (Some port) path) r =
    Ret (Some (Err (Http.EConnect ConnectUnaddressable)), r).
Proof. unfold grpc_connect, connect_with, Http.http2, Http.establish, Http.connect_tcp, Tcp.connect. cbn. by rewrite connect_port_zero. Qed.

End Tonic.

(** ** [axum::serve] *)

(** What its [select!] yields: the shutdown, or an accepted stream or error;
    each accepted stream is served by a task with its own clone of the router. *)
Inductive serve_event := SvShutdown | SvAccept (r : Result Tcp.TcpStream ListenError).
Record server {A : Type} := mk_server { serving : bool; conn_id : Z; spawned : list (Z * A * Tcp.TcpStream) }.
Arguments server : clear implicits.

Section Serve.
Context {Router : Type}.

Definition serve_turn (app : Router) (s : server Router) (ev : serve_event) : server Router :=
  if serving s then
    match ev with
    | SvShutdown => mk_server _ false (conn_id s) (spawned s)
    | SvAccept (Ok stream) => mk_server _ true (conn_id s + 1) (spawned s ++ [(conn_id s, app, stream)])
    | SvAccept (Err _) => s
    end
  else s.
Definition serve (app : Router) (evs : list serve_event) : server Router := fold_left (serve_turn app) evs (mk_server _ true 0 []).

(** [tonic::serve]; tonic's [Routes::into_axum_router] is a parameter. *)
Definition tonic_serve {Routes} (into_axum_router : Routes -> Router) (routes : Routes) (evs : list serve_event) : server Router :=
  serve (into_axum_router routes) evs.

(** What the loop accepted before the shutdown. *)
Fixpoint accepted_before (evs : list serve_event) : list Tcp.TcpStream :=
  match evs with
  | [] | SvShutdown :: _ => []
  | SvAccept (Ok stream) :: evs => stream :: accepted_before evs
  | SvAccept (Err _) :: evs => accepted_before evs
  end.

Lemma serve_stopped app evs s : serving s = false -> fold_left (serve_turn app) evs s = s.
Proof. intros Hs. induction evs as [|ev evs IH]; [done|]. cbn [fold_left]. replace (serve_turn app s ev) with s; [done|]. unfold serve_turn. by rewrite Hs. Qed.

Lemma serve_turns app evs s : serving s = true ->
  spawned (fold_left (serve_turn app) evs s) = spawned s ++ imap (fun k t => (conn_id s + Z.of_nat k, app, t)%Z) (accepted_before evs).
Proof.
  revert s. induction evs as [|[|[t|e]] evs IH]; intros [sv cid sp] Hs; cbn in Hs; subst sv; cbn [fold_left accepted_before serve_turn serving].
  - by rewrite app_nil_r.
  - rewrite serve_stopped by done. by rewrite app_nil_r.
  - rewrite IH by done. cbn [spawned conn_id imap]. rewrite <- app_assoc. cbn. rewrite Z.add_0_r. do 2 f_equal.
    apply imap_ext. intros k x _. cbn. do 2 f_equal. lia.
  - by apply IH.
Qed.

(** Every stream accepted before the shutdown, and no other, is served, once,
    by a task with the router, under the next connection number; gRPC's [serve]
    is that of the router its routes make. *)
Theorem serve_spawns {Routes} (into_axum_router : Routes -> Router) (routes : Routes) evs :
  spawned (tonic_serve into_axum_router routes evs) =
    imap (fun k t => (Z.of_nat k, into_axum_router routes, t)) (accepted_before evs).
Proof. apply (serve_turns (into_axum_router routes) evs (mk_server _ true 0 [])). reflexivity. Qed.
End Serve.

#[local] Existing Instance Mbuf.ref_pktmbuf.
#[local] Existing Instance Queue.ref_mempool.
#[local] Existing Instance Queue.ref_burst.
#[local] Existing Instance Queue.ref_burst_laws.
#[local] Existing Instance Device.ref_hm_iter.
#[local] Existing Instance RefStack.ref_smoltcp.
#[local] Existing Instance RefStack.ref_smoltcp_laws.

Lemma grpc_connect_always_fails_witness :
  grpc_connect (send1 := unit) (send2 := unit) (hyper_error := unit) (fun _ => Ok tt) 7 []
    (mk_uri (Some 0) (Some (Some Device.ip_b)) (Some 50051%Z) None) (Sockets.reactor Sockets.fresh) =
  Ret (Some (Err (Http.EConnect ConnectUnaddressable)), Sockets.reactor Sockets.fresh).
Proof. apply (grpc_connect_always_fails (fun _ => Ok tt)). reflexivity. Defined.

End Adapters.
