(* ===== verification/BridgeIo.v ===== *)
(** * tonic and quinn over the bridge
      ([dpdk-net-tonic/src/tonic/bridge/{io,connector,incoming,tls/transport}.rs],
       [dpdk-net-quinn/src/runtime.rs])

    [BridgeIo] gives tonic a bridge stream through tokio-util's [Compat], which
    is the interface [TokioCompat]: it adapts the futures traits to tokio's,
    where a read fills the free part of a [ReadBuf].  The connection seen
    through [BridgeIo] is a step relation; it simulates the one of
    [BridgeTcp.v], so the guarantees of the bridge hold for tonic. *)

From stdpp Require Import base gmap list relations.
From Stdlib Require Import ZArith Strings.Byte Lia.
From S2P Require Import Prelude Mbuf Pktmbuf Queue ArpCache Device Smoltcp Reactor Tcp Udp Sockets Channel BridgeTcp BridgeUdp Worker Http Adapters.

(** [tokio::io::ReadBuf]: its capacity and the part filled so far. *)
Record ReadBuf := mk_readbuf { capacity : nat; filled : list byte }.
Definition unfilled (b : ReadBuf) : nat := (capacity b - length (filled b))%nat.
Definition put (bs : list byte) (b : ReadBuf) : ReadBuf := mk_readbuf (capacity b) (filled b ++ bs).

(** [Compat<BridgeTcpStream>]: a read offers the unfilled part and advances by
    what was read; shutting down closes. *)
Class TokioCompat `{Channels} := {
  compat_poll_read : ReadBuf -> BridgeTcp.BridgeTcpStream -> BridgeTcp.Conn ->
    Poll (Result unit IoKind) * ReadBuf * BridgeTcp.BridgeTcpStream * BridgeTcp.Conn;
  compat_poll_write : list byte -> BridgeTcp.BridgeTcpStream -> BridgeTcp.Conn ->
    Poll (Result nat IoKind) * BridgeTcp.BridgeTcpStream * BridgeTcp.Conn;
  compat_poll_flush : BridgeTcp.BridgeTcpStream -> BridgeTcp.Conn ->
    Poll (Result unit IoKind) * BridgeTcp.BridgeTcpStream * BridgeTcp.Conn;
  compat_poll_shutdown : BridgeTcp.BridgeTcpStream -> BridgeTcp.Conn ->
    Poll (Result unit IoKind) * BridgeTcp.BridgeTcpStream * BridgeTcp.Conn;
  compat_read_spec : forall b s c, compat_poll_read b s c =
    let '(r, s', c') := BridgeTcp.poll_read (unfilled b) s c in
    match r with
    | Ready (Ok bs) => (Ready (Ok tt), put bs b, s', c')
    | Ready (Err e) => (Ready (Err e), b, s', c')
    | Pending => (Pending, b, s', c')
    end;
  compat_write_spec : forall buf s c, compat_poll_write buf s c =
    let '(r, c') := BridgeTcp.poll_write buf c in (r, s, c');
  compat_flush_spec : forall s c, compat_poll_flush s c = (BridgeTcp.poll_flush, s, c);
  compat_shutdown_spec : forall s c, compat_poll_shutdown s c = BridgeTcp.poll_close s c
}.

Module BridgeIo.
Import BridgeTcp.

Section Io.
Context `{TokioCompat}.

(** [BridgeIo] and its methods. *)
Record BridgeIo := new { inner : BridgeTcpStream }.
Definition connect_info (i : BridgeIo) : unit := tt.

Definition poll_read (b : ReadBuf) (i : BridgeIo) (c : Conn) : Poll (Result unit IoKind) * ReadBuf * BridgeIo * Conn :=
  let '(r, b, s, c) := compat_poll_read b (inner i) c in (r, b, new s, c).
Definition poll_write (buf : list byte) (i : BridgeIo) (c : Conn) : Poll (Result nat IoKind) * BridgeIo * Conn :=
  let '(r, s, c) := compat_poll_write buf (inner i) c in (r, new s, c).
Definition poll_flush (i : BridgeIo) (c : Conn) : Poll (Result unit IoKind) * BridgeIo * Conn :=
  let '(r, s, c) := compat_poll_flush (inner i) c in (r, new s, c).
Definition poll_shutdown (i : BridgeIo) (c : Conn) : Poll (Result unit IoKind) * BridgeIo * Conn :=
  let '(r, s, c) := compat_poll_shutdown (inner i) c in (r, new s, c).

(** tonic at the OS end of the connection: it reads into buffers of its own,
    writes, flushes, shuts down and drops; the history counts the bytes that
    appeared in its buffers and those its writes reported. *)
Inductive io_step : sys -> sys -> Prop :=
  | io_reads s i b r b' i' c : os s = Some (inner i) -> poll_read b i (conn s) = (r, b', i', c) ->
      io_step s (mk_sys (pc s) c (Some (inner i')) (net_in s) (net_out s)
                   (os_read s ++ drop (length (filled b)) (filled b')) (os_written s))
  | io_writes s i buf r i' c : os s = Some (inner i) -> poll_write buf i (conn s) = (r, i', c) ->
      io_step s (mk_sys (pc s) c (Some (inner i')) (net_in s) (net_out s) (os_read s)
                   (os_written s ++ match r with Ready (Ok n) => take n buf | _ => [] end))
  | io_flushes s i r i' c : os s = Some (inner i) -> poll_flush i (conn s) = (r, i', c) ->
      io_step s (mk_sys (pc s) c (Some (inner i')) (net_in s) (net_out s) (os_read s) (os_written s))
  | io_shuts s i r i' c : os s = Some (inner i) -> poll_shutdown i (conn s) = (r, i', c) ->
      io_step s (mk_sys (pc s) c (Some (inner i')) (net_in s) (net_out s) (os_read s) (os_written s))
  | io_drops s i : os s = Some (inner i) ->
      io_step s (mk_sys (pc s) (drop_bstream (inner i) (conn s)) None (net_in s) (net_out s) (os_read s) (os_written s)).

Definition io_reachable (s : sys) : Prop := rtc (fun s s' => relay_step s s' \/ io_step s s') init s.

(** A use of [BridgeIo] is a use of the stream below it, or nothing. *)
Lemma io_simulates s s' : io_step s s' -> os_step s s' \/ s' = s.
Proof.
  intros [s1 i b r b' i' c Ho E|s1 i buf r i' c Ho E|s1 i r i' c Ho E|s1 i r i' c Ho E|s1 i Ho].
  - left. unfold poll_read in E. rewrite compat_read_spec in E.
    destruct (BridgeTcp.poll_read (unfilled b) (inner i) (conn s1)) as [[r1 b1] c1] eqn:Er.
    pose proof (os_reads s1 (inner i) (unfilled b) r1 b1 c1 Ho Er) as Hs.
    destruct r1 as [[bs|e]|]; injection E as <- <- <- <-; unfold put; cbn [filled inner]; rewrite ?drop_app_length, ?drop_all; done.
  - left. unfold poll_write in E. rewrite compat_write_spec in E. destruct (BridgeTcp.poll_write buf (conn s1)) as [r1 c1] eqn:Er.
    injection E as <- <- <-. pose proof (os_writes s1 (inner i) buf r1 c1 Ho Er) as Hs. cbn [inner].
    assert (match r1 with Ready (Ok n) => take n buf | _ => [] end = match r1 with Ready (Ok _) => buf | _ => [] end) as ->; [|done].
    unfold BridgeTcp.poll_write in Er. destruct (ch_send _ _); injection Er as <- <-; [by rewrite take_ge|done..].
  - right. unfold poll_flush in E. rewrite compat_flush_spec in E. injection E as <- <- <-. cbn [inner]. rewrite <- Ho. by destruct s1.
  - left. unfold poll_shutdown in E. rewrite compat_shutdown_spec in E. destruct (poll_close (inner i) (conn s1)) as [[r1 b1] c1] eqn:Er.
    injection E as <- <- <-. by apply (os_closes s1 (inner i) r1 b1 c1).
  - left. by apply os_drops.
Qed.

Lemma io_reachable_bridge s : io_reachable s -> reachable s.
Proof.
  unfold io_reachable, reachable. intros Hr. induction Hr as [|s1 s2 s3 [Hs|Hs] _ IH]; [done|by eapply rtc_l; [left|]|].
  apply io_simulates in Hs as [Hs| ->]; [by eapply rtc_l; [right|]|done].
Qed.

End Io.

Section IoProofs.
Context `{HC : TokioCompat} {HCL : ChannelsLaws}.

(** C32: tonic over the bridge has the bridge's byte streams: in every interleaving
    of its calls through [BridgeIo] with the relay and the network, the bytes
    that appeared in its read buffers are a prefix of those the network
    delivered and the bytes sent a prefix of those its writes reported; a read
    into a buffer with room that adds nothing comes after all of them. *)
Theorem bridge_io_streams s (Hr : io_reachable s) :
  os_read s `prefix_of` net_in s /\ net_out s `prefix_of` os_written s /\
  (forall i b b' i' c, os s = Some (inner i) -> (length (filled b) < capacity b)%nat ->
     poll_read b i (conn s) = (Ready (Ok tt), b', i', c) -> filled b' = filled b -> pc s = RDone /\ os_read s = net_in s).
Proof.
  apply io_reachable_bridge in Hr. pose proof (tcp_reachable_inv _ Hr) as Hi. split_and!; [by apply in_prefix|by apply fwd_prefix|].
  intros i b b' i' c Ho Hroom E Hf. unfold poll_read in E. rewrite compat_read_spec in E.
  destruct (BridgeTcp.poll_read (unfilled b) (inner i) (conn s)) as [[r1 b1] c1] eqn:Er.
  destruct r1 as [[bs|e]|]; try discriminate. injection E as <- <- <-. cbn [put filled] in Hf.
  assert (bs = []) as -> by (apply (app_inv_head (filled b)); by rewrite app_nil_r).
  by eapply (eof_all_read s (inner i) (unfilled b)); [..|unfold unfilled; lia|].
Qed.

End IoProofs.

(** ** Connecting *)

Section Connect.
Context {HC : Channels} {W : Type} (alive : W -> bool).
Context (reply : Ipv4Addr -> Z -> W -> option (Result Conn BridgeError)).

(** [BridgeIo::new] around the stream, beside the channels it uses. *)
Definition wrap_stream (x : BridgeTcpStream * Conn) : BridgeIo * Conn := (new x.1, x.2).

(** [BridgeIncoming::poll_next], on the listener's [accept_rx]. *)
Definition poll_next (accept_rx : chan (Result (BridgeTcpStream * Conn) BridgeError))
    : Poll (option (Result (BridgeIo * Conn) BridgeError)) * chan (Result (BridgeTcpStream * Conn) BridgeError) :=
  match ch_recv accept_rx with
  | Item result q => (Ready (Some (result_map wrap_stream result)), q)
  | Disconnected => (Ready None, accept_rx)
  | Empty => (Pending, accept_rx)
  end.

(** [BridgeConnector::poll_ready] and [call], and [BridgeTransport::connect]. *)
Definition connector_poll_ready : Poll (Result unit BridgeError) := Ready (Ok tt).
Definition connector_connect (u : Adapters.Uri) (g : Worker.WorkerRegistry W) : Exec (Result (BridgeIo * Conn) BridgeError * Worker.WorkerRegistry W) :=
  '(r, g) ← Adapters.connector_call alive reply u g; Ret (result_map wrap_stream r, g).
Definition transport_connect (u : Adapters.Uri) (g : Worker.WorkerRegistry W) : Exec (Result (BridgeIo * Conn) BridgeError * Worker.WorkerRegistry W) :=
  addr ← Adapters.uri_addr u;
  port ← Adapters.uri_port u;
  '(r, g) ← Worker.bridge_connect alive (reply addr port) g;
  Ret (result_map wrap_stream r, g).

(** The plain and the TLS transport connect alike: the same stream or error for
    the same URI, and a panic for a URI without an IP address as its host or
    without a port. *)
Theorem transports_agree u g :
  transport_connect u g = connector_connect u g /\
  (transport_connect u g = Panic <->
     (forall a, Adapters.u_host u <> Some (Some a)) \/ Adapters.u_port u = None \/
     exists a p, Adapters.u_host u = Some (Some a) /\ Adapters.u_port u = Some p /\ Worker.bridge_connect alive (reply a p) g = Panic).
Proof.
  unfold transport_connect, connector_connect, Adapters.connector_call, Adapters.uri_addr, Adapters.uri_port. split.
  - destruct (Adapters.u_host u) as [[a|]|]; [|done..]. by destruct (Adapters.u_port u) as [p|].
  - destruct (Adapters.u_host u) as [[a|]|]; cbn; [|split; [left; by intros a|done]..].
    destruct (Adapters.u_port u) as [p|]; cbn; [|split; [right; by left|done]].
    destruct (Worker.bridge_connect alive (reply a p) g) as [[r g']| |] eqn:E; cbn.
    2: { split; [intros _; right; right; by exists a, p|done]. }
    all: split; [done|]; intros [Hn|[Hn|(a' & p' & [= <-] & [= <-] & Hp)]]; [by destruct (Hn a)|done|congruence].
Qed.

(** [DpdkQuinnRuntime::endpoint]: quinn's constructor is a parameter. *)
Definition quinn_endpoint {U E} (bound : Z -> W -> option (Result U BridgeError)) (new_with_abstract_socket : U -> Result E IoKind)
    (port : Z) (g : Worker.WorkerRegistry W) : Exec (Result E BridgeError * Worker.WorkerRegistry W) :=
  '(r, g) ← Worker.bridge_bind_udp alive (bound port) g;
  Ret (match r with Ok bridge_socket => map_err BIo (new_with_abstract_socket bridge_socket) | Err e => Err e end, g).

(** [Runtime::wrap_udp_socket] *)
Definition wrap_udp_socket {U A} (sock : U) : Result A IoKind := Err Unsupported.

End Connect.

(** ** An example: what arrived is read into a buffer that already holds a byte. *)
Module RefCompat.
#[local] Existing Instance RefChannel.ref_channels.
#[local] Existing Instance RefChannel.ref_channels_laws.

#[export, refine] Instance ref_compat : TokioCompat := {|
  compat_poll_read b s c :=
    let '(r, s', c') := BridgeTcp.poll_read (unfilled b) s c in
    match r with
    | Ready (Ok bs) => (Ready (Ok tt), put bs b, s', c')
    | Ready (Err e) => (Ready (Err e), b, s', c')
    | Pending => (Pending, b, s', c')
    end;
  compat_poll_write buf s c := let '(r, c') := BridgeTcp.poll_write buf c in (r, s, c');
  compat_poll_flush s c := (BridgeTcp.poll_flush, s, c);
  compat_poll_shutdown s c := BridgeTcp.poll_close s c
|}.
Proof. all: done. Defined.

Definition run_end : sys :=
  mk_sys RSelect (mk_conn (ch_new DATA_CHANNEL_SIZE) (ch_new DATA_CHANNEL_SIZE) os_new) (Some (mk_bstream [x03] true)) [x01; x02; x03] [] [x01; x02] [].

Lemma run_end_reachable : io_reachable run_end.
Proof.
  unfold io_reachable. eapply rtc_l; [left; apply (rs_recv init [x01; x02; x03]); [done|done|vm_compute; discriminate]|].
  eapply rtc_l; [left; eapply rs_sent; [reflexivity|vm_compute; reflexivity]|]. simpl.
  eapply rtc_l; [right; eapply (io_reads _ (new new_stream) (mk_readbuf 3 [x09])); [reflexivity|vm_compute; reflexivity]|]. apply rtc_refl.
Qed.

Lemma bridge_io_streams_witness : os_read run_end `prefix_of` net_in run_end /\ net_out run_end `prefix_of` os_written run_end.
Proof. destruct (bridge_io_streams run_end run_end_reachable) as (Ha & Hb & _). exact (conj Ha Hb). Defined.

End RefCompat.

End BridgeIo.
