(* ===== verification/Text.v ===== *)
(** * Text and numbers of the Rust standard library

    What the HTTP code, the test utilities and the benchmark client use of
    [str], [String], [char] and the integer parsers.  A string is the list of
    its code points; a byte slice is a list of bytes.  [decode] is UTF-8 with
    the replacement policy of [String::from_utf8_lossy]. *)

From Stdlib Require Import Strings.String.
From stdpp Require Import base list.
From Stdlib Require Import ZArith NArith Strings.Byte Lia.
From S2P Require Import Prelude.

Abbreviation char := N.
Abbreviation str := (list N).

Module Text.

(** ** Bytes and literals *)

Definition bN (b : byte) : N := Byte.to_N b.
(** A byte-string literal [b"..."] and a string literal. *)
Definition bs (s : string) : list byte := String.list_byte_of_string s.
Definition lit (s : string) : str := bN <$> bs s.
(** [str::as_bytes] of an ASCII string. *)
Definition to_byte (c : char) : byte := default x00 (Byte.of_N c).
Definition CR : byte := x0d.
Definition LF : byte := x0a.

Local Open Scope N_scope.

(** ** UTF-8 *)

Definition within (lo hi : N) (b : byte) : bool := (lo <=? bN b) && (bN b <=? hi).
Definition cont (b : byte) : bool := within 128 191 b.
(** The low six bits of a continuation byte, shifted in. *)
Definition shift (acc : N) (b : byte) : N := acc * 64 + (bN b - 128).

(** The range of the second byte that a three- or four-byte lead admits. *)
Definition second3 (b0 : N) : N * N := if b0 =? 224 then (160, 191) else if b0 =? 237 then (128, 159) else (128, 191).
Definition second4 (b0 : N) : N * N := if b0 =? 240 then (144, 191) else if b0 =? 244 then (128, 143) else (128, 191).

(** Code points; [None] stands for a maximal ill-formed part. *)
Fixpoint decode (l : list byte) : list (option char) :=
  match l with
  | [] => []
  | b0 :: l0 =>
      let n := bN b0 in
      if n <? 128 then Some n :: decode l0
      else if (194 <=? n) && (n <=? 223) then
        match l0 with
        | b1 :: l1 => if cont b1 then Some (shift (n - 192) b1) :: decode l1 else None :: decode l0
        | [] => [None]
        end
      else if (224 <=? n) && (n <=? 239) then
        match l0 with
        | b1 :: l1 =>
            if within (second3 n).1 (second3 n).2 b1 then
              match l1 with
              | b2 :: l2 => if cont b2 then Some (shift (shift (n - 224) b1) b2) :: decode l2 else None :: decode l1
              | [] => [None]
              end
            else None :: decode l0
        | [] => [None]
        end
      else if (240 <=? n) && (n <=? 244) then
        match l0 with
        | b1 :: l1 =>
            if within (second4 n).1 (second4 n).2 b1 then
              match l1 with
              | b2 :: l2 =>
                  if cont b2 then
                    match l2 with
                    | b3 :: l3 =>
                        if cont b3 then Some (shift (shift (shift (n - 240) b1) b2) b3) :: decode l3 else None :: decode l2
                    | [] => [None]
                    end
                  else None :: decode l1
              | [] => [None]
              end
            else None :: decode l0
        | [] => [None]
        end
      else None :: decode l0
  end.

(** The bytes of a [str]: UTF-8. *)
Definition utf8_char (c : char) : list byte :=
  List.map to_byte
    (if c <? 128 then [c]
     else if c <? 2048 then [192 + c / 64; 128 + c mod 64]
     else if c <? 65536 then [224 + c / 4096; 128 + c / 64 mod 64; 128 + c mod 64]
     else [240 + c / 262144; 128 + c / 4096 mod 64; 128 + c / 64 mod 64; 128 + c mod 64]).
Definition as_bytes (s : str) : list byte := s ≫= utf8_char.

Definition from_utf8_lossy (l : list byte) : str := default 65533 <$> decode l.
Definition from_utf8 (l : list byte) : option str := mapM id (decode l).

(** ** Characters *)

(** [char::is_whitespace] *)
Definition is_whitespace (c : char) : bool :=
  ((9 <=? c) && (c <=? 13)) || (c =? 32) || (c =? 133) || (c =? 160) || (c =? 5760) ||
  ((8192 <=? c) && (c <=? 8202)) || (c =? 8232) || (c =? 8233) || (c =? 8239) || (c =? 8287) || (c =? 12288).

Definition lower (c : char) : char := if (65 <=? c) && (c <=? 90) then c + 32 else c.

(** [char::to_digit] *)
Definition to_digit (radix : Z) (c : char) : option Z :=
  let d := if (48 <=? c) && (c <=? 57) then Some (Z.of_N c - 48)%Z
           else if (97 <=? lower c) && (lower c <=? 122) then Some (Z.of_N (lower c) - 87)%Z else None in
  match d with Some d => if (d <? radix)%Z then Some d else None | None => None end.

(** ** Strings *)

Definition to_ascii_lowercase (s : str) : str := lower <$> s.
Definition eq_ignore_ascii_case (s t : str) : bool := bool_decide (to_ascii_lowercase s = to_ascii_lowercase t).

Fixpoint starts_with (p s : str) : bool :=
  match p, s with
  | [], _ => true
  | c :: p, d :: s => (c =? d) && starts_with p s
  | _ :: _, [] => false
  end.
Definition strip_prefix (p s : str) : option str := if starts_with p s then Some (drop (length p) s) else None.
Definition strip_suffix (p s : str) : option str :=
  if starts_with (reverse p) (reverse s) then Some (take (length s - length p) s) else None.

(** [str::find] and [str::contains] of a string *)
Fixpoint find_str (p s : str) : option nat :=
  if starts_with p s then Some 0%nat
  else match s with [] => None | _ :: s => S <$> find_str p s end.
Definition contains (p s : str) : bool := bool_decide (is_Some (find_str p s)).

(** [iter().position(..)]; [str::find] of a character *)
Fixpoint position {A} (f : A -> bool) (l : list A) : option nat :=
  match l with
  | [] => None
  | x :: l => if f x then Some 0%nat else S <$> position f l
  end.
Definition find_char (c : char) (s : str) : option nat := position (N.eqb c) s.
Definition contains_char (c : char) (s : str) : bool := bool_decide (is_Some (find_char c s)).

(** [str::split] on a character: always at least one piece *)
Fixpoint split (c : char) (s : str) : list str :=
  match s with
  | [] => [[]]
  | d :: s =>
      if d =? c then [] :: split c s
      else match split c s with p :: ps => (d :: p) :: ps | [] => [[d]] end
  end.

Fixpoint trim_start (s : str) : str :=
  match s with
  | c :: s' => if is_whitespace c then trim_start s' else s
  | [] => []
  end.
Definition trim (s : str) : str := reverse (trim_start (reverse (trim_start s))).

(** [str::split_whitespace] *)
Fixpoint words (cur : str) (s : str) : list str :=
  match s with
  | [] => match cur with [] => [] | _ => [reverse cur] end
  | c :: s =>
      if is_whitespace c then match cur with [] => words [] s | _ => reverse cur :: words [] s end
      else words (c :: cur) s
  end.
Definition split_whitespace (s : str) : list str := words [] s.

(** [str::lines]: a line ends at [\n], a [\r] before it belongs to the line
    ending, and a final empty piece is no line. *)
Definition strip_cr (l : str) : str :=
  match reverse l with c :: r => if c =? 13 then reverse r else l | [] => [] end.
Fixpoint lines_of (ps : list str) : list str :=
  match ps with
  | [] => []
  | [p] => match p with [] => [] | _ => [p] end
  | p :: ps => strip_cr p :: lines_of ps
  end.
Definition lines (s : str) : list str := lines_of (split 10 s).

(** ** Numbers *)

Local Open Scope Z_scope.

(** The loop of [from_str_radix] of an unsigned type whose largest value is
    [max]. *)
Fixpoint radix_loop (radix max acc : Z) (s : str) : option Z :=
  match s with
  | [] => Some acc
  | c :: s =>
      match to_digit radix c with
      | Some d => if acc * radix + d <=? max then radix_loop radix max (acc * radix + d) s else None
      | None => None
      end
  end.

Definition from_str_radix (radix max : Z) (s : str) : option Z :=
  match s with
  | [] => None
  | c :: rest =>
      if (c =? 43)%N then match rest with [] => None | _ => radix_loop radix max 0 rest end
      else radix_loop radix max 0 s
  end.

Definition parse_usize (s : str) : option Z := from_str_radix 10 u64_max s.
Definition parse_u16 (s : str) : option Z := from_str_radix 10 u16_max s.

(** Digits, least significant first; [fuel] bounds their number. *)
Fixpoint digits (fuel : nat) (radix n : Z) : list Z :=
  match fuel with
  | O => []
  | S fuel => if n <? radix then [n] else n mod radix :: digits fuel radix (n / radix)
  end.

Definition digit_char (d : Z) : char := Z.to_N (if d <? 10 then d + 48 else d + 87).
(** [to_string] of an unsigned integer, and [{:x}] *)
Definition to_radix (radix n : Z) : str := digit_char <$> reverse (digits (S (Z.to_nat (Z.log2 n))) radix n).
Definition to_string (n : Z) : str := to_radix 10 n.
Definition to_hex (n : Z) : str := to_radix 16 n.

(** ** Laws *)

Lemma to_digit_char radix d : 0 <= d < radix -> radix <= 36 -> to_digit radix (digit_char d) = Some d.
Proof.
  intros Hd Hr. unfold to_digit, digit_char, lower.
  destruct (Z.ltb_spec d 10).
  - rewrite !(proj2 (N.leb_le _ _)) by lia. simpl. rewrite Z2N.id by lia.
    rewrite (proj2 (Z.ltb_lt _ _)) by lia. f_equal. lia.
  - rewrite (proj2 (N.leb_le 48 _)), (proj2 (N.leb_gt _ 57)) by lia. simpl.
    rewrite (proj2 (N.leb_gt _ 90)), andb_false_r by lia.
    rewrite !(proj2 (N.leb_le _ _)) by lia. simpl. rewrite Z2N.id by lia.
    rewrite (proj2 (Z.ltb_lt _ _)) by lia. f_equal. lia.
Qed.

Lemma to_digit_bound radix c d : to_digit radix c = Some d -> 0 <= d < radix.
Proof.
  unfold to_digit. set (e := if (48 <=? c)%N && (c <=? 57)%N then _ else _).
  assert (forall x, e = Some x -> 0 <= x) as He.
  { intros x. unfold e. destruct (N.leb_spec 48 c), (N.leb_spec c 57); simpl; [intros; simplify_eq; lia|..];
      (destruct (N.leb_spec 97 (lower c)), (N.leb_spec (lower c) 122); simpl; intros; simplify_eq; lia). }
  destruct e as [x|]; [|done]. destruct (Z.ltb_spec x radix); [|done]. intros [= <-]. split; [by apply He | done].
Qed.

Lemma radix_loop_bound radix max acc s v : 0 <= acc <= max -> 0 <= radix -> radix_loop radix max acc s = Some v -> 0 <= v <= max.
Proof.
  intros Ha Hr. revert acc Ha. induction s as [|c s IH]; intros acc Ha; simpl; [by intros [= <-]|].
  destruct (to_digit radix c) as [d|] eqn:Ed; [|done]. apply to_digit_bound in Ed.
  destruct (Z.leb_spec (acc * radix + d) max); [|done]. apply IH. nia.
Qed.

Lemma from_str_radix_bound radix max s v : 0 <= max -> 0 <= radix -> from_str_radix radix max s = Some v -> 0 <= v <= max.
Proof.
  intros Hm Hr. unfold from_str_radix. destruct s as [|c s]; [done|].
  destruct (c =? 43)%N; [destruct s as [|c' s]; [done|]|]; apply radix_loop_bound; lia.
Qed.

(** The value of a digit list, least significant first. *)
Fixpoint value (radix : Z) (ds : list Z) : Z :=
  match ds with [] => 0 | d :: ds => d + radix * value radix ds end.

Lemma digits_spec fuel radix n : 2 <= radix -> 0 <= n < 2 ^ Z.of_nat fuel ->
  Forall (fun d => 0 <= d < radix) (digits fuel radix n) /\ value radix (digits fuel radix n) = n.
Proof.
  intros Hr. revert n. induction fuel as [|fuel IH]; intros n Hn; simpl.
  { simpl in Hn. split; [constructor | lia]. }
  destruct (Z.ltb_spec n radix).
  - simpl. split; [repeat constructor; lia | lia].
  - rewrite Nat2Z.inj_succ, Z.pow_succ_r in Hn by lia.
    assert (0 <= n / radix < 2 ^ Z.of_nat fuel).
    { split; [apply Z.div_pos; lia|]. apply Z.div_lt_upper_bound; [lia|]. nia. }
    destruct (IH (n / radix)) as [Hf Hv]; [done|]. simpl. rewrite Hv. split.
    + constructor; [apply Z.mod_pos_bound; lia | done].
    + pose proof (Z.div_mod n radix). lia.
Qed.

Lemma value_nonneg radix ds : 0 < radix -> Forall (fun d => 0 <= d < radix) ds -> 0 <= value radix ds.
Proof. intros Hr. induction 1; simpl; nia. Qed.

Lemma value_app radix ds d : value radix (ds ++ [d]) = value radix ds + radix ^ zlen ds * d.
Proof.
  induction ds as [|x ds IH]; simpl; [unfold zlen; simpl; lia|].
  rewrite IH, zlen_cons, Z.pow_add_r by (unfold zlen; lia). lia.
Qed.

Lemma radix_loop_value radix max acc ds : 2 <= radix <= 36 -> 0 <= acc ->
  Forall (fun d => 0 <= d < radix) ds ->
  acc * radix ^ zlen ds + value radix (reverse ds) <= max ->
  radix_loop radix max acc (digit_char <$> ds) = Some (acc * radix ^ zlen ds + value radix (reverse ds)).
Proof.
  intros Hr. revert acc. induction ds as [|d ds IH]; intros acc Ha Hf Hm; simpl.
  { unfold zlen. simpl. f_equal. lia. }
  apply Forall_cons in Hf as [Hd Hf]. rewrite to_digit_char by lia.
  assert (0 <= value radix (reverse ds)) by (apply value_nonneg; [lia | by apply Forall_reverse]).
  assert (zlen (reverse ds) = zlen ds) as Hl by (unfold zlen; by rewrite length_reverse).
  rewrite reverse_cons, value_app, Hl, zlen_cons, Z.pow_add_r, Z.pow_1_r in * by (unfold zlen; lia).
  assert (1 <= radix ^ zlen ds) by (pose proof (Z.pow_pos_nonneg radix (zlen ds)); unfold zlen in *; lia).
  rewrite (proj2 (Z.leb_le _ _)) by nia. rewrite IH; [f_equal; lia | nia | done | nia].
Qed.

Lemma digits_nonempty fuel radix n : digits (S fuel) radix n <> [].
Proof. simpl. by case_match. Qed.

(** Printing a number and parsing it back. *)
Lemma radix_roundtrip radix max n : 2 <= radix <= 36 -> 0 <= n <= max ->
  from_str_radix radix max (to_radix radix n) = Some n.
Proof.
  intros Hr Hn. unfold to_radix. set (fuel := S (Z.to_nat (Z.log2 n))).
  destruct (digits_spec fuel radix n) as [Hf Hv]; [lia | |].
  { unfold fuel. destruct (decide (n = 0)) as [->|]; [done|].
    rewrite Nat2Z.inj_succ, Z2Nat.id by apply Z.log2_nonneg. pose proof (Z.log2_spec n). lia. }
  assert (radix_loop radix max 0 (digit_char <$> reverse (digits fuel radix n)) = Some n) as Hl.
  { rewrite radix_loop_value; rewrite ?reverse_involutive, ?Hv; [f_equal; lia | lia | lia | by apply Forall_reverse | lia]. }
  unfold from_str_radix. destruct (digit_char <$> _) as [|c rest] eqn:E.
  { apply fmap_nil_inv in E. apply (f_equal reverse) in E. rewrite reverse_involutive in E.
    by apply digits_nonempty in E. }
  destruct (N.eqb_spec c 43) as [->|]; [|by rewrite Hl].
  exfalso. simpl in Hl. unfold to_digit in Hl. simpl in Hl. done.
Qed.

Lemma parse_to_string n : 0 <= n <= u64_max -> parse_usize (to_string n) = Some n.
Proof. apply radix_roundtrip. lia. Qed.

Lemma to_radix_digits radix n : 2 <= radix <= 36 -> 0 <= n ->
  Forall (fun c => exists d, c = digit_char d /\ 0 <= d < radix) (to_radix radix n).
Proof.
  intros Hr Hn. unfold to_radix. set (fuel := S (Z.to_nat (Z.log2 n))).
  destruct (digits_spec fuel radix n) as [Hf _]; [lia | |].
  { unfold fuel. destruct (decide (n = 0)) as [->|]; [done|].
    rewrite Nat2Z.inj_succ, Z2Nat.id by apply Z.log2_nonneg. pose proof (Z.log2_spec n). lia. }
  apply Forall_fmap, Forall_reverse. eapply Forall_impl; [exact Hf|]. intros d Hd. by exists d.
Qed.

(** Bytes below 128 are their own code points. *)
Definition ascii (b : byte) : Prop := (bN b < 128)%N.

Lemma decode_ascii l : Forall ascii l -> decode l = Some ∘ bN <$> l.
Proof.
  induction 1 as [|b l Hb _ IH]; simpl; [done|]. unfold ascii in Hb.
  rewrite (proj2 (N.ltb_lt _ _)) by done. by rewrite IH.
Qed.

Lemma lossy_ascii l : Forall ascii l -> from_utf8_lossy l = bN <$> l.
Proof. intros Hl. unfold from_utf8_lossy. rewrite decode_ascii by done. by rewrite <- list_fmap_compose. Qed.

Lemma utf8_ascii l : Forall ascii l -> from_utf8 l = Some (bN <$> l).
Proof.
  intros Hl. unfold from_utf8. rewrite decode_ascii by done. clear Hl.
  induction l as [|b l IH]; [done|]. rewrite !fmap_cons. cbn. cbn in IH. by rewrite IH.
Qed.

Lemma position_app_l {A} (f : A -> bool) l k : Forall (fun x => f x = false) l -> position f (l ++ k) = (Nat.add (length l)) <$> position f k.
Proof.
  induction 1 as [|x l Hx _ IH]; simpl; [by destruct (position f k)|]. rewrite Hx, IH. by destruct (position f k).
Qed.

Lemma position_Some {A} (f : A -> bool) l n : position f l = Some n ->
  exists l1 x l2, l = l1 ++ x :: l2 /\ length l1 = n /\ f x = true /\ Forall (fun x => f x = false) l1.
Proof.
  revert n. induction l as [|x l IH]; intros n; simpl; [done|].
  destruct (f x) eqn:E; [intros [= <-]; by exists [], x, l; split_and!|].
  destruct (position f l) as [k|]; [|done]. intros [= <-].
  destruct (IH k) as (l1 & y & l2 & -> & <- & Hy & Hf); [done|]. exists (x :: l1), y, l2. by split_and!; [..|constructor].
Qed.

Lemma position_None {A} (f : A -> bool) l : position f l = None <-> Forall (fun x => f x = false) l.
Proof.
  induction l as [|x l IH]; simpl; [by split|]. destruct (f x) eqn:E.
  - split; [done|]. intros Hf. apply Forall_cons in Hf as [? _]. congruence.
  - rewrite Forall_cons, <- IH. destruct (position f l); first [by split; [|intros [_ ?]] | by split].
Qed.

Lemma trim_start_id c s : is_whitespace c = false -> trim_start (c :: s) = c :: s.
Proof. simpl. by intros ->. Qed.

(** Text without white space is trimmed to itself, also behind a space. *)
Lemma trim_solid s : Forall (fun c => is_whitespace c = false) s -> trim s = s.
Proof.
  intros Hs. unfold trim. assert (trim_start s = s) as ->.
  { destruct Hs; [done | by apply trim_start_id]. }
  assert (trim_start (reverse s) = reverse s) as ->.
  { apply Forall_reverse in Hs. by destruct Hs; [done | apply trim_start_id]. }
  apply reverse_involutive.
Qed.

Lemma trim_space s : trim (32%N :: s) = trim s.
Proof. done. Qed.

Lemma digit_char_solid d : 0 <= d < 36 -> is_whitespace (digit_char d) = false.
Proof.
  intros Hd. unfold digit_char, is_whitespace.
  assert (48 <= Z.to_N (if (d <? 10)%Z then (d + 48)%Z else (d + 87)%Z) <= 122)%N as [H1 H2] by (destruct (Z.ltb_spec d 10); lia).
  set (c := Z.to_N _) in *. rewrite (proj2 (N.leb_gt c 13)), andb_false_r by lia.
  rewrite (proj2 (N.leb_gt 8192 c)) by lia. simpl.
  rewrite !(proj2 (N.eqb_neq c _)) by lia. done.
Qed.

Lemma to_radix_solid radix n : 2 <= radix <= 36 -> 0 <= n -> Forall (fun c => is_whitespace c = false) (to_radix radix n).
Proof.
  intros Hr Hn. eapply Forall_impl; [by apply to_radix_digits|].
  intros c (d & -> & Hd). apply digit_char_solid. lia.
Qed.

(** Pieces, lines and words *)

Lemma to_byte_bN b : to_byte (bN b) = b.
Proof. unfold to_byte, bN. by rewrite Byte.of_to_N. Qed.
Lemma map_to_byte_bN l : List.map to_byte (List.map bN l) = l.
Proof. rewrite List.map_map. rewrite <- (List.map_id l) at 2. apply List.map_ext. apply to_byte_bN. Qed.
Lemma bN_inj b b' : bN b = bN b' -> b = b'.
Proof. intros E. by rewrite <- (to_byte_bN b), E, to_byte_bN. Qed.

Lemma split_piece c (p s : str) : c ∉ p -> split c (p ++ c :: s) = p :: split c s.
Proof.
  induction p as [|d p IH]; simpl; intros Hc; [by rewrite N.eqb_refl|].
  apply not_elem_of_cons in Hc as [Hd Hp]. rewrite (proj2 (N.eqb_neq d c)) by congruence. by rewrite IH.
Qed.

Lemma split_last c (p : str) : c ∉ p -> split c p = [p].
Proof.
  induction p as [|d p IH]; simpl; intros Hc; [done|].
  apply not_elem_of_cons in Hc as [Hd Hp]. rewrite (proj2 (N.eqb_neq d c)) by congruence. by rewrite IH.
Qed.

Lemma split_nonempty c (s : str) : split c s <> [].
Proof. destruct s as [|d s]; simpl; [done|]. destruct (d =? c)%N; [done|]. by destruct (split c s). Qed.

Lemma lines_line (l s : str) : 10%N ∉ l -> lines (l ++ 10%N :: s) = strip_cr l :: lines s.
Proof.
  intros Hl. unfold lines. rewrite split_piece by done. destruct (split 10 s) eqn:E; [by apply split_nonempty in E|]. done.
Qed.

Lemma strip_cr_none (l : str) : 13%N ∉ l -> strip_cr l = l.
Proof.
  intros Hl. unfold strip_cr. destruct (reverse l) as [|c r] eqn:E; [apply (f_equal reverse) in E; by rewrite reverse_involutive in E|].
  destruct (N.eqb_spec c 13) as [->|]; [|done]. destruct Hl. apply elem_of_reverse. rewrite E. by left.
Qed.

Definition solid (s : str) : Prop := Forall (fun c => is_whitespace c = false) s.

Lemma words_solid (cur w s : str) : solid w -> words cur (w ++ s) = words (reverse w ++ cur) s.
Proof.
  intros Hw. revert cur. induction Hw as [|c w Hc _ IH]; intros cur; simpl; [done|].
  rewrite Hc, IH, reverse_cons, <- app_assoc. done.
Qed.

Lemma split_word (w s : str) c : solid w -> w <> [] -> is_whitespace c = true -> split_whitespace (w ++ c :: s) = w :: split_whitespace s.
Proof.
  intros Hw Hn Hc. unfold split_whitespace. rewrite words_solid, app_nil_r by done. simpl. rewrite Hc.
  destruct (reverse w) as [|d r] eqn:E; [by apply (f_equal reverse) in E; rewrite reverse_involutive in E|].
  rewrite <- E, reverse_involutive. done.
Qed.

(** ** UTF-8 encoding and decoding *)
Section Utf8.
Local Open Scope N_scope.

(** The scalar values, the characters of Rust. *)
Definition scalar (c : char) : Prop := c < 55296 \/ 57344 <= c < 1114112.

Lemma bN_to_byte n : n < 256 -> bN (to_byte n) = n.
Proof.
  intros Hn. unfold to_byte, bN. destruct (Byte.of_N n) as [b|] eqn:E; simpl; [by apply Byte.to_of_N|].
  apply Byte.of_N_None_iff in E. lia.
Qed.

(** Bytes in the places the decoder expects them. *)
Ltac in_range := rewrite ?andb_true_iff, ?andb_false_iff, ?N.leb_le, ?N.leb_gt, ?N.ltb_ge; lia.

Lemma within_byte lo hi n : n < 256 -> lo <= n <= hi -> within lo hi (to_byte n) = true.
Proof. intros Hn Hr. unfold within. rewrite bN_to_byte by done. in_range. Qed.

Lemma decode_two a b l : 2 <= a < 32 -> b < 64 -> decode (to_byte (192 + a) :: to_byte (128 + b) :: l) = Some (a * 64 + b) :: decode l.
Proof.
  intros Ha Hb. pose proof (bN_to_byte (192 + a) ltac:(lia)) as E0. pose proof (bN_to_byte (128 + b) ltac:(lia)) as E1.
  assert (cont (to_byte (128 + b)) = true) as C1 by (apply within_byte; lia).
  generalize dependent (to_byte (192 + a)). generalize dependent (to_byte (128 + b)). intros b1 E1 C1 b0 E0.
  assert ((bN b0 <? 128) = false) as H0 by in_range. assert ((194 <=? bN b0) && (bN b0 <=? 223) = true) as H1 by in_range.
  cbn. rewrite H0, H1, C1. unfold shift. rewrite E0, E1. do 2 f_equal. lia.
Qed.

Lemma decode_three a b d l : a < 16 -> b < 64 -> d < 64 -> (a = 0 -> 32 <= b) -> (a = 13 -> b < 32) ->
  decode (to_byte (224 + a) :: to_byte (128 + b) :: to_byte (128 + d) :: l) = Some ((a * 64 + b) * 64 + d) :: decode l.
Proof.
  intros Ha Hb Hd Hlow Hsur. pose proof (bN_to_byte (224 + a) ltac:(lia)) as E0. pose proof (bN_to_byte (128 + b) ltac:(lia)) as E1.
  pose proof (bN_to_byte (128 + d) ltac:(lia)) as E2. assert (cont (to_byte (128 + d)) = true) as C2 by (apply within_byte; lia).
  assert (within (second3 (224 + a)).1 (second3 (224 + a)).2 (to_byte (128 + b)) = true) as C1.
  { unfold second3. destruct (N.eqb_spec (224 + a) 224), (N.eqb_spec (224 + a) 237); apply within_byte; simpl; lia. }
  rewrite <- E0 in C1. generalize dependent (to_byte (224 + a)). generalize dependent (to_byte (128 + b)). generalize dependent (to_byte (128 + d)).
  intros b2 E2 C2 b1 E1 b0 E0 C1.
  assert ((bN b0 <? 128) = false) as H0 by in_range. assert ((194 <=? bN b0) && (bN b0 <=? 223) = false) as H1 by in_range.
  assert ((224 <=? bN b0) && (bN b0 <=? 239) = true) as H2 by in_range.
  cbn. rewrite H0, H1, H2, C1, C2. unfold shift. rewrite E0, E1, E2. do 2 f_equal. lia.
Qed.

Lemma decode_four a b d e l : a < 5 -> b < 64 -> d < 64 -> e < 64 -> (a = 0 -> 16 <= b) -> (a = 4 -> b < 16) ->
  decode (to_byte (240 + a) :: to_byte (128 + b) :: to_byte (128 + d) :: to_byte (128 + e) :: l) =
    Some (((a * 64 + b) * 64 + d) * 64 + e) :: decode l.
Proof.
  intros Ha Hb Hd He Hlow Hhigh. pose proof (bN_to_byte (240 + a) ltac:(lia)) as E0. pose proof (bN_to_byte (128 + b) ltac:(lia)) as E1.
  pose proof (bN_to_byte (128 + d) ltac:(lia)) as E2. pose proof (bN_to_byte (128 + e) ltac:(lia)) as E3.
  assert (cont (to_byte (128 + d)) = true) as C2 by (apply within_byte; lia). assert (cont (to_byte (128 + e)) = true) as C3 by (apply within_byte; lia).
  assert (within (second4 (240 + a)).1 (second4 (240 + a)).2 (to_byte (128 + b)) = true) as C1.
  { unfold second4. destruct (N.eqb_spec (240 + a) 240), (N.eqb_spec (240 + a) 244); apply within_byte; simpl; lia. }
  rewrite <- E0 in C1. generalize dependent (to_byte (240 + a)). generalize dependent (to_byte (128 + b)). generalize dependent (to_byte (128 + d)).
  generalize dependent (to_byte (128 + e)). intros b3 E3 C3 b2 E2 C2 b1 E1 b0 E0 C1.
  assert ((bN b0 <? 128) = false) as H0 by in_range. assert ((194 <=? bN b0) && (bN b0 <=? 223) = false) as H1 by in_range.
  assert ((224 <=? bN b0) && (bN b0 <=? 239) = false) as H2 by in_range. assert ((240 <=? bN b0) && (bN b0 <=? 244) = true) as H3 by in_range.
  cbn. rewrite H0, H1, H2, H3, C1, C2, C3. unfold shift. rewrite E0, E1, E2, E3. do 2 f_equal. lia.
Qed.

Lemma decode_utf8_char (c : N) l : scalar c -> decode (utf8_char c ++ l) = Some c :: decode l.
Proof.
  intros Hc. unfold utf8_char, scalar in *.
  assert (c / 64 mod 64 < 64) by (by apply N.mod_lt). assert (c / 4096 mod 64 < 64) by (by apply N.mod_lt). assert (c mod 64 < 64) by (by apply N.mod_lt).
  assert (c = c / 64 * 64 + c mod 64) as E1 by (pose proof (N.div_mod c 64 ltac:(done)); lia).
  assert (c / 64 = c / 4096 * 64 + c / 64 mod 64) as E2.
  { pose proof (N.div_mod (c / 64) 64 ltac:(done)) as E. rewrite (N.Div0.div_div c 64 64) in E. change (64 * 64) with 4096 in E. lia. }
  assert (c / 4096 = c / 262144 * 64 + c / 4096 mod 64) as E3.
  { pose proof (N.div_mod (c / 4096) 64 ltac:(done)) as E. rewrite (N.Div0.div_div c 4096 64) in E. change (4096 * 64) with 262144 in E. lia. }
  set (r2 := c / 64 mod 64) in *; set (r3 := c / 4096 mod 64) in *; set (r1 := c mod 64) in *.
  set (q1 := c / 64) in *; set (q2 := c / 4096) in *; set (q3 := c / 262144) in *. clearbody r1 r2 r3 q1 q2 q3.
  destruct (N.ltb_spec c 128); [|destruct (N.ltb_spec c 2048); [|destruct (N.ltb_spec c 65536)]].
  - cbn [List.map app decode]. rewrite bN_to_byte by lia. by destruct (N.ltb_spec c 128); [|lia].
  - cbn [List.map app]. rewrite decode_two by lia. by rewrite <- E1.
  - cbn [List.map app]. rewrite decode_three by lia. by rewrite <- E2, <- E1.
  - cbn [List.map app]. rewrite decode_four by lia. by rewrite <- E3, <- E2, <- E1.
Qed.

(** Decoding what was encoded gives the text back. *)
Theorem utf8_roundtrip (s : str) (Hs : Forall scalar s) : from_utf8 (as_bytes s) = Some s /\ from_utf8_lossy (as_bytes s) = s.
Proof.
  assert (decode (as_bytes s) = Some <$> s) as E.
  { unfold as_bytes. induction Hs as [|c s Hc _ IH]; [done|]. cbn [mbind list_bind]. rewrite decode_utf8_char by done. by rewrite IH. }
  unfold from_utf8, from_utf8_lossy. rewrite E. split; [|by rewrite <- list_fmap_compose, list_fmap_id].
  clear. induction s as [|c s IH]; [done|]. cbn. by rewrite IH.
Qed.

End Utf8.

Lemma utf8_roundtrip_witness :
  let s := [97; 233; 8364; 128512]%N in as_bytes s = bs "aé€😀" /\ from_utf8 (as_bytes s) = Some s.
Proof.
  intros s. split; [reflexivity|]. apply (utf8_roundtrip s). repeat constructor; unfold scalar; lia.
Defined.

End Text.
