(* ===== verification/HttpParser.v ===== *)
(** * The HTTP/1.1 request parser ([dpdk-net-test/src/app/custom_http.rs])

    [HttpParser<R>] reads requests from an asynchronous byte source through a
    growing buffer.  The source is the class [Source]: what a read may return,
    with the bytes still to come as an observation.  httparse and the types of
    the http crate are the classes [Httparse] and [HttpTypes].  The parser is
    written in a small state and error monad over the parser record and is
    proved to implement a parser on plain byte lists, whatever the sizes of the
    reads. *)

From Stdlib Require Import Strings.String.
From stdpp Require Import base list.
From Stdlib Require Import ZArith NArith Strings.Byte Lia.
From S2P Require Import Prelude Text.

Local Open Scope Z_scope.

(** ** httparse and http *)

(** [httparse::Request] after a complete parse *)
Record hp_request := mk_hp {
  hp_method : option (list byte);
  hp_path : option (list byte);
  hp_version : option Z;
  hp_headers : list (list byte * list byte)
}.

(** [httparse::Status] *)
Inductive hp_status := Complete (header_len : nat) (req : hp_request) | Partial.

Class Httparse := {
  hp_error : Type;
  hp_display : hp_error -> list byte;
  (* the number of header slots, the bytes *)
  hp_parse : nat -> list byte -> Result hp_status hp_error
}.

(** Parsing is incremental: it consumes a prefix of what it is given, an
    answer other than [Partial] is final, and no input is no request yet. *)
Class HttparseLaws `{Httparse} : Prop := {
  hp_complete_len : forall m l n r, hp_parse m l = Ok (Complete n r) -> (0 < n <= length l)%nat;
  hp_complete_final : forall m l n r k, hp_parse m l = Ok (Complete n r) -> hp_parse m (l ++ k) = Ok (Complete n r);
  hp_error_final : forall m l e k, hp_parse m l = Err e -> hp_parse m (l ++ k) = Err e;
  hp_empty : forall m, hp_parse m [] = Ok Partial
}.

(** [http::Version] *)
Inductive Version := HTTP_09 | HTTP_10 | HTTP_11 | HTTP_2 | HTTP_3.
#[export] Instance Version_eq_dec : EqDecision Version.
Proof. solve_decision. Defined.

(** A [HeaderName] is its canonical, lower-case text; a [HeaderValue] its bytes. *)
Class HttpTypes := {
  Method : Type;
  method_from_bytes : list byte -> option Method;
  header_name_from_bytes : list byte -> option (list byte);
  header_value_from_bytes : list byte -> option (list byte);
  uri_valid : list byte -> bool;
  canonical_reason : Z -> option (list byte)
}.

Module HttpParser.
Import Text.

(** ** Outcomes and the monad *)

Inductive out (S E A : Type) :=
  | Done (a : A) (s : S)
  | Fail (e : E) (s : S)
  | Crash
  | NoFuel.
Arguments Done {S E A} a s.
Arguments Fail {S E A} e s.
Arguments Crash {S E A}.
Arguments NoFuel {S E A}.

Definition M (S E A : Type) : Type := S -> out S E A.

#[export] Instance M_ret S E : MRet (M S E) := fun A a s => Done a s.
#[export] Instance M_bind S E : MBind (M S E) := fun A B f m s =>
  match m s with Done a s => f a s | Fail e s => Fail e s | Crash => Crash | NoFuel => NoFuel end.

Definition fail {S E A} (e : E) : M S E A := fun s => Fail e s.
(** Rust's [?] on a value that is at hand *)
Definition lift {S E A} (r : Result A E) : M S E A := fun s => match r with Ok a => Done a s | Err e => Fail e s end.

(** ** Errors *)

(** [enum ParseError]; [io] is the payload of [Io]. *)
Inductive ParseError {io hpe : Type} :=
  | Io (e : io)
  | Parse (e : hpe)
  | InvalidMethod
  | InvalidVersion
  | InvalidHeader
  | InvalidUri
  | HeadersTooLarge
  | InvalidContentLength
  | ConnectionClosed.
Arguments ParseError : clear implicits.

Definition MAX_HEADERS : nat := 100.
Definition INITIAL_BUF_SIZE : nat := 1024.
Definition MAX_BUF_SIZE : Z := 64 * 1024.

(** [Display for ParseError] *)
Definition display {io hpe} (io_display : io -> list byte) (hpe_display : hpe -> list byte) (e : ParseError io hpe) : list byte :=
  match e with
  | Io e => bs "I/O error: " ++ io_display e
  | Parse e => bs "Parse error: " ++ hpe_display e
  | InvalidMethod => bs "Invalid HTTP method"
  | InvalidVersion => bs "Invalid HTTP version"
  | InvalidHeader => bs "Invalid header format"
  | InvalidUri => bs "Invalid URI"
  | HeadersTooLarge => bs "Headers too large"
  | InvalidContentLength => bs "Invalid Content-Length"
  | ConnectionClosed => bs "Connection closed"
  end.

(** ** Header maps

    [HeaderMap] as its entries in iteration order; [insert] replaces the
    values of a name that is there, at its place, and appends one that is not. *)
Definition HeaderMap : Type := list (list byte * list byte).

Fixpoint hm_get (name : list byte) (h : HeaderMap) : option (list byte) :=
  match h with
  | [] => None
  | (n, v) :: h => if decide (n = name) then Some v else hm_get name h
  end.
Fixpoint hm_insert (name value : list byte) (h : HeaderMap) : HeaderMap :=
  match h with
  | [] => [(name, value)]
  | (n, v) :: h =>
      if decide (n = name) then (name, value) :: List.filter (fun e => negb (bool_decide (e.1 = name))) h
      else (n, v) :: hm_insert name value h
  end.
Definition hm_contains (name : list byte) (h : HeaderMap) : bool := bool_decide (is_Some (hm_get name h)).

Definition CONTENT_LENGTH : list byte := bs "content-length".
Definition TRANSFER_ENCODING : list byte := bs "transfer-encoding".
Definition CONNECTION : list byte := bs "connection".
Definition CONTENT_TYPE : list byte := bs "content-type".

(** [HeaderValue::to_str]: visible ASCII only *)
Definition visible (b : byte) : bool := within 32 126 b || bool_decide (b = x09).
Definition to_str (v : list byte) : option str := if forallb visible v then Some (bN <$> v) else None.

Definition get_content_length (headers : HeaderMap) : option Z :=
  v ← hm_get CONTENT_LENGTH headers; s ← to_str v; parse_usize s.

Definition is_chunked (headers : HeaderMap) : bool :=
  match hm_get TRANSFER_ENCODING headers ≫= to_str with
  | Some v => contains (lit "chunked") (to_ascii_lowercase v)
  | None => false
  end.

Definition should_keep_alive (headers : HeaderMap) (version : Version) : bool :=
  match hm_get CONNECTION headers with
  | Some conn => match to_str conn with Some s => eq_ignore_ascii_case s (lit "keep-alive") | None => false end
  | None => bool_decide (version = HTTP_11)
  end.

(** ** Requests *)

Section Requests.
Context `{Httparse} `{HttpTypes}.

Record Request := mk_request {
  method : Method;
  uri : list byte;
  version : Version;
  headers : HeaderMap;
  body : list byte
}.

(** The conversion of the parsed headers into a [HeaderMap]. *)
Fixpoint header_map {io} (hs : list (list byte * list byte)) (acc : HeaderMap) : Result HeaderMap (ParseError io hp_error) :=
  match hs with
  | [] => Ok acc
  | (n, v) :: hs =>
      match header_name_from_bytes n with
      | None => Err InvalidHeader
      | Some name =>
          match header_value_from_bytes v with
          | None => Err InvalidHeader
          | Some value => header_map hs (hm_insert name value acc)
          end
      end
  end.

Record Head := mk_head { h_method : Method; h_uri : list byte; h_version : Version; h_headers : HeaderMap }.

(** The [Complete] branch of [parse_headers]. *)
Definition convert {io} (req : hp_request) : Result Head (ParseError io hp_error) :=
  match method_from_bytes (default [] (hp_method req)) with
  | None => Err InvalidMethod
  | Some m =>
      let u := default (bs "/") (hp_path req) in
      match hp_version req with
      | Some 0 => result_map (mk_head m u HTTP_10) (header_map (hp_headers req) [])
      | Some 1 => result_map (mk_head m u HTTP_11) (header_map (hp_headers req) [])
      | _ => Err InvalidVersion
      end
  end.
End Requests.

(** ** Sources

    [src_read n] is a read into a buffer of [n] bytes and yields the bytes
    read, none at the end; [src_exact] fetches exactly [n] bytes after those
    taken from the buffer.  Errors are given as [?] converts them.  The
    observations are the bytes still to come, how the stream ends, and what was
    written to the other direction of the connection. *)
Class Source (R io hpe : Type) := {
  src_read : Z -> M R (ParseError io hpe) (list byte);
  src_exact : nat -> Z -> M R (ParseError io hpe) (list byte);
  src_rest : R -> list byte;
  src_end : R -> option (ParseError io hpe);
  src_written : R -> list byte
}.

(** How a read past the last byte fails. *)
Definition closed_by {io hpe} (e : option (ParseError io hpe)) : ParseError io hpe := default ConnectionClosed e.

(** Reading changes neither how the stream ends nor what was written. *)
Definition same_end `{Source R io hpe} (r r' : R) : Prop := src_end r' = src_end r /\ src_written r' = src_written r.

Class SourceLaws `{Source R io hpe} : Prop := {
  read_some : forall n r, 0 < n -> src_rest r <> [] ->
    exists l r', src_read n r = Done l r' /\ l <> [] /\ zlen l <= n /\ src_rest r = l ++ src_rest r' /\ same_end r r';
  read_end : forall n r, 0 < n -> src_rest r = [] ->
    exists r', src_read n r = match src_end r with None => Done [] r' | Some e => Fail e r' end /\
      src_rest r' = [] /\ same_end r r';
  exact_some : forall fuel n r, 0 < n <= zlen (src_rest r) -> (length (src_rest r) < fuel)%nat ->
    exists r', src_exact fuel n r = Done (take (Z.to_nat n) (src_rest r)) r' /\
      src_rest r' = drop (Z.to_nat n) (src_rest r) /\ same_end r r';
  exact_end : forall fuel n r, zlen (src_rest r) < n -> (length (src_rest r) < fuel)%nat ->
    exists r', src_exact fuel n r = Fail (closed_by (src_end r)) r' /\ same_end r r'
}.

Section Parser.
Context `{Httparse} `{HttpTypes} `{!Source R io hp_error}.

Record HttpParser := mk_parser { reader : R; buf : list byte; len : nat }.
Abbreviation P := (M HttpParser (ParseError io hp_error)).

Definition new (r : R) : HttpParser := mk_parser r (replicate INITIAL_BUF_SIZE x00) 0.

(** [&self.buf[..self.len]] *)
Definition buffered : P (list byte) := fun p =>
  if (len p <=? length (buf p))%nat then Done (take (len p) (buf p)) p else Crash.

(** [self.buf.copy_within(n..self.len, 0); self.len -= n;] *)
Definition discard (n : nat) : P unit := fun p =>
  if (n <=? len p)%nat && (len p <=? length (buf p))%nat then
    Done tt (mk_parser (reader p) (list_inserts 0 (take (len p - n) (drop n (buf p))) (buf p)) (len p - n))
  else Crash.

(** Run a source operation on the reader. *)
Definition on_reader {A} (m : M R (ParseError io hp_error) A) : P A := fun p =>
  match m (reader p) with
  | Done a r => Done a (mk_parser r (buf p) (len p))
  | Fail e r => Fail e (mk_parser r (buf p) (len p))
  | Crash => Crash
  | NoFuel => NoFuel
  end.

(** The growth of the buffer in [read_more]. *)
Definition grow : P unit := fun p =>
  if (len p =? length (buf p))%nat then
    if MAX_BUF_SIZE <=? zlen (buf p) then Fail HeadersTooLarge p
    else Done tt (mk_parser (reader p) (buf p ++ replicate (length (buf p)) x00) (len p))
  else Done tt p.

(** [let n = self.reader.read(&mut self.buf[self.len..]).await?; self.len += n;] *)
Definition fill : P nat := fun p =>
  if (len p <=? length (buf p))%nat then
    match src_read (zlen (buf p) - Z.of_nat (len p)) (reader p) with
    | Done l r => Done (length l) (mk_parser r (list_inserts (len p) l (buf p)) (len p + length l))
    | Fail e r => Fail e (mk_parser r (buf p) (len p))
    | Crash => Crash
    | NoFuel => NoFuel
    end
  else Crash.

Definition read_more : P nat := _ ← grow; fill.

Fixpoint parse_headers (fuel : nat) : P (option (Head * nat)) :=
  match fuel with
  | O => fun _ => NoFuel
  | S fuel =>
      l ← buffered;
      s ← lift (map_err Parse (hp_parse MAX_HEADERS l));
      match s with
      | Complete header_len req => h ← lift (convert req); mret (Some (h, header_len))
      | Partial =>
          if (length l =? 0)%nat then
            (n ← read_more; if (n =? 0)%nat then mret None else parse_headers fuel)
          else
            (n ← read_more; if (n =? 0)%nat then fail ConnectionClosed else parse_headers fuel)
      end
  end.

(** Rust's [Vec::with_capacity] panics beyond [isize::MAX] bytes. *)
Definition with_capacity (n : Z) : P unit := fun p => if n <=? 2 ^ 63 - 1 then Done tt p else Crash.

(** [read_fixed_body] and [read_exact]: the same steps *)
Definition read_exact (fuel : nat) (n : Z) : P (list byte) :=
  _ ← with_capacity n;
  l ← buffered;
  let from_buf := Z.min (zlen l) n in
  _ ← discard (Z.to_nat from_buf);
  if from_buf <? n then
    rest ← on_reader (src_exact fuel (n - from_buf)); mret (take (Z.to_nat from_buf) l ++ rest)
  else mret (take (Z.to_nat from_buf) l).

Definition read_fixed_body (fuel : nat) (length : Z) : P (list byte) := read_exact fuel length.

(** [if line.last() == Some(&b'\r') { line.pop(); }] *)
Definition pop_cr (line : list byte) : list byte :=
  match reverse line with b :: l => if decide (b = CR) then reverse l else line | [] => [] end.

Definition is_lf (b : byte) : bool := bool_decide (b = LF).

Definition set_len (n : nat) : P unit := fun p => Done tt (mk_parser (reader p) (buf p) n).

Fixpoint read_line (fuel : nat) (line : list byte) : P str :=
  match fuel with
  | O => fun _ => NoFuel
  | S fuel =>
      l ← buffered;
      match position is_lf l with
      | Some pos =>
          _ ← discard (S pos);
          mret (from_utf8_lossy (pop_cr (line ++ take pos l)))
      | None =>
          _ ← set_len 0;
          n ← read_more;
          if (n =? 0)%nat then fail ConnectionClosed else read_line fuel (line ++ l)
      end
  end.

(** [size_line.split(';').next().unwrap_or(&size_line).trim()] *)
Definition size_str (size_line : str) : str := trim (default size_line (head (split 59 size_line))).

(** [read_chunked_body]; [rfuel] bounds the reads of one line. *)
Fixpoint read_chunked_body (fuel rfuel : nat) (acc : list byte) : P (list byte) :=
  match fuel with
  | O => fun _ => NoFuel
  | S fuel =>
      size_line ← read_line rfuel [];
      chunk_size ← lift (ok_or InvalidContentLength (from_str_radix 16 u64_max (size_str size_line)));
      if chunk_size =? 0 then _ ← read_line rfuel []; mret acc
      else
        chunk ← read_exact rfuel chunk_size;
        _ ← read_line rfuel [];
        read_chunked_body fuel rfuel (acc ++ chunk)
  end.

Definition read_body (fuel : nat) (headers : HeaderMap) : P (list byte) :=
  if is_chunked headers then read_chunked_body fuel fuel []
  else match get_content_length headers with
       | Some content_length => read_fixed_body fuel content_length
       | None => mret []
       end.

Definition parse_request (fuel : nat) : P (option Request) :=
  h ← parse_headers fuel;
  match h with
  | None => mret None
  | Some (h, header_len) =>
      _ ← discard header_len;
      body ← read_body fuel (h_headers h);
      if uri_valid (h_uri h) then
        mret (Some (mk_request (h_method h) (h_uri h) (h_version h) (h_headers h) body))
      else fail InvalidUri
  end.

End Parser.
Arguments HttpParser R : clear implicits.

(** ** The parser on byte lists

    The same requests read off a list of bytes: no buffer, no reads.  [fin] is
    how the stream ends. *)
Section Reference.
Context `{Httparse} `{HttpTypes} {io : Type}.
Variable fin : option (ParseError io hp_error).
Abbreviation L := (M (list byte) (ParseError io hp_error)).

(** The head of the request has to fit into [MAX_BUF_SIZE] bytes. *)
Definition ref_head : L (option (Head * nat)) := fun d =>
  match hp_parse MAX_HEADERS (take (Z.to_nat MAX_BUF_SIZE) d) with
  | Err e => Fail (Parse e) d
  | Ok (Complete n req) => match convert req with Ok h => Done (Some (h, n)) d | Err e => Fail e d end
  | Ok Partial =>
      if MAX_BUF_SIZE <=? zlen d then Fail HeadersTooLarge d
      else match fin with
           | Some e => Fail e d
           | None => match d with [] => Done None d | _ => Fail ConnectionClosed d end
           end
  end.

Definition ref_skip (n : nat) : L unit := fun d => Done tt (drop n d).

Definition ref_take (n : Z) : L (list byte) := fun d =>
  if n <=? 2 ^ 63 - 1 then
    if n <=? zlen d then Done (take (Z.to_nat n) d) (drop (Z.to_nat n) d) else Fail (closed_by fin) d
  else Crash.

Definition ref_line : L str := fun d =>
  match position is_lf d with
  | Some pos => Done (from_utf8_lossy (pop_cr (take pos d))) (drop (S pos) d)
  | None => Fail (closed_by fin) d
  end.

Fixpoint ref_chunks (fuel : nat) (acc : list byte) : L (list byte) :=
  match fuel with
  | O => fun _ => NoFuel
  | S fuel =>
      size_line ← ref_line;
      chunk_size ← lift (ok_or InvalidContentLength (from_str_radix 16 u64_max (size_str size_line)));
      if chunk_size =? 0 then _ ← ref_line; mret acc
      else
        chunk ← ref_take chunk_size;
        _ ← ref_line;
        ref_chunks fuel (acc ++ chunk)
  end.

Definition ref_body (headers : HeaderMap) : L (list byte) := fun d =>
  if is_chunked headers then ref_chunks (S (length d)) [] d
  else match get_content_length headers with
       | Some n => ref_take n d
       | None => Done [] d
       end.

Definition ref_request : L (option Request) :=
  h ← ref_head;
  match h with
  | None => mret None
  | Some (h, header_len) =>
      _ ← ref_skip header_len;
      body ← ref_body (h_headers h);
      if uri_valid (h_uri h) then
        mret (Some (mk_request (h_method h) (h_uri h) (h_version h) (h_headers h) body))
      else fail InvalidUri
  end.
End Reference.

(** ** Refinement *)

Section Proofs.
Context {HP : Httparse} {HPL : HttparseLaws} {HT : HttpTypes} {R io : Type}.
Context {HS : Source R io hp_error} {HSL : SourceLaws}.
Variable fin : option (ParseError io hp_error).
Variable written : list byte.
Abbreviation E := (ParseError io hp_error).

(** The bytes the parser has not used yet: buffered, then still to come. *)
Definition stream (p : HttpParser R) : list byte := take (len p) (buf p) ++ src_rest (reader p).

(** The buffer starts at [INITIAL_BUF_SIZE] and doubles up to [MAX_BUF_SIZE]. *)
Record parser_ok (p : HttpParser R) : Prop := {
  ok_len : (len p <= length (buf p))%nat;
  ok_size : exists k, 0 <= k <= 6 /\ zlen (buf p) = 1024 * 2 ^ k;
  ok_end : src_end (reader p) = fin;
  ok_written : src_written (reader p) = written
}.

(** A run on the parser against a run on the list of its bytes. *)
Definition sim {A} (o : out (HttpParser R) E A) (o' : out (list byte) E A) : Prop :=
  match o, o' with
  | Done a p, Done a' d => a = a' /\ parser_ok p /\ stream p = d
  | Fail e p, Fail e' _ => e = e' /\ src_written (reader p) = written
  | Crash, Crash => True
  | _, _ => False
  end.

Lemma sim_bind {A B} (o : out _ E A) (o' : out _ E A) (f : A -> M _ E B) (f' : A -> M _ E B) :
  sim o o' -> (forall a p, parser_ok p -> o' = Done a (stream p) -> sim (f a p) (f' a (stream p))) ->
  sim (match o with Done a s => f a s | Fail e s => Fail e s | Crash => Crash | NoFuel => NoFuel end)
      (match o' with Done a s => f' a s | Fail e s => Fail e s | Crash => Crash | NoFuel => NoFuel end).
Proof.
  destruct o as [a p|e p| |], o' as [a' d|e' d| |]; simpl; try done. intros (<- & Hp & <-) Hf. by apply Hf.
Qed.

Lemma inserts_0 {A} (l k : list A) : (length l <= length k)%nat -> list_inserts 0 l k = l ++ drop (length l) k.
Proof.
  intros Hl. apply list_eq. intros i. destruct (decide (i < length l)%nat).
  - rewrite list_lookup_inserts by lia. rewrite lookup_app_l by done. f_equal. lia.
  - rewrite list_lookup_inserts_ge by lia. rewrite lookup_app_r, lookup_drop by lia. f_equal. lia.
Qed.

Lemma take_inserts {A} (l k : list A) n : (n + length l <= length k)%nat ->
  take (n + length l) (list_inserts n l k) = take n k ++ l.
Proof.
  intros Hl. apply list_eq. intros i. destruct (decide (i < n)%nat).
  - rewrite lookup_take_lt by lia. rewrite list_lookup_inserts_lt, lookup_app_l, lookup_take_lt by (rewrite ?length_take; lia). done.
  - destruct (decide (i < n + length l)%nat).
    + rewrite lookup_take_lt, list_lookup_inserts, lookup_app_r by (rewrite ?length_take; lia).
      f_equal. rewrite length_take. lia.
    + rewrite lookup_take_ge by lia. symmetry. apply lookup_ge_None. rewrite length_app, length_take. lia.
Qed.

Lemma size_bound p : parser_ok p -> 1024 <= zlen (buf p) <= MAX_BUF_SIZE.
Proof.
  intros [_ (k & Hk & ->) _ _]. unfold MAX_BUF_SIZE.
  pose proof (Z.pow_le_mono_r 2 0 k). pose proof (Z.pow_le_mono_r 2 k 6). lia.
Qed.

Lemma buffered_run p : parser_ok p -> buffered (io := io) p = Done (take (len p) (buf p)) p.
Proof. intros Hp. unfold buffered. by rewrite (proj2 (Nat.leb_le _ _) (ok_len _ Hp)). Qed.

Lemma buffered_length p : parser_ok p -> length (take (len p) (buf p)) = len p.
Proof. intros Hp. rewrite length_take. pose proof (ok_len _ Hp). lia. Qed.

(** [copy_within] and the new length drop the front of the stream. *)
Lemma discard_run n p : parser_ok p -> (n <= len p)%nat ->
  exists p', discard (io := io) n p = Done tt p' /\ parser_ok p' /\ stream p' = drop n (stream p) /\ reader p' = reader p.
Proof.
  intros Hp Hn. pose proof (ok_len _ Hp) as Hl. unfold discard.
  rewrite !(proj2 (Nat.leb_le _ _)) by lia. simpl. eexists. split; [done|].
  set (l := take (len p - n) (drop n (buf p))).
  assert (length l = len p - n)%nat as Hll by (unfold l; rewrite length_take, length_drop; lia).
  split_and!; [|..|done].
  - destruct Hp. split; simpl; try done; unfold zlen in *; rewrite length_inserts; [lia | done].
  - unfold stream. simpl. rewrite inserts_0 by lia. rewrite <- Hll, take_app_length.
    rewrite drop_app_le by (rewrite buffered_length; [lia | done]).
    f_equal. unfold l. by rewrite skipn_firstn_comm.
Qed.

(** What one [read_more] does. *)
Lemma read_more_run p : parser_ok p ->
  (zlen (buf p) = Z.of_nat (len p) /\ zlen (buf p) = MAX_BUF_SIZE /\ read_more p = Fail HeadersTooLarge p) \/
  (Z.of_nat (len p) < MAX_BUF_SIZE /\
   ((src_rest (reader p) = [] /\ exists p', read_more p = match fin with None => Done 0%nat p' | Some e => Fail e p' end /\
       src_written (reader p') = written /\ (fin = None -> parser_ok p' /\ stream p' = stream p)) \/
    (exists n p', read_more p = Done n p' /\ (0 < n)%nat /\ parser_ok p' /\ stream p' = stream p /\
       len p' = (len p + n)%nat /\ (length (src_rest (reader p')) < length (src_rest (reader p)))%nat))).
Proof.
  intros Hp. pose proof (size_bound _ Hp) as Hb. pose proof (ok_len _ Hp) as Hl.
  assert (exists p1, grow (io := io) p = Done tt p1 /\ parser_ok p1 /\ stream p1 = stream p /\ reader p1 = reader p /\
    len p1 = len p /\ (len p1 < length (buf p1))%nat \/
    grow (io := io) p = Fail HeadersTooLarge p /\ zlen (buf p) = Z.of_nat (len p) /\ zlen (buf p) = MAX_BUF_SIZE) as [p1 Hg].
  { unfold grow. destruct (Nat.eqb_spec (len p) (length (buf p))) as [He|He].
    - destruct (Z.leb_spec MAX_BUF_SIZE (zlen (buf p))); [exists p; right; unfold zlen in *; split_and!; done || lia|].
      eexists. left. split; [done|]. simpl. split_and!; try done.
      + destruct Hp as [? (k & Hk & E) ? ?]. split; simpl; try done.
        * rewrite length_app, length_replicate. lia.
        * exists (k + 1). rewrite zlen_app. unfold zlen at 2. rewrite length_replicate. fold (zlen (buf p)).
          rewrite Z.pow_add_r by lia. unfold MAX_BUF_SIZE in *.
          assert (k < 6) by (apply (Z.pow_lt_mono_r_iff 2); lia). lia.
      + unfold stream. simpl. f_equal. by rewrite take_app_le by lia.
      + rewrite length_app, length_replicate. unfold zlen in *. lia.
    - exists p. left. split_and!; done || lia. }
  unfold read_more, mbind, M_bind. destruct Hg as [(-> & Hp1 & Hs1 & Hr1 & Hl1 & Hlt)|(-> & ? & ?)]; [|by left].
  right. pose proof (size_bound _ Hp1). split; [unfold zlen in *; lia|].
  unfold fill. rewrite (proj2 (Nat.leb_le _ _)) by lia.
  assert (0 < zlen (buf p1) - Z.of_nat (len p1)) as Hroom by (unfold zlen; lia).
  rewrite <- Hr1. destruct (decide (src_rest (reader p1) = [])) as [He|Hne].
  - left. split; [done|]. destruct (read_end _ _ Hroom He) as (r' & -> & He' & Hend & Hw).
    rewrite (ok_end _ Hp1). destruct fin eqn:Hfin.
    + eexists. split; [done|]. simpl. split; [by rewrite Hw, (ok_written _ Hp1) | done].
    + eexists. split; [done|]. simpl. split; [by rewrite Hw, (ok_written _ Hp1)|]. intros _. split.
      * destruct Hp1. split; simpl; try done; try congruence. lia.
      * rewrite <- Hs1. unfold stream. simpl. by rewrite Nat.add_0_r, He, He'.
  - right. destruct (read_some _ _ Hroom Hne) as (l & r' & -> & Hnl & Hn & Hrest & Hend & Hw).
    exists (length l). eexists. split; [done|]. simpl. unfold zlen in Hn.
    split_and!.
    + destruct l; [done | simpl; lia].
    + destruct Hp1. split; simpl; try congruence; unfold zlen in *; rewrite length_inserts; [lia | done].
    + rewrite <- Hs1. unfold stream. simpl. rewrite take_inserts by lia. by rewrite Hrest, app_assoc.
    + by rewrite Hl1.
    + rewrite Hrest, length_app. destruct l; [done | simpl; lia].
Qed.

Lemma hp_take m l k n : hp_parse m l <> Ok Partial -> (length l <= n)%nat -> hp_parse m (take n (l ++ k)) = hp_parse m l.
Proof.
  intros Hl Hn. rewrite take_app_ge by done. destruct (hp_parse m l) as [[j r|]|e] eqn:E; [|done|].
  - by apply hp_complete_final.
  - by apply hp_error_final.
Qed.

(** One turn of [parse_headers] on an incomplete head. *)
Lemma parse_headers_partial fuel p : parser_ok p -> hp_parse MAX_HEADERS (take (len p) (buf p)) = Ok Partial ->
  parse_headers (io := io) (S fuel) p =
  match read_more p with
  | Done O p' => if (len p =? 0)%nat then Done None p' else Fail ConnectionClosed p'
  | Done (S _) p' => parse_headers fuel p'
  | Fail e p' => Fail e p'
  | Crash => Crash
  | NoFuel => NoFuel
  end.
Proof.
  intros Hp Hl. cbn [parse_headers]. unfold mbind at 1, M_bind at 1. rewrite (buffered_run _ Hp).
  unfold mbind at 1, M_bind at 1. unfold lift at 1. rewrite Hl, (buffered_length _ Hp). cbn [map_err].
  destruct (len p =? 0)%nat; unfold mbind, M_bind; destruct (read_more p) as [[|n] p'|e p'| |]; done.
Qed.

Lemma parse_headers_sim fuel p : parser_ok p -> (length (src_rest (reader p)) < fuel)%nat ->
  sim (parse_headers fuel p) (ref_head fin (stream p)).
Proof.
  revert p. induction fuel as [|fuel IH]; intros p Hp Hf; [lia|]. pose proof (buffered_length _ Hp) as Hlen. pose proof (size_bound _ Hp) as Hb.
  pose proof (ok_len _ Hp) as Hl. set (l := take (len p) (buf p)) in *.
  assert (hp_parse MAX_HEADERS l = Ok Partial \/ hp_parse MAX_HEADERS l <> Ok Partial) as [Hpart|Hpart]
    by (destruct (hp_parse MAX_HEADERS l) as [[?|]|]; auto).
  2:{ cbn [parse_headers]. unfold mbind, M_bind. rewrite (buffered_run _ Hp). fold l. unfold lift at 1.
    unfold ref_head, stream. fold l. rewrite hp_take; [|done|unfold zlen in *; lia].
    destruct (hp_parse MAX_HEADERS l) as [[n r|]|e]; simpl; [|done|by split; [|apply ok_written]].
    unfold lift. destruct (convert r); simpl; [by split_and! | by split; [|apply ok_written]]. }
  destruct (read_more_run _ Hp) as [(He & Hmax & E)|(Hlt & [(Hnil & p' & E & Hw & Hok)|(n & p' & E & Hn & Hp' & Hs & Hl' & Hr)])];
    rewrite (parse_headers_partial _ _ Hp Hpart), E.
  - unfold ref_head, stream. fold l. rewrite take_app_ge, Hmax in * by (unfold zlen in *; lia).
    replace (Z.to_nat MAX_BUF_SIZE - length l)%nat with 0%nat by lia. rewrite take_0, app_nil_r, Hpart.
    rewrite (proj2 (Z.leb_le _ _)) by (rewrite zlen_app; unfold zlen in *; lia).
    split; [done | by apply ok_written].
  - assert (stream p = l) as Hsl by (unfold stream; by rewrite Hnil, app_nil_r).
    unfold ref_head. rewrite Hsl, take_ge, Hpart by (unfold zlen in *; lia).
    rewrite (proj2 (Z.leb_gt _ _)) by (unfold zlen; lia). destruct fin as [e|] eqn:Hfin; [by split|].
    destruct Hok as [Hok Hs']; [done|]. rewrite <- Hlen. destruct l as [|b l0] eqn:El; simpl; [|by split].
    by rewrite Hs', Hsl.
  - destruct n; [lia|]. rewrite <- Hs. apply IH; [done | lia].
Qed.

Lemma closed_sim {A} p d : src_written (reader p) = written -> sim (A := A) (Fail (closed_by fin) p) (Fail (closed_by fin) d).
Proof. by split. Qed.

Lemma read_line_sim fuel line p : parser_ok p -> (length (src_rest (reader p)) < fuel)%nat ->
  Forall (fun b => is_lf b = false) line ->
  sim (read_line fuel line p) (ref_line fin (line ++ stream p)).
Proof.
  revert line p. induction fuel as [|fuel IH]; intros line p Hp Hf Hline; [lia|].
  cbn [read_line]. unfold mbind, M_bind. rewrite (buffered_run _ Hp). pose proof (buffered_length _ Hp) as Hlen.
  set (l := take (len p) (buf p)) in *. destruct (position is_lf l) as [pos|] eqn:Epos.
  - destruct (position_Some _ _ _ Epos) as (l1 & x & l2 & El & <- & Hx & Hl1).
    destruct (discard_run (S (length l1)) p Hp) as (p' & -> & Hp' & Hs & _).
    { rewrite <- Hlen, El, length_app. simpl. lia. }
    unfold ref_line. assert (position is_lf (line ++ stream p) = Some (length (line ++ l1))) as ->.
    { unfold stream. fold l. rewrite El. replace (line ++ (l1 ++ x :: l2) ++ src_rest (reader p))
        with ((line ++ l1) ++ (x :: l2 ++ src_rest (reader p))) by (by rewrite <- !app_assoc).
      rewrite position_app_l by (by apply Forall_app_2). simpl. rewrite Hx. simpl. f_equal. lia. }
    assert (take (length l1) l = l1) as Ht by (rewrite El; by rewrite take_app_length).
    assert (take (length l1) (stream p) = l1) as Ht'.
    { unfold stream. fold l. rewrite take_app_le by (rewrite El, length_app; simpl; lia). done. }
    rewrite Ht. cbn. rewrite length_app, take_app_add, Ht'. split_and!; [done..|].
    rewrite Hs, (plus_n_Sm (length line) (length l1)), drop_app_add. done.
  - apply position_None in Epos. cbn [set_len].
    set (p1 := mk_parser (reader p) (buf p) 0).
    assert (parser_ok p1) as Hp1 by (destruct Hp; split; simpl; try done; lia).
    pose proof (size_bound _ Hp1) as Hb1.
    assert (line ++ stream p = (line ++ l) ++ stream p1) as -> by (unfold stream; simpl; by rewrite <- app_assoc).
    destruct (read_more_run _ Hp1) as [(He & _)|(_ & [(Hnil & p' & E & Hw & _)|(n & p' & E & Hn & Hp' & Hs & _ & Hr)])].
    + simpl in He. unfold p1 in Hb1. simpl in *. lia.
    + assert (stream p1 = []) as -> by (unfold stream; simpl; done).
      unfold ref_line. rewrite app_nil_r, (proj2 (position_None _ _)) by (by apply Forall_app_2).
      rewrite E. by destruct fin; split.
    + rewrite E. simpl. rewrite (proj2 (Nat.eqb_neq n 0)) by lia. rewrite <- Hs. apply IH; [done | simpl in *; lia |].
      by apply Forall_app_2.
Qed.

Lemma read_exact_sim fuel n p : parser_ok p -> (length (src_rest (reader p)) < fuel)%nat -> 0 <= n ->
  sim (read_exact fuel n p) (ref_take fin n (stream p)).
Proof.
  intros Hp Hf Hn. unfold read_exact, ref_take, mbind, M_bind, with_capacity.
  destruct (n <=? 2 ^ 63 - 1); [|done]. rewrite (buffered_run _ Hp).
  pose proof (buffered_length _ Hp) as Hlen. set (l := take (len p) (buf p)) in *.
  assert (zlen l = Z.of_nat (len p)) as Hzl by (unfold zlen; lia).
  destruct (discard_run (Z.to_nat (Z.min (zlen l) n)) p Hp) as (p' & -> & Hp' & Hs & Hr); [lia|].
  destruct (Z.ltb_spec (Z.min (zlen l) n) n) as [Hlt|Hge].
  - rewrite Z.min_l in * by lia. rewrite take_ge by (unfold zlen; lia).
    assert (stream p' = src_rest (reader p)) as Hs' by (rewrite Hs, Hzl; unfold stream; fold l;
      rewrite <- Hlen, Nat2Z.id; by rewrite drop_app_length).
    unfold on_reader. rewrite Hr. unfold stream. fold l. rewrite zlen_app.
    destruct (Z.leb_spec n (zlen l + zlen (src_rest (reader p)))).
    + destruct (exact_some fuel (n - zlen l) (reader p)) as (r' & -> & Hr' & He & Hw); [lia | done |].
      assert (Z.to_nat n = length l + Z.to_nat (n - zlen l))%nat as -> by (unfold zlen; lia).
      simpl. rewrite take_app_add, drop_app_add. split; [done|]. split.
      * destruct Hp'. rewrite Hr in *. split; simpl; try done; congruence.
      * unfold stream. simpl. unfold stream in Hs'. rewrite Hr in Hs'.
        assert (take (len p') (buf p') = []) as Ht.
        { apply (f_equal length) in Hs'. rewrite length_app in Hs'. apply length_zero_iff_nil. lia. }
        by rewrite Ht, Hr'.
    + destruct (exact_end fuel (n - zlen l) (reader p)) as (r' & -> & He & Hw); [lia | done |].
      rewrite (ok_end _ Hp). split; [done|]. simpl. rewrite Hw. apply (ok_written _ Hp).
  - assert (n <= zlen l) by lia. rewrite Z.min_r in * by lia. unfold stream at 1 2. fold l. rewrite zlen_app.
    pose proof (zlen_nonneg (src_rest (reader p))).
    rewrite (proj2 (Z.leb_le _ _)) by lia. split_and!; [|done|].
    + rewrite take_app_le by (unfold zlen in *; lia). done.
    + by rewrite Hs.
Qed.

Lemma ref_line_shrinks d a d' : ref_line fin d = Done (E := E) a d' -> (length d' < length d)%nat.
Proof.
  unfold ref_line. destruct (position is_lf d) as [pos|] eqn:Ep; [|done]. intros [= _ <-].
  destruct (position_Some _ _ _ Ep) as (l1 & x & l2 & -> & <- & _). rewrite length_drop, length_app. simpl. lia.
Qed.

Lemma ref_take_shrinks n d a d' : ref_take fin n d = Done (E := E) a d' -> (length d' <= length d)%nat.
Proof. unfold ref_take. repeat case_match; try done. intros [= _ <-]. rewrite length_drop. lia. Qed.

Lemma line_sim fuel p : parser_ok p -> (length (stream p) < fuel)%nat -> sim (read_line fuel [] p) (ref_line fin (stream p)).
Proof. intros Hp Hf. apply (read_line_sim _ []); [done | unfold stream in Hf; rewrite length_app in Hf; lia | constructor]. Qed.

Lemma take_sim fuel n p : parser_ok p -> (length (stream p) < fuel)%nat -> 0 <= n ->
  sim (read_exact fuel n p) (ref_take fin n (stream p)).
Proof. intros Hp Hf. apply read_exact_sim; [done|]. unfold stream in Hf. rewrite length_app in Hf. lia. Qed.

Lemma chunks_sim f1 f2 rf acc p : parser_ok p ->
  (length (stream p) < f1)%nat -> (length (stream p) < f2)%nat -> (length (stream p) < rf)%nat ->
  sim (read_chunked_body f1 rf acc p) (ref_chunks fin f2 acc (stream p)).
Proof.
  revert f2 acc p. induction f1 as [|f1 IH]; intros [|f2] acc p Hp H1 H2 Hr; try lia.
  cbn [read_chunked_body ref_chunks].
  apply sim_bind; [by apply line_sim|]. intros line p1 Hp1 Hl%ref_line_shrinks.
  apply sim_bind.
  { unfold lift. destruct (ok_or _ _); simpl; [by split_and! | by split; [|apply ok_written]]. }
  intros n p2 Hp2 Hn. unfold lift in Hn.
  destruct (from_str_radix 16 u64_max (size_str line)) as [k|] eqn:Ek; simpl in Hn; [|done].
  injection Hn as <- Hs2. apply from_str_radix_bound in Ek; [|unfold u64_max; lia..]. rewrite Hs2 in Hl.
  destruct (k =? 0).
  - apply sim_bind; [apply line_sim; [done | lia]|]. intros ? p3 Hp3 _. by split_and!.
  - apply sim_bind; [apply take_sim; [done | lia | lia]|]. intros chunk p3 Hp3 Ht%ref_take_shrinks.
    apply sim_bind; [apply line_sim; [done | lia]|]. intros ? p4 Hp4 Hl4%ref_line_shrinks.
    apply IH; [done | lia..].
Qed.

Lemma body_sim fuel h p : parser_ok p -> (length (stream p) < fuel)%nat ->
  sim (read_body fuel h p) (ref_body fin h (stream p)).
Proof.
  intros Hp Hf. unfold read_body, ref_body. destruct (is_chunked h); [apply chunks_sim; done || lia|].
  destruct (get_content_length h) as [n|] eqn:En; [|by split_and!].
  apply take_sim; [done..|]. unfold get_content_length in En.
  destruct (hm_get _ _); [|done]. simpl in En. destruct (to_str _); [|done]. simpl in En.
  apply from_str_radix_bound in En; unfold u64_max; lia.
Qed.

Lemma ref_head_bounds d h n d' : ref_head fin d = Done (E := E) (Some (h, n)) d' -> d' = d /\ (0 < n <= length d)%nat.
Proof.
  unfold ref_head. destruct (hp_parse _ _) as [[k r|]|e] eqn:Ep; [|by repeat case_match|done].
  destruct (convert r); [|done]. intros [= -> -> <-]. split; [done|].
  apply hp_complete_len in Ep. rewrite length_take in Ep. lia.
Qed.

(** Skipping the head, which is all in the buffer. *)
Lemma parse_headers_buffered fuel p h n p' : parse_headers (io := io) fuel p = Done (Some (h, n)) p' -> (n <= len p')%nat.
Proof.
  revert p. induction fuel as [|fuel IH]; intros p; [done|]. cbn [parse_headers]. unfold mbind, M_bind, buffered.
  destruct (Nat.leb_spec (len p) (length (buf p))); [|done]. unfold lift at 1.
  destruct (hp_parse _ _) as [[k r|]|e] eqn:Ep; simpl; [|destruct (_ =? _)%nat; simpl|done].
  - unfold lift. destruct (convert r); [|done]. intros [= -> -> <-].
    apply hp_complete_len in Ep. rewrite length_take in Ep. lia.
  - destruct (read_more p) as [[|m] p1|e p1| |]; try done. apply IH.
  - destruct (read_more p) as [[|m] p1|e p1| |]; try done. apply IH.
Qed.

(** The parser implements the reference parser on the bytes of its stream:
    the same request, error or panic, and on success exactly the unread bytes
    remain. *)
Lemma parse_request_sim fuel p : parser_ok p -> (length (stream p) < fuel)%nat ->
  sim (parse_request fuel p) (ref_request fin (stream p)).
Proof.
  intros Hp Hf. assert (length (src_rest (reader p)) < fuel)%nat as Hr
    by (unfold stream in Hf; rewrite length_app in Hf; lia).
  pose proof (parse_headers_sim fuel p Hp Hr) as Hh. unfold parse_request, ref_request, mbind, M_bind.
  destruct (parse_headers fuel p) as [o p1|e p1| |] eqn:Eh, (ref_head fin (stream p)) as [o' d|e' d| |] eqn:Er; try done.
  destruct Hh as (<- & Hp1 & <-). destruct o as [[h n]|]; [|by split_and!].
  apply ref_head_bounds in Er as [Hd Hn]. apply parse_headers_buffered in Eh.
  destruct (discard_run n p1 Hp1 Eh) as (p2 & -> & Hp2 & Hs2 & _). unfold ref_skip. rewrite <- Hs2.
  assert (length (stream p2) < fuel)%nat as Hf2 by (rewrite Hs2, length_drop, Hd; lia).
  apply (sim_bind _ _ (fun body p => _) (fun body d => _)); [by apply body_sim|].
  intros body p3 Hp3 _. destruct (uri_valid _); [by split_and! | by split; [|apply ok_written]].
Qed.

(** C15: the parser's result does not depend on how the bytes arrive.  For
    every source, every split of its bytes into reads and every state of the
    buffer, [parse_request] terminates and gives what the reference parser
    gives on the plain list of unread bytes: the same request, the same error or
    the same panic; after a request the buffer is well formed again and exactly
    the bytes behind it are left. *)
Theorem parse_request_stream fuel p (Hp : parser_ok p) (Hf : (length (stream p) < fuel)%nat) :
  sim (parse_request fuel p) (ref_request fin (stream p)).
Proof. by apply parse_request_sim. Qed.

(** *** Chunked bodies *)

(** A chunked body as RFC 9112 writes it. *)
Definition chunk_bytes (c : list byte) : list byte := (to_byte <$> to_hex (zlen c)) ++ [CR; LF] ++ c ++ [CR; LF].
Definition encode_chunks (cs : list (list byte)) : list byte := concat (chunk_bytes <$> cs) ++ bs "0" ++ [CR; LF; CR; LF].

Lemma hex_byte c d : c = digit_char d -> 0 <= d < 16 -> bN (to_byte c) = c /\ is_lf (to_byte c) = false /\ ascii (to_byte c) /\ c <> 59%N.
Proof.
  intros ->. assert (forall k, (k < 16)%nat ->
    let c := digit_char (Z.of_nat k) in bN (to_byte c) = c /\ is_lf (to_byte c) = false /\ ascii (to_byte c) /\ c <> 59%N) as Hk.
  { intros k Hk. do 16 (destruct k as [|k]; [by vm_compute|]). lia. }
  intros Hd. specialize (Hk (Z.to_nat d)). rewrite Z2Nat.id in Hk by lia. apply Hk. lia.
Qed.

Lemma hex_bytes n : 0 <= n -> bN <$> (to_byte <$> to_hex n) = to_hex n /\ Forall (fun b => is_lf b = false) (to_byte <$> to_hex n) /\
  Forall ascii (to_byte <$> to_hex n) /\ Forall (fun c => c <> 59%N) (to_hex n).
Proof.
  intros Hn. assert (Forall (fun c => exists d, c = digit_char d /\ 0 <= d < 16) (to_hex n)) as Hf
    by (apply to_radix_digits; lia).
  induction Hf as [|c s (d & Hc & Hd) _ IH]; [by split_and!; constructor|].
  destruct IH as (E1 & E2 & E3 & E4). destruct (hex_byte c d Hc Hd) as (? & ? & ? & ?).
  rewrite !fmap_cons, E1. by split_and!; [f_equal|constructor..].
Qed.

Lemma split_none c s : Forall (fun d => d <> c) s -> split c s = [s].
Proof. induction 1 as [|d s Hd _ IH]; simpl; [done|]. by rewrite (proj2 (N.eqb_neq d c)), IH by done. Qed.

Lemma pop_cr_snoc l : pop_cr (l ++ [CR]) = l.
Proof. unfold pop_cr. rewrite reverse_app. simpl. apply reverse_involutive. Qed.

(** Reading a line that is there. *)
Lemma ref_line_crlf l rest : Forall (fun b => is_lf b = false) l ->
  ref_line fin (l ++ [CR; LF] ++ rest) = Done (E := E) (from_utf8_lossy l) rest.
Proof.
  intros Hl. unfold ref_line. replace (l ++ [CR; LF] ++ rest) with ((l ++ [CR]) ++ LF :: rest) by by rewrite <- app_assoc.
  assert (position is_lf ((l ++ [CR]) ++ LF :: rest) = Some (length (l ++ [CR]))) as ->.
  { rewrite position_app_l by (apply Forall_app_2; [done | by repeat constructor]). simpl. f_equal. lia. }
  rewrite take_app_length, pop_cr_snoc. f_equal.
  replace (S (length (l ++ [CR]))) with (length (l ++ [CR]) + 1)%nat by lia. by rewrite drop_app_add.
Qed.

Lemma ref_take_app c rest : zlen c <= 2 ^ 63 - 1 -> ref_take fin (zlen c) (c ++ rest) = Done (E := E) c rest.
Proof.
  intros Hc. unfold ref_take. rewrite zlen_app. pose proof (zlen_nonneg rest).
  rewrite !(proj2 (Z.leb_le _ _)) by lia. unfold zlen. by rewrite Nat2Z.id, take_app_length, drop_app_length.
Qed.

Lemma ref_chunks_encode fuel cs acc rest : (length cs < fuel)%nat ->
  Forall (fun c => c <> [] /\ zlen c <= 2 ^ 63 - 1) cs ->
  ref_chunks fin fuel acc (encode_chunks cs ++ rest) = Done (E := E) (acc ++ concat cs) rest.
Proof.
  revert fuel acc. induction cs as [|c cs IH]; intros [|fuel] acc Hf Hcs; simpl in Hf; try lia.
  - cbn [ref_chunks]. unfold encode_chunks, mbind, M_bind. simpl concat. rewrite app_nil_l.
    change ((bs "0" ++ [CR; LF; CR; LF]) ++ rest) with (bs "0" ++ [CR; LF] ++ [] ++ [CR; LF] ++ rest).
    rewrite ref_line_crlf by by repeat constructor.
    assert (from_str_radix 16 u64_max (size_str (from_utf8_lossy (bs "0"))) = Some 0) as -> by done.
    unfold lift. cbn [ok_or Z.eqb]. rewrite (ref_line_crlf []) by constructor. simpl. by rewrite app_nil_r.
  - apply Forall_cons in Hcs as [[Hc Hl] Hcs]. cbn [ref_chunks].
    assert (encode_chunks (c :: cs) ++ rest =
      (to_byte <$> to_hex (zlen c)) ++ [CR; LF] ++ c ++ [] ++ [CR; LF] ++ encode_chunks cs ++ rest) as ->.
    { unfold encode_chunks, chunk_bytes at 1. rewrite fmap_cons. simpl. rewrite <- ?app_assoc. simpl. by rewrite <- ?app_assoc. }
    destruct (hex_bytes (zlen c)) as (E1 & E2 & E3 & E4); [apply zlen_nonneg|].
    assert (size_str (bN <$> (to_byte <$> to_hex (zlen c))) = to_hex (zlen c)) as Hsz.
    { rewrite E1. unfold size_str. rewrite split_none by done. simpl. apply trim_solid, to_radix_solid; [lia | apply zlen_nonneg]. }
    assert (from_str_radix 16 u64_max (to_hex (zlen c)) = Some (zlen c)) as Hr.
    { apply radix_roundtrip; [lia|]. pose proof (zlen_nonneg c). unfold u64_max. lia. }
    unfold mbind, M_bind. rewrite ref_line_crlf by done. rewrite lossy_ascii, Hsz, Hr by done. unfold lift. cbn [ok_or].
    rewrite (proj2 (Z.eqb_neq (zlen c) 0)) by (destruct c; [done | rewrite zlen_cons; pose proof (zlen_nonneg c); lia]).
    rewrite ref_take_app, ref_line_crlf by (done || constructor). rewrite IH by (done || lia). by rewrite <- app_assoc.
Qed.


(** A request that announces a body of more than [isize::MAX] bytes makes
    the parser panic: [Vec::with_capacity] is called with the announced length
    before a byte of the body is read, and nothing bounds it. *)
Theorem huge_content_length_panics fuel p h n k req (Hp : parser_ok p) (Hf : (length (stream p) < fuel)%nat)
    (Hh : hp_parse MAX_HEADERS (take (Z.to_nat MAX_BUF_SIZE) (stream p)) = Ok (Complete k req))
    (Hc : convert (io := io) req = Ok h) (Hch : is_chunked (h_headers h) = false)
    (Hn : get_content_length (h_headers h) = Some n) (Hbig : 2 ^ 63 <= n) :
  parse_request fuel p = Crash.
Proof.
  pose proof (parse_request_sim fuel p Hp Hf) as Hsim.
  assert (ref_request fin (stream p) = Crash) as Hr.
  { unfold ref_request, mbind, M_bind, ref_head. rewrite Hh, Hc. unfold ref_skip, ref_body.
    rewrite Hch, Hn. unfold ref_take. by rewrite (proj2 (Z.leb_gt _ _)) by lia. }
  rewrite Hr in Hsim. by destruct (parse_request fuel p).
Qed.

End Proofs.

(** ** The source of [custom_http.rs]: an [AsyncRead] of tokio *)

(** [io::Error] by its kind *)
Inductive IoError := UnexpectedEof | OtherIo (e : nat).

(** [From<io::Error> for ParseError] *)
Definition from_io {hpe} (e : IoError) : ParseError IoError hpe :=
  match e with UnexpectedEof => ConnectionClosed | e => Io e end.

(** [AsyncReadExt::read] and [read_exact] on a connection. *)
Class AsyncRead (R : Type) := {
  ar_read : Z -> R -> Result (list byte) IoError * R;
  ar_read_exact : Z -> R -> Result (list byte) IoError * R;
  ar_rest : R -> list byte;
  ar_end : R -> option IoError;
  ar_written : R -> list byte
}.

Definition ar_same `{AsyncRead R} (r r' : R) : Prop := ar_end r' = ar_end r /\ ar_written r' = ar_written r.

(** As tokio documents them: a read into a non-empty buffer yields at least one
    byte before the end of the stream and none at the end; [read_exact] fills
    the buffer or fails with [UnexpectedEof]. *)
Class AsyncReadLaws `{AsyncRead R} : Prop := {
  ar_some : forall n r, 0 < n -> ar_rest r <> [] ->
    exists l r', ar_read n r = (Ok l, r') /\ l <> [] /\ zlen l <= n /\ ar_rest r = l ++ ar_rest r' /\ ar_same r r';
  ar_none : forall n r, 0 < n -> ar_rest r = [] ->
    exists r', ar_read n r = (match ar_end r with None => Ok [] | Some e => Err e end, r') /\ ar_rest r' = [] /\ ar_same r r';
  ar_exact_some : forall n r, 0 < n <= zlen (ar_rest r) ->
    exists r', ar_read_exact n r = (Ok (take (Z.to_nat n) (ar_rest r)), r') /\
      ar_rest r' = drop (Z.to_nat n) (ar_rest r) /\ ar_same r r';
  ar_exact_end : forall n r, zlen (ar_rest r) < n ->
    exists r', ar_read_exact n r = (Err (default UnexpectedEof (ar_end r)), r') /\ ar_same r r'
}.

Definition of_io {R A hpe} (x : Result A IoError * R) : out R (ParseError IoError hpe) A :=
  match x with (Ok a, r) => Done a r | (Err e, r) => Fail (from_io e) r end.

#[export] Instance tokio_source `{AsyncRead R} {hpe} : Source R IoError hpe := {|
  src_read n r := of_io (ar_read n r);
  src_exact _ n r := of_io (ar_read_exact n r);
  src_rest := ar_rest;
  src_end r := from_io <$> ar_end r;
  src_written := ar_written
|}.

#[export] Instance tokio_source_laws `{AsyncReadLaws R} {hpe} : SourceLaws (R := R) (io := IoError) (hpe := hpe).
Proof.
  assert (forall r r', ar_same r r' -> same_end (io := IoError) (hpe := hpe) r r') as Hse.
  { intros r r' [He Hw]. split; simpl; [by rewrite He | done]. }
  split; simpl.
  - intros n r Hn Hr. destruct (ar_some n r Hn Hr) as (l & r' & -> & ? & ? & ? & ?). exists l, r'. by split_and!; [..|apply Hse].
  - intros n r Hn Hr. destruct (ar_none n r Hn Hr) as (r' & -> & ? & ?). exists r'.
    split_and!; [by destruct (ar_end r) | done | by apply Hse].
  - intros _ n r Hn _. destruct (ar_exact_some n r Hn) as (r' & -> & ? & ?). exists r'. by split_and!; [..|apply Hse].
  - intros _ n r Hn _. destruct (ar_exact_end n r Hn) as (r' & -> & ?). exists r'.
    split; [by destruct (ar_end r) | by apply Hse].
Qed.

(** A parser on a fresh connection. *)
Lemma new_ok `{HP : Httparse} {R io} `{HS : !Source R io hp_error} (r : R) : parser_ok (src_end r) (src_written r) (new r).
Proof. split; [simpl; lia | exists 0 | done | done]. split; [lia | done]. Qed.

Lemma new_stream `{HP : Httparse} {R io} `{HS : !Source R io hp_error} (r : R) : stream (new r) = src_rest r.
Proof. done. Qed.

(** ** Reference instances

    A connection in memory that delivers its bytes in pieces of given sizes,
    and a small parser of request heads. *)
Module RefHttp.

Record mem := mk_mem { m_rest : list byte; m_cuts : list nat; m_out : list byte }.

(** The size of the next piece. *)
Definition piece (n : Z) (c : mem) : nat := Z.to_nat (Z.min n (Z.max 1 (Z.of_nat (default 1%nat (head (m_cuts c)))))).

#[export] Instance mem_read : AsyncRead mem := {|
  ar_read n c := (Ok (take (piece n c) (m_rest c)), mk_mem (drop (piece n c) (m_rest c)) (tail (m_cuts c)) (m_out c));
  ar_read_exact n c :=
    if n <=? zlen (m_rest c)
    then (Ok (take (Z.to_nat n) (m_rest c)), mk_mem (drop (Z.to_nat n) (m_rest c)) (m_cuts c) (m_out c))
    else (Err UnexpectedEof, mk_mem [] (m_cuts c) (m_out c));
  ar_rest := m_rest;
  ar_end _ := None;
  ar_written := m_out
|}.

#[export] Instance mem_read_laws : AsyncReadLaws (R := mem).
Proof.
  split; simpl.
  - intros n c Hn Hr. assert (0 < piece n c)%nat by (unfold piece; lia). eexists _, _. split; [done|]. split_and!.
    + destruct (m_rest c), (piece n c); done || lia.
    + unfold zlen. rewrite length_take. unfold piece. lia.
    + symmetry. apply take_drop.
    + done.
  - intros n c Hn Hr. eexists. rewrite Hr, take_nil, drop_nil. by split_and!.
  - intros n c Hn. rewrite (proj2 (Z.leb_le _ _)) by lia. eexists. by split_and!.
  - intros n c Hn. rewrite (proj2 (Z.leb_gt _ _)) by lia. eexists. by split_and!.
Qed.

Fixpoint head_end (l : list byte) : option nat :=
  if decide (take 4 l = [CR; LF; CR; LF]) then Some 4%nat
  else match l with [] => None | _ :: t => S <$> head_end t end.

Definition to_bytes (s : str) : list byte := to_byte <$> s.

Definition field (line : str) : option (list byte * list byte) :=
  pos ← find_char 58 line; Some (to_bytes (take pos line), to_bytes (trim (drop (S pos) line))).

Definition parse_head (l : list byte) : option hp_request :=
  match lines (bN <$> l) with
  | start :: fields =>
      match split 32 start with
      | [m; p; v] =>
          ver ← last v;
          Some (mk_hp (Some (to_bytes m)) (Some (to_bytes p)) (Some (Z.of_N ver - 48)) (omap field (List.filter (fun f => negb (bool_decide (f = []))) fields)))
      | _ => None
      end
  | [] => None
  end.

#[export] Instance ref_httparse : Httparse := {|
  hp_error := unit;
  hp_display _ := bs "invalid";
  hp_parse _ l :=
    match head_end l with
    | None => Ok Partial
    | Some n => match parse_head (take n l) with Some r => Ok (Complete n r) | None => Err tt end
    end
|}.

Lemma head_end_len l n : head_end l = Some n -> (4 <= n <= length l)%nat.
Proof.
  revert n. induction l as [|a l IH]; intros n; [done|]. cbn [head_end]. case_decide as E.
  - intros [= <-]. apply (f_equal length) in E. rewrite length_take in E. cbn [length] in *. lia.
  - destruct (head_end l) as [j|]; [|done]. intros [= <-]. specialize (IH j eq_refl). simpl. lia.
Qed.

Lemma head_end_app l k n : head_end l = Some n -> head_end (l ++ k) = Some n.
Proof.
  revert n. induction l as [|a l IH]; intros n Hn; [done|]. pose proof (head_end_len _ _ Hn) as Hl.
  change ((a :: l) ++ k) with (a :: (l ++ k)). cbn [head_end] in *.
  assert (take 4 (a :: l ++ k) = take 4 (a :: l)) as ->.
  { change (a :: l ++ k) with ((a :: l) ++ k). by rewrite take_app_le by lia. }
  case_decide; [done|]. destruct (head_end l) as [j|]; [|done]. injection Hn as <-. by rewrite (IH j).
Qed.

#[export] Instance ref_httparse_laws : HttparseLaws.
Proof.
  assert (forall l k n, head_end l = Some n -> take n (l ++ k) = take n l) as Ht.
  { intros l k n ?%head_end_len. by rewrite take_app_le by lia. }
  split; simpl; [..|done].
  - intros _ l n r. destruct (head_end l) as [j|] eqn:E; [|done]. destruct (parse_head _); [|done].
    intros [= <- <-]. apply head_end_len in E. lia.
  - intros _ l n r k. destruct (head_end l) as [j|] eqn:E; [|done].
    by rewrite (head_end_app l k j E), Ht.
  - intros _ l e k. destruct (head_end l) as [j|] eqn:E; [|done].
    by rewrite (head_end_app l k j E), Ht.
Qed.

#[export] Instance ref_http : HttpTypes := {|
  Method := list byte;
  method_from_bytes l := match l with [] => None | _ => Some l end;
  header_name_from_bytes l := Some (to_bytes (to_ascii_lowercase (bN <$> l)));
  header_value_from_bytes l := Some l;
  uri_valid _ := true;
  canonical_reason s := if s =? 200 then Some (bs "OK") else if s =? 400 then Some (bs "Bad Request") else None
|}.

Definition crlf : list byte := [CR; LF].

(** The request of the unit test [test_parse_simple_request], in pieces. *)
Definition simple_request : list byte :=
  bs "GET /hello HTTP/1.1" ++ crlf ++ bs "Host: localhost" ++ crlf ++ bs "Content-Length: 5" ++ crlf ++ crlf ++ bs "Hello".

Definition conn (l : list byte) (cuts : list nat) : mem := mk_mem l cuts [].

Lemma conn_ok l cuts : parser_ok (HP := ref_httparse) (HS := tokio_source) (io := IoError) None [] (new (conn l cuts)).
Proof. exact (new_ok (HP := ref_httparse) (io := IoError) (conn l cuts)). Qed.

Example simple_request_parses :
  match parse_request 200 (new (conn simple_request [7; 1; 30]%nat)) with
  | Done (Some r) _ => bool_decide (body r = bs "Hello") && bool_decide (uri r = bs "/hello") && bool_decide (version r = HTTP_11)
  | _ => false
  end = true.
Proof. vm_compute. reflexivity. Qed.

Definition simple_conn : mem := conn simple_request [7; 1; 30]%nat.

Lemma parse_request_stream_witness :
  sim None [] (parse_request 200 (new simple_conn)) (ref_request None (stream (new simple_conn))).
Proof.
  refine (parse_request_stream None [] 200 (new simple_conn) (conn_ok _ _) _).
  vm_compute. lia.
Defined.

Definition chunked_conn : mem := conn (encode_chunks [bs "Hello"; bs " World"] ++ bs "GET") [3; 4; 1]%nat.


(** A request that announces 2^64 - 1 bytes. *)
Definition huge_request : list byte :=
  bs "POST / HTTP/1.1" ++ crlf ++ bs "Content-Length: 18446744073709551615" ++ crlf ++ crlf.

Definition huge_conn : mem := conn huge_request [].

Lemma huge_content_length_panics_witness : parse_request 100 (new huge_conn) = Crash (E := ParseError IoError unit).
Proof.
  eapply (huge_content_length_panics (HP := ref_httparse) (HS := tokio_source) (io := IoError) None [] 100 (new huge_conn) _ u64_max _ _ (conn_ok _ _)).
  - vm_compute. lia.
  - vm_compute. reflexivity.
  - vm_compute. reflexivity.
  - vm_compute. reflexivity.
  - vm_compute. reflexivity.
  - unfold u64_max. lia.
Defined.

End RefHttp.

End HttpParser.
