(* ===== verification/HttpServer.v ===== *)
(** * The HTTP/1.1 server on the parser ([dpdk-net-test/src/app/custom_http.rs])

    Responses and their serialization, the handling of one connection with
    keep-alive, and the accept loop.  The handling of a connection is proved to
    implement a server on byte lists: requests in, responses out, in order. *)

From Stdlib Require Import Strings.String.
From stdpp Require Import base list.
From Stdlib Require Import ZArith NArith Strings.Byte Lia.
From S2P Require Import Prelude Text HttpParser.

Local Open Scope Z_scope.

Module HttpServer.
Import Text HttpParser.

(** ** Responses *)

Record Response := mk_response {
  status : Z;
  r_version : Version;
  r_headers : HeaderMap;
  r_body : list byte
}.

Definition version_str (v : Version) : list byte :=
  match v with
  | HTTP_10 => bs "HTTP/1.0"
  | HTTP_11 => bs "HTTP/1.1"
  | HTTP_2 => bs "HTTP/2.0"
  | HTTP_3 => bs "HTTP/3.0"
  | _ => bs "HTTP/1.1"
  end.

Definition crlf : list byte := [CR; LF].
Definition header_line (h : list byte * list byte) : list byte := h.1 ++ bs ": " ++ h.2 ++ crlf.
(** [n.to_string().as_bytes()] *)
Definition decimal (n : Z) : list byte := to_byte <$> to_string n.

Section Responses.
Context `{HttpTypes}.

Definition reason_phrase (status : Z) : list byte := default (bs "Unknown") (canonical_reason status).

Definition serialize_response (r : Response) : list byte :=
  version_str (r_version r) ++ bs " " ++ decimal (status r) ++ bs " " ++ reason_phrase (status r) ++ crlf ++
  concat (header_line <$> r_headers r) ++
  (if hm_contains CONTENT_LENGTH (r_headers r) then []
   else bs "Content-Length: " ++ decimal (zlen (r_body r)) ++ crlf) ++
  crlf ++ r_body r.

(** [simple_echo_handler] *)
Definition simple_echo_handler (req : Request) : Response :=
  mk_response 200 HTTP_11 [(CONTENT_TYPE, bs "text/plain")] (body req).

(** The answer to a request: [close] is announced when the connection is not
    kept alive. *)
Definition close_unless (keep_alive : bool) (r : Response) : Response :=
  if keep_alive then r
  else mk_response (status r) (r_version r) (hm_insert CONNECTION (bs "close") (r_headers r)) (r_body r).
End Responses.

(** The answer to bytes that are no request. *)
Definition bad_request {io hpe} (show : ParseError io hpe -> list byte) (e : ParseError io hpe) : Response :=
  mk_response 400 HTTP_11 [(CONNECTION, bs "close")] (bs "Parse error: " ++ show e).

(** ** Connections *)

(** [AsyncWriteExt::write_all] and [flush]: a failed write may have sent a part;
    writing does not disturb reading. *)
Class AsyncWrite (R : Type) := {
  aw_write_all : list byte -> R -> Result unit IoError * R;
  aw_flush : R -> Result unit IoError * R
}.

Class AsyncWriteLaws `{AsyncRead R} `{!AsyncWrite R} : Prop := {
  aw_write_spec : forall l r x r', aw_write_all l r = (x, r') ->
    ar_rest r' = ar_rest r /\ ar_end r' = ar_end r /\
    match x with Ok _ => ar_written r' = ar_written r ++ l
               | Err _ => exists l', l' `prefix_of` l /\ ar_written r' = ar_written r ++ l' end;
  aw_flush_spec : forall r x r', aw_flush r = (x, r') ->
    ar_rest r' = ar_rest r /\ ar_end r' = ar_end r /\ ar_written r' = ar_written r
}.

Section Connection.
Context `{Httparse} `{HttpTypes} `{AsyncRead R} `{!AsyncWrite R}.
Variable io_display : IoError -> list byte.
(** The handler, as far as its answer depends on the request alone. *)
Variable handler : Request -> Response.
Abbreviation E := (ParseError IoError hp_error).

Definition show : E -> list byte := display io_display hp_display.

Definition write_response (response : Response) (r : R) : Result unit IoError * R :=
  match aw_write_all (serialize_response response) r with
  | (Ok _, r) => aw_flush r
  | (Err e, r) => (Err e, r)
  end.

(** [write_response(parser.get_mut(), ..)] *)
Definition answer (response : Response) (p : HttpParser R) : Result unit IoError * HttpParser R :=
  let '(x, r) := write_response response (reader p) in (x, mk_parser r (buf p) (len p)).

(** [handle_connection]; [fuel] bounds the requests, [pfuel] one parse; [None]
    when it is exhausted. *)
Fixpoint handle_loop (fuel pfuel : nat) (p : HttpParser R) : Exec (option (Result unit E * HttpParser R)) :=
  match fuel with
  | O => Ret None
  | S fuel =>
      match parse_request pfuel p with
      | Done None p => Ret (Some (Ok tt, p))
      | Fail ConnectionClosed p => Ret (Some (Ok tt, p))
      | Fail e p => let '(_, p) := answer (bad_request show e) p in Ret (Some (Err e, p))
      | Crash => Panic
      | NoFuel => Ret None
      | Done (Some request) p =>
          let keep_alive := should_keep_alive (headers request) (version request) in
          let response := close_unless keep_alive (handler request) in
          match answer response p with
          | (Err e, p) => Ret (Some (Err (Io e), p))
          | (Ok _, p) => if keep_alive then handle_loop fuel pfuel p else Ret (Some (Ok tt, p))
          end
      end
  end.

Definition handle_connection (fuel : nat) (io : R) : Exec (option (Result unit E * HttpParser R)) :=
  handle_loop fuel fuel (new io).

(** ** The server on byte lists *)

Variable fin : option E.

Fixpoint serve_bytes (fuel : nat) (d : list byte) : Exec (option (Result unit E * list byte)) :=
  match fuel with
  | O => Ret None
  | S fuel =>
      match ref_request fin d with
      | Done None _ => Ret (Some (Ok tt, []))
      | Fail ConnectionClosed _ => Ret (Some (Ok tt, []))
      | Fail e _ => Ret (Some (Err e, serialize_response (bad_request show e)))
      | Crash => Panic
      | NoFuel => Ret None
      | Done (Some request) d =>
          let keep_alive := should_keep_alive (headers request) (version request) in
          let response := serialize_response (close_unless keep_alive (handler request)) in
          if keep_alive then
            match serve_bytes fuel d with
            | Ret (Some (res, o)) => Ret (Some (res, response ++ o))
            | e => e
            end
          else Ret (Some (Ok tt, response))
      end
  end.

End Connection.

Section Proofs.
Context {HP : Httparse} {HPL : HttparseLaws} {HT : HttpTypes} {R : Type} {HR : AsyncRead R} {HRL : AsyncReadLaws}
  {HW : AsyncWrite R} {HWL : AsyncWriteLaws}.
Variable io_display : IoError -> list byte.
Variable handler : Request -> Response.
Abbreviation E := (ParseError IoError hp_error).

Lemma ref_chunks_shrinks fin fuel acc d a d' : ref_chunks fin fuel acc d = Done (E := E) a d' -> (length d' <= length d)%nat.
Proof.
  revert acc d. induction fuel as [|fuel IH]; intros acc d; [done|]. cbn [ref_chunks]. unfold mbind, M_bind.
  destruct (ref_line fin d) as [l d1|e d1| |] eqn:E1; [|done..]. apply ref_line_shrinks in E1. unfold lift.
  destruct (ok_or _ _) as [n|e]; [|done]. destruct (n =? 0).
  - destruct (ref_line fin d1) as [l' d2|e d2| |] eqn:E2; [|done..]. apply ref_line_shrinks in E2.
    intros [= _ <-]. lia.
  - destruct (ref_take fin n d1) as [c d2|e d2| |] eqn:E2; [|done..]. apply ref_take_shrinks in E2.
    destruct (ref_line fin d2) as [l' d3|e d3| |] eqn:E3; [|done..]. apply ref_line_shrinks in E3.
    intros Hd%IH. lia.
Qed.

(** Every request takes at least one byte. *)
Lemma ref_request_shrinks fin d req d' : ref_request fin d = Done (E := E) (Some req) d' -> (length d' < length d)%nat.
Proof.
  unfold ref_request, mbind, M_bind. destruct (ref_head fin d) as [[[h n]|] d1|e d1| |] eqn:Eh; [|done..].
  apply ref_head_bounds in Eh as [-> Hn]. unfold ref_skip.
  destruct (ref_body fin (h_headers h) (drop n d)) as [b d2|e d2| |] eqn:Eb; [|done..].
  assert (length d2 <= length (drop n d))%nat as Hb.
  { unfold ref_body in Eb. destruct (is_chunked _); [by eapply ref_chunks_shrinks|].
    destruct (get_content_length _); [by eapply ref_take_shrinks | by injection Eb as _ <-]. }
  rewrite length_drop in Hb. destruct (uri_valid _); [|done]. intros [= _ <-]. lia.
Qed.

Lemma ref_chunks_total fin fuel acc d : (length d < fuel)%nat -> ref_chunks (io := IoError) fin fuel acc d <> NoFuel.
Proof.
  revert acc d. induction fuel as [|fuel IH]; intros acc d Hf; [lia|]. cbn [ref_chunks]. unfold mbind, M_bind.
  destruct (ref_line fin d) as [l d1|e d1| |] eqn:E1; try done; [|unfold ref_line in E1; by case_match].
  apply ref_line_shrinks in E1. unfold lift. destruct (ok_or _ _) as [n|e]; [|done]. destruct (n =? 0).
  - unfold ref_line. by destruct (position _ _).
  - unfold ref_take. destruct (_ <=? _); [|done]. destruct (_ <=? _); [|done].
    destruct (ref_line fin _) as [l' d3|e d3| |] eqn:E3; try done; [|unfold ref_line in E3; by case_match].
    apply ref_line_shrinks in E3. rewrite length_drop in E3. apply IH. lia.
Qed.

Lemma ref_request_total fin d : ref_request (io := IoError) fin d <> NoFuel.
Proof.
  unfold ref_request, mbind, M_bind. destruct (ref_head fin d) as [[[h n]|] d1|e d1| |] eqn:Eh; try done.
  2:{ unfold ref_head in Eh. by repeat case_match. }
  unfold ref_skip. destruct (ref_body fin (h_headers h) (drop n d1)) as [b d2|e d2| |] eqn:Eb; try done; [by case_match|].
  unfold ref_body in Eb. destruct (is_chunked _); [by apply ref_chunks_total in Eb; [|lia]|].
  destruct (get_content_length _); [|done]. unfold ref_take in Eb. by repeat case_match.
Qed.

(** The server on bytes always gives an answer. *)
Lemma serve_bytes_total fin fuel d : (length d < fuel)%nat ->
  serve_bytes io_display handler fin fuel d = Panic \/ exists res o, serve_bytes io_display handler fin fuel d = Ret (Some (res, o)).
Proof.
  revert d. induction fuel as [|fuel IH]; intros d Hf; [lia|]. cbn [serve_bytes].
  destruct (ref_request fin d) as [[req|] d'|e d'| |] eqn:Er; [|by eauto| |by eauto|by apply ref_request_total in Er].
  - apply ref_request_shrinks in Er. destruct (should_keep_alive _ _); [|by eauto].
    destruct (IH d') as [->|(res & o & ->)]; [lia|by left|right; by eauto].
  - destruct e; by eauto.
Qed.

(** What an answer does to the connection. *)
Lemma answer_run fin w resp p x p' : parser_ok fin w p -> answer resp p = (x, p') ->
  stream p' = stream p /\ exists o, o `prefix_of` serialize_response resp /\ parser_ok fin (w ++ o) p' /\
    (x = Ok tt -> o = serialize_response resp).
Proof.
  intros Hp. unfold answer, write_response.
  destruct (aw_write_all _ _) as [[u|e] r1] eqn:Ew; apply aw_write_spec in Ew as (Hr & He & Hw).
  - destruct (aw_flush r1) as [y r2] eqn:Ef. apply aw_flush_spec in Ef as (Hr2 & He2 & Hw2). intros [= -> <-].
    split; [unfold stream; simpl; by rewrite Hr2, Hr|]. eexists. split; [done|]. split; [|done].
    destruct Hp as [? ? Hend Hwr]. split; simpl in *; try done; [by rewrite He2, He | by rewrite Hw2, Hw, Hwr].
  - intros [= <- <-]. destruct Hw as (o & Ho & Hw). split; [unfold stream; simpl; by rewrite Hr|].
    exists o. split; [done|]. split; [|done].
    destruct Hp as [? ? Hend Hwr]. split; simpl in *; try done; [by rewrite He | by rewrite Hw, Hwr].
Qed.

(** What the handling of a connection may do, given what the server on bytes
    does. *)
Definition serves (w : list byte) (o : Exec (option (Result unit E * HttpParser R)))
    (o' : Exec (option (Result unit E * list byte))) : Prop :=
  match o with
  | Ret (Some (res, p')) =>
      exists sent, src_written (io := IoError) (hpe := hp_error) (reader p') = w ++ sent /\
        match o' with
        | Ret (Some (res', full)) => sent `prefix_of` full /\
            match res with
            | Ok _ => res' = Ok tt /\ sent = full
            | Err e => res' = Err e \/ exists e', e = Io e'
            end
        | Panic => exists e', res = Err (Io e')
        | _ => False
        end
  | Panic => o' = Panic
  | _ => False
  end.

Lemma handle_loop_serves fin fuel f2 pfuel w p : parser_ok fin w p ->
  (length (stream p) < fuel)%nat -> (length (stream p) < f2)%nat -> (length (stream p) < pfuel)%nat ->
  serves w (handle_loop io_display handler fuel pfuel p) (serve_bytes io_display handler fin f2 (stream p)).
Proof.
  revert f2 w p. induction fuel as [|fuel IH]; intros [|f2] w p Hp H1 H2 H3; try lia.
  cbn [handle_loop serve_bytes]. pose proof (parse_request_sim fin w pfuel p Hp H3) as Hsim.
  destruct (parse_request pfuel p) as [[req|] p1|e p1| |] eqn:Ep,
    (ref_request fin (stream p)) as [[req'|] d|e' d| |] eqn:Er; try done; simpl in Hsim;
    try by destruct Hsim as [[=] _].
  - destruct Hsim as ([= <-] & Hp1 & <-). apply ref_request_shrinks in Er.
    destruct (answer _ p1) as [x p2] eqn:Ea. destruct (answer_run fin w _ _ _ _ Hp1 Ea) as (Hs & o & Ho & Hp2 & Hx).
    destruct x as [[]|e].
    + specialize (Hx eq_refl) as ->. destruct (should_keep_alive _ _).
      2:{ eexists. split; [apply (ok_written _ _ _ Hp2)|]. by split. }
      specialize (IH f2 _ _ Hp2 ltac:(rewrite Hs; lia) ltac:(rewrite Hs; lia) ltac:(rewrite Hs; lia)).
      rewrite Hs in IH. unfold serves in *. destruct (handle_loop _ _ fuel pfuel p2) as [[[res p3]|]| |]; try done.
      * destruct IH as (sent & Hw & Hm). eexists. split; [rewrite Hw; by rewrite <- app_assoc|].
        destruct (serve_bytes _ _ _ f2 _) as [[[res' full]|]| |]; try done. destruct Hm as [Hpre Hres].
        split; [by apply prefix_app|]. destruct res; [|done]. destruct Hres as [-> ->]. done.
      * by rewrite IH.
    + assert (exists sent, src_written (io := IoError) (hpe := hp_error) (reader p2) = w ++ sent /\
        sent `prefix_of` serialize_response (close_unless (should_keep_alive (headers req) (version req)) (handler req)))
        as (sent & Hw & Hpre) by (exists o; split; [apply (ok_written _ _ _ Hp2) | done]).
      exists sent. split; [done|]. destruct (should_keep_alive _ _); [|by split; [|right; eexists]].
      destruct (serve_bytes_total fin f2 (stream p1)) as [->|(res' & full & ->)]; [lia|by eexists|].
      split; [by apply prefix_app_r | right; by eexists].
  - destruct Hsim as (_ & Hp1 & _). exists []. rewrite app_nil_r. split; [apply (ok_written _ _ _ Hp1) | done].
  - destruct Hsim as [<- Hw]. assert (forall c, serves w
      (let '(_, p2) := answer (bad_request (show io_display) e) p1 in Ret (Some (Err c, p2)))
      (Ret (Some (Err c, serialize_response (bad_request (show io_display) e))))) as Hbad.
    { intros c. unfold answer, write_response.
      destruct (aw_write_all _ _) as [[u|e1] r1] eqn:Ew; apply aw_write_spec in Ew as (_ & _ & Hw1).
      - destruct (aw_flush r1) as [y r2] eqn:Ef. apply aw_flush_spec in Ef as (_ & _ & Hw2).
        eexists. simpl. rewrite Hw2, Hw1. simpl in Hw. rewrite Hw. split; [done|]. split; [done | by left].
      - destruct Hw1 as (o & Ho & Hw1). exists o. simpl. rewrite Hw1. simpl in Hw. rewrite Hw. split; [done|].
        split; [done | by left]. }
    destruct e; try exact (Hbad _).
    exists []. rewrite app_nil_r. by split.
Qed.


End Proofs.

(** ** The accept loop *)

(** What the [select!] of [run] yields: the cancellation or an accept. *)
Inductive accept_event (S E : Type) := Cancelled | Accepted (r : Result S E).
Arguments Cancelled {S E}.
Arguments Accepted {S E} r.

(** The loop's variables; [spawned] are the tasks it has started, by connection
    id. *)
Record acceptor (S : Type) := mk_acceptor { running : bool; conn_id : Z; spawned : list (Z * S) }.
Arguments mk_acceptor {S} _ _ _.
Arguments running {S} _.
Arguments conn_id {S} _.
Arguments spawned {S} _.

Definition accept_turn {S E} (ev : accept_event S E) (a : acceptor S) : acceptor S :=
  if running a then
    match ev with
    | Cancelled => mk_acceptor false (conn_id a) (spawned a)
    | Accepted (Ok stream) => mk_acceptor true (conn_id a + 1) (spawned a ++ [(conn_id a, stream)])
    | Accepted (Err _) => a
    end
  else a.

(** [SimpleHttp1Server::run]: the [select!] outcomes it sees, in order; each
    accepted stream is handed to [handle_connection] in a task of its own. *)
Definition run {S E} (evs : list (accept_event S E)) : acceptor S :=
  fold_left (fun a ev => accept_turn ev a) evs (mk_acceptor true 0 []).

(** The streams accepted before the first cancellation. *)
Fixpoint accepted {S E} (evs : list (accept_event S E)) : list S :=
  match evs with
  | [] => []
  | Cancelled :: _ => []
  | Accepted (Ok s) :: evs => s :: accepted evs
  | Accepted (Err _) :: evs => accepted evs
  end.

Lemma stopped_stays {S E} (evs : list (accept_event S E)) a : running a = false ->
  fold_left (fun a ev => accept_turn ev a) evs a = a.
Proof. intros Ha. induction evs as [|ev evs IH]; simpl; [done|]. unfold accept_turn at 2. by rewrite Ha. Qed.

Lemma run_from {S E} (evs : list (accept_event S E)) a : running a = true ->
  let a' := fold_left (fun a ev => accept_turn ev a) evs a in
  spawned a' = spawned a ++ imap (fun i s => (conn_id a + Z.of_nat i, s)) (accepted evs) /\
  conn_id a' = conn_id a + zlen (accepted evs) /\
  running a' = negb (existsb (fun ev => match ev with Cancelled => true | _ => false end) evs).
Proof.
  revert a. induction evs as [|[|[s|e]] evs IH]; intros a Ha; simpl.
  - rewrite app_nil_r, Ha. unfold zlen. simpl. split_and!; done || lia.
  - unfold accept_turn at 2 4 6. rewrite Ha, stopped_stays by done. rewrite app_nil_r. unfold zlen. simpl. split_and!; done || lia.
  - unfold accept_turn at 2 4 6. rewrite Ha.
    destruct (IH (mk_acceptor true (conn_id a + 1) (spawned a ++ [(conn_id a, s)]))) as (E1 & E2 & E3); [done|].
    rewrite E1, E2, E3. simpl. rewrite zlen_cons, <- app_assoc. split_and!; [|lia|done].
    rewrite Z.add_0_r. simpl. do 2 f_equal. apply imap_ext. intros i x _. simpl. f_equal. lia.
  - unfold accept_turn at 2 4 6. rewrite Ha. by apply IH.
Qed.

(** The accept loop starts exactly one task per accepted connection, in
    order and with consecutive ids from 0; a failed accept neither ends it nor
    starts a task; it ends exactly when cancellation is chosen, and starts
    nothing after that. *)
Theorem accept_loop_correct {S E} (evs : list (accept_event S E)) :
  spawned (run evs) = imap (fun i s => (Z.of_nat i, s)) (accepted evs) /\
  conn_id (run evs) = zlen (accepted evs) /\
  running (run evs) = negb (existsb (fun ev => match ev with Cancelled => true | _ => false end) evs).
Proof. by destruct (run_from evs (mk_acceptor true 0 []) eq_refl) as (? & ? & ?). Qed.

(** ** Witnesses *)

Import RefHttp.

#[export] Instance mem_write : AsyncWrite mem := {|
  aw_write_all l c := (Ok tt, mk_mem (m_rest c) (m_cuts c) (m_out c ++ l));
  aw_flush c := (Ok tt, c)
|}.

#[export] Instance mem_write_laws : AsyncWriteLaws (R := mem).
Proof. split; simpl; [by intros l r x r' [= <- <-] | by intros r x r' [= <- <-]]. Qed.

(** Two requests in one packet. *)
Definition get (path : string) : list byte := bs "GET " ++ bs path ++ bs " HTTP/1.1" ++ RefHttp.crlf ++ RefHttp.crlf.
Definition pipelined : mem := conn (get "/a" ++ get "/b") [200]%nat.
(** A handler that answers with the path. *)
Definition path_handler (r : Request) : Response := mk_response 200 HTTP_11 [] (uri r).

Example pipelined_answered :
  match handle_connection (fun _ => []) path_handler 100 pipelined with
  | Ret (Some (Ok _, p)) => bool_decide (m_out (reader p) =
      serialize_response (mk_response 200 HTTP_11 [] (bs "/a")) ++ serialize_response (mk_response 200 HTTP_11 [] (bs "/b")))
  | _ => false
  end = true.
Proof. vm_compute. reflexivity. Qed.


End HttpServer.
