(* ===== verification/Kimojio.v ===== *)
(** * The kimojio HTTP server ([dpdk-net-test/src/app/kimojio_server.rs])

    The same HTTP/1.1 server on an io_uring runtime.  Its parser is the text of
    [custom_http.rs] with the reader passed to every method, so it is
    [HttpParser] on another [Source]: only the way the rest of a body is fetched
    differs, a loop of [try_read]s of at most 8192 bytes.  The connection
    handler, the accept loop and the creation of the listening socket are its
    own. *)

From Stdlib Require Import Strings.String.
From stdpp Require Import base list.
From Stdlib Require Import ZArith NArith Strings.Byte Lia.
From S2P Require Import Prelude Text HttpParser HttpServer.

Local Open Scope Z_scope.

Module Kimojio.
Import Text HttpParser HttpServer.

(** ** The streams *)

(** kimojio's [AsyncStreamRead::try_read], [AsyncStreamWrite::write] and
    [shutdown] on the two halves of a connection, with the bytes still to come,
    how they end, and what was written. *)
Class KimojioStream (Rd Wr : Type) := {
  kerrno : Type;
  kerrno_debug : kerrno -> list byte;
  ks_try_read : Z -> Rd -> Result (list byte) kerrno * Rd;
  ks_write : list byte -> Wr -> Result unit kerrno * Wr;
  ks_shutdown : Wr -> Result unit kerrno * Wr;
  ks_rest : Rd -> list byte;
  ks_end : Rd -> option kerrno;
  ks_written : Wr -> list byte
}.

(** [try_read] returns at least one byte before the end and none at the end;
    [write] writes the whole buffer or fails after a part of it. *)
Class KimojioStreamLaws `{KimojioStream Rd Wr} : Prop := {
  ks_read_some : forall n r, 0 < n -> ks_rest r <> [] ->
    exists l r', ks_try_read n r = (Ok l, r') /\ l <> [] /\ zlen l <= n /\ ks_rest r = l ++ ks_rest r' /\ ks_end r' = ks_end r;
  ks_read_end : forall n r, 0 < n -> ks_rest r = [] ->
    exists r', ks_try_read n r = (match ks_end r with None => Ok [] | Some e => Err e end, r') /\
      ks_rest r' = [] /\ ks_end r' = ks_end r;
  ks_write_spec : forall l w x w', ks_write l w = (x, w') ->
    match x with Ok _ => ks_written w' = ks_written w ++ l
               | Err _ => exists l', l' `prefix_of` l /\ ks_written w' = ks_written w ++ l' end
}.

Section Model.
Context `{Httparse} `{HttpTypes} `{KimojioStream Rd Wr}.
(** [ParseError] with the message of an I/O error. *)
Definition KParseError : Type := ParseError (list byte) hp_error.

(** The connection: both halves of the stream. *)
Record Conn := mk_conn { rd : Rd; wr : Wr }.

(** [KimojioAsyncRead::try_read] *)
Definition try_read (n : Z) : M Conn KParseError (list byte) := fun c =>
  match ks_try_read n (rd c) with
  | (Ok l, r) => Done l (mk_conn r (wr c))
  | (Err e, r) => Fail (Io (kerrno_debug e)) (mk_conn r (wr c))
  end.

(** [KimojioAsyncWrite::write_all] and [shutdown] *)
Definition write_all (l : list byte) (c : Conn) : Result unit KParseError * Conn :=
  match ks_write l (wr c) with
  | (Ok _, w) => (Ok tt, mk_conn (rd c) w)
  | (Err e, w) => (Err (Io (kerrno_debug e)), mk_conn (rd c) w)
  end.
Definition shutdown (c : Conn) : Result unit KParseError * Conn :=
  match ks_shutdown (wr c) with
  | (Ok _, w) => (Ok tt, mk_conn (rd c) w)
  | (Err e, w) => (Err (Io (kerrno_debug e)), mk_conn (rd c) w)
  end.

(** The [while] loop of [read_fixed_body] and [read_exact]: [got] has been
    fetched of [n] bytes. *)
Fixpoint fetch (fuel : nat) (n : Z) (got : list byte) : M Conn KParseError (list byte) :=
  match fuel with
  | O => fun _ => NoFuel
  | S fuel =>
      if zlen got <? n then
        l ← try_read (Z.min (n - zlen got) 8192);
        match l with
        | [] => fail ConnectionClosed
        | _ => fetch fuel n (got ++ l)
        end
      else mret got
  end.

#[export] Instance kimojio_source : Source Conn (list byte) hp_error := {|
  src_read := try_read;
  src_exact fuel n := fetch fuel n [];
  src_rest c := ks_rest (rd c);
  src_end c := (fun e => Io (kerrno_debug e)) <$> ks_end (rd c);
  src_written c := ks_written (wr c)
|}.

(** ** [KimojioHttpParser]

    The parser and its helpers are the code of [custom_http.rs] over a stream
    that is passed to each method instead of owned. *)


Definition KimojioHttpParser : Type := HttpParser Conn.
Definition new : Conn -> KimojioHttpParser := HttpParser.new.
Definition parse_headers : nat -> M KimojioHttpParser KParseError (option (Head * nat)) := HttpParser.parse_headers.
Definition read_more : M KimojioHttpParser KParseError nat := HttpParser.read_more.
Definition read_line : nat -> list byte -> M KimojioHttpParser KParseError str := HttpParser.read_line.
Definition read_exact : nat -> Z -> M KimojioHttpParser KParseError (list byte) := HttpParser.read_exact.
Definition read_fixed_body : nat -> Z -> M KimojioHttpParser KParseError (list byte) := HttpParser.read_fixed_body.
Definition read_chunked_body : nat -> nat -> list byte -> M KimojioHttpParser KParseError (list byte) := HttpParser.read_chunked_body.
Definition read_body : nat -> HeaderMap -> M KimojioHttpParser KParseError (list byte) := HttpParser.read_body.
Definition parse_request : nat -> M KimojioHttpParser KParseError (option Request) := HttpParser.parse_request.

(** [KimojioHttpParser::reset] *)
Definition reset (p : KimojioHttpParser) : KimojioHttpParser := mk_parser (reader p) (buf p) 0.

(** ** Connections *)

Variable handler : Request -> Response.

(** [Display for ParseError] *)
Definition kshow : KParseError -> list byte := display id hp_display.

(** The helpers of the connection are those of [custom_http.rs] again. *)
Definition kget_content_length : HeaderMap -> option Z := get_content_length.
Definition kis_chunked : HeaderMap -> bool := is_chunked.
Definition kversion_str : Version -> list byte := version_str.
Definition kreason_phrase : Z -> list byte := reason_phrase.
Definition ksimple_echo_handler : Request -> Response := simple_echo_handler.
Definition kshould_keep_alive : HeaderMap -> Version -> bool := should_keep_alive.
Definition kserialize_response : Response -> list byte := serialize_response.

Definition kwrite_response (response : Response) (c : Conn) : Result unit KParseError * Conn :=
  write_all (kserialize_response response) c.

Definition kanswer (response : Response) (p : KimojioHttpParser) : Result unit KParseError * KimojioHttpParser :=
  let '(x, c) := kwrite_response response (reader p) in (x, mk_parser c (buf p) (len p)).

(** [handle_http_connection] *)
Fixpoint khandle_loop (fuel pfuel : nat) (p : KimojioHttpParser) : Exec (option (Result unit KParseError * KimojioHttpParser)) :=
  match fuel with
  | O => Ret None
  | S fuel =>
      match parse_request pfuel p with
      | Done None p => Ret (Some (Ok tt, p))
      | Fail ConnectionClosed p => Ret (Some (Ok tt, p))
      | Fail e p => let '(_, p) := kanswer (bad_request kshow e) p in Ret (Some (Err e, p))
      | Crash => Panic
      | NoFuel => Ret None
      | Done (Some request) p =>
          let keep_alive := kshould_keep_alive (headers request) (version request) in
          let response := close_unless keep_alive (handler request) in
          match kanswer response p with
          | (Err e, p) => Ret (Some (Err e, p))
          | (Ok _, p) => if keep_alive then khandle_loop fuel pfuel (reset p) else Ret (Some (Ok tt, p))
          end
      end
  end.

Definition handle_http_connection (fuel : nat) (c : Conn) : Exec (option (Result unit KParseError * KimojioHttpParser)) :=
  khandle_loop fuel fuel (new c).

End Model.
Arguments Conn Rd Wr : clear implicits.

(** ** The parser on this source *)

Section Proofs.
Context {HP : Httparse} {HPL : HttparseLaws} {HT : HttpTypes} {Rd Wr : Type} {HK : KimojioStream Rd Wr} {HKL : KimojioStreamLaws}.

Lemma try_read_some n (c : Conn Rd Wr) : 0 < n -> src_rest (io := list byte) (hpe := hp_error) c <> [] ->
  exists l c', try_read n c = Done l c' /\ l <> [] /\ zlen l <= n /\
    src_rest (io := list byte) (hpe := hp_error) c = l ++ src_rest (io := list byte) (hpe := hp_error) c' /\
    same_end (io := list byte) (hpe := hp_error) c c'.
Proof.
  intros Hn Hr. destruct (ks_read_some n (rd c) Hn Hr) as (l & r' & E & Hl & Hz & Hs & He).
  exists l, (mk_conn r' (wr c)). unfold try_read. rewrite E. split_and!; try done. split; simpl; [by rewrite He | done].
Qed.

Lemma try_read_end n (c : Conn Rd Wr) : 0 < n -> src_rest (io := list byte) (hpe := hp_error) c = [] ->
  exists c', try_read n c = match src_end c with None => Done [] c' | Some e => Fail e c' end /\
    src_rest (io := list byte) (hpe := hp_error) c' = [] /\ same_end (io := list byte) (hpe := hp_error) c c'.
Proof.
  intros Hn Hr. destruct (ks_read_end n (rd c) Hn Hr) as (r' & E & Hr' & He).
  exists (mk_conn r' (wr c)). unfold try_read. rewrite E. simpl. destruct (ks_end (rd c)) eqn:Ee; simpl;
    (split; [done|]; split; [done|]; split; simpl; [by rewrite He, Ee | done]).
Qed.

(** The loop of small reads fetches what one [read_exact] would. *)
Lemma fetch_run fuel n got (c : Conn Rd Wr) : (length (ks_rest (rd c)) < fuel)%nat ->
  exists c', same_end (io := list byte) (hpe := hp_error) c c' /\
    (zlen got <= n -> n - zlen got <= zlen (ks_rest (rd c)) ->
      fetch fuel n got c = Done (got ++ take (Z.to_nat (n - zlen got)) (ks_rest (rd c))) c' /\
      ks_rest (rd c') = drop (Z.to_nat (n - zlen got)) (ks_rest (rd c))) /\
    (zlen (ks_rest (rd c)) < n - zlen got -> fetch fuel n got c = Fail (closed_by (src_end c)) c').
Proof.
  revert got c. induction fuel as [|fuel IH]; intros got c Hf; [lia|]. cbn [fetch].
  destruct (Z.ltb_spec (zlen got) n) as [Hlt|Hge].
  2:{ exists c. split; [by split|]. split.
    - intros ? _. replace (n - zlen got) with 0 by lia. simpl. by rewrite app_nil_r.
    - pose proof (zlen_nonneg (ks_rest (rd c))). lia. }
  unfold mbind, M_bind. destruct (decide (ks_rest (rd c) = [])) as [Hn|Hn].
  - destruct (try_read_end (Z.min (n - zlen got) 8192) c ltac:(lia) Hn) as (c' & -> & Hr' & Hse).
    exists c'. split; [done|]. rewrite Hn. unfold zlen at 3 5. simpl. split; [lia|]. intros _.
    unfold closed_by. simpl. by destruct (ks_end (rd c)).
  - destruct (try_read_some (Z.min (n - zlen got) 8192) c ltac:(lia) Hn) as (l & c1 & -> & Hl & Hz & Hs & Hse).
    simpl in Hs. assert (0 < length l)%nat as Hpos by (destruct l; [done | simpl; lia]).
    destruct l as [|b l]; [done|]. set (l1 := b :: l) in *.
    assert (length (ks_rest (rd c1)) < fuel)%nat as Hf1 by (rewrite Hs, length_app in Hf; lia).
    destruct (IH (got ++ l1) c1 Hf1) as (c' & Hse' & Hok & Hbad).
    exists c'. split; [destruct Hse, Hse'; split; congruence|].
    rewrite Hs. rewrite !zlen_app in *. replace (n - zlen got) with (zlen l1 + (n - (zlen got + zlen l1))) by lia. split.
    + intros Hg Hin. destruct Hok as [-> Hr']; [lia..|].
      assert (Z.to_nat (zlen l1 + (n - (zlen got + zlen l1))) = length l1 + Z.to_nat (n - (zlen got + zlen l1)))%nat as ->
        by (unfold zlen in *; lia).
      rewrite take_app_add, drop_app_add, <- app_assoc. done.
    + intros Hlt'. rewrite Hbad by lia. destruct Hse as [He _]. by rewrite He.
Qed.

#[export] Instance kimojio_source_laws : SourceLaws (R := Conn Rd Wr) (io := list byte) (hpe := hp_error).
Proof.
  split.
  - intros n r. apply try_read_some.
  - intros n r. apply try_read_end.
  - intros fuel n r Hn Hf. destruct (fetch_run fuel n [] r Hf) as (c' & Hse & Hok & _).
    rewrite zlen_nil, Z.sub_0_r in Hok. destruct Hok as [E Hr]; [lia | simpl in Hn; lia |]. by exists c'.
  - intros fuel n r Hn Hf. destruct (fetch_run fuel n [] r Hf) as (c' & Hse & _ & Hbad).
    exists c'. split; [|done]. apply Hbad. rewrite zlen_nil, Z.sub_0_r. exact Hn.
Qed.

End Proofs.

(** ** The two parsers agree *)

Section Agree.
Context {HP : Httparse} {HT : HttpTypes} {io1 io2 : Type}.
Variable f : io1 -> io2.

Definition err_map (e : ParseError io1 hp_error) : ParseError io2 hp_error :=
  match e with
  | Io e => Io (f e)
  | Parse e => Parse e
  | InvalidMethod => InvalidMethod
  | InvalidVersion => InvalidVersion
  | InvalidHeader => InvalidHeader
  | InvalidUri => InvalidUri
  | HeadersTooLarge => HeadersTooLarge
  | InvalidContentLength => InvalidContentLength
  | ConnectionClosed => ConnectionClosed
  end.

Definition out_map {S A} (o : out S (ParseError io1 hp_error) A) : out S (ParseError io2 hp_error) A :=
  match o with Done a s => Done a s | Fail e s => Fail (err_map e) s | Crash => Crash | NoFuel => NoFuel end.

Lemma out_map_bind {S A B} (m1 : M S (ParseError io1 hp_error) A) (m2 : M S (ParseError io2 hp_error) A)
    (k1 : A -> M S _ B) (k2 : A -> M S _ B) s :
  m2 s = out_map (m1 s) -> (forall a s, k2 a s = out_map (k1 a s)) -> (m2 ≫= k2) s = out_map ((m1 ≫= k1) s).
Proof. unfold mbind, M_bind. intros -> Hk. by destruct (m1 s); simpl. Qed.

Lemma header_map_map hs acc : header_map (io := io2) hs acc = map_err err_map (header_map (io := io1) hs acc).
Proof. revert acc. induction hs as [|[n v] hs IH]; intros acc; simpl; [done|]. by repeat case_match. Qed.

Lemma convert_map req : convert (io := io2) req = map_err err_map (convert (io := io1) req).
Proof.
  unfold convert. destruct (method_from_bytes _); [|done].
  destruct (hp_version req) as [[|[?|?|]|?]|]; try done; rewrite header_map_map; by destruct (header_map _ _).
Qed.

Lemma closed_by_map fin : closed_by (err_map <$> fin) = err_map (closed_by fin).
Proof. by destruct fin. Qed.

Lemma ref_head_map fin d : ref_head (err_map <$> fin) d = out_map (ref_head fin d).
Proof.
  unfold ref_head. destruct (hp_parse _ _) as [[n r|]|e]; [|by destruct (_ <=? _), fin, d|done].
  rewrite convert_map. by destruct (convert r).
Qed.

Lemma ref_line_map fin d : ref_line (err_map <$> fin) d = out_map (ref_line fin d).
Proof. unfold ref_line. rewrite closed_by_map. by destruct (position _ _). Qed.

Lemma ref_take_map fin n d : ref_take (err_map <$> fin) n d = out_map (ref_take fin n d).
Proof. unfold ref_take. rewrite closed_by_map. by repeat case_match. Qed.

Lemma ref_chunks_map fin fuel acc d : ref_chunks (err_map <$> fin) fuel acc d = out_map (ref_chunks fin fuel acc d).
Proof.
  revert acc d. induction fuel as [|fuel IH]; intros acc d; [done|]. cbn [ref_chunks].
  apply out_map_bind; [apply ref_line_map|]. intros l d1.
  apply out_map_bind; [by destruct (from_str_radix _ _ _)|]. intros n d2. destruct (n =? 0).
  - apply out_map_bind; [apply ref_line_map | done].
  - apply out_map_bind; [apply ref_take_map|]. intros c d3.
    apply out_map_bind; [apply ref_line_map | intros; apply IH].
Qed.

Lemma ref_request_map fin d : ref_request (err_map <$> fin) d = out_map (ref_request fin d).
Proof.
  unfold ref_request. apply out_map_bind; [apply ref_head_map|]. intros [[h n]|] d1; [|done].
  apply out_map_bind; [done|]. intros _ d2. apply out_map_bind; [|intros b d3; by case_match].
  unfold ref_body. destruct (is_chunked _); [apply ref_chunks_map|].
  destruct (get_content_length _); [apply ref_take_map | done].
Qed.
End Agree.

Section Agree2.
Context {HP : Httparse} {HPL : HttparseLaws} {HT : HttpTypes} {R Rd Wr : Type} {HR : AsyncRead R} {HRL : AsyncReadLaws}
  {HK : KimojioStream Rd Wr} {HKL : KimojioStreamLaws}.

(** C22: the two server implementations parse alike: on connections that carry
    the same bytes and end there, with any buffer state and any splits into
    reads, the tokio parser and the kimojio parser return the same request and
    leave the same bytes, or report the same error, or both panic. *)
Theorem parsers_agree f1 f2 w1 w2 (p1 : HttpParser R) (p2 : HttpParser (Conn Rd Wr))
    (H1 : parser_ok (io := IoError) None w1 p1) (H2 : parser_ok (io := list byte) None w2 p2)
    (Hs : stream (io := list byte) p2 = stream (io := IoError) p1)
    (Hf1 : (length (stream (io := IoError) p1) < f1)%nat) (Hf2 : (length (stream (io := IoError) p1) < f2)%nat) :
  match HttpParser.parse_request (io := IoError) f1 p1, parse_request f2 p2 with
  | Done r1 q1, Done r2 q2 => r1 = r2 /\ stream (io := IoError) q1 = stream (io := list byte) q2
  | Fail e1 _, Fail e2 _ => exists e : ParseError Empty_set hp_error,
      e1 = err_map (Empty_set_rect _) e /\ e2 = err_map (Empty_set_rect _) e
  | Crash, Crash => True
  | _, _ => False
  end.
Proof.
  pose proof (parse_request_sim None w1 f1 p1 H1 Hf1) as S1.
  assert (length (stream (io := list byte) p2) < f2)%nat as Hf2' by (by rewrite Hs).
  pose proof (parse_request_sim None w2 f2 p2 H2 Hf2') as S2. rewrite Hs in S2. unfold parse_request.
  set (d := stream (io := IoError) p1) in *.
  pose proof (ref_request_map (io1 := Empty_set) (io2 := IoError) (Empty_set_rect _) None d) as E1.
  pose proof (ref_request_map (io1 := Empty_set) (io2 := list byte) (Empty_set_rect _) None d) as E2.
  simpl fmap in E1, E2. rewrite E1 in S1. rewrite E2 in S2.
  destruct (ref_request (io := Empty_set) None d) as [r d'|e d'| |];
    destruct (HttpParser.parse_request f1 p1) as [r1 q1|e1 q1| |];
    destruct (HttpParser.parse_request f2 p2) as [r2 q2|e2 q2| |]; simpl in S1, S2; try done.
  - destruct S1 as (-> & _ & ->), S2 as (-> & _ & ->). done.
  - destruct S1 as [-> _], S2 as [-> _]. by exists e.
Qed.
End Agree2.

(** ** Pipelining *)

Section Pipelining.
Context {HP : Httparse} {HPL : HttparseLaws} {HT : HttpTypes} {Rd Wr : Type} {HK : KimojioStream Rd Wr} {HKL : KimojioStreamLaws}.
Variable handler : Request -> Response.

(** [reset] forgets the buffered bytes: after a request that is kept alive,
    the connection goes on with the bytes not yet read from the socket, and
    whatever the last read had fetched beyond the request is lost. *)
Theorem reset_drops_buffered fin w fuel pfuel (p p1 p2 : HttpParser (Conn Rd Wr)) req (Hp : parser_ok fin w p)
    (Hf : (length (stream (io := list byte) p) < pfuel)%nat)
    (Hreq : parse_request pfuel p = Done (Some req) p1)
    (Hka : kshould_keep_alive (headers req) (version req) = true)
    (Hans : kanswer (handler req) p1 = (Ok tt, p2)) :
  khandle_loop handler (S fuel) pfuel p = khandle_loop handler fuel pfuel (reset p2) /\
  exists lost, stream (io := list byte) p1 = lost ++ stream (io := list byte) (reset p2) /\ length lost = len p1.
Proof.
  split; [cbn [khandle_loop]; by rewrite Hreq, Hka; cbn [close_unless]; rewrite Hans|].
  pose proof (parse_request_sim fin w pfuel p Hp Hf) as Hsim. unfold parse_request in Hreq. rewrite Hreq in Hsim.
  destruct (ref_request fin _) as [r d|e d| |]; try done. destruct Hsim as (_ & Hp1 & _).
  exists (take (len p1) (buf p1)). split; [|by apply (buffered_length _ _ _ Hp1)].
  unfold kanswer, kwrite_response, write_all in Hans. destruct (ks_write _ _) as [[u|e] w'] eqn:Ew; [|done].
  injection Hans as <-. done.
Qed.

End Pipelining.

(** ** The listening socket *)

(** What [create_server_socket_reuseport] does with the descriptor: whether
    [bind] and [listen] fail, and how often the descriptor is closed.  The
    [socket2::Socket] and the [OwnedFd] both own it until [into_raw_fd]; each
    closes it when dropped, and [?] drops what is in scope. *)
Inductive socket_result := SocketOk | SocketError.

Definition create_server_socket_reuseport (socket_ok bind_ok listen_ok : bool) : socket_result * nat :=
  if negb socket_ok then (SocketError, 0)%nat                  (* nothing was created *)
  else if negb bind_ok then (SocketError, 1 + 1)%nat           (* drops socket2_socket and server_fd *)
  else if negb listen_ok then (SocketError, 1)%nat             (* drops server_fd *)
  else (SocketOk, 0)%nat.

(** A descriptor is closed at most once and only on failure, except when
    [bind] fails: then it is closed twice. *)
Theorem bind_failure_closes_twice so bo lo :
  (create_server_socket_reuseport so bo lo).2 =
    match so, bo, lo with true, false, _ => 2 | true, true, false => 1 | _, _, _ => 0 end%nat.
Proof. by destruct so, bo, lo. Qed.

(** ** The accept loop and the workers *)

(** [run_kimojio_accept_loop]: [flag i] is the shutdown flag as read before the
    [i]-th accept, [accepts] what the accepts return.  The loop ends with a
    result, or waits in an accept. *)
Inductive kloop := KWaiting | KReturned (r : Result unit nat).

Fixpoint run_kimojio_accept_loop {T} (flag : nat -> bool) (i : nat) (accepts : list (Result T nat)) (spawned : list T)
    : kloop * list T :=
  if flag i then (KReturned (Ok tt), spawned)
  else match accepts with
       | [] => (KWaiting, spawned)
       | Err e :: _ => (KReturned (Err e), spawned)
       | Ok stream :: accepts => run_kimojio_accept_loop flag (S i) accepts (spawned ++ [stream])
       end.

Lemma accept_loop_flagged {T} flag i accepts (acc : list T) : flag i = true ->
  run_kimojio_accept_loop flag i accepts acc = (KReturned (Ok tt), acc).
Proof. intros Hi. destruct accepts as [|[]]; simpl; by rewrite Hi. Qed.

(** The flag does not interrupt an accept: when it is set while the worker
    waits with [k] connections accepted, the worker still accepts the next
    connection and spawns its handler, and only then returns; without another
    connection it never returns. *)
Theorem shutdown_waits_for_connection {T} k (streams : list T) :
  run_kimojio_accept_loop (fun i => k <? i)%nat 0 (Ok <$> streams) [] =
    if (k <? length streams)%nat then (KReturned (Ok tt), take (S k) streams) else (KWaiting, streams).
Proof.
  assert (forall (l : list T) i acc, (i <= k)%nat ->
    run_kimojio_accept_loop (fun i => k <? i)%nat i (Ok <$> l) acc =
    if (k - i <? length l)%nat then (KReturned (Ok tt), acc ++ take (S (k - i)) l) else (KWaiting, acc ++ l)) as Hl.
  { induction l as [|x l IH]; intros i acc Hi; cbn [run_kimojio_accept_loop fmap list_fmap].
    - rewrite !(proj2 (Nat.ltb_ge _ _)) by (simpl; lia). by rewrite app_nil_r.
    - rewrite (proj2 (Nat.ltb_ge k i)) by done. destruct (decide (i = k)) as [->|].
      + rewrite accept_loop_flagged by (apply Nat.ltb_lt; lia). by rewrite Nat.sub_diag.
      + rewrite IH by lia. replace (k - i)%nat with (S (k - S i)) by lia. cbn [length take].
        change (S (k - S i) <? S (length l))%nat with (k - S i <? length l)%nat.
        destruct (_ <? _)%nat; by rewrite <- app_assoc. }
  rewrite Hl by lia. rewrite Nat.sub_0_r. done.
Qed.

(** The workers of [run_kimojio_thread_per_core_server]: the core each is
    pinned to and the thread index ([core_id as u8]) of its runtime. *)
Definition worker_threads (num_cores : nat) : list (nat * Z) :=
  (fun core_id => (core_id, as_u8 (Z.of_nat core_id))) <$> seq 0 num_cores.

(** Thread indices are distinct exactly up to 256 cores. *)
Theorem thread_indices_distinct n : NoDup (worker_threads n).*2 <-> (n <= 256)%nat.
Proof.
  unfold worker_threads. rewrite <- list_fmap_compose. simpl. split.
  - intros Hd. destruct (decide (n <= 256)%nat); [done|]. exfalso.
    assert (0%nat = 256%nat) as E; [|done].
    eapply (NoDup_lookup _ 0 256 (as_u8 0) Hd); rewrite list_lookup_fmap, lookup_seq_lt by lia; done.
  - intros Hn. apply NoDup_alt. intros i j x Hi Hj.
    rewrite list_lookup_fmap in Hi, Hj. apply fmap_Some in Hi as (a & Ha & ->), Hj as (b & Hb & E).
    apply lookup_seq in Ha as [-> ?], Hb as [-> ?]. simpl in E. unfold as_u8, wrap in E.
    rewrite !Z.mod_small in E by lia. lia.
Qed.

(** ** Witnesses *)

Import RefHttp.

#[export] Instance mem_kimojio : KimojioStream mem (list byte) := {|
  kerrno := unit;
  kerrno_debug _ := bs "EIO";
  ks_try_read n c := (Ok (take (piece n c) (m_rest c)), mk_mem (drop (piece n c) (m_rest c)) (tail (m_cuts c)) (m_out c));
  ks_write l w := (Ok tt, w ++ l);
  ks_shutdown w := (Ok tt, w);
  ks_rest := m_rest;
  ks_end _ := None;
  ks_written w := w
|}.

#[export] Instance mem_kimojio_laws : KimojioStreamLaws (Rd := mem) (Wr := list byte).
Proof.
  split; simpl.
  - intros n r Hn Hr. destruct (@ar_some mem mem_read mem_read_laws n r Hn Hr) as (l & r' & [= <- <-] & ? & ? & ? & ? & ?). eexists _, _. by split_and!.
  - intros n r Hn Hr. eexists. rewrite Hr, take_nil, drop_nil. by split_and!.
  - by intros l w x w' [= <- <-].
Qed.

Definition kconn (l : list byte) (cuts : list nat) : Conn mem (list byte) := mk_conn (conn l cuts) [].

Lemma kconn_ok l cuts : parser_ok (HP := ref_httparse) (HS := kimojio_source) (io := list byte) None [] (new (kconn l cuts)).
Proof. exact (new_ok (HP := ref_httparse) (io := list byte) (kconn l cuts)). Qed.

Lemma parsers_agree_witness :
  match HttpParser.parse_request (io := IoError) 200 (HttpParser.new (conn simple_request [5]%nat)),
        parse_request 200 (new (kconn simple_request [100]%nat)) with
  | Done r1 q1, Done r2 q2 => r1 = r2 /\ stream (io := IoError) q1 = stream (io := list byte) q2
  | _, _ => False
  end.
Proof.
  pose proof (parsers_agree 200 200 [] [] (HttpParser.new (conn simple_request [5]%nat)) (new (kconn simple_request [100]%nat))
    (conn_ok _ _) (kconn_ok _ _) eq_refl ltac:(vm_compute; lia) ltac:(vm_compute; lia)) as Ha.
  assert (match HttpParser.parse_request (io := IoError) 200 (HttpParser.new (conn simple_request [5]%nat)) with
    | Done _ _ => true | _ => false end = true) as Hd by (vm_compute; reflexivity).
  destruct (HttpParser.parse_request 200 _) as [r1 q1|e1 q1| |]; try discriminate Hd.
  destruct (parse_request 200 _) as [r2 q2|e2 q2| |]; exact Ha.
Defined.

(** The two requests of [HttpServer.pipelined]: the tokio server answers both;
    this one answers the second only if it arrives in a read of its own. *)
Definition two : list byte := HttpServer.get "/a" ++ HttpServer.get "/b".
Definition answers (paths : list (list byte)) : list byte :=
  concat ((fun p => serialize_response (mk_response 200 HTTP_11 [] p)) <$> paths).

Definition kwritten (o : Exec (option (Result unit KParseError * HttpParser (Conn mem (list byte))))) : option (list byte) :=
  match o with Ret (Some (Ok _, p)) => Some (wr (reader p)) | _ => None end.

(** A client that pipelines loses answers: the same two requests are both
    answered when they arrive in separate reads, and the second is dropped
    without a trace when one read returns both.  The tokio server answers both
    in either case. *)
Theorem kimojio_drops_pipelined :
  kwritten (handle_http_connection path_handler 100 (kconn two [length (HttpServer.get "/a"); 100]%nat)) =
    Some (answers [bs "/a"; bs "/b"]) /\
  kwritten (handle_http_connection path_handler 100 (kconn two [100]%nat)) = Some (answers [bs "/a"]) /\
  match handle_connection (fun _ => []) path_handler 100 (conn two [100]%nat) with
  | Ret (Some (Ok _, p)) => m_out (reader p) = answers [bs "/a"; bs "/b"] | _ => False end.
Proof. split_and!; vm_compute; reflexivity. Qed.

Lemma reset_drops_buffered_witness :
  exists p1 p2 lost, khandle_loop path_handler 5 100 (new (kconn two [100]%nat)) = khandle_loop path_handler 4 100 (reset p2) /\
    stream (io := list byte) p1 = lost ++ stream (io := list byte) (reset p2) /\ length lost = length (HttpServer.get "/b").
Proof.
  destruct (parse_request 100 (new (kconn two [100]%nat))) as [[req|] p1|e p1| |] eqn:Ep; try (vm_compute in Ep; discriminate Ep).
  destruct (kanswer (path_handler req) p1) as [[[]|e] p2] eqn:Ea;
    [|unfold kanswer, kwrite_response, write_all in Ea; simpl in Ea; discriminate Ea].
  assert (should_keep_alive (headers req) (version req) = true) as Hka
    by (vm_compute in Ep; injection Ep as <- <-; reflexivity).
  destruct (reset_drops_buffered path_handler None [] 4 100 (new (kconn two [100]%nat)) p1 p2 req (kconn_ok _ _)
    ltac:(vm_compute; lia) Ep Hka Ea) as [E (lost & Hs & Hl)].
  exists p1, p2, lost. split; [exact E|]. split; [exact Hs|]. rewrite Hl. vm_compute in Ep. injection Ep as _ <-. reflexivity.
Defined.

End Kimojio.
