(* ===== verification/ManualEcho.v ===== *)
(** * Polled echo server and client
      ([dpdk-net-test/src/manual/tcp_echo.rs], [dpdk-net-test/src/manual/echo_server.rs])

    An echo server and an echo client that drive smoltcp sockets by polling,
    and the loops that run them.  [SmoltcpMore] is what they use of smoltcp
    beyond the sockets of [Smoltcp]: [recv] with a closure, [can_recv],
    [can_send], [is_open] and [Interface::poll] on a device of any type. *)

From Stdlib Require Import Strings.String.
From stdpp Require Import base gmap list fin_maps.
From Stdlib Require Import ZArith NArith Strings.Byte Lia.
From S2P Require Import Prelude Mbuf Pktmbuf Queue ArpCache Device Smoltcp Reactor Text.

Class SmoltcpMore `{Smoltcp} (Dev : Type) := {
  tcp_is_open : tcp_sock -> bool;
  tcp_can_recv : tcp_sock -> bool;
  tcp_can_send : tcp_sock -> bool;
  (* [recv(f)]: [f] gets the readable bytes, says how many it consumes *)
  tcp_recv : forall {A}, (list byte -> nat * A) -> tcp_sock -> Result A RecvError * tcp_sock;
  iface_poll : Z -> Interface -> SocketSet -> Dev -> Interface * SocketSet * Dev
}.

(** What each operation does to the bytes handed out and accepted: only [recv]
    hands out and only [send_slice] accepts; polling does neither and keeps the
    kinds of sockets. *)
Definition same_bytes `{Smoltcp} (s s' : tcp_sock) : Prop :=
  tcp_delivered s' = tcp_delivered s /\ tcp_accepted s' = tcp_accepted s.

Class SmoltcpMoreLaws `{SmoltcpMore Dev} : Prop := {
  recv_spec : forall A (f : list byte -> nat * A) s a s', tcp_recv f s = (Ok a, s') ->
    exists b, (f b).2 = a /\ ((f b).1 <= length b -> tcp_delivered s' = tcp_delivered s ++ take (f b).1 b)%nat /\
      tcp_accepted s' = tcp_accepted s;
  recv_err : forall A (f : list byte -> nat * A) s e s', tcp_recv f s = (Err e, s') -> s' = s;
  send_delivered : forall data s x s', tcp_send_slice data s = (x, s') -> tcp_delivered s' = tcp_delivered s;
  close_bytes : forall s, same_bytes s (tcp_close s);
  listen_bytes : forall p s s', tcp_listen p s = Ok s' -> same_bytes s s';
  poll_bytes : forall ts i ss d i' ss' d' h s, iface_poll ts i ss d = (i', ss', d') -> set_get ss h = Some (inl s) ->
    exists s', set_get ss' h = Some (inl s') /\ same_bytes s s'
}.

Module ManualEcho.
Import Text Reactor.

(** ** Configuration and statistics *)

Record SocketConfig := mk_config { rx_buffer_size : Z; tx_buffer_size : Z }.
Definition config_default : SocketConfig := mk_config 4096 4096.
Definition config_new (rx tx : Z) : SocketConfig := mk_config rx tx.
Definition config_large : SocketConfig := mk_config 8192 8192.

Record EchoServerStats := mk_sstats { s_bytes_received : nat; s_bytes_sent : nat; connections : nat }.
Record EchoClientStats := mk_cstats { c_bytes_sent : nat; c_bytes_received : nat }.

(** The closure both sides pass to [recv]: consume all that is there. *)
Definition take_all (buffer : list byte) : nat * list byte :=
  let len := length buffer in if (0 <? len)%nat then (len, buffer) else (0%nat, []).

Section Model.
Context `{SmoltcpMore Dev}.

(** ** [EchoServer] *)

Record EchoServer := mk_server {
  s_handle : SocketHandle;
  port : Z;
  pending_tx : list byte;
  s_stats : EchoServerStats;
  was_connected : bool
}.

Definition server_new (ss : SocketSet) (port : Z) (config : SocketConfig) : Exec (EchoServer * SocketSet) :=
  match tcp_listen port (tcp_new (rx_buffer_size config) (tx_buffer_size config)) with
  | Err _ => Panic
  | Ok socket =>
      let '(h, ss) := set_add (inl socket) ss in
      Ret (mk_server h port [] (mk_sstats 0 0 0) false, ss)
  end.

Definition is_connected (v : EchoServer) (ss : SocketSet) : Exec bool := s ← get_tcp ss (s_handle v); Ret (tcp_is_active s).
Definition state (v : EchoServer) (ss : SocketSet) : Exec TcpState := s ← get_tcp ss (s_handle v); Ret (tcp_state s).
Definition is_ready (v : EchoServer) (ss : SocketSet) : Exec bool :=
  s ← get_tcp ss (s_handle v); Ret (bool_decide (tcp_state s = Listen)).
Definition server_remove (v : EchoServer) (ss : SocketSet) : Exec SocketSet := Reactor.remove (s_handle v) ss.

(** The branches of [EchoServer::process] on its socket, in order. *)
Definition s_connect (v : EchoServer) : EchoServer :=
  if was_connected v then v
  else mk_server (s_handle v) (port v) (pending_tx v)
         (mk_sstats (s_bytes_received (s_stats v)) (s_bytes_sent (s_stats v)) (connections (s_stats v) + 1)) true.

Definition s_receive (v : EchoServer) (s : tcp_sock) : EchoServer * tcp_sock :=
  if tcp_can_recv s then
    match tcp_recv take_all s with
    | (Ok data, s) =>
        if (length data =? 0)%nat then (v, s)
        else (mk_server (s_handle v) (port v) (pending_tx v ++ data)
                (mk_sstats (s_bytes_received (s_stats v) + length data) (s_bytes_sent (s_stats v)) (connections (s_stats v)))
                (was_connected v), s)
    | (Err _, s) => (v, s)
    end
  else (v, s).

(** [pending_tx.drain(..sent)] panics when [sent] exceeds the length. *)
Definition s_send (v : EchoServer) (s : tcp_sock) : Exec (nat * EchoServer * tcp_sock) :=
  if negb (length (pending_tx v) =? 0)%nat && tcp_can_send s then
    match tcp_send_slice (pending_tx v) s with
    | (Ok sent, s) =>
        if (sent <=? length (pending_tx v))%nat then
          Ret (sent, mk_server (s_handle v) (port v) (drop sent (pending_tx v))
                 (mk_sstats (s_bytes_received (s_stats v)) (s_bytes_sent (s_stats v) + sent) (connections (s_stats v)))
                 (was_connected v), s)
        else Panic
    | (Err _, s) => Ret (0%nat, v, s)
    end
  else Ret (0%nat, v, s).

Definition s_disconnect (v : EchoServer) : EchoServer :=
  if was_connected v then mk_server (s_handle v) (port v) [] (s_stats v) false else v.

Definition server_process (v : EchoServer) (ss : SocketSet) : Exec (nat * EchoServer * SocketSet) :=
  s ← get_tcp ss (s_handle v);
  '(echoed, v, s) ← (if tcp_is_active s then
      let v := s_connect v in
      let '(v, s) := s_receive v s in
      '(echoed, v, s) ← s_send v s;
      Ret (echoed, v, if decide (tcp_state s = CloseWait) then tcp_close s else s)
    else
      let v := s_disconnect v in
      Ret (0%nat, v, if decide (tcp_state s = Closed) then
                   match tcp_listen (port v) s with Ok s => s | Err _ => s end else s));
  Ret (echoed, v, set_put (s_handle v) (inl s) ss).

(** ** [EchoClient] *)

Inductive EchoClientState := Connecting | Connected | WaitingForEcho | Complete | CClosed.
#[global] Instance client_state_eq_dec : EqDecision EchoClientState.
Proof. solve_decision. Defined.

Record EchoClient := mk_client {
  c_handle : SocketHandle;
  c_state : EchoClientState;
  data_to_send : list byte;
  send_offset : nat;
  received_data : list byte;
  expected_len : nat;
  c_stats : EchoClientStats
}.

Definition client_new (ss : SocketSet) (i : Interface) (server_ip : Ipv4Addr) (server_port local_port : Z) (config : SocketConfig)
    : Exec (EchoClient * SocketSet) :=
  let '(h, ss) := set_add (inl (tcp_new (rx_buffer_size config) (tx_buffer_size config))) ss in
  s ← get_tcp ss h;
  match tcp_connect i (mk_endpoint server_ip server_port) local_port s with
  | Err _ => Panic
  | Ok s => Ret (mk_client h Connecting [] 0 [] 0 (mk_cstats 0 0), set_put h (inl s) ss)
  end.

Definition is_complete (c : EchoClient) : bool := match c_state c with Complete => true | _ => false end.
Definition is_closed (c : EchoClient) : bool := match c_state c with CClosed => true | _ => false end.

(** [EchoClient::send] queues data. *)
Definition client_send (data : list byte) (c : EchoClient) : EchoClient :=
  mk_client (c_handle c) (c_state c) (data_to_send c ++ data) (send_offset c) (received_data c)
    (expected_len c + length data) (c_stats c).

(** [&a[..n]] on both sides, with its panics *)
Definition verify_echo (c : EchoClient) : Exec bool :=
  if (length (received_data c) <? expected_len c)%nat then Ret false
  else
    a ← slice (received_data c) 0 (expected_len c);
    b ← slice (data_to_send c) 0 (expected_len c);
    Ret (bool_decide (a = b)).

Definition set_state (c : EchoClient) (st : EchoClientState) : EchoClient :=
  mk_client (c_handle c) st (data_to_send c) (send_offset c) (received_data c) (expected_len c) (c_stats c).

(** The [Connected] and [WaitingForEcho] arms of [EchoClient::process]: the
    transfer, then the check whether the state advances. *)
Definition c_transmit (c : EchoClient) (s : tcp_sock) : Exec (EchoClient * tcp_sock) :=
  if (send_offset c <? length (data_to_send c))%nat && tcp_can_send s then
    remaining ← slice (data_to_send c) (send_offset c) (length (data_to_send c));
    match tcp_send_slice remaining s with
    | (Ok sent, s) =>
        Ret (mk_client (c_handle c) (c_state c) (data_to_send c) (send_offset c + sent) (received_data c) (expected_len c)
               (mk_cstats (c_bytes_sent (c_stats c) + sent) (c_bytes_received (c_stats c))), s)
    | (Err _, s) => Ret (c, s)
    end
  else Ret (c, s).

Definition c_all_sent (c : EchoClient) : EchoClient :=
  if (length (data_to_send c) <=? send_offset c)%nat && negb (length (data_to_send c) =? 0)%nat
  then set_state c WaitingForEcho else c.

Definition c_collect (c : EchoClient) (s : tcp_sock) : EchoClient * tcp_sock :=
  if tcp_can_recv s then
    match tcp_recv take_all s with
    | (Ok data, s) =>
        if (length data =? 0)%nat then (c, s)
        else (mk_client (c_handle c) (c_state c) (data_to_send c) (send_offset c) (received_data c ++ data) (expected_len c)
                (mk_cstats (c_bytes_sent (c_stats c)) (c_bytes_received (c_stats c) + length data)), s)
    | (Err _, s) => (c, s)
    end
  else (c, s).

Definition c_all_received (c : EchoClient) : EchoClient :=
  if (expected_len c <=? length (received_data c))%nat then set_state c Complete else c.

Definition c_arm (c : EchoClient) (s : tcp_sock) : Exec (EchoClient * tcp_sock) :=
  match c_state c with
  | Connecting => Ret (if tcp_is_active s then set_state c Connected else c, s)
  | Connected => '(c, s) ← c_transmit c s; Ret (c_all_sent c, s)
  | WaitingForEcho => let '(c, s) := c_collect c s in Ret (c_all_received c, s)
  | Complete | CClosed => Ret (c, s)
  end.

(** The check for a closed connection. *)
Definition c_gone (c : EchoClient) (s : tcp_sock) : EchoClient :=
  if negb (tcp_is_open s) && negb (is_complete c) then set_state c CClosed else c.

Definition client_process (c : EchoClient) (ss : SocketSet) : Exec (bool * EchoClient * SocketSet) :=
  s ← get_tcp ss (c_handle c);
  let old_state := c_state c in
  '(c, s) ← c_arm c s;
  let c := c_gone c s in
  Ret (negb (bool_decide (c_state c = old_state)), c, set_put (c_handle c) (inl s) ss).

Definition client_close (c : EchoClient) (ss : SocketSet) : Exec SocketSet :=
  s ← get_tcp ss (c_handle c); Ret (set_put (c_handle c) (inl (tcp_close s)) ss).
Definition client_remove (c : EchoClient) (ss : SocketSet) : Exec SocketSet := Reactor.remove (c_handle c) ss.

(** ** The loops *)

Record EchoTestResult := mk_result { r_connected : bool; r_bytes_sent : nat; r_bytes_received : nat; echo_verified : bool }.

(** The machine the loops run on. *)
Record Net := mk_net { n_iface : Interface; n_set : SocketSet; n_dev : Dev }.

Definition poll_net (ts : Z) (n : Net) : Net :=
  let '(i, ss, d) := iface_poll ts (n_iface n) (n_set n) (n_dev n) in mk_net i ss d.

(** One turn of the loops: poll, then server, then client. *)
Definition turn (ts : Z) (v : EchoServer) (c : EchoClient) (n : Net) : Exec (EchoServer * EchoClient * Net) :=
  let n := poll_net ts n in
  '(_, v, ss) ← server_process v (n_set n);
  '(_, c, ss) ← client_process c ss;
  Ret (v, c, mk_net (n_iface n) ss (n_dev n)).

(** [run_echo_test]; [times] are the timestamps of the turns that start before
    the timeout. *)
Fixpoint echo_loop (times : list Z) (v : EchoServer) (c : EchoClient) (n : Net) : Exec (EchoServer * EchoClient * Net) :=
  match times with
  | [] => Ret (v, c, n)
  | ts :: times =>
      '(v, c, n) ← turn ts v c n;
      if is_complete c || is_closed c then Ret (v, c, n) else echo_loop times v c n
  end.

Definition run_echo_test (times : list Z) (v : EchoServer) (c : EchoClient) (n : Net)
    : Exec (EchoTestResult * EchoServer * EchoClient * Net) :=
  '(v, c, n) ← echo_loop times v c n;
  verified ← verify_echo c;
  Ret (mk_result (match c_state c with Connecting => false | _ => true end)
         (c_bytes_sent (c_stats c)) (c_bytes_received (c_stats c)) verified, v, c, n).

(** The second loop of a round of [run_stress_test]. *)
Fixpoint close_loop (times : list Z) (v : EchoServer) (c : EchoClient) (n : Net) : Exec (EchoServer * EchoClient * Net) :=
  match times with
  | [] => Ret (v, c, n)
  | ts :: times =>
      '(v, c, n) ← turn ts v c n;
      ready ← is_ready v (n_set n);
      if ready : bool then Ret (v, c, n) else close_loop times v c n
  end.

(** [format!("Round{}-Msg{}", round, msg_num)] *)
Definition message (round msg : nat) : list byte :=
  bs "Round" ++ (to_byte <$> to_string (Z.of_nat round)) ++ bs "-Msg" ++ (to_byte <$> to_string (Z.of_nat msg)).

(** [49152 + round as u16]; the addition panics on overflow. *)
Definition local_port (round : nat) : Exec Z :=
  let p := (49152 + as_u16 (Z.of_nat round))%Z in if (p <=? u16_max)%Z then Ret p else Panic.

(** One round of [run_stress_test]; [t1] and [t2] are the turns the two
    timeouts allow. *)
Definition stress_round (server_ip : Ipv4Addr) (messages_per_round : nat) (round : nat) (t1 t2 : list Z) (v : EchoServer) (n : Net)
    : Exec (EchoTestResult * EchoServer * Net) :=
  lp ← local_port round;
  '(c, ss) ← client_new (n_set n) (n_iface n) server_ip (port v) lp config_default;
  let c := fold_left (fun c m => client_send (message round m) c) (seq 0 messages_per_round) c in
  '(result, v, c, n) ← run_echo_test t1 v c (mk_net (n_iface n) ss (n_dev n));
  ss ← client_close c (n_set n);
  '(v, c, n) ← close_loop t2 v c (mk_net (n_iface n) ss (n_dev n));
  ss ← client_remove c (n_set n);
  Ret (result, v, mk_net (n_iface n) ss (n_dev n)).

(** [run_stress_test]: the times of each round are given. *)
Fixpoint stress_rounds (server_ip : Ipv4Addr) (messages_per_round round : nat) (times : list (list Z * list Z))
    (v : EchoServer) (n : Net) (results : list EchoTestResult) (all_passed : bool)
    : Exec (bool * list EchoTestResult * EchoServer * Net) :=
  match times with
  | [] => Ret (all_passed, results, v, n)
  | (t1, t2) :: times =>
      '(result, v, n) ← stress_round server_ip messages_per_round round t1 t2 v n;
      stress_rounds server_ip messages_per_round (S round) times v n (results ++ [result]) (all_passed && echo_verified result)
  end.

Definition run_stress_test (server_ip : Ipv4Addr) (messages_per_round : nat) (times : list (list Z * list Z)) (v : EchoServer) (n : Net)
  := stress_rounds server_ip messages_per_round 0 times v n [] true.

(** ** [run_echo_server] ([manual/echo_server.rs]) *)

(** [format_time] of the seconds since the epoch. *)
Definition two_digits (n : Z) : str := if (n <? 10)%Z then 48%N :: to_string n else to_string n.
Definition format_time (now : Z) : str :=
  let secs := (now mod 86400)%Z in
  two_digits (secs / 3600) ++ 58%N :: two_digits (secs mod 3600 / 60) ++ 58%N :: two_digits (secs mod 60).

Record EchoServerResult := mk_sresult { bytes_received : nat; bytes_sent : nat; conns : nat; send_errors : nat; bytes_dropped : nat }.

(** The socket buffers the server asks for. *)
Definition server_config (max_pending_tx_bytes : Z) : SocketConfig :=
  if (0 <? max_pending_tx_bytes)%Z then mk_config max_pending_tx_bytes max_pending_tx_bytes else config_default.

(** The loop: the flag was still set before each of the [times]; both branches
    on [is_connected] process the server, the rest is logging. *)
Fixpoint server_loop (times : list Z) (v : EchoServer) (n : Net) : Exec (EchoServer * Net) :=
  match times with
  | [] => Ret (v, n)
  | ts :: times =>
      let n := poll_net ts n in
      _ ← state v (n_set n);
      _ ← is_connected v (n_set n);
      '(_, v, ss) ← server_process v (n_set n);
      server_loop times v (mk_net (n_iface n) ss (n_dev n))
  end.

Definition run_echo_server (p max_pending_tx_bytes : Z) (times : list Z) (n : Net) : Exec (EchoServerResult * Net) :=
  '(v, ss) ← server_new (n_set n) p (server_config max_pending_tx_bytes);
  '(v, n) ← server_loop times v (mk_net (n_iface n) ss (n_dev n));
  Ret (mk_sresult (s_bytes_received (s_stats v)) (s_bytes_sent (s_stats v)) (connections (s_stats v)) 0 0, n).

End Model.

(** ** Correctness *)

Section Proofs.
Context `{HL : EthBurstLaws} {HI : HashMapIter} {HS : Smoltcp} {HSL : SmoltcpLaws} {Dev : Type} {HM : SmoltcpMore Dev}
  {HML : SmoltcpMoreLaws}.

(** What a call of [process] does to its socket. *)
Inductive touched : tcp_sock -> tcp_sock -> Prop :=
  | touched_refl s : touched s s
  | touched_recv s s' : touched s s' -> touched s (tcp_recv take_all s').2
  | touched_send s s' data : touched s s' -> touched s (tcp_send_slice data s').2
  | touched_close s s' : touched s s' -> touched s (tcp_close s')
  | touched_listen s s' p s'' : touched s s' -> tcp_listen p s' = Ok s'' -> touched s s''.
Hint Constructors touched : core.

Lemma take_all_recv s data s' : tcp_recv take_all s = (Ok data, s') ->
  tcp_delivered s' = tcp_delivered s ++ data /\ tcp_accepted s' = tcp_accepted s.
Proof.
  intros (b & Hb & Hd & Ha)%recv_spec. unfold take_all in *. split; [|done].
  destruct (Nat.ltb_spec 0 (length b)); simpl in *; subst; rewrite Hd by lia; [by rewrite take_ge | done].
Qed.

(** The server within a connection: behind [d0] and [a0], the bytes handed to it
    are those it has sent back and those it still holds. *)
Definition echoing (d0 a0 : list byte) (v : EchoServer) (s : tcp_sock) : Prop :=
  exists sent, tcp_delivered s = d0 ++ sent ++ pending_tx v /\ tcp_accepted s = a0 ++ sent.

(** The server's invariant over all connections: what it sent is a subsequence
    of what it was handed, and the statistics count exactly these. *)
Record server_ok (v : EchoServer) (s : tcp_sock) : Prop := {
  so_echo : exists d0 a0, echoing d0 a0 v s /\ a0 `sublist_of` d0;
  so_received : s_bytes_received (s_stats v) = length (tcp_delivered s);
  so_sent : s_bytes_sent (s_stats v) = length (tcp_accepted s);
  so_idle : was_connected v = false -> pending_tx v = []
}.

Lemma server_ok_bytes v s s' : same_bytes s s' -> server_ok v s -> server_ok v s'.
Proof.
  intros [Ed Ea] [(d0 & a0 & (sent & Hd1 & Ha1) & Hs) Hr Ht Hi]. split; rewrite ?Ed, ?Ea; try done.
  exists d0, a0. split; [|done]. exists sent. by rewrite Ed, Ea.
Qed.

Lemma s_connect_ok d0 a0 v s : server_ok v s -> echoing d0 a0 v s -> server_ok (s_connect v) s /\ echoing d0 a0 (s_connect v) s /\
  was_connected (s_connect v) = true.
Proof. intros Hv He. unfold s_connect. destruct (was_connected v) eqn:E; [done|]. destruct Hv. split_and!; [by split|done..]. Qed.

Lemma s_receive_ok d0 a0 v s v' s' : s_receive v s = (v', s') -> server_ok v s -> echoing d0 a0 v s -> was_connected v = true ->
  server_ok v' s' /\ echoing d0 a0 v' s' /\ was_connected v' = true /\ touched s s' /\ s_handle v' = s_handle v /\ port v' = port v /\
  tcp_accepted s' = tcp_accepted s /\ connections (s_stats v') = connections (s_stats v).
Proof.
  intros E Hv He Hw. unfold s_receive in E. destruct (tcp_can_recv s); [|injection E as <- <-; by split_and!].
  destruct (tcp_recv take_all s) as [[data|e] s1] eqn:Er.
  - assert (touched s s1) as Ht by (change s1 with (Ok (E := RecvError) data, s1).2; rewrite <- Er; auto).
    destruct (take_all_recv _ _ _ Er) as [Ed Ea]. destruct (Nat.eqb_spec (length data) 0) as [Hz|Hz]; injection E as <- <-.
    + apply length_zero_iff_nil in Hz as ->. rewrite app_nil_r in Ed. assert (same_bytes s s1) as Hsb by done.
      split_and!; try done; [by eapply server_ok_bytes|]. destruct He as (sent & Hd1 & Ha1). exists sent. by rewrite Ed, Ea.
    + assert (forall d a, echoing d a v s -> echoing d a (mk_server (s_handle v) (port v) (pending_tx v ++ data)
        (mk_sstats (s_bytes_received (s_stats v) + length data) (s_bytes_sent (s_stats v)) (connections (s_stats v))) (was_connected v)) s1) as Hstep.
      { intros d a (sent & Hd1 & Ha1). exists sent. simpl. rewrite Ed, Ea, Hd1, Ha1, <- !app_assoc. done. }
      split_and!; try done; [|by apply Hstep]. destruct Hv as [(d & a & Hda & Hsub) Hr Hs Hi]. split; simpl.
      * exists d, a. by split; [apply Hstep|].
      * by rewrite Ed, length_app, Hr.
      * by rewrite Ea.
      * congruence.
  - apply recv_err in Er as ->. injection E as <- <-. by split_and!.
Qed.

Lemma s_send_ok d0 a0 v s : server_ok v s -> echoing d0 a0 v s -> was_connected v = true ->
  exists n v' s', s_send v s = Ret (n, v', s') /\ server_ok v' s' /\ echoing d0 a0 v' s' /\ touched s s' /\
    s_handle v' = s_handle v /\ port v' = port v /\ was_connected v' = true /\ length (tcp_accepted s') = (length (tcp_accepted s) + n)%nat /\
    connections (s_stats v') = connections (s_stats v).
Proof.
  intros Hv He Hw. unfold s_send. destruct (_ && _); [|exists 0%nat, v, s; split_and!; done || lia].
  destruct (tcp_send_slice (pending_tx v) s) as [[n|e] s1] eqn:Es.
  2:{ apply send_slice_err in Es as ->. exists 0%nat, v, s. split_and!; done || lia. }
  assert (touched s s1) as Ht by (change s1 with (Ok (E := SendError) n, s1).2; rewrite <- Es; auto).
  pose proof (send_delivered _ _ _ _ Es) as Ed. destruct (send_slice_spec _ _ _ _ Es) as [Hn Ea].
  rewrite (proj2 (Nat.leb_le _ _)) by done. eexists n, _, s1. split; [done|].
  assert (forall d a, echoing d a v s -> echoing d a (mk_server (s_handle v) (port v) (drop n (pending_tx v))
    (mk_sstats (s_bytes_received (s_stats v)) (s_bytes_sent (s_stats v) + n) (connections (s_stats v))) (was_connected v)) s1) as Hstep.
  { intros d a (sent & Hd1 & Ha1). exists (sent ++ take n (pending_tx v)). simpl. rewrite Ed, Ea, Hd1, Ha1, <- !app_assoc.
    by rewrite take_drop. }
  assert (length (tcp_accepted s1) = length (tcp_accepted s) + n)%nat as Hl by (rewrite Ea, length_app, length_take; lia).
  split_and!; try done; [|by apply Hstep]. destruct Hv as [(d & a & Hda & Hsub) Hr Hsn Hi]. split; simpl.
  - exists d, a. by split; [apply Hstep|].
  - by rewrite Ed.
  - by rewrite Hl, Hsn.
  - congruence.
Qed.

Lemma get_put ss h s s' : set_get ss h = Some (inl s) -> set_get (set_put h (inl s') ss) h = Some (inl s').
Proof. intros Hg. rewrite set_put_spec by eauto. by rewrite decide_True. Qed.

(** One call of the server's [process]. *)
Lemma server_process_run v ss s : set_get ss (s_handle v) = Some (inl s) -> server_ok v s ->
  exists n v' s', server_process v ss = Ret (n, v', set_put (s_handle v) (inl s') ss) /\
    s_handle v' = s_handle v /\ port v' = port v /\ server_ok v' s' /\ touched s s' /\ was_connected v' = tcp_is_active s /\
    connections (s_stats v') = (connections (s_stats v) + if tcp_is_active s && negb (was_connected v) then 1 else 0)%nat /\
    (if tcp_is_active s then
       length (tcp_accepted s') = (length (tcp_accepted s) + n)%nat /\ forall d0 a0, echoing d0 a0 v s -> echoing d0 a0 v' s'
     else n = 0%nat /\ pending_tx v' = [] /\ same_bytes s s').
Proof.
  intros Hg Hv. unfold server_process. rewrite (get_tcp_ret _ _ _ Hg). cbn.
  destruct (tcp_is_active s) eqn:Hact.
  - destruct (so_echo _ _ Hv) as (d0 & a0 & He & Hsub).
    destruct (s_connect_ok _ _ _ _ Hv He) as (Hv1 & He1 & Hw1).
    destruct (s_receive (s_connect v) s) as [v2 s2] eqn:E2.
    destruct (s_receive_ok _ _ _ _ _ _ E2 Hv1 He1 Hw1) as (Hv2 & He2 & Hw2 & Ht2 & Hh2 & Hp2 & Ha2 & Hc2).
    destruct (s_send_ok _ _ _ _ Hv2 He2 Hw2) as (n & v3 & s3 & E3 & Hv3 & He3 & Ht3 & Hh3 & Hp3 & Hw3 & Hl3 & Hc3). rewrite E3. cbn.
    assert (s_handle (s_connect v) = s_handle v /\ port (s_connect v) = port v /\
      connections (s_stats (s_connect v)) = (connections (s_stats v) + if negb (was_connected v) then 1 else 0)%nat) as (Hh1 & Hp1 & Hc1)
      by (unfold s_connect; destruct (was_connected v); simpl; split_and!; done || lia).
    set (s4 := if decide (tcp_state s3 = CloseWait) then tcp_close s3 else s3).
    assert (same_bytes s3 s4) as Hsb by (unfold s4; case_decide; [apply close_bytes | done]).
    exists n, v3, s4. rewrite Hh3, Hh2, Hh1. split_and!; try done; try congruence.
    + by eapply server_ok_bytes.
    + assert (touched s s3) as Hts by (clear -Ht2 Ht3; induction Ht3; eauto). unfold s4. case_decide; auto.
    + destruct Hsb as [_ ->]. congruence.
    + intros d a Hda. destruct (s_connect_ok _ _ _ _ Hv Hda) as (_ & He1' & _).
      destruct (s_receive_ok _ _ _ _ _ _ E2 Hv1 He1' Hw1) as (_ & He2' & _).
      destruct (s_send_ok _ _ _ _ Hv2 He2' Hw2) as (n' & v3' & s3' & E3' & _ & (sent & Hd1 & Ha1) & _).
      rewrite E3 in E3'. injection E3' as <- <- <-. exists sent. by destruct Hsb as [-> ->].
  - set (s1 := if decide (tcp_state s = Closed) then _ else s).
    assert (same_bytes s s1 /\ touched s s1) as [Hsb Ht].
    { unfold s1. case_decide; [|by split]. destruct (tcp_listen _ s) eqn:El; [|by split]. split; [by eapply listen_bytes | eauto]. }
    assert (s_handle (s_disconnect v) = s_handle v /\ port (s_disconnect v) = port v /\ pending_tx (s_disconnect v) = [] /\
      was_connected (s_disconnect v) = false /\ s_stats (s_disconnect v) = s_stats v) as (Hh & Hp & Hpe & Hw & Hst)
      by (unfold s_disconnect; destruct (was_connected v) eqn:E; [done | by rewrite (so_idle _ _ Hv E)]).
    exists 0%nat, (s_disconnect v), s1. split; [cbn; by rewrite Hh|]. split_and!; try done; [|rewrite Hst; simpl; lia]. apply (server_ok_bytes _ _ _ Hsb).
    unfold s_disconnect. destruct (was_connected v) eqn:E; [|done]. destruct Hv as [(d0 & a0 & (sent & Hd1 & Ha1) & Hs) Hr Hsn Hi].
    split; simpl; try done. exists (tcp_delivered s), (tcp_accepted s). split; [exists []; by rewrite !app_nil_r|].
    rewrite Hd1, Ha1. apply sublist_app; [done|]. by apply sublist_inserts_r.
Qed.

Lemma poll_net_get ts n h s : set_get (n_set n) h = Some (inl s) ->
  exists s', set_get (n_set (poll_net ts n)) h = Some (inl s') /\ same_bytes s s'.
Proof.
  intros Hg. unfold poll_net. destruct (iface_poll _ _ _ _) as [[i ss] d] eqn:E. simpl. by eapply poll_bytes.
Qed.

Lemma server_loop_ok times v n s : set_get (n_set n) (s_handle v) = Some (inl s) -> server_ok v s ->
  exists v' n' s', server_loop times v n = Ret (v', n') /\ set_get (n_set n') (s_handle v') = Some (inl s') /\ server_ok v' s'.
Proof.
  revert v n s. induction times as [|ts times IH]; intros v n s Hg Hv; cbn [server_loop]; [by exists v, n, s|].
  destruct (poll_net_get ts n _ _ Hg) as (s1 & Hg1 & Hsb). pose proof (server_ok_bytes _ _ _ Hsb Hv) as Hv1.
  unfold state, is_connected. rewrite (get_tcp_ret _ _ _ Hg1). cbn.
  destruct (server_process_run v _ _ Hg1 Hv1) as (k & v2 & s2 & -> & Hh & _ & Hv2 & _). cbn.
  eapply IH; [|done]. simpl. rewrite Hh. by eapply get_put.
Qed.


(** ** The client *)

(** The client's invariant on its socket: it has handed over the first
    [send_offset] bytes of its data, holds all it was handed, and its totals
    count both. *)
Record client_ok (c : EchoClient) (s : tcp_sock) : Prop := {
  co_sent : tcp_accepted s = take (send_offset c) (data_to_send c);
  co_offset : (send_offset c <= length (data_to_send c))%nat;
  co_received : tcp_delivered s = received_data c;
  co_expected : expected_len c = length (data_to_send c);
  co_total_sent : c_bytes_sent (c_stats c) = send_offset c;
  co_total_received : c_bytes_received (c_stats c) = length (received_data c);
  co_complete : c_state c = Complete -> (expected_len c <= length (received_data c))%nat
}.

Lemma client_ok_bytes c s s' : same_bytes s s' -> client_ok c s -> client_ok c s'.
Proof. intros [Ed Ea] [? ? ? ? ? ? ?]. split; rewrite ?Ed, ?Ea; done. Qed.

Lemma set_state_ok c s st : client_ok c s -> (st = Complete -> (expected_len c <= length (received_data c))%nat) ->
  client_ok (set_state c st) s.
Proof. intros [? ? ? ? ? ? ?] ?. by split. Qed.

(** Queueing data before completion keeps the invariant. *)
Lemma client_send_ok data c s : client_ok c s -> c_state c <> Complete -> client_ok (client_send data c) s.
Proof.
  intros [Hs Ho Hr He Hts Htr Hc] Hn. split; simpl; try done; rewrite ?length_app; try lia.
  by rewrite take_app_le by done.
Qed.

(** What a step of the client keeps. *)
Definition client_step (c : EchoClient) (s : tcp_sock) (c' : EchoClient) (s' : tcp_sock) : Prop :=
  client_ok c' s' /\ touched s s' /\ c_handle c' = c_handle c /\ data_to_send c' = data_to_send c.

Lemma c_transmit_ok c s : client_ok c s -> c_state c <> Complete ->
  exists c' s', c_transmit c s = Ret (c', s') /\ client_step c s c' s' /\ c_state c' = c_state c.
Proof.
  intros Hc Hn. pose proof (co_offset _ _ Hc) as Hoff. unfold c_transmit.
  destruct (Nat.ltb_spec (send_offset c) (length (data_to_send c))) as [Hlt|Hge]; simpl; [|by exists c, s].
  destruct (tcp_can_send s); simpl; [|by exists c, s].
  unfold slice. rewrite (proj2 (Nat.leb_le _ _)), (proj2 (Nat.leb_le _ _)) by lia. simpl.
  rewrite take_ge by (rewrite ?length_drop; lia).
  destruct (tcp_send_slice _ s) as [[k|e] s1] eqn:Es; simpl; [|apply send_slice_err in Es as ->; by exists c, s].
  destruct (send_slice_spec _ _ _ _ Es) as [Hk Ha]. rewrite length_drop in Hk. pose proof (send_delivered _ _ _ _ Es) as Hd.
  eexists _, s1. split; [done|]. split; [|done].
  split_and!; try done; [|change s1 with (Ok (E := SendError) k, s1).2; rewrite <- Es; auto].
  destruct Hc as [Hs Ho Hr He Hts Htr Hcm]. split; simpl; try done; try lia; [|congruence].
  rewrite Ha, Hs, take_take_drop. done.
Qed.

Lemma c_collect_ok c s : client_ok c s ->
  exists c' s', c_collect c s = (c', s') /\ client_step c s c' s' /\ c_state c' = c_state c.
Proof.
  intros Hc. unfold c_collect. destruct (tcp_can_recv s); [|by exists c, s].
  destruct (tcp_recv take_all s) as [[data|e] s1] eqn:Er; [|apply recv_err in Er as ->; by exists c, s].
  assert (touched s s1) as Ht by (change s1 with (Ok (E := RecvError) data, s1).2; rewrite <- Er; auto).
  destruct (take_all_recv _ _ _ Er) as [Ed Ea]. destruct (Nat.eqb_spec (length data) 0) as [Hz|Hz].
  - apply length_zero_iff_nil in Hz as ->. rewrite app_nil_r in Ed. exists c, s1. split_and!; try done. split_and!; try done.
    by eapply client_ok_bytes.
  - eexists _, s1. split; [done|]. split; [|done]. split_and!; try done.
    destruct Hc as [Hs Ho Hr He Hts Htr Hcm]. split; simpl; rewrite ?Ed, ?Ea, ?length_app; try done.
    + by rewrite Hr.
    + lia.
    + intros ?%Hcm. lia.
Qed.

Lemma client_step_state c s c' s' st : client_step c s c' s' -> (st = Complete -> (expected_len c' <= length (received_data c'))%nat) ->
  client_step c s (set_state c' st) s'.
Proof. intros (Hc & Ht & Hh & Hd) ?. split_and!; try done. by apply set_state_ok. Qed.

(** The transitions of the client's state: forwards only, [Complete] for good,
    and [Closed] from any other state. *)
Definition client_edge (a b : EchoClientState) : bool :=
  match a, b with
  | Connecting, (Connecting | Connected | CClosed) => true
  | Connected, (Connected | WaitingForEcho | CClosed) => true
  | WaitingForEcho, (WaitingForEcho | Complete | CClosed) => true
  | Complete, Complete => true
  | CClosed, CClosed => true
  | _, _ => false
  end.

Lemma c_arm_ok c s : client_ok c s -> exists c' s', c_arm c s = Ret (c', s') /\ client_step c s c' s' /\
  client_edge (c_state c) (c_state c') = true.
Proof.
  intros Hc. assert (client_step c s c s) as Hs by done. unfold c_arm. destruct (c_state c) eqn:Est.
  - destruct (tcp_is_active s); eexists _, s; (split; [done|]).
    + split; [by apply client_step_state|done].
    + split; [done|by rewrite Est].
  - destruct (c_transmit_ok c s Hc) as (c1 & s1 & -> & Hst & E1); [congruence|]. cbn. eexists _, s1. split; [done|].
    unfold c_all_sent. destruct (_ && _); [|split; [done|by rewrite E1, Est]]. split; [by apply client_step_state|done].
  - destruct (c_collect_ok c s Hc) as (c1 & s1 & -> & Hst & E1). eexists _, s1. split; [done|].
    unfold c_all_received. destruct (Nat.leb_spec (expected_len c1) (length (received_data c1))); [|split; [done|by rewrite E1, Est]].
    split; [by apply client_step_state|done].
  - exists c, s. by rewrite Est.
  - exists c, s. by rewrite Est.
Qed.

(** One call of the client's [process]. *)
Lemma client_process_run c ss s : set_get ss (c_handle c) = Some (inl s) -> client_ok c s ->
  exists b c' s', client_process c ss = Ret (b, c', set_put (c_handle c) (inl s') ss) /\ client_step c s c' s' /\
    client_edge (c_state c) (c_state c') = true /\ b = negb (bool_decide (c_state c' = c_state c)).
Proof.
  intros Hg Hc. unfold client_process. rewrite (get_tcp_ret _ _ _ Hg). cbn.
  destruct (c_arm_ok c s Hc) as (c1 & s1 & -> & Hst & He). cbn. eexists _, (c_gone c1 s1), s1.
  assert (client_step c s (c_gone c1 s1) s1 /\ client_edge (c_state c) (c_state (c_gone c1 s1)) = true) as [Hst' He'].
  { unfold c_gone. destruct (negb (tcp_is_open s1)), (is_complete c1) eqn:Ecm; simpl; try done. split; [by apply client_step_state|].
    unfold is_complete in Ecm. by destruct (c_state c), (c_state c1). }
  split_and!; try done. destruct Hst' as (_ & _ & -> & _). done.
Qed.

(** [verify_echo] never slices out of range. *)
Lemma verify_echo_run c s : client_ok c s ->
  verify_echo c = Ret (bool_decide (data_to_send c `prefix_of` received_data c)).
Proof.
  intros Hc. pose proof (co_expected _ _ Hc) as He. unfold verify_echo.
  destruct (Nat.ltb_spec (length (received_data c)) (expected_len c)) as [Hlt|Hge].
  - rewrite bool_decide_eq_false_2; [done|]. intros Hp%prefix_length. lia.
  - unfold slice. rewrite He in *. simpl. rewrite !(proj2 (Nat.leb_le _ _)) by lia. simpl. rewrite !drop_0, ?Nat.sub_0_r, (take_ge (data_to_send c)) by lia.
    f_equal. apply bool_decide_ext. split.
    + intros <-. apply prefix_take.
    + intros [k ->]. by rewrite take_app_length.
Qed.

(** ** Server and client together *)

(** What the server promises as long as it has counted at most one connection. *)
Definition first_connection (v : EchoServer) (s : tcp_sock) : Prop :=
  (connections (s_stats v) <= 1)%nat ->
  tcp_accepted s `prefix_of` tcp_delivered s /\
  (was_connected v = true -> echoing [] [] v s) /\
  (connections (s_stats v) = 0%nat -> was_connected v = false /\ tcp_delivered s = [] /\ tcp_accepted s = []).

Lemma first_connection_bytes v s s' : same_bytes s s' -> first_connection v s -> first_connection v s'.
Proof. intros [Ed Ea] Hf Hc. unfold echoing in *. rewrite Ed, Ea. by apply Hf. Qed.

Lemma echoing_prefix v s : echoing [] [] v s -> tcp_accepted s `prefix_of` tcp_delivered s.
Proof. intros (sent & -> & ->). simpl. by exists (pending_tx v). Qed.

Lemma first_connection_step v s v' s' : first_connection v s -> server_ok v s ->
  was_connected v' = tcp_is_active s ->
  connections (s_stats v') = (connections (s_stats v) + if tcp_is_active s && negb (was_connected v) then 1 else 0)%nat ->
  (if tcp_is_active s then forall d0 a0, echoing d0 a0 v s -> echoing d0 a0 v' s' else same_bytes s s') ->
  first_connection v' s'.
Proof.
  intros Hf Hv Hw Hc Hstep Hle. destruct (tcp_is_active s) eqn:Ea; simpl in Hc.
  - assert (echoing [] [] v s) as He.
    { destruct (was_connected v) eqn:Ew; simpl in Hc; [apply Hf; [lia|done]|].
      destruct Hf as (_ & _ & Hz); [lia|]. destruct Hz as (_ & Hd & Hacc); [lia|].
      exists []. simpl. by rewrite (so_idle _ _ Hv Ew), Hd, Hacc. }
    apply Hstep in He. split_and!; [by eapply echoing_prefix|done|]. intros Hz. exfalso.
    destruct (was_connected v) eqn:Ew; simpl in Hc; [|lia]. destruct Hf as (_ & _ & Hf0); [lia|]. destruct Hf0 as (Hf0 & _); [lia|congruence].
  - destruct Hf as (Hp & _ & Hz); [lia|]. destruct Hstep as [-> ->]. split_and!; [done|congruence|]. intros E. split; [done|]. apply Hz. lia.
Qed.

(** [R ss d a b]: the sockets [a] and [b] are the two ends of one reliable byte
    stream, with the segments in flight in [d].  What TCP promises of them: at
    any time either end has been handed a prefix of what the other accepted,
    whatever the ends do with their sockets. *)
Class ReliablePair (R : SocketSet -> Dev -> SocketHandle -> SocketHandle -> Prop) : Prop := {
  pair_poll : forall ts i ss d i' ss' d' a b, R ss d a b -> iface_poll ts i ss d = (i', ss', d') -> R ss' d' a b;
  pair_touched : forall ss d a b h s s', R ss d a b -> h = a \/ h = b -> set_get ss h = Some (inl s) -> touched s s' ->
    R (set_put h (inl s') ss) d a b;
  pair_prefix : forall ss d a b sa sb, R ss d a b -> set_get ss a = Some (inl sa) -> set_get ss b = Some (inl sb) ->
    tcp_delivered sa `prefix_of` tcp_accepted sb /\ tcp_delivered sb `prefix_of` tcp_accepted sa
}.

Section Pair.
Context (R : SocketSet -> Dev -> SocketHandle -> SocketHandle -> Prop) {HR : ReliablePair R}.

(** The invariant of the loops. *)
Record pair_ok (v : EchoServer) (c : EchoClient) (n : Net) : Prop := {
  po_pair : R (n_set n) (n_dev n) (s_handle v) (c_handle c);
  po_distinct : s_handle v <> c_handle c;
  po_server : exists s, set_get (n_set n) (s_handle v) = Some (inl s) /\ server_ok v s /\ first_connection v s;
  po_client : exists s, set_get (n_set n) (c_handle c) = Some (inl s) /\ client_ok c s
}.

Lemma pair_ok_poll ts v c n : pair_ok v c n -> pair_ok v c (poll_net ts n).
Proof.
  intros [HP Hne (sv & Hgv & Hv & Hf) (sc & Hgc & Hc)].
  destruct (poll_net_get ts n _ _ Hgv) as (sv' & Hgv' & Hsv). destruct (poll_net_get ts n _ _ Hgc) as (sc' & Hgc' & Hsc).
  split; [|done|exists sv'; split_and!; [done|by eapply server_ok_bytes|by eapply first_connection_bytes] |
    exists sc'; split; [done|by eapply client_ok_bytes]].
  unfold poll_net. destruct (iface_poll _ _ _ _) as [[i ss] d] eqn:E. simpl. by eapply pair_poll.
Qed.

Lemma put_other ss h h' x y : set_get ss h = Some y -> h' <> h -> set_get (set_put h x ss) h' = set_get ss h'.
Proof. intros Hg Hn. rewrite set_put_spec by eauto. by rewrite decide_False. Qed.

(** A turn keeps the invariant, the queued data and the client's direction. *)
Lemma turn_ok ts v c n : pair_ok v c n ->
  exists v' c' n', turn ts v c n = Ret (v', c', n') /\ pair_ok v' c' n' /\ data_to_send c' = data_to_send c /\
    client_edge (c_state c) (c_state c') = true.
Proof.
  intros Hok. unfold turn. pose proof (pair_ok_poll ts _ _ _ Hok) as [HP Hne (sv & Hgv & Hv & Hf) (sc & Hgc & Hc)].
  set (n1 := poll_net ts n) in *.
  destruct (server_process_run v _ _ Hgv Hv) as (k & v' & sv' & -> & Hhv & _ & Hv' & Htv & Hw' & Hcn & Hrest). cbn.
  assert (first_connection v' sv') as Hf' by (eapply first_connection_step; try done; destruct (tcp_is_active sv); destruct_and!; done).
  assert (set_get (set_put (s_handle v) (inl sv') (n_set n1)) (c_handle c) = Some (inl sc)) as Hgc1 by (by erewrite put_other).
  destruct (client_process_run c _ _ Hgc1 Hc) as (b & c' & sc' & -> & (Hc' & Htc & Hhc & Hd) & He & _). cbn.
  eexists _, _, _. split; [done|]. split; [|done]. split; simpl; rewrite ?Hhv, ?Hhc; try done.
  - eapply pair_touched; [eapply pair_touched; eauto | eauto..].
  - exists sv'. split; [|done]. erewrite put_other by done. by eapply get_put.
  - exists sc'. split; [|done]. by eapply get_put.
Qed.

Lemma echo_loop_ok times v c n : pair_ok v c n ->
  exists v' c' n', echo_loop times v c n = Ret (v', c', n') /\ pair_ok v' c' n' /\ data_to_send c' = data_to_send c.
Proof.
  revert v c n. induction times as [|ts times IH]; intros v c n Hok; cbn [echo_loop]; [by exists v, c, n|].
  destruct (turn_ok ts _ _ _ Hok) as (v1 & c1 & n1 & -> & Hok1 & Hd1 & _). cbn.
  destruct (_ || _); [by exists v1, c1, n1|]. destruct (IH _ _ _ Hok1) as (v2 & c2 & n2 & -> & Hok2 & Hd2). exists v2, c2, n2. split_and!; try done. congruence.
Qed.

(** What the client holds is a prefix of what it queued. *)
Lemma pair_received v c n : pair_ok v c n -> (connections (s_stats v) <= 1)%nat -> received_data c `prefix_of` data_to_send c.
Proof.
  intros [HP Hne (sv & Hgv & Hv & Hf) (sc & Hgc & Hc)] Hle. destruct (pair_prefix _ _ _ _ _ _ HP Hgv Hgc) as [H2 H3].
  destruct (Hf Hle) as (H4 & _). rewrite <- (co_received _ _ Hc). rewrite H3, H4, H2, (co_sent _ _ Hc). apply prefix_take.
Qed.

(** The echo test: over a reliable stream between the two sockets, whatever the
    data, the buffer sizes and the schedule of the network, [run_echo_test] does
    not panic, reports the bytes the client handed over and was handed, and,
    unless the server was reconnected, whatever the client received is a prefix
    of what it queued, and a client that ends [Complete] is reported verified. *)
Theorem run_echo_test_verifies times v c n (Hok : pair_ok v c n) :
  exists res v' c' n', run_echo_test times v c n = Ret (res, v', c', n') /\ data_to_send c' = data_to_send c /\
    r_bytes_sent res = send_offset c' /\ r_bytes_received res = length (received_data c') /\
    ((connections (s_stats v') <= 1)%nat ->
       received_data c' `prefix_of` data_to_send c' /\ (c_state c' = Complete -> echo_verified res = true)).
Proof.
  unfold run_echo_test. destruct (echo_loop_ok times v c n Hok) as (v' & c' & n' & -> & Hok' & Hd). cbn.
  destruct (po_client _ _ _ Hok') as (sc & Hg & Hc). rewrite (verify_echo_run _ _ Hc). cbn.
  eexists _, v', c', n'. split; [done|]. simpl. split_and!; try done; [apply Hc..|].
  intros Hle. pose proof (pair_received _ _ _ Hok' Hle) as Hp. split; [done|]. intros Hcm%(co_complete _ _ Hc).
  rewrite (co_expected _ _ Hc) in Hcm. apply bool_decide_eq_true. by rewrite (prefix_length_eq _ _ Hp Hcm).
Qed.

End Pair.

End Proofs.

(** ** A network of two sockets

    The sockets of [RefStack] at handles 0 and 1, joined by a wire without
    delay: polling completes the handshake and moves the accepted bytes across. *)
Module RefNet.
Import Smoltcp.RefStack.

#[local] Existing Instance Mbuf.ref_pktmbuf.
#[local] Existing Instance Queue.ref_mempool.
#[local] Existing Instance Queue.ref_burst.
#[local] Existing Instance Device.ref_hm_iter.

Definition opened (s peer : rtcp) : TcpState :=
  match rt_state s, rt_state peer with
  | Listen, SynSent | SynSent, Listen => Established
  | Established, FinWait1 => CloseWait
  | st, _ => st
  end.

(** What has arrived and was not yet handed out. *)
Definition arrive (s peer : rtcp) : rtcp :=
  mk_rtcp (opened s peer) (rt_cap s) (rt_accepted s) (drop (length (rt_delivered s)) (rt_accepted peer)) (rt_delivered s) (rt_rw s) (rt_sw s).

Definition wire (ss : SocketSet) : SocketSet :=
  match ss with
  | Some (inl a) :: Some (inl b) :: rest => Some (inl (arrive a b)) :: Some (inl (arrive b a)) :: rest
  | _ => ss
  end.

Definition recv {A} (f : list byte -> nat * A) (s : rtcp) : Result A RecvError * rtcp :=
  let '(n, a) := f (rt_rx s) in
  (Ok a, mk_rtcp (rt_state s) (rt_cap s) (rt_accepted s) (drop n (rt_rx s)) (rt_delivered s ++ take n (rt_rx s)) (rt_rw s) (rt_sw s)).

#[export] Instance ref_more : SmoltcpMore unit := {|
  tcp_is_open s := bool_decide (tcp_state s <> Closed);
  tcp_can_recv s := negb (bool_decide (rt_rx s = []));
  tcp_can_send s := match rt_state s with Established | CloseWait => true | _ => false end;
  tcp_recv A f s := recv f s;
  iface_poll _ i ss d := (i, wire ss, d)
|}.

#[export] Instance ref_more_laws : SmoltcpMoreLaws.
Proof.
  split; simpl.
  - intros A f s a s'. unfold recv. destruct (f (rt_rx s)) as [n a'] eqn:E. intros [= <- <-]. exists (rt_rx s). by rewrite E.
  - intros A f s e s'. unfold recv. by destruct (f (rt_rx s)).
  - intros data s x s'. unfold send_slice. by destruct (rt_state s); intros [= <- <-].
  - done.
  - intros p s s' E. by repeat case_match; simplify_eq/=.
  - intros ts i ss d i' ss' d' h s [= <- <- <-] Hg. destruct ss as [|[[a|]|] [|[[b|]|] rest]]; try by exists s.
    destruct h as [|[|h]]; simplify_eq/=; by eexists.
Qed.

(** The two ends: what each holds follows on what it handed out, and comes
    from the other. *)
Definition half (s peer : rtcp) : Prop := rt_delivered s ++ rt_rx s `prefix_of` rt_accepted peer.
Definition joined (ss : SocketSet) (_ : unit) (a b : SocketHandle) : Prop :=
  a = 0%nat /\ b = 1%nat /\ exists sa sb rest, ss = Some (inl sa) :: Some (inl sb) :: rest /\ half sa sb /\ half sb sa.

Lemma half_touched s s' peer : touched s s' -> half s peer /\ half peer s -> half s' peer /\ half peer s'.
Proof.
  intros Ht. induction Ht as [|s s' _ IH|s s' data _ IH|s s' _ IH|s s' p s'' _ IH E]; [done|..]; intros Hh; specialize (IH Hh); clear Hh.
  - simpl. unfold recv. destruct (take_all _) as [n a]. simpl. unfold half in *. simpl. by rewrite <- app_assoc, take_drop.
  - simpl. unfold send_slice. destruct (rt_state s'); try done; unfold half in *; simpl; (split; [apply IH|]);
      apply prefix_app_r; apply IH.
  - done.
  - simpl in E. repeat case_match; by simplify_eq/=.
Qed.

Lemma half_arrive s peer : half s peer -> half (arrive s peer) (arrive peer s).
Proof. unfold half. simpl. intros [k ->]. rewrite <- app_assoc, drop_app_length. done. Qed.

#[export] Instance joined_pair : ReliablePair joined.
Proof.
  split.
  - intros ts i ss d i' ss' d' a b (-> & -> & sa & sb & rest & -> & Ha & Hb) [= <- <- <-]. split_and!; [done..|].
    exists (arrive sa sb), (arrive sb sa), rest. split_and!; [done|by apply half_arrive..].
  - intros ss d a b h s s' (-> & -> & sa & sb & rest & -> & Ha & Hb) Hh Hg Ht. split_and!; [done..|].
    destruct Hh as [-> | ->]; simplify_eq/=.
    + exists s', sb, rest. split; [done|]. by apply (half_touched s).
    + exists sa, s', rest. split; [done|]. destruct (half_touched s s' sa Ht (conj Hb Ha)). done.
  - intros ss d a b sa sb (-> & -> & sa' & sb' & rest & -> & Ha & Hb) [= ->] [= ->].
    by split; etrans; [by apply prefix_app_r | done | by apply prefix_app_r | done].
Qed.

(** A server at handle 0 with a small buffer and a client with ten bytes at
    handle 1. *)
Definition start : EchoServer * EchoClient * Net :=
  let s := mk_rtcp Listen 16 [] [] [] None None in
  let c := client_send (bs "hello echo") (mk_client 1%nat Connecting [] 0 [] 0 (mk_cstats 0 0)) in
  (mk_server 0%nat 7 [] (mk_sstats 0 0 0) false, c,
   mk_net ([] : Interface) ([Some (inl s); Some (inl (mk_rtcp SynSent 16 [] [] [] None None))] : SocketSet) tt).

Lemma start_pair_ok : pair_ok joined start.1.1 start.1.2 start.2.
Proof.
  split; simpl.
  - split_and!; [done..|]. eexists _, _, _. split; [done|]. split; by exists [].
  - done.
  - eexists. split_and!; [done|..].
    + split; simpl; try done. exists [], []. by split; [exists []|].
    + intros _. simpl. by split_and!.
  - eexists. split; [done|]. split; simpl; done || (vm_compute; lia) || (intros ?; discriminate).
Qed.


Lemma run_echo_test_verifies_witness :
  match run_echo_test [1; 2; 3; 4; 5]%Z start.1.1 start.1.2 start.2 with
  | Ret (res, v', c', _) => echo_verified res && is_complete c' && (connections (s_stats v') =? 1)%nat
  | _ => false
  end = true /\
  exists res v' c' n', run_echo_test [1; 2; 3; 4; 5]%Z start.1.1 start.1.2 start.2 = Ret (res, v', c', n') /\
    data_to_send c' = data_to_send start.1.2 /\
    r_bytes_sent res = send_offset c' /\ r_bytes_received res = length (received_data c') /\
    ((connections (s_stats v') <= 1)%nat ->
       received_data c' `prefix_of` data_to_send c' /\ (c_state c' = Complete -> echo_verified res = true)).
Proof.
  split; [vm_compute; reflexivity|].
  exact (run_echo_test_verifies joined [1; 2; 3; 4; 5]%Z start.1.1 start.1.2 start.2 start_pair_ok).
Defined.

(** A client that sends and closes at once: the server finds its socket in
    [CloseWait], sends what its four-byte transmit buffer takes and closes,
    so the other six bytes it holds are never echoed. *)
Theorem close_wait_strands_pending :
  match server_loop [1; 2; 3; 4]%Z (mk_server 0%nat 7 [] (mk_sstats 0 0 0) false)
          (mk_net ([] : Interface) [Some (inl (mk_rtcp CloseWait 4 [] (bs "hello echo") [] None None))] tt) with
  | Ret (v, n) =>
      match set_get (n_set n) 0%nat with
      | Some (inl s) => bool_decide (tcp_accepted s = bs "hell" /\ pending_tx v = bs "o echo" /\ tcp_state s = LastAck) && negb (tcp_can_send s)
      | _ => false
      end
  | _ => false
  end = true.
Proof. vm_compute. reflexivity. Qed.

End RefNet.

End ManualEcho.
