(* ===== verification/UdpTest.v ===== *)
(** * Raw UDP sockets over the queues
      ([dpdk-net-test/src/udp.rs], [send::udp_gen] of [dpdk-net-test/src/lib.rs])

    A UDP socket that builds and parses frames itself, on the mbufs and queues
    of [Mbuf], [Pktmbuf] and [Queue].  The frame views of [smoltcp::wire] are
    the interface [Wire]: setters and getters over a byte slice, with the
    layouts of Ethernet II, RFC 791 and RFC 768 as [WireLaws]. *)

From stdpp Require Import base gmap list.
From Stdlib Require Import ZArith Strings.Byte Lia.
From S2P Require Import Prelude Mbuf Pktmbuf Queue ArpCache.

Local Open Scope Z_scope.

(** A byte from the low eight bits of a number, and big-endian 16-bit words. *)
Definition b8 (z : Z) : byte := default x00 (Byte.of_N (Z.to_N (z mod 256))).
Definition bZ (b : byte) : Z := Z.of_N (Byte.to_N b).
Definition be16 (z : Z) : list byte := [b8 (z / 256); b8 z].
Definition word (hi lo : byte) : Z := bZ hi * 256 + bZ lo.

(** The views of [smoltcp::wire] over a slice; a setter yields the new contents
    of the slice, [payload_at] the range that [payload] and [payload_mut] give. *)
Class Wire := {
  eth_check : list byte -> bool;
  eth_set_dst : MacAddress -> list byte -> Exec (list byte);
  eth_set_src : MacAddress -> list byte -> Exec (list byte);
  eth_set_type : Z -> list byte -> Exec (list byte);
  eth_type : list byte -> Exec Z;
  eth_payload_at : list byte -> Exec (nat * nat);
  ip_check : list byte -> bool;
  ip_set_version : Z -> list byte -> Exec (list byte);
  ip_set_header_len : Z -> list byte -> Exec (list byte);
  ip_set_dscp : Z -> list byte -> Exec (list byte);
  ip_set_ecn : Z -> list byte -> Exec (list byte);
  ip_set_total_len : Z -> list byte -> Exec (list byte);
  ip_set_ident : Z -> list byte -> Exec (list byte);
  ip_clear_flags : list byte -> Exec (list byte);
  ip_set_frag_offset : Z -> list byte -> Exec (list byte);
  ip_set_hop_limit : Z -> list byte -> Exec (list byte);
  ip_set_next_header : Z -> list byte -> Exec (list byte);
  ip_set_src : Ipv4Addr -> list byte -> Exec (list byte);
  ip_set_dst : Ipv4Addr -> list byte -> Exec (list byte);
  ip_set_checksum : Z -> list byte -> Exec (list byte);
  ip_fill_checksum : list byte -> Exec (list byte);
  ip_next_header : list byte -> Exec Z;
  ip_src : list byte -> Exec Ipv4Addr;
  ip_payload_at : list byte -> Exec (nat * nat);
  udp_check : list byte -> bool;
  udp_set_src_port : Z -> list byte -> Exec (list byte);
  udp_set_dst_port : Z -> list byte -> Exec (list byte);
  udp_set_len : Z -> list byte -> Exec (list byte);
  udp_set_checksum : Z -> list byte -> Exec (list byte);
  udp_src_port : list byte -> Exec Z;
  udp_dst_port : list byte -> Exec Z;
  udp_payload_at : list byte -> Exec (nat * nat)
}.

(** [EthernetProtocol::Ipv4] and [IpProtocol::Udp] *)
Definition ETH_IPV4 : Z := 2048.
Definition IP_UDP : Z := 17.

(** The fields of a header that the payload range depends on. *)
Definition ip_hlen (b : list byte) : nat := Z.to_nat (4 * Z.land (bZ (b !!! 0%nat)) 15).
Definition ip_tlen (b : list byte) : nat := Z.to_nat (word (b !!! 2%nat) (b !!! 3%nat)).
Definition udp_len (b : list byte) : nat := Z.to_nat (word (b !!! 4%nat) (b !!! 5%nat)).

(** The documented layout.  [set_header_len] takes octets, as [header_len]
    gives them: the field holds a quarter of it. *)
Class WireLaws `{Wire} : Prop := {
  eth_check_len : forall b, eth_check b = true -> (14 <= length b)%nat;
  eth_check_ok : forall b, (14 <= length b)%nat -> eth_check b = true;
  eth_set_dst_at : forall m b, (14 <= length b)%nat -> eth_set_dst m b = Ret (list_inserts 0 (ArpCache.mac_bytes m) b);
  eth_set_src_at : forall m b, (14 <= length b)%nat -> eth_set_src m b = Ret (list_inserts 6 (ArpCache.mac_bytes m) b);
  eth_set_type_at : forall t b, (14 <= length b)%nat -> eth_set_type t b = Ret (list_inserts 12 (be16 t) b);
  eth_type_at : forall b, (14 <= length b)%nat -> eth_type b = Ret (word (b !!! 12%nat) (b !!! 13%nat));
  eth_payload_at_14 : forall b, (14 <= length b)%nat -> eth_payload_at b = Ret (14%nat, length b);
  ip_check_len : forall b, ip_check b = true -> (20 <= length b)%nat /\ (ip_hlen b <= ip_tlen b <= length b)%nat;
  ip_check_ok : forall b, (20 <= length b)%nat -> (20 <= ip_hlen b <= ip_tlen b)%nat -> (ip_tlen b <= length b)%nat -> ip_check b = true;
  ip_set_version_at : forall v b, (20 <= length b)%nat ->
    ip_set_version v b = Ret (alter (fun x => b8 (Z.lor (Z.land (bZ x) 15) (Z.shiftl v 4))) 0%nat b);
  ip_set_header_len_at : forall v b, (20 <= length b)%nat ->
    ip_set_header_len v b = Ret (alter (fun x => b8 (Z.lor (Z.land (bZ x) 240) (Z.land (v / 4) 15))) 0%nat b);
  ip_set_dscp_at : forall v b, (20 <= length b)%nat ->
    ip_set_dscp v b = Ret (alter (fun x => b8 (Z.lor (Z.land (bZ x) 3) (Z.shiftl v 2))) 1%nat b);
  ip_set_ecn_at : forall v b, (20 <= length b)%nat ->
    ip_set_ecn v b = Ret (alter (fun x => b8 (Z.lor (Z.land (bZ x) 252) (Z.land v 3))) 1%nat b);
  ip_set_total_len_at : forall v b, (20 <= length b)%nat -> ip_set_total_len v b = Ret (list_inserts 2 (be16 v) b);
  ip_set_ident_at : forall v b, (20 <= length b)%nat -> ip_set_ident v b = Ret (list_inserts 4 (be16 v) b);
  ip_clear_flags_at : forall b, (20 <= length b)%nat -> ip_clear_flags b = Ret (alter (fun x => b8 (Z.land (bZ x) 31)) 6%nat b);
  ip_set_frag_offset_at : forall v b, (20 <= length b)%nat ->
    ip_set_frag_offset v b = Ret (alter (fun x => b8 (Z.lor (Z.land (bZ x) 224) (Z.land (v / 8 / 256) 31))) 6%nat (<[7%nat := b8 (v / 8)]> b));
  ip_set_hop_limit_at : forall v b, (20 <= length b)%nat -> ip_set_hop_limit v b = Ret (<[8%nat := b8 v]> b);
  ip_set_next_header_at : forall v b, (20 <= length b)%nat -> ip_set_next_header v b = Ret (<[9%nat := b8 v]> b);
  ip_set_checksum_at : forall v b, (20 <= length b)%nat -> ip_set_checksum v b = Ret (list_inserts 10 (be16 v) b);
  ip_set_src_at : forall a b, (20 <= length b)%nat -> ip_set_src a b = Ret (list_inserts 12 (ArpCache.octets a) b);
  ip_set_dst_at : forall a b, (20 <= length b)%nat -> ip_set_dst a b = Ret (list_inserts 16 (ArpCache.octets a) b);
  ip_fill_checksum_at : forall b, (20 <= length b)%nat -> (ip_hlen b <= length b)%nat ->
    exists c, ip_fill_checksum b = Ret (list_inserts 10 (be16 c) b);
  ip_next_header_at : forall b, (20 <= length b)%nat -> ip_next_header b = Ret (bZ (b !!! 9%nat));
  ip_src_at : forall b, (20 <= length b)%nat -> ip_src b = Ret (ipv4 (b !!! 12%nat) (b !!! 13%nat) (b !!! 14%nat) (b !!! 15%nat));
  ip_payload_at_len : forall b, (20 <= length b)%nat -> ip_payload_at b = Ret (ip_hlen b, ip_tlen b);
  udp_check_len : forall b, udp_check b = true -> (8 <= length b)%nat;
  udp_check_ok : forall b, (8 <= udp_len b <= length b)%nat -> udp_check b = true;
  udp_set_src_port_at : forall v b, (8 <= length b)%nat -> udp_set_src_port v b = Ret (list_inserts 0 (be16 v) b);
  udp_set_dst_port_at : forall v b, (8 <= length b)%nat -> udp_set_dst_port v b = Ret (list_inserts 2 (be16 v) b);
  udp_set_len_at : forall v b, (8 <= length b)%nat -> udp_set_len v b = Ret (list_inserts 4 (be16 v) b);
  udp_set_checksum_at : forall v b, (8 <= length b)%nat -> udp_set_checksum v b = Ret (list_inserts 6 (be16 v) b);
  udp_src_port_at : forall b, (8 <= length b)%nat -> udp_src_port b = Ret (word (b !!! 0%nat) (b !!! 1%nat));
  udp_dst_port_at : forall b, (8 <= length b)%nat -> udp_dst_port b = Ret (word (b !!! 2%nat) (b !!! 3%nat));
  udp_payload_at_8 : forall b, (8 <= length b)%nat -> udp_payload_at b = Ret (8%nat, udp_len b)
}.

Module UdpTest.
Import Queue.

Inductive SocketError := NotBound | InvalidEndpoint | BufferFull | NoPackets | QueueError.

Record Endpoint := mk_ep { ep_addr : Ipv4Addr; ep_port : Z }.
Definition is_unspecified (a : Ipv4Addr) : bool := bool_decide (a = ipv4 x00 x00 x00 x00).
Definition is_specified (e : Endpoint) : bool := negb (is_unspecified (ep_addr e)) && negb (ep_port e =? 0).

Section Model.
Context `{EthBurst} `{Wire}.

Record UdpSocket := mk_udp {
  local_endpoint : option Endpoint;
  local_mac : MacAddress;
  rxq : option RxQueue;
  txq : option TxQueue;
  mempool : option pool_ptr;
  tx_batch : list rte_mbuf;
  rx_batch : list rte_mbuf
}.

(** [ArrayVec<Mbuf, 64>] *)
Definition BATCH : nat := 64.

Definition new : UdpSocket := mk_udp None (mac6 x00 x00 x00 x00 x00 x00) None None None [] [].

Definition bind (e : Endpoint) (s : UdpSocket) : Result unit SocketError * UdpSocket :=
  if ep_port e =? 0 then (Err InvalidEndpoint, s)
  else (Ok tt, mk_udp (Some e) (local_mac s) (rxq s) (txq s) (mempool s) (tx_batch s) (rx_batch s)).

Definition set_local_mac (m : MacAddress) (s : UdpSocket) : UdpSocket :=
  mk_udp (local_endpoint s) m (rxq s) (txq s) (mempool s) (tx_batch s) (rx_batch s).

(** The pool that was attached before is dropped. *)
Definition attach_queues (r : RxQueue) (t : TxQueue) (p : pool_ptr) (s : UdpSocket) (w : rte) : Result unit SocketError * UdpSocket * rte :=
  let w := match mempool s with Some old => Pktmbuf.drop_pool old w | None => w end in
  (Ok tt, mk_udp (local_endpoint s) (local_mac s) (Some r) (Some t) (Some p) (tx_batch s) (rx_batch s), w).

Definition is_bound (s : UdpSocket) : bool := match local_endpoint s with Some _ => true | None => false end.
Definition rx_pending (s : UdpSocket) : nat := length (rx_batch s).
Definition tx_pending (s : UdpSocket) : nat := length (tx_batch s).
Definition can_send (s : UdpSocket) : bool := (length (tx_batch s) <? 64)%nat.

Definition with_tx (s : UdpSocket) (l : list rte_mbuf) : UdpSocket :=
  mk_udp (local_endpoint s) (local_mac s) (rxq s) (txq s) (mempool s) l (rx_batch s).
Definition with_rx (s : UdpSocket) (l : list rte_mbuf) : UdpSocket :=
  mk_udp (local_endpoint s) (local_mac s) (rxq s) (txq s) (mempool s) (tx_batch s) l.

(** [f(view.payload_mut())] on the slice behind a view. *)
Definition payload_mut (at_ : list byte -> Exec (nat * nat)) (f : list byte -> Exec (list byte)) (b : list byte) : Exec (list byte) :=
  '(i, j) ← at_ b;
  p ← slice b i j;
  p' ← f p;
  Ret (take i b ++ p' ++ drop j b).

Definition payload (at_ : list byte -> Exec (nat * nat)) (b : list byte) : Exec (list byte) :=
  '(i, j) ← at_ b; slice b i j.

(** [f(mbuf.data_mut())] for an [f] that may panic. *)
Definition frame_mut (f : list byte -> Exec (list byte)) (m : rte_mbuf) : Exec rte_mbuf :=
  s ← Mbuf.data m; s' ← f s; Ret (Mbuf.store m (data_off m) s').

(** The header writers of [send_to]: UDP, IPv4 around it, Ethernet around it. *)
Definition build_udp (src dst : Endpoint) (data : list byte) (b : list byte) : Exec (list byte) :=
  b ← udp_set_src_port (ep_port src) b;
  b ← udp_set_dst_port (ep_port dst) b;
  b ← udp_set_len (as_u16 (8 + zlen data)) b;
  b ← udp_set_checksum 0 b;
  payload_mut udp_payload_at (fun p => copy_into p 0 data) b.

Definition build_ip (src dst : Endpoint) (data : list byte) (b : list byte) : Exec (list byte) :=
  b ← ip_set_version 4 b;
  b ← ip_set_header_len 5 b;
  b ← ip_set_dscp 0 b;
  b ← ip_set_ecn 0 b;
  b ← ip_set_total_len (as_u16 (20 + 8 + zlen data)) b;
  b ← ip_set_ident 0 b;
  b ← ip_clear_flags b;
  b ← ip_set_frag_offset 0 b;
  b ← ip_set_hop_limit 64 b;
  b ← ip_set_next_header IP_UDP b;
  b ← ip_set_src (ep_addr src) b;
  b ← ip_set_dst (ep_addr dst) b;
  b ← ip_set_checksum 0 b;
  b ← ip_fill_checksum b;
  payload_mut ip_payload_at (build_udp src dst data) b.

Definition build_frame (src dst : Endpoint) (src_mac dst_mac : MacAddress) (data : list byte) (b : list byte) : Exec (list byte) :=
  b ← eth_set_dst dst_mac b;
  b ← eth_set_src src_mac b;
  b ← eth_set_type ETH_IPV4 b;
  payload_mut eth_payload_at (build_ip src dst data) b.

(** [send_to]; the buffer a full batch gives back is dropped. *)
Definition send_to (data : list byte) (remote : Endpoint) (remote_mac : MacAddress) (s : UdpSocket) (w : rte)
    : Exec (Result unit SocketError * UdpSocket * rte) :=
  match local_endpoint s with
  | None => Ret (Err NotBound, s, w)
  | Some local =>
      if negb (is_specified remote) then Ret (Err InvalidEndpoint, s, w) else
      match mempool s with
      | None => Ret (Err QueueError, s, w)
      | Some pool =>
          match Pktmbuf.try_alloc pool w with
          | (None, w) => Ret (Err BufferFull, s, w)
          | (Some m, w) =>
              let m := Mbuf.extend m (14 + 20 + 8 + zlen data) in
              m ← frame_mut (build_frame local remote (local_mac s) remote_mac data) m;
              match try_push BATCH (tx_batch s) m with
              | Ok l => Ret (Ok tt, with_tx s l, w)
              | Err m => Ret (Err BufferFull, s, Pktmbuf.drop_mbuf m w)
              end
          end
      end
  end.

(** The loop of [flush]; [None] when it has not ended within [fuel] turns. *)
Fixpoint flush_loop (fuel : nat) (q : TxQueue) (batch : list rte_mbuf) (sent : Z) (w : rte) : option (Exec (Z * list rte_mbuf * rte)) :=
  match batch with
  | [] => Some (Ret (sent, batch, w))
  | _ =>
      match fuel with
      | O => None
      | S fuel =>
          match Queue.tx q batch w with
          | Ret (count, batch, w) => flush_loop fuel q batch (sent + count) w
          | Panic => Some Panic
          | UB => Some UB
          end
      end
  end.

Definition flush (fuel : nat) (s : UdpSocket) (w : rte) : option (Exec (Result Z SocketError * UdpSocket * rte)) :=
  match tx_batch s with
  | [] => Some (Ret (Ok 0, s, w))
  | _ =>
      match txq s with
      | None => Some (Ret (Err QueueError, s, w))
      | Some q =>
          match flush_loop fuel q (tx_batch s) 0 w with
          | None => None
          | Some (Ret (sent, l, w)) => Some (Ret (Ok sent, with_tx s l, w))
          | Some Panic => Some Panic
          | Some UB => Some UB
          end
      end
  end.

Definition poll (s : UdpSocket) (w : rte) : Result Z SocketError * UdpSocket * rte :=
  match rxq s with
  | None => (Err QueueError, s, w)
  | Some q => let '(n, l, w) := Queue.rx BATCH q (rx_batch s) w in (Ok n, with_rx s l, w)
  end.

(** [ArrayVec::pop]: the last element. *)
Definition pop {A} (l : list A) : option (A * list A) :=
  match last l with Some x => Some (x, take (length l - 1) l) | None => None end.

(** The checks of [recv_from] on the bytes of a frame. *)
Definition parse_frame (port : Z) (frame : list byte) : Exec (Result Endpoint SocketError) :=
  if negb (eth_check frame) then Ret (Err QueueError) else
  t ← eth_type frame;
  if negb (t =? ETH_IPV4) then Ret (Err QueueError) else
  ip ← payload eth_payload_at frame;
  if negb (ip_check ip) then Ret (Err QueueError) else
  nh ← ip_next_header ip;
  if negb (nh =? IP_UDP) then Ret (Err QueueError) else
  udp ← payload ip_payload_at ip;
  if negb (udp_check udp) then Ret (Err QueueError) else
  dst ← udp_dst_port udp;
  if negb (dst =? port) then Ret (Err QueueError) else
  a ← ip_src ip;
  p ← udp_src_port udp;
  Ret (Ok (mk_ep a p)).

(** [recv_from]; an error after the [pop] drops the buffer. *)
Definition recv_from (s : UdpSocket) (w : rte) : Exec (Result (rte_mbuf * Endpoint) SocketError * UdpSocket * rte) :=
  match local_endpoint s with
  | None => Ret (Err NotBound, s, w)
  | Some local =>
      match pop (rx_batch s) with
      | None => Ret (Err NoPackets, s, w)
      | Some (m, l) =>
          let s := with_rx s l in
          frame ← Mbuf.data m;
          r ← parse_frame (ep_port local) frame;
          match r with
          | Ok e => Ret (Ok (m, e), s, w)
          | Err e => Ret (Err e, s, Pktmbuf.drop_mbuf m w)
          end
      end
  end.

(** [Drop for UdpSocket]: flush, then the fields are dropped in the order of
    their declaration, the pool before the batches. *)
Definition drop_socket (fuel : nat) (s : UdpSocket) (w : rte) : option (Exec rte) :=
  match flush fuel s w with
  | None => None
  | Some (Ret (_, s, w)) =>
      let w := match mempool s with Some p => Pktmbuf.drop_pool p w | None => w end in
      let w := fold_left (fun w m => Pktmbuf.drop_mbuf m w) (tx_batch s) w in
      Some (Ret (fold_left (fun w m => Pktmbuf.drop_mbuf m w) (rx_batch s) w))
  | Some Panic => Some Panic
  | Some UB => Some UB
  end.

(** ** [send::udp_gen]: a worker thread's loop *)

Definition gen_src_mac : MacAddress := mac6 x00 x50 x56 xae x76 xf5.
Definition gen_dst_mac : MacAddress := mac6 x00 x0b x86 x64 x8b xa0.
Definition gen_udp (b : list byte) : Exec (list byte) :=
  b ← udp_set_src_port 60376 b;
  b ← udp_set_dst_port 161 b;
  b ← udp_set_len (8 + 18) b;
  b ← udp_set_checksum 48262 b;
  Ret b.

Definition gen_ip (b : list byte) : Exec (list byte) :=
  b ← ip_set_version 4 b;
  b ← ip_set_header_len 20 b;
  b ← ip_set_dscp 0 b;
  b ← ip_set_ecn 0 b;
  b ← ip_set_total_len (28 + 18) b;
  b ← ip_set_ident 23653 b;
  b ← ip_clear_flags b;
  b ← ip_set_frag_offset 0 b;
  b ← ip_set_hop_limit 128 b;
  b ← ip_set_next_header IP_UDP b;
  b ← ip_set_src (ipv4 xc0 xa8 x1d x3a) b;
  b ← ip_set_dst (ipv4 xc0 xa8 x1d xa0) b;
  b ← ip_set_checksum 0 b;
  payload_mut ip_payload_at gen_udp b.

Definition gen_frame (b : list byte) : Exec (list byte) :=
  b ← eth_set_src gen_src_mac b;
  b ← eth_set_dst gen_dst_mac b;
  b ← eth_set_type ETH_IPV4 b;
  payload_mut eth_payload_at gen_ip b.

Definition gen_packet (m : rte_mbuf) : Exec rte_mbuf := frame_mut gen_frame (Mbuf.extend m (42 + 18)).

Fixpoint gen_packets (l : list rte_mbuf) : Exec (list rte_mbuf) :=
  match l with
  | [] => Ret []
  | m :: l => m ← gen_packet m; l ← gen_packets l; Ret (m :: l)
  end.

(** The inner loop; clearing the batch drops what is left. *)
Fixpoint gen_send (fuel : nat) (q : TxQueue) (batch : list rte_mbuf) (w : rte) : option (Exec rte) :=
  match batch with
  | [] => Some (Ret w)
  | _ =>
      match fuel with
      | O => None
      | S fuel =>
          match Queue.tx q batch w with
          | Ret (sent, batch, w) =>
              if sent =? 0 then Some (Ret (fold_left (fun w m => Pktmbuf.drop_mbuf m w) batch w)) else gen_send fuel q batch w
          | Panic => Some Panic
          | UB => Some UB
          end
      end
  end.

(** One turn of the outer loop, which starts with an empty batch. *)
Definition gen_turn (q : TxQueue) (p : pool_ptr) (w : rte) : option (Exec rte) :=
  match Pktmbuf.fill_batch BATCH p [] w with
  | None => None
  | Some (_, batch, w) =>
      match gen_packets batch with
      | Ret batch => gen_send (length batch) q batch w
      | Panic => Some Panic
      | UB => Some UB
      end
  end.

(** The worker runs a turn for each time it found the flag set. *)
Fixpoint gen_worker (turns : nat) (q : TxQueue) (p : pool_ptr) (w : rte) : option (Exec rte) :=
  match turns with
  | O => Some (Ret w)
  | S turns =>
      match gen_turn q p w with
      | Some (Ret w) => gen_worker turns q p w
      | r => r
      end
  end.

End Model.

(** ** Frames *)

Section Frames.
Context `{WireLaws}.

#[local] Arguments bZ : simpl never.
#[local] Arguments b8 : simpl never.

(** The bits a header setter keeps of the byte another one wrote. *)
Lemma version_nibble x : Z.land (bZ (b8 (Z.lor (Z.land (bZ x) 15) 64))) 240 = 64.
Proof. by destruct x. Qed.
Lemma dscp_bits x : Z.land (bZ (b8 (Z.lor (Z.land (bZ x) 3) 0))) 252 = 0.
Proof. by destruct x. Qed.
Lemma flag_bits x : Z.land (bZ (b8 (Z.land (bZ x) 31))) 224 = 0.
Proof. by destruct x. Qed.
Lemma bZ_b8 z : 0 <= z < 256 -> bZ (b8 z) = z.
Proof.
  intros Hz. unfold bZ, b8. rewrite Z.mod_small by lia. destruct (Byte.of_N (Z.to_N z)) as [b|] eqn:E; simpl.
  - apply Byte.to_of_N in E. rewrite E. lia.
  - apply Byte.of_N_None_iff in E. lia.
Qed.
Lemma bZ_bound b : 0 <= bZ b < 256.
Proof. unfold bZ. pose proof (Byte.to_N_bounded b). lia. Qed.
Lemma word_be16 z : 0 <= z < 65536 -> word (b8 (z / 256)) (b8 z) = z.
Proof.
  intros Hz. unfold word. pose proof (Z.div_mod z 256). pose proof (Z.mod_pos_bound z 256).
  rewrite bZ_b8 by lia.
  replace (b8 z) with (b8 (z mod 256)) by (unfold b8; by rewrite Z.mod_mod). rewrite bZ_b8 by (apply Z.mod_pos_bound; lia). lia.
Qed.
Lemma word_bound a b : 0 <= word a b < 65536.
Proof. unfold word. pose proof (bZ_bound a). pose proof (bZ_bound b). lia. Qed.

(** A slice of at least [n] bytes by its first [n]. *)
Lemma split_at (n : nat) (b : list byte) : (n <= length b)%nat -> exists h, length h = n /\ b = h ++ drop n b.
Proof. intros Hn. exists (take n b). split; [rewrite length_take; lia|by rewrite take_drop]. Qed.

Ltac explicit b n :=
  let h := fresh "h" in let Hh := fresh "Hh" in let E := fresh "E" in
  destruct (split_at n b ltac:(done)) as (h & Hh & E); generalize dependent (drop n b); intros t E; subst b;
  repeat (destruct h as [|? h]; [discriminate Hh|]; apply (f_equal pred) in Hh; cbn [pred length] in Hh);
  apply length_zero_iff_nil in Hh as ->.

(** The IPv4 header that the setters leave, for any earlier contents. *)
Definition ip_head (hl tl id ttl ck : Z) (src dst : Ipv4Addr) : list byte :=
  [b8 (Z.lor 64 (Z.land (hl / 4) 15)); b8 0] ++ be16 tl ++ be16 id ++ [b8 0; b8 0; b8 ttl; b8 IP_UDP] ++ be16 ck ++
  ArpCache.octets src ++ ArpCache.octets dst.

Lemma ip_fields {A} hl tl id ttl src dst (k : list byte -> Exec A) (b : list byte) : (20 <= length b)%nat ->
  (b ← ip_set_version 4 b; b ← ip_set_header_len hl b; b ← ip_set_dscp 0 b; b ← ip_set_ecn 0 b; b ← ip_set_total_len tl b;
   b ← ip_set_ident id b; b ← ip_clear_flags b; b ← ip_set_frag_offset 0 b; b ← ip_set_hop_limit ttl b;
   b ← ip_set_next_header IP_UDP b; b ← ip_set_src src b; b ← ip_set_dst dst b; b ← ip_set_checksum 0 b; k b) =
  k (ip_head hl tl id ttl 0 src dst ++ drop 20 b).
Proof.
  intros Hb. explicit b 20%nat.
  repeat (first [rewrite ip_set_version_at by done | rewrite ip_set_header_len_at by done | rewrite ip_set_dscp_at by done
    | rewrite ip_set_ecn_at by done | rewrite ip_set_total_len_at by done | rewrite ip_set_ident_at by done
    | rewrite ip_clear_flags_at by done | rewrite ip_set_frag_offset_at by done | rewrite ip_set_hop_limit_at by done
    | rewrite ip_set_next_header_at by done | rewrite ip_set_src_at by done | rewrite ip_set_dst_at by done
    | rewrite ip_set_checksum_at by done]; cbn -[Z.lor Z.land Z.div]).
  by rewrite version_nibble, dscp_bits, flag_bits.
Qed.

Definition udp_head (sp dp len ck : Z) : list byte := be16 sp ++ be16 dp ++ be16 len ++ be16 ck.

Lemma udp_fields {A} sp dp len ck (k : list byte -> Exec A) (b : list byte) : (8 <= length b)%nat ->
  (b ← udp_set_src_port sp b; b ← udp_set_dst_port dp b; b ← udp_set_len len b; b ← udp_set_checksum ck b; k b) =
  k (udp_head sp dp len ck ++ drop 8 b).
Proof.
  intros Hb. explicit b 8%nat.
  repeat (first [rewrite udp_set_src_port_at by done | rewrite udp_set_dst_port_at by done | rewrite udp_set_len_at by done
    | rewrite udp_set_checksum_at by done]; cbn -[Z.div]). done.
Qed.

Definition eth_head (src dst : MacAddress) : list byte := ArpCache.mac_bytes dst ++ ArpCache.mac_bytes src ++ [x08; x00].

Lemma eth_fields {A} src dst (k : list byte -> Exec A) (b : list byte) : (14 <= length b)%nat ->
  (b ← eth_set_dst dst b; b ← eth_set_src src b; b ← eth_set_type ETH_IPV4 b; k b) = k (eth_head src dst ++ drop 14 b) /\
  (b ← eth_set_src src b; b ← eth_set_dst dst b; b ← eth_set_type ETH_IPV4 b; k b) = k (eth_head src dst ++ drop 14 b).
Proof.
  intros Hb. split; explicit b 14%nat;
  repeat (first [rewrite eth_set_dst_at by done | rewrite eth_set_src_at by done | rewrite eth_set_type_at by done]; cbn -[Z.div]); done.
Qed.

(** [payload_mut] with a range known to lie in the slice. *)
Lemma payload_mut_run at_ f (b : list byte) i j p' : at_ b = Ret (i, j) -> (i <= j <= length b)%nat ->
  f (take (j - i) (drop i b)) = Ret p' -> payload_mut at_ f b = Ret (take i b ++ p' ++ drop j b).
Proof.
  intros Ea Hr Ef. unfold payload_mut, slice. rewrite Ea. cbn. rewrite !(proj2 (Nat.leb_le _ _)) by lia. cbn. by rewrite Ef.
Qed.

Lemma eth_payload_run f (h t t' : list byte) : length h = 14%nat -> f t = Ret t' -> payload_mut eth_payload_at f (h ++ t) = Ret (h ++ t').
Proof.
  intros Hh Hf. erewrite payload_mut_run; [|by apply eth_payload_at_14; rewrite length_app; lia|rewrite length_app; lia|].
  - rewrite drop_ge by lia. by rewrite <- Hh, take_app_length, app_nil_r.
  - rewrite <- Hh, drop_app_length, take_ge by (rewrite length_app; lia). done.
Qed.

Lemma build_udp_run src dst data (b : list byte) : (8 + length data <= length b)%nat -> 8 + zlen data < 65536 ->
  build_udp src dst data b = Ret (udp_head (ep_port src) (ep_port dst) (8 + zlen data) 0 ++ data ++ drop (8 + length data) b).
Proof.
  intros Hb Hl. unfold build_udp. rewrite udp_fields by lia. unfold as_u16. rewrite wrap_small by (unfold zlen in *; lia).
  set (h := udp_head _ _ _ _). assert (udp_len (h ++ drop 8 b) = (8 + length data)%nat) as El.
  { unfold udp_len, h, udp_head. cbn [be16 app]. cbn -[word Z.div]. unfold zlen in *. rewrite word_be16; lia. }
  erewrite payload_mut_run; [|rewrite udp_payload_at_8, El; [done|rewrite length_app; simpl; lia]|rewrite length_app, length_drop; simpl; lia|].
  - rewrite take_app_length' by done. rewrite drop_app_ge by (simpl; lia). rewrite drop_drop. simpl length.
    do 3 f_equal. f_equal. lia.
  - rewrite drop_app_length' by done. unfold copy_into.
    assert (length (take (8 + length data - 8) (drop 8 b)) = length data) as E by (rewrite length_take, length_drop; lia).
    rewrite Nat.add_0_l, E, Nat.leb_refl. f_equal. rewrite <- (app_nil_r (take _ _)), list_inserts_0_r by done. apply app_nil_r.
Qed.

(** What [build_ip] leaves: [set_header_len(5)] makes the header four bytes
    long, so the UDP header and the payload go behind the total length. *)
Lemma build_ip_run src dst data (b : list byte) : length b = (28 + length data)%nat -> 28 + zlen data < 65536 ->
  exists tail, length tail = 16%nat /\ build_ip src dst data b =
    Ret ([x41; x00] ++ be16 (28 + zlen data) ++ udp_head (ep_port src) (ep_port dst) (8 + zlen data) 0 ++ data ++ tail).
Proof.
  intros Hb Hl. unfold build_ip. rewrite ip_fields by lia. unfold as_u16. rewrite wrap_small by (unfold zlen in *; lia).
  change (20 + 8) with 28. set (t := drop 20 b). assert (length t = (8 + length data)%nat) as Ht by (unfold t; rewrite length_drop; lia).
  assert (forall ck, ip_hlen (ip_head 5 (28 + zlen data) 0 64 ck (ep_addr src) (ep_addr dst) ++ t) = 4%nat) as Eh by done.
  assert (forall ck, ip_tlen (ip_head 5 (28 + zlen data) 0 64 ck (ep_addr src) (ep_addr dst) ++ t) = (28 + length data)%nat) as Et.
  { intros ck. unfold ip_tlen. cbn -[word Z.div]. unfold zlen in *. rewrite word_be16; lia. }
  destruct (ip_fill_checksum_at (ip_head 5 (28 + zlen data) 0 64 0 (ep_addr src) (ep_addr dst) ++ t)) as [c Ec];
    [simpl; lia|rewrite Eh; simpl; lia|]. rewrite Ec. cbn [mbind exec_bind]. clear Ec.
  change (list_inserts 10 _ _) with (ip_head 5 (28 + zlen data) 0 64 c (ep_addr src) (ep_addr dst) ++ t).
  specialize (Eh c). specialize (Et c).
  set (h := ip_head _ _ _ _ _ _ _) in *. assert (length (h ++ t) = (28 + length data)%nat) as El by (rewrite length_app; simpl; lia).
  exists (drop (8 + length data) (drop 4 (h ++ t))). split; [rewrite !length_drop; lia|].
  erewrite payload_mut_run; [|rewrite ip_payload_at_len, Eh, Et by lia; done|lia|].
  - rewrite (drop_ge _ (28 + length data)), app_nil_r by lia. done.
  - rewrite take_ge by (rewrite length_drop; lia). apply build_udp_run; [rewrite length_drop; lia|lia].
Qed.

(** The frame [send_to] builds, whatever the buffer held. *)
Lemma build_frame_run src dst smac dmac data (b : list byte) : length b = (42 + length data)%nat -> 28 + zlen data < 65536 ->
  exists tail, length tail = 16%nat /\ build_frame src dst smac dmac data b =
    Ret (eth_head smac dmac ++ [x41; x00] ++ be16 (28 + zlen data) ++
         udp_head (ep_port src) (ep_port dst) (8 + zlen data) 0 ++ data ++ tail).
Proof.
  intros Hb Hl. unfold build_frame. rewrite (proj1 (eth_fields smac dmac _ b ltac:(lia))).
  destruct (build_ip_run src dst data (drop 14 b)) as (tail & Ht & Hf); [rewrite length_drop; lia|done|].
  exists tail. split; [done|]. by apply eth_payload_run.
Qed.

(** The frame a peer that follows RFC 791 and RFC 768 sends. *)
Definition rfc_frame (smac dmac : MacAddress) (src dst : Endpoint) (id ttl ck uck : Z) (data : list byte) : list byte :=
  eth_head smac dmac ++ ip_head 20 (28 + zlen data) id ttl ck (ep_addr src) (ep_addr dst) ++
  udp_head (ep_port src) (ep_port dst) (8 + zlen data) uck ++ data.

Lemma gen_frame_run (b : list byte) : length b = 60%nat ->
  gen_frame b = Ret (rfc_frame gen_src_mac gen_dst_mac (mk_ep (ipv4 xc0 xa8 x1d x3a) 60376) (mk_ep (ipv4 xc0 xa8 x1d xa0) 161)
    23653 128 0 48262 (drop 42 b)).
Proof.
  intros Hb. unfold gen_frame. rewrite (proj2 (eth_fields _ _ _ b ltac:(lia))). apply eth_payload_run; [done|].
  assert (zlen (drop 42 b) = 18) as -> by (unfold zlen; rewrite length_drop; lia).
  unfold gen_ip. rewrite ip_fields by (rewrite length_drop; lia).
  set (t := drop 20 (drop 14 b)). assert (length t = 26%nat) as Ht by (unfold t; rewrite !length_drop; lia).
  erewrite (payload_mut_run _ _ _ 20 46); [|rewrite ip_payload_at_len by (simpl; lia); reflexivity|simpl; lia|].
  2:{ apply (udp_fields _ _ _ _ Ret). rewrite length_take, length_drop, length_app, Ht. vm_compute. lia. }
  change (28 + 18) with 46. change (8 + 18) with 26. set (h := ip_head _ _ _ _ _ _ _). assert (length h = 20%nat) as Hh by done. clearbody h.
  rewrite (take_app_length' h t 20), (drop_app_length' h t 20) by done. rewrite (drop_ge (h ++ t)) by (rewrite length_app; lia).
  rewrite (take_ge t) by lia. rewrite app_nil_r. unfold t. by rewrite !drop_drop.
Qed.

Lemma eth_payload (h t : list byte) : length h = 14%nat -> payload eth_payload_at (h ++ t) = Ret t.
Proof.
  intros Hh. unfold payload. rewrite eth_payload_at_14 by (rewrite length_app; lia). cbn [mbind exec_bind]. unfold slice.
  rewrite !(proj2 (Nat.leb_le _ _)) by (rewrite ?length_app; lia). cbn [andb].
  rewrite drop_app_length' by done. by rewrite take_ge by (rewrite length_app; lia).
Qed.

Lemma ip_payload (b : list byte) : (20 <= length b)%nat -> (ip_hlen b <= ip_tlen b <= length b)%nat ->
  payload ip_payload_at b = Ret (take (ip_tlen b - ip_hlen b) (drop (ip_hlen b) b)).
Proof.
  intros Hb Hr. unfold payload. rewrite ip_payload_at_len by done. cbn [mbind exec_bind]. unfold slice.
  by rewrite !(proj2 (Nat.leb_le _ _)) by lia.
Qed.

(** What [recv_from] reads of such a frame. *)
Lemma parse_rfc port smac dmac src dst id ttl ck uck data : 28 + zlen data < 65536 -> 0 <= ep_port src < 65536 -> 0 <= ep_port dst < 65536 ->
  parse_frame port (rfc_frame smac dmac src dst id ttl ck uck data) = Ret (if ep_port dst =? port then Ok src else Err QueueError).
Proof.
  intros Hl Hs Hd. unfold parse_frame, rfc_frame. set (ip := ip_head _ _ _ _ _ _ _ ++ _).
  assert (length ip = (28 + length data)%nat) as Hip by done.
  rewrite eth_check_ok, eth_type_at by (rewrite length_app; simpl; lia). cbn [negb mbind exec_bind].
  change (word _ _ =? ETH_IPV4) with true. cbn [negb].
  rewrite eth_payload by done. cbn [mbind exec_bind].
  assert (ip_hlen ip = 20%nat) as Eh by done.
  assert (ip_tlen ip = (28 + length data)%nat) as Et.
  { unfold ip_tlen. cbn -[word Z.div]. unfold zlen in *. rewrite word_be16; lia. }
  rewrite ip_check_ok, ip_next_header_at by lia. cbn [negb mbind exec_bind].
  change (bZ _ =? IP_UDP) with true. cbn [negb].
  rewrite ip_payload, Eh, Et by lia. cbn [mbind exec_bind].
  set (u := udp_head (ep_port src) (ep_port dst) (8 + zlen data) uck ++ data) in *. assert (length u = (8 + length data)%nat) as Hu by done.
  assert (udp_len u = (8 + length data)%nat) as Eu by (unfold udp_len; cbn -[word Z.div]; unfold zlen in *; rewrite word_be16; lia).
  assert (take (28 + length data - 20) (drop 20 ip) = u) as -> by (unfold ip; rewrite drop_app_length' by done; apply take_ge; lia).
  assert (word (u !!! 2%nat) (u !!! 3%nat) = ep_port dst) as Ed by exact (word_be16 _ Hd).
  assert (word (u !!! 0%nat) (u !!! 1%nat) = ep_port src) as Es by exact (word_be16 _ Hs).
  rewrite (udp_check_ok u), udp_dst_port_at, Ed by lia. cbn [negb mbind exec_bind]. destruct (ep_port dst =? port); [|done].
  cbn [negb]. rewrite ip_src_at, udp_src_port_at, Es by lia. by destruct src as [[] ?].
Qed.

(** The same for the frame of [send_to]: the byte it reads as the protocol is
    the low byte of the UDP length. *)
Lemma parse_built port smac dmac src dst data tail (nh := (8 + zlen data) mod 256) : 28 + zlen data < 65536 -> nh <> 17 ->
  parse_frame port (eth_head smac dmac ++ [x41; x00] ++ be16 (28 + zlen data) ++
    udp_head (ep_port src) (ep_port dst) (8 + zlen data) 0 ++ data ++ tail) = Ret (Err QueueError).
Proof.
  intros Hl Hn. unfold parse_frame. set (ip := [x41; x00] ++ _).
  rewrite eth_check_ok, eth_type_at by (rewrite length_app; simpl; lia). cbn [negb mbind exec_bind].
  change (word _ _ =? ETH_IPV4) with true. cbn [negb]. rewrite eth_payload by done. cbn [mbind exec_bind].
  destruct (ip_check ip) eqn:Ec; [|done]. apply ip_check_len in Ec as [Hb _]. rewrite ip_next_header_at by done. cbn [negb mbind exec_bind].
  assert (bZ (ip !!! 9%nat) = nh) as ->; [|by rewrite (proj2 (Z.eqb_neq _ _))].
  change (ip !!! 9%nat) with (b8 (8 + zlen data)). unfold nh. replace (b8 (8 + zlen data)) with (b8 ((8 + zlen data) mod 256)) by (unfold b8; by rewrite Z.mod_mod).
  apply bZ_b8. apply Z.mod_pos_bound. lia.
Qed.

(** No frame makes [recv_from] panic. *)
Lemma parse_frame_total port frame : exists r, parse_frame port frame = Ret r.
Proof.
  unfold parse_frame. destruct (eth_check frame) eqn:Ee; cbn [negb]; [|by eexists]. apply eth_check_len in Ee.
  rewrite eth_type_at by done. cbn [mbind exec_bind]. destruct (_ =? ETH_IPV4); cbn [negb]; [|by eexists].
  destruct (split_at 14 frame Ee) as (h & Hh & E). rewrite E, eth_payload by done. cbn [mbind exec_bind]. generalize (drop 14 frame). intros ip.
  destruct (ip_check ip) eqn:Ei; cbn [negb]; [|by eexists]. apply ip_check_len in Ei as [Hb Hr].
  rewrite ip_next_header_at by done. cbn [mbind exec_bind]. destruct (_ =? IP_UDP); cbn [negb]; [|by eexists].
  rewrite ip_payload by done. cbn [mbind exec_bind]. generalize (take (ip_tlen ip - ip_hlen ip) (drop (ip_hlen ip) ip)). intros u.
  destruct (udp_check u) eqn:Eu; cbn [negb]; [|by eexists]. apply udp_check_len in Eu.
  rewrite udp_dst_port_at by done. cbn [mbind exec_bind]. destruct (_ =? port); cbn [negb]; [|by eexists].
  rewrite ip_src_at, udp_src_port_at by done. by eexists.
Qed.

End Frames.

(** ** The socket *)

Section Socket.
Context `{HL : EthBurstLaws} `{HW : WireLaws}.

(** The buffer of [send_to] and [gen_packet]: a fresh buffer extended within its
    room, filled by a builder that keeps the length. *)
Lemma frame_mut_run room m n f g : Pktmbuf.fresh room m -> 0 < n -> RTE_PKTMBUF_HEADROOM + n <= room ->
  (forall b, zlen b = n -> exists b', f b = Ret b' /\ zlen b' = n /\ g b') ->
  exists m' b', frame_mut f (Mbuf.extend m n) = Ret m' /\ mbuf_wf m' /\ Mbuf.data m' = Ret b' /\ g b'.
Proof.
  intros (Hw & Hd & Ho & Hb) Hn Hr Hf. pose proof headroom_const_bound.
  assert (n <= Mbuf.tailroom m) as Ht by (unfold Mbuf.tailroom; rewrite tailroom_spec by done; lia).
  destruct (Mbuf.extend_wf m n Hw) as (Hw' & Hl & Hbl); [lia|]. unfold frame_mut. rewrite Mbuf.data_ret by done.
  pose proof (Mbuf.data_length _ _ Hw' (Mbuf.data_ret _ Hw')) as Hz. cbn [mbind exec_bind].
  destruct (Hf _ ltac:(rewrite Hz, Hl, Hd; lia)) as (b' & -> & Hb' & Hg). cbn [mbind exec_bind].
  eexists _, b'. split; [done|]. split; [by apply Mbuf.store_wf|]. split; [|done]. apply Mbuf.data_store; [done|lia].
Qed.

(** What the socket writes for a datagram: the four bytes that pass for an IPv4
    header, the UDP header, the payload and sixteen stray bytes. *)
Definition sent_frame (src dst : Endpoint) (smac dmac : MacAddress) (data f : list byte) : Prop :=
  exists tail, length tail = 16%nat /\
    f = eth_head smac dmac ++ [x41; x00] ++ be16 (28 + zlen data) ++ udp_head (ep_port src) (ep_port dst) (8 + zlen data) 0 ++ data ++ tail.

Lemma udp_send_to_run data remote rmac s w local pool m w1 :
  local_endpoint s = Some local -> is_specified remote = true -> mempool s = Some pool ->
  Pktmbuf.try_alloc pool w = (Some m, w1) ->
  RTE_PKTMBUF_HEADROOM + 42 + zlen data <= rte_pktmbuf_data_room_size pool w ->
  exists m' f, mbuf_wf m' /\ Mbuf.data m' = Ret f /\ sent_frame local remote (local_mac s) rmac data f /\
    send_to data remote rmac s w =
    if can_send s then Ret (Ok tt, with_tx s (tx_batch s ++ [m']), w1) else Ret (Err BufferFull, s, Pktmbuf.drop_mbuf m' w1).
Proof.
  intros Hl Hs Hp Ha Hr. destruct (Pktmbuf.try_alloc_some _ _ _ _ Ha) as (Hf & _). pose proof headroom_const_bound as Hh.
  assert (28 + zlen data < 65536) as Hd by (destruct Hf as (Hw & _ & _ & Hb); pose proof (wf_u16 _ Hw); unfold u16_max in *; lia).
  destruct (frame_mut_run _ m (14 + 20 + 8 + zlen data) (build_frame local remote (local_mac s) rmac data)
    (sent_frame local remote (local_mac s) rmac data) Hf) as (m' & f & Hm & Hw & Hdm & Hg); [unfold zlen; lia|lia|..].
  { intros b Hb. destruct (build_frame_run local remote (local_mac s) rmac data b) as (tail & Ht & ->); [unfold zlen in *; lia|done|].
    eexists. split; [done|]. split; [|by exists tail]. unfold zlen in *. rewrite !length_app, Ht. simpl. lia. }
  exists m', f. split_and!; try done. unfold send_to. rewrite Hl, Hs, Hp, Ha. cbn [negb]. rewrite Hm. cbn [mbind exec_bind].
  unfold try_push, can_send. change BATCH with 64%nat. by destruct (_ <? _)%nat.
Qed.

(** ** Accounting of buffers *)

(** The buffers the application owns besides those queued in the socket. *)
Definition spare (s : UdpSocket) (w : rte) : Z := app_mbufs w - zlen (tx_batch s) - zlen (rx_batch s).

Lemma drop_all_app l w : app_mbufs (fold_left (fun w m => Pktmbuf.drop_mbuf m w) l w) = app_mbufs w - zlen l.
Proof.
  revert w. induction l as [|m l IH]; intros w; simpl; [unfold zlen; simpl; lia|]. rewrite IH. unfold Pktmbuf.drop_mbuf. rewrite free_app, zlen_cons. lia.
Qed.

Lemma drop_all_sent port q l w : nic_sent port q (fold_left (fun w m => Pktmbuf.drop_mbuf m w) l w) = nic_sent port q w.
Proof. revert w. induction l as [|m l IH]; intros w; simpl; [done|]. rewrite IH. apply free_sent. Qed.

(** ** [flush] *)

(** The loop ends within as many turns as there are packets when every burst
    takes at least one. *)
Lemma flush_loop_run fuel q l sent w : (length l <= fuel)%nat ->
  (forall l w n l' w', l <> [] -> Queue.tx q l w = Ret (n, l', w') -> 0 < n) ->
  exists w', flush_loop fuel q l sent w = Some (Ret (sent + zlen l, [], w')) /\ app_mbufs w' = app_mbufs w - zlen l /\
    nic_sent (tx_port_id q) (tx_queue_id q) w' = nic_sent (tx_port_id q) (tx_queue_id q) w ++ l.
Proof.
  intros Hf Hpos. revert l sent w Hf.
  assert (forall fuel sent w, flush_loop fuel q [] sent w = Some (Ret (sent + zlen (@nil rte_mbuf), [], w))) as Hnil.
  { intros [] sent w; cbn; by rewrite zlen_nil, Z.add_0_r. }
  induction fuel as [|fuel IH]; intros [|m l] sent w Hf; try (simpl in Hf; lia);
    try (exists w; by rewrite Hnil, zlen_nil, Z.sub_0_r, app_nil_r).

    destruct (tx_run q (m :: l) w) as (n & w1 & E & Hn & _ & Ha & Hs & _). pose proof (Hpos (m :: l) _ _ _ _ ltac:(done) E) as Hn0.
    cbn [flush_loop]. rewrite E. destruct (IH (drop (Z.to_nat n) (m :: l)) (sent + n) w1) as (w' & -> & Ha' & Hs').
    { rewrite length_drop. unfold zlen in *. simpl in *. lia. }
    exists w'. unfold zlen in *. rewrite length_drop in *. rewrite Hs', Hs, <- app_assoc, take_drop. split_and!; [|simpl in *; lia|done]. rewrite <- Z.add_assoc. by replace (n + Z.of_nat _) with (Z.of_nat (length (m :: l))) by (simpl in *; lia).
Qed.

(** A burst that takes nothing and changes nothing is repeated for ever. *)
Lemma flush_loop_stuck fuel q m l sent w : rte_eth_tx_burst (tx_port_id q) (tx_queue_id q) (take 64 (m :: l)) w = (0, w) -> (length l < 64)%nat ->
  flush_loop fuel q (m :: l) sent w = None.
Proof.
  intros Hb Hl. revert sent. induction fuel as [|fuel IH]; intros sent; cbn [flush_loop]; [done|].
  assert (Queue.tx q (m :: l) w = Ret (0, m :: l, w)) as ->; [|apply IH].
  unfold Queue.tx. rewrite Mbuf.as_u16_small by (unfold zlen, u16_max; lia).
  replace (take (Z.to_nat _) (m :: l)) with (take 64 (m :: l)); [by rewrite Hb|]. rewrite !take_ge; [done|..]; unfold zlen, MAX_BURST_SIZE, u16_max; simpl length; lia.
Qed.

End Socket.

Section Theorems.
Context `{HL : EthBurstLaws} `{HW : WireLaws}.

(** C27: [UdpSocket::send_to] does not send IPv4: it passes five where
    [set_header_len] takes octets, so for any datagram that fits its buffer it
    queues a frame whose UDP header and payload overwrite the IPv4 header from
    its fifth byte on (the addresses, protocol and checksum it had set among
    them); [recv_from] of any socket drops that frame as [QueueError] unless the
    UDP length happens to end in the protocol number 17. *)
Theorem send_to_not_ipv4 data remote rmac s w local pool m w1
    (Hl : local_endpoint s = Some local) (Hs : is_specified remote = true) (Hp : mempool s = Some pool)
    (Ha : Pktmbuf.try_alloc pool w = (Some m, w1))
    (Hr : RTE_PKTMBUF_HEADROOM + 42 + zlen data <= rte_pktmbuf_data_room_size pool w) (Hc : can_send s = true) :
  exists m' f, send_to data remote rmac s w = Ret (Ok tt, with_tx s (tx_batch s ++ [m']), w1) /\
    Mbuf.data m' = Ret f /\ sent_frame local remote (local_mac s) rmac data f /\
    forall peer l w', rx_batch peer = l ++ [m'] -> is_bound peer = true -> (8 + zlen data) mod 256 <> 17 ->
      recv_from peer w' = Ret (Err QueueError, with_rx peer l, Pktmbuf.drop_mbuf m' w').
Proof.
  destruct (udp_send_to_run data remote rmac s w local pool m w1 Hl Hs Hp Ha Hr) as (m' & f & Hw & Hd & Hf & He). rewrite Hc in He.
  exists m', f. split_and!; try done. intros peer l w' Hrx Hb Hn. unfold recv_from, pop. unfold is_bound in Hb.
  destruct (local_endpoint peer) as [e|]; [|done].
  rewrite Hrx, last_snoc, length_app. simpl length. rewrite Nat.add_sub, take_app_length, Hd. cbn [mbind exec_bind].
  destruct Hf as (tail & Ht & ->). rewrite parse_built; [done| |done].
  destruct (Pktmbuf.try_alloc_some _ _ _ _ Ha) as ((Hwm & _ & _ & Hbl) & _). pose proof (wf_u16 _ Hwm). pose proof headroom_const_bound.
  unfold u16_max in *. lia.
Qed.


(** An oversized datagram is undefined behaviour: [send_to] does not compare the
    datagram with the buffer, so the first datagram that does not fit the
    tailroom of its buffer makes [data_mut] form a slice outside the buffer. *)
Theorem send_to_oversized_ub data remote rmac s w local pool m w1
    (Hl : local_endpoint s = Some local) (Hs : is_specified remote = true) (Hp : mempool s = Some pool)
    (Ha : Pktmbuf.try_alloc pool w = (Some m, w1))
    (Hr : rte_pktmbuf_data_room_size pool w < RTE_PKTMBUF_HEADROOM + 42 + zlen data)
    (Hh : RTE_PKTMBUF_HEADROOM <= rte_pktmbuf_data_room_size pool w) (Hu : 42 + zlen data <= u16_max) :
  send_to data remote rmac s w = UB.
Proof.
  unfold send_to. rewrite Hl, Hs, Hp, Ha. cbn [negb].
  destruct (Pktmbuf.try_alloc_some _ _ _ _ Ha) as ((Hw & Hdl & Ho & Hb) & _). pose proof headroom_const_bound. pose proof (wf_pkt _ Hw).
  unfold frame_mut, Mbuf.data, Mbuf.extend, Mbuf.raw_parts, Mbuf.set_pkt_len, Mbuf.set_data_len, Mbuf.data_len. cbn [m_data_len data_off].
  rewrite Hdl, Mbuf.as_u16_small by (unfold zlen in *; lia). rewrite (proj2 (Z.eqb_neq _ _)) by (unfold zlen; lia).
  unfold buf_len in *. cbn [buf]. rewrite (proj2 (Z.leb_gt (_ + _) _)) by lia. by rewrite andb_false_r.
Qed.

(** [UdpSocket::flush] sends every queued packet in order and counts them,
    within as many bursts as there are packets, on a queue that takes at least
    one packet per burst. *)
Theorem flush_sends_all s w q (Hq : txq s = Some q)
    (Hpos : forall l w n l' w', l <> [] -> Queue.tx q l w = Ret (n, l', w') -> 0 < n) :
  exists w', flush (length (tx_batch s)) s w = Some (Ret (Ok (zlen (tx_batch s)), with_tx s [], w')) /\
    spare (with_tx s []) w' = spare s w /\
    nic_sent (tx_port_id q) (tx_queue_id q) w' = nic_sent (tx_port_id q) (tx_queue_id q) w ++ tx_batch s.
Proof.
  unfold flush. destruct (tx_batch s) as [|m l] eqn:E.
  - exists w. destruct s; simpl in *; subst. by rewrite app_nil_r.
  - rewrite Hq. destruct (flush_loop_run (length (m :: l)) q (m :: l) 0 w (Nat.le_refl _) Hpos) as (w' & -> & Ha & Hs).
    exists w'. split_and!; try done. unfold spare. simpl. rewrite E, zlen_nil. lia.
Qed.

(** On a queue that takes nothing, [flush] never returns, and neither does
    dropping the socket: unlike the generator, its loop has no guard against a
    burst of zero packets. *)
Theorem flush_never_returns fuel s w q m l (Hq : txq s = Some q) (Ht : tx_batch s = m :: l) (Hl : (length l < 64)%nat)
    (Hb : rte_eth_tx_burst (tx_port_id q) (tx_queue_id q) (take 64 (m :: l)) w = (0, w)) :
  flush fuel s w = None /\ drop_socket fuel s w = None.
Proof.
  assert (flush fuel s w = None) as Hf; [|split; [done|unfold drop_socket; by rewrite Hf]].
  unfold flush. rewrite Ht, Hq. by rewrite flush_loop_stuck.
Qed.

(** ** Any use of the socket *)

Inductive socket_op :=
  | OBind (e : Endpoint)
  | OSend (data : list byte) (remote : Endpoint) (rmac : MacAddress)
  | OPoll
  | ORecv.

(** The socket and the buffers it has handed to the caller. *)
Definition run_op (o : socket_op) (s : UdpSocket) (given : list rte_mbuf) (w : rte) : Exec (UdpSocket * list rte_mbuf * rte) :=
  match o with
  | OBind e => Ret ((bind e s).2, given, w)
  | OSend data remote rmac => '(_, s, w) ← send_to data remote rmac s w; Ret (s, given, w)
  | OPoll => let '(_, s, w) := poll s w in Ret (s, given, w)
  | ORecv => '(r, s, w) ← recv_from s w; Ret (s, match r with Ok (m, _) => given ++ [m] | Err _ => given end, w)
  end.

Fixpoint run_ops (os : list socket_op) (s : UdpSocket) (given : list rte_mbuf) (w : rte) : Exec (UdpSocket * list rte_mbuf * rte) :=
  match os with
  | [] => Ret (s, given, w)
  | o :: os => '(s, given, w) ← run_op o s given w; run_ops os s given w
  end.

Record socket_ok (room : Z) (pool : pool_ptr) (s : UdpSocket) (w : rte) : Prop := {
  sk_tx : (length (tx_batch s) <= 64)%nat;
  sk_rx : (length (rx_batch s) <= 64)%nat;
  sk_wf : Forall mbuf_wf (rx_batch s);
  sk_pool : mempool s = Some pool;
  sk_room : rte_pktmbuf_data_room_size pool w = room
}.

Definition op_fits (room : Z) (o : socket_op) : Prop :=
  match o with OSend data _ _ => RTE_PKTMBUF_HEADROOM + 42 + zlen data <= room | _ => True end.

Lemma send_to_step room pool data remote rmac s w : socket_ok room pool s w -> RTE_PKTMBUF_HEADROOM + 42 + zlen data <= room ->
  exists r s' w', send_to data remote rmac s w = Ret (r, s', w') /\ socket_ok room pool s' w' /\ spare s' w' = spare s w.
Proof.
  intros Hok Hfit. pose proof Hok as [Htx Hrx Hwf Hp Hroom].
  destruct (local_endpoint s) as [local|] eqn:El; [|unfold send_to; rewrite El; by eexists _, _, _].
  destruct (is_specified remote) eqn:Es; [|unfold send_to; rewrite El, Es; by eexists _, _, _].
  destruct (Pktmbuf.try_alloc pool w) as [[m|] w1] eqn:Ea.
  - assert (RTE_PKTMBUF_HEADROOM + 42 + zlen data <= rte_pktmbuf_data_room_size pool w) as Hfit1. { lia. }
    destruct (udp_send_to_run data remote rmac s w local pool m w1 El Es Hp Ea Hfit1) as (m' & f & Hw & _ & _ & ->).
    destruct (Pktmbuf.try_alloc_some _ _ _ _ Ea) as (_ & Happ & Hr1). unfold can_send. destruct (Nat.ltb_spec (length (tx_batch s)) 64).
    + eexists _, _, _. split; [done|]. split.
      * split; simpl; try done; [rewrite length_app; simpl; lia|congruence].
      * unfold spare. simpl. rewrite zlen_app, zlen_cons, zlen_nil. lia.
    + eexists _, _, _. split; [done|]. split; [split; try done|]; unfold Pktmbuf.drop_mbuf.
      * rewrite free_room. congruence.
      * unfold spare. rewrite free_app. lia.
  - eexists _, _, _. unfold send_to. rewrite El, Es, Hp, Ea. split; [done|]. pose proof (Pktmbuf.try_alloc_none _ _ _ Ea).
    split; [split; try done|unfold spare; lia]. unfold Pktmbuf.try_alloc, Pktmbuf.alloc in Ea.
    pose proof (alloc_room pool pool w) as Hr. destruct (rte_pktmbuf_alloc pool w). simplify_eq/=. congruence.
Qed.

Lemma recv_from_step room pool s w : socket_ok room pool s w ->
  exists r s' w', recv_from s w = Ret (r, s', w') /\ socket_ok room pool s' w' /\
    spare s' w' = spare s w + (if is_ok r then 1 else 0).
Proof.
  intros Hok. pose proof Hok as [Htx Hrx Hwf Hp Hroom]. unfold recv_from.
  destruct (local_endpoint s) as [local|]; [|eexists _, _, _; split; [reflexivity|split; [done|simpl; lia]]].
  unfold pop. destruct (last (rx_batch s)) as [m|] eqn:Elast; [|eexists _, _, _; split; [reflexivity|split; [done|simpl; lia]]].
  apply last_Some in Elast as [l El]. rewrite El in *. apply Forall_app in Hwf as [Hwl Hwm]. pose proof (Forall_inv Hwm) as Hwm1. clear Hwm.
  rewrite length_app. simpl length. rewrite Nat.add_sub, take_app_length, (Mbuf.data_ret m Hwm1). cbn [mbind exec_bind].
  match goal with |- context [parse_frame ?p ?f] => destruct (parse_frame_total p f) as [r ->] end. cbn [mbind exec_bind].
  rewrite length_app in Hrx. simpl in Hrx.
  destruct r as [e|e]; eexists _, _, _; (split; [done|]); unfold spare, Pktmbuf.drop_mbuf; simpl; rewrite ?free_app, El, zlen_app, zlen_cons, zlen_nil;
    (split; [|lia]); split; simpl; try done; try lia. by rewrite free_room.
Qed.

(** C17: any sequence of binds, sends of datagrams that fit, polls and receives on a
    socket of the pool runs without panic or undefined behaviour whatever frames
    arrive, keeps both batches within their capacity, and accounts for every
    buffer: the application owns exactly the queued ones, the ones handed to the
    caller, and those it owned before. *)
Theorem socket_ops_safe room pool os s given w (Hok : socket_ok room pool s w) (Hfit : Forall (op_fits room) os) :
  exists s' given' w', run_ops os s given w = Ret (s', given ++ given', w') /\ socket_ok room pool s' w' /\
    spare s' w' = spare s w + zlen given'.
Proof.
  revert s given w Hok. induction Hfit as [|o os Ho _ IH]; intros s given w Hok; cbn [run_ops].
  { exists s, [], w. rewrite app_nil_r, zlen_nil. split_and!; [done|done|lia]. }
  assert (exists s' g w', run_op o s given w = Ret (s', given ++ g, w') /\ socket_ok room pool s' w' /\ spare s' w' = spare s w + zlen g)
    as (s1 & g & w1 & -> & Hok1 & Hs1).
  { destruct o as [e|data remote rmac| |]; cbn [run_op].
    - exists (bind e s).2, [], w. rewrite app_nil_r, zlen_nil. unfold bind. destruct (_ =? _); split_and!; try done; try (unfold spare; simpl; lia).
      by destruct Hok; split.
    - destruct (send_to_step room pool data remote rmac s w Hok Ho) as (r & s' & w' & -> & Hok' & Hs'). exists s', [], w'.
      rewrite app_nil_r, zlen_nil. split_and!; [done|done|lia].
    - unfold poll. pose proof Hok as [Htx Hrx Hwf Hp Hroom]. destruct (rxq s) as [q|]; [|exists s, [], w; rewrite app_nil_r, zlen_nil; split_and!; [done|done|lia]].
      destruct (rx_run BATCH q (rx_batch s) w Hrx) as [[_ ->]|(Hlt & pkts & w' & nb & Hb & Hnb & -> & Hlen & _ & Hpk)].
      + exists (with_rx s (rx_batch s)), [], w. rewrite app_nil_r, zlen_nil. split_and!; [done|by split|unfold spare; simpl; lia].
      + exists (with_rx s (rx_batch s ++ pkts)), [], w'. rewrite app_nil_r, zlen_nil. split_and!; [done|..].
        * split; simpl; try done; [by apply Forall_app|]. pose proof (rx_burst_room pool (rx_port_id q) (rx_queue_id q) nb w) as Hr. rewrite Hb in Hr. simpl in Hr. congruence.
        * destruct (rx_burst_spec _ _ _ _ _ _ Hnb Hb) as (p' & Ep & _ & _ & Happ & _). apply (inj (fmap Some)) in Ep as ->.
          unfold spare. simpl. rewrite zlen_app. lia.
    - destruct (recv_from_step room pool s w Hok) as (r & s' & w' & -> & Hok' & Hs'). cbn [mbind exec_bind].
      destruct r as [[m e]|e]; simpl in Hs'.
      + exists s', [m], w'. by rewrite zlen_cons, zlen_nil.
      + exists s', [], w'. by rewrite app_nil_r, zlen_nil. }
  cbn [mbind exec_bind]. destruct (IH s1 (given ++ g) w1 Hok1) as (s' & g' & w' & -> & Hok' & Hs').
  exists s', (g ++ g'), w'. rewrite <- app_assoc, zlen_app. split_and!; [done|done|lia].
Qed.

(** ** The generator *)

Lemma gen_packets_run room l : Forall (Pktmbuf.fresh room) l -> RTE_PKTMBUF_HEADROOM + 60 <= room ->
  exists l', gen_packets l = Ret l' /\ length l' = length l /\
    Forall (fun m => mbuf_wf m /\ exists data, Mbuf.data m = Ret (rfc_frame gen_src_mac gen_dst_mac
      (mk_ep (ipv4 xc0 xa8 x1d x3a) 60376) (mk_ep (ipv4 xc0 xa8 x1d xa0) 161) 23653 128 0 48262 data) /\ length data = 18%nat) l'.
Proof.
  intros Hl Hr. induction Hl as [|m l Hm _ (l' & E & Hlen & Hf)]; [by exists []|]. cbn [gen_packets].
  destruct (frame_mut_run room m 60 gen_frame (fun f => exists data, f = rfc_frame gen_src_mac gen_dst_mac
      (mk_ep (ipv4 xc0 xa8 x1d x3a) 60376) (mk_ep (ipv4 xc0 xa8 x1d xa0) 161) 23653 128 0 48262 data /\ length data = 18%nat) Hm)
    as (m' & f & Eg & Hw & Hd & data & -> & Hdl); [lia|lia|..].
  { intros b Hb. unfold zlen in Hb. rewrite gen_frame_run by lia. eexists. split; [done|].
    assert (length (drop 42 b) = 18%nat) as Hd by (rewrite length_drop; lia).
    split; [unfold zlen, rfc_frame; rewrite !length_app, Hd; done|by eexists]. }
  unfold gen_packet. change (42 + 18) with 60. rewrite Eg. cbn [mbind exec_bind]. rewrite E. cbn [mbind exec_bind].
  exists (m' :: l'). split; [done|]. split; [simpl; lia|]. constructor; [|done]. by split; [|exists data].
Qed.

Lemma gen_send_run fuel q l w : (length l <= fuel)%nat ->
  exists sent w', gen_send fuel q l w = Some (Ret w') /\ app_mbufs w' = app_mbufs w - zlen l /\
    nic_sent (tx_port_id q) (tx_queue_id q) w' = nic_sent (tx_port_id q) (tx_queue_id q) w ++ sent /\ sent `prefix_of` l.
Proof.
  revert l w. induction fuel as [|fuel IH]; intros [|m l] w Hf; try (simpl in Hf; lia);
    try (exists [], w; rewrite zlen_nil, app_nil_r; split_and!; [done|lia|done|done]).
  cbn [gen_send]. destruct (tx_run q (m :: l) w) as (n & w1 & E & Hn & _ & Ha & Hs & _). rewrite E.
  destruct (Z.eqb_spec n 0) as [->|Hn0].
  - exists [], (fold_left (fun w m => Pktmbuf.drop_mbuf m w) (drop (Z.to_nat 0) (m :: l)) w1). split; [done|].
    rewrite drop_all_app. simpl drop. simpl take in Hs. rewrite app_nil_r in *. split_and!; [lia| |apply prefix_nil].
    by rewrite drop_all_sent.
  - destruct (IH (drop (Z.to_nat n) (m :: l)) w1) as (sent & w' & -> & Ha' & Hs' & Hp).
    { rewrite length_drop. unfold zlen in *. simpl in *. lia. }
    exists (take (Z.to_nat n) (m :: l) ++ sent), w'. split; [done|]. split_and!.
    + unfold zlen in *. rewrite length_drop in Ha'. simpl in *. lia.
    + by rewrite Hs', Hs, <- app_assoc.
    + destruct Hp as [k Hk]. exists k. by rewrite <- app_assoc, <- Hk, take_drop.
Qed.

Lemma fill_loop_sent port q fuel cap p batch count w count' batch' w' : Pktmbuf.fill_loop fuel cap p batch count w = Some (count', batch', w') ->
  nic_sent port q w' = nic_sent port q w.
Proof.
  revert batch count w. induction fuel as [|fuel IH]; intros batch count w; cbn [Pktmbuf.fill_loop]; destruct (_ <? _)%nat; try done;
    try (intros [= <- <- <-]; done).
  unfold Pktmbuf.try_alloc, Pktmbuf.alloc, Mbuf.from_raw. pose proof (alloc_sent port q p w) as Hs.
  destruct (rte_pktmbuf_alloc p w) as [[m|] w1]; simpl in Hs.
  - intros E%IH. congruence.
  - intros [= <- <- <-]. done.
Qed.

(** A turn of [udp_gen]'s worker always ends, without panic or undefined
    behaviour, on a pool with room for its frames; what it hands to the queue are
    SNMP-port datagrams laid out by RFC 791 and RFC 768, and no buffer is left
    over: those the queue did not take are freed. *)
Theorem gen_turn_sends q p w (Hr : RTE_PKTMBUF_HEADROOM + 60 <= rte_pktmbuf_data_room_size p w) :
  exists sent w', gen_turn q p w = Some (Ret w') /\ app_mbufs w' = app_mbufs w /\
    nic_sent (tx_port_id q) (tx_queue_id q) w' = nic_sent (tx_port_id q) (tx_queue_id q) w ++ sent /\
    Forall (fun m => exists data, Mbuf.data m = Ret (rfc_frame gen_src_mac gen_dst_mac
      (mk_ep (ipv4 xc0 xa8 x1d x3a) 60376) (mk_ep (ipv4 xc0 xa8 x1d xa0) 161) 23653 128 0 48262 data)) sent.
Proof.
  unfold gen_turn, Pktmbuf.fill_batch.
  destruct (Pktmbuf.fill_loop_spec BATCH BATCH p [] 0 w) as (new & w1 & E & Ha & Hf & _); [unfold BATCH; simpl; lia|].
  apply (fill_loop_sent (tx_port_id q) (tx_queue_id q)) in E as Hsent. rewrite E. simpl app.
  destruct (gen_packets_run _ new Hf Hr) as (l & -> & Hlen & Hl).
  destruct (gen_send_run (length l) q l w1 (Nat.le_refl _)) as (sent & w' & -> & Ha' & Hs & [k Hk]).
  exists sent, w'. split; [done|]. split; [unfold zlen in *; lia|]. split; [by rewrite <- Hsent|].
  subst l. apply Forall_app in Hl as [Hl _]. eapply Forall_impl; [done|]. intros m (_ & data & Hd & _). by exists data.
Qed.

End Theorems.

(** ** A reference implementation of the views *)
Module RefWire.

Definition need {A} (n : nat) (b : list byte) (a : A) : Exec A := if (n <=? length b)%nat then Ret a else Panic.

(** RFC 1071 over the header. *)
Fixpoint sum16 (b : list byte) : Z :=
  match b with
  | hi :: lo :: b => word hi lo + sum16 b
  | _ => 0
  end.
Definition checksum (b : list byte) : Z := let s := sum16 b in 65535 - (s / 65536 + s mod 65536).

#[export] Instance ref_wire : Wire := {|
  eth_check b := (14 <=? length b)%nat;
  eth_set_dst m b := need 14 b (list_inserts 0 (ArpCache.mac_bytes m) b);
  eth_set_src m b := need 14 b (list_inserts 6 (ArpCache.mac_bytes m) b);
  eth_set_type t b := need 14 b (list_inserts 12 (be16 t) b);
  eth_type b := need 14 b (word (b !!! 12%nat) (b !!! 13%nat));
  eth_payload_at b := need 14 b (14%nat, length b);
  ip_check b := (20 <=? length b)%nat && (ip_hlen b <=? ip_tlen b)%nat && (ip_tlen b <=? length b)%nat;
  ip_set_version v b := need 20 b (alter (fun x => b8 (Z.lor (Z.land (bZ x) 15) (Z.shiftl v 4))) 0%nat b);
  ip_set_header_len v b := need 20 b (alter (fun x => b8 (Z.lor (Z.land (bZ x) 240) (Z.land (v / 4) 15))) 0%nat b);
  ip_set_dscp v b := need 20 b (alter (fun x => b8 (Z.lor (Z.land (bZ x) 3) (Z.shiftl v 2))) 1%nat b);
  ip_set_ecn v b := need 20 b (alter (fun x => b8 (Z.lor (Z.land (bZ x) 252) (Z.land v 3))) 1%nat b);
  ip_set_total_len v b := need 20 b (list_inserts 2 (be16 v) b);
  ip_set_ident v b := need 20 b (list_inserts 4 (be16 v) b);
  ip_clear_flags b := need 20 b (alter (fun x => b8 (Z.land (bZ x) 31)) 6%nat b);
  ip_set_frag_offset v b :=
    need 20 b (alter (fun x => b8 (Z.lor (Z.land (bZ x) 224) (Z.land (v / 8 / 256) 31))) 6%nat (<[7%nat := b8 (v / 8)]> b));
  ip_set_hop_limit v b := need 20 b (<[8%nat := b8 v]> b);
  ip_set_next_header v b := need 20 b (<[9%nat := b8 v]> b);
  ip_set_src a b := need 20 b (list_inserts 12 (ArpCache.octets a) b);
  ip_set_dst a b := need 20 b (list_inserts 16 (ArpCache.octets a) b);
  ip_set_checksum v b := need 20 b (list_inserts 10 (be16 v) b);
  ip_fill_checksum b := need 20 b (list_inserts 10 (be16 (checksum (take (ip_hlen b) (list_inserts 10 [x00; x00] b)))) b);
  ip_next_header b := need 20 b (bZ (b !!! 9%nat));
  ip_src b := need 20 b (ipv4 (b !!! 12%nat) (b !!! 13%nat) (b !!! 14%nat) (b !!! 15%nat));
  ip_payload_at b := need 20 b (ip_hlen b, ip_tlen b);
  udp_check b := (8 <=? length b)%nat && (8 <=? udp_len b)%nat && (udp_len b <=? length b)%nat;
  udp_set_src_port v b := need 8 b (list_inserts 0 (be16 v) b);
  udp_set_dst_port v b := need 8 b (list_inserts 2 (be16 v) b);
  udp_set_len v b := need 8 b (list_inserts 4 (be16 v) b);
  udp_set_checksum v b := need 8 b (list_inserts 6 (be16 v) b);
  udp_src_port b := need 8 b (word (b !!! 0%nat) (b !!! 1%nat));
  udp_dst_port b := need 8 b (word (b !!! 2%nat) (b !!! 3%nat));
  udp_payload_at b := need 8 b (8%nat, udp_len b)
|}.

Lemma need_ret {A} n b (a : A) : (n <= length b)%nat -> need n b a = Ret a.
Proof. intros Hn. unfold need. by rewrite (proj2 (Nat.leb_le _ _)). Qed.

#[export] Instance ref_wire_laws : WireLaws.
Proof.
  split; intros; unfold eth_check, ip_check, udp_check, ref_wire in *;
    repeat match goal with
    | H : _ && _ = true |- _ => apply andb_true_iff in H as [? ?]
    | H : (_ <=? _)%nat = true |- _ => apply Nat.leb_le in H
    end; try (by apply need_ret); try lia;
    repeat (apply andb_true_iff; split); try (by apply Nat.leb_le; lia).
  eexists. by apply need_ret.
Qed.

#[local] Existing Instance Mbuf.ref_pktmbuf.
#[local] Existing Instance Mbuf.ref_pktmbuf_laws.
#[local] Existing Instance Queue.ref_mempool.
#[local] Existing Instance Queue.ref_burst.
#[local] Existing Instance Queue.ref_mempool_laws.
#[local] Existing Instance Queue.ref_burst_laws.

Definition here : Endpoint := mk_ep (ipv4 x0a x00 x00 x01) 5000.
Definition there : Endpoint := mk_ep (ipv4 x0a x00 x00 x02) 6000.
Definition mac_a : MacAddress := mac6 x02 x00 x00 x00 x00 x01.
Definition mac_b : MacAddress := mac6 x02 x00 x00 x00 x00 x02.

Definition sock (tx rx : list rte_mbuf) : UdpSocket := mk_udp (Some here) mac_a (Some (mk_rxq 0 0)) (Some (mk_txq 0 0)) (Some pool0) tx rx.
Definition world (slots : nat) : @rte ref_mempool := world0 8 [] slots.
Definition hello : list byte := [x68; x65; x6c; x6c; x6f].

Lemma send_to_not_ipv4_witness :
  exists m' f, send_to hello there mac_b (sock [] []) (world 4) = Ret (Ok tt, with_tx (sock [] []) ([] ++ [m']), (rte_pktmbuf_alloc pool0 (world 4)).2) /\
    Mbuf.data m' = Ret f /\ sent_frame here there mac_a mac_b hello f /\
    forall peer l w', rx_batch peer = l ++ [m'] -> is_bound peer = true -> (8 + zlen hello) mod 256 <> 17 ->
      recv_from peer w' = Ret (Err QueueError, with_rx peer l, Pktmbuf.drop_mbuf m' w').
Proof.
  refine (send_to_not_ipv4 hello there mac_b (sock [] []) (world 4) here pool0 (Mbuf.blank 2176) _ _ _ _ _ _ _);
    reflexivity || (vm_compute; discriminate).
Defined.


Lemma send_to_oversized_ub_witness : send_to (replicate 2100 x00) there mac_b (sock [] []) (world 4) = UB.
Proof.
  refine (send_to_oversized_ub _ there mac_b (sock [] []) (world 4) here pool0 (Mbuf.blank 2176) (rte_pktmbuf_alloc pool0 (world 4)).2 _ _ _ _ _ _ _);
    reflexivity || (vm_compute; reflexivity) || (vm_compute; discriminate).
Defined.

Lemma flush_never_returns_witness :
  let s := sock [Queue.packet hello] [] in flush 1000 s (world 0) = None /\ drop_socket 1000 s (world 0) = None.
Proof. intros s. refine (flush_never_returns 1000 s (world 0) (mk_txq 0 0) (Queue.packet hello) [] _ _ _ _); [reflexivity|reflexivity|simpl; lia|reflexivity]. Defined.

Lemma socket_ops_safe_witness :
  let os := [OSend hello there mac_b; OPoll; ORecv; OBind there; ORecv] in
  exists s' given' w', run_ops os (sock [] [Queue.packet hello]) [] (world 4) = Ret (s', [] ++ given', w') /\ socket_ok 2176 pool0 s' w' /\
    spare s' w' = spare (sock [] [Queue.packet hello]) (world 4) + zlen given'.
Proof.
  intros os. refine (socket_ops_safe 2176 pool0 os _ [] _ _ _).
  - split; simpl; try lia; try done. repeat constructor; vm_compute; done.
  - repeat constructor. vm_compute. discriminate.
Defined.

Lemma gen_turn_sends_witness :
  exists sent w', gen_turn (mk_txq 0 0) pool0 (world 3) = Some (Ret w') /\ app_mbufs w' = app_mbufs (world 3) /\
    nic_sent 0 0 w' = nic_sent 0 0 (world 3) ++ sent /\
    Forall (fun m => exists data, Mbuf.data m = Ret (rfc_frame gen_src_mac gen_dst_mac
      (mk_ep (ipv4 xc0 xa8 x1d x3a) 60376) (mk_ep (ipv4 xc0 xa8 x1d xa0) 161) 23653 128 0 48262 data)) sent.
Proof. refine (gen_turn_sends (mk_txq 0 0) pool0 (world 3) _). vm_compute. discriminate. Defined.

(** A queue that takes every packet at once. *)
#[local] Instance eager_burst : EthBurst := {|
  rte_eth_rx_burst := rte_eth_rx_burst (EthBurst := ref_burst);
  rte_eth_tx_burst _ _ pkts w :=
    (zlen pkts, mk_world (rw_free w) (rw_room w) (rw_app w - zlen pkts) (rw_rx w) (rw_slots w) (rw_sent w ++ pkts) (rw_polls w));
  nic_sent _ _ w := rw_sent w;
  rx_polls _ _ w := rw_polls w
|}.

#[local] Instance eager_burst_laws : EthBurstLaws.
Proof.
  split; try apply _; simpl; try done.
  - exact (rx_burst_spec (H1 := ref_burst)).
  - intros _ _ pkts w n w' [= <- <-]. unfold zlen. rewrite Nat2Z.id, take_ge by lia. split_and!; done || lia.
  - exact (alloc_sent (H1 := ref_burst)).
  - exact (alloc_polls (H1 := ref_burst)).
Qed.

Lemma flush_sends_all_witness :
  let s := sock [Queue.packet hello; Queue.packet []] [] in
  exists w', flush (H := ref_mempool) 2 s (world 0) = Some (Ret (Ok 2, with_tx s [], w')) /\
    spare (with_tx s []) w' = spare s (world 0) /\ nic_sent 0 0 w' = [] ++ tx_batch s.
Proof.
  intros s. refine (flush_sends_all s (world 0) (mk_txq 0 0) eq_refl _).
  intros l w n l' w' Hl E. destruct (tx_run (mk_txq 0 0) l w) as (n1 & w1 & E1 & _ & _ & Ha & _). rewrite E1 in E. injection E as <- _ _.
  destruct l as [|m l]; [done|]. unfold tx in E1. simpl rte_eth_tx_burst in E1.
  cbv iota beta in E1. match type of E1 with context [forget_front ?a ?b] => destruct (forget_front a b) end; [|done..]. injection E1 as <- _ _.
  unfold zlen. rewrite length_take, Mbuf.as_u16_small by (unfold u16_max; simpl; lia). unfold MAX_BURST_SIZE, u16_max. simpl length. lia.
Defined.

End RefWire.

End UdpTest.
