(* ===== verification/NetUtil.v ===== *)
(** * Network utilities of the test crate
      ([util] of [dpdk-net-test/src/lib.rs], [dpdk-net-test/src/manual/tcp.rs])

    What the sample programs find out about the machine before DPDK takes over:
    channel counts by ioctl, huge pages, the neighbour cache, the routing table
    and PCI addresses in sysfs.  The operating system is the interface [System]:
    its files, links, directories, commands and system calls. *)

From Stdlib Require Import Strings.String.
From stdpp Require Import base gmap list.
From Stdlib Require Import ZArith NArith Strings.Byte Lia.
From S2P Require Import Prelude Mbuf Pktmbuf ArpCache Text.

(** A path is an [OsStr], a string of bytes; a failed call is [None] or an
    [Err] with its text. *)
Definition path : Type := list byte.

Record ethtool_channels := mk_raw {
  cmd : Z;
  raw_max_rx : Z; raw_max_tx : Z; raw_max_other : Z; raw_max_combined : Z;
  raw_rx_count : Z; raw_tx_count : Z; raw_other_count : Z; raw_combined_count : Z
}.

Class System := {
  sys : Type;
  child : Type;
  (* files *)
  exists_path : path -> sys -> bool;
  read_file : path -> sys -> option (list byte);
  read_link : path -> sys -> option path;
  read_dir : path -> sys -> option (list (option path));
  (* [Command]: the success of the exit status; the output; a child with a pipe *)
  run_status : list path -> sys -> Result bool str * sys;
  run_output : list path -> sys -> option (bool * list byte) * sys;
  spawn : list path -> sys -> Result child str * sys;
  write_stdin : child -> list byte -> sys -> Result unit str * sys;
  wait : child -> sys -> Result bool str * sys;
  (* libc *)
  socket_dgram : sys -> Z * sys;
  ioctl_ethtool : Z -> list byte -> ethtool_channels -> sys -> Z * ethtool_channels * sys;
  close_fd : Z -> sys -> sys;
  last_os_error : sys -> str;
  getifaddrs : sys -> option (list (list byte * option Ipv4Addr))
}.

Module NetUtil.
Import Text.

Local Open Scope Z_scope.

(** ** [util] *)

Record EthtoolChannels := mk_channels {
  max_rx : Z; max_tx : Z; max_other : Z; max_combined : Z;
  rx_count : Z; tx_count : Z; other_count : Z; combined_count : Z
}.

Definition ETHTOOL_GCHANNELS : Z := 60.
(** [libc::IFNAMSIZ] *)
Definition IFNAMSIZ : nat := 16.

Section Util.
Context `{System}.

(** After the socket is open every return drops the guard, which closes it. *)
Definition get_ethtool_channels (interface : list byte) (w : sys) : Result EthtoolChannels str * sys :=
  let '(sock, w) := socket_dgram w in
  if sock <? 0 then (Err (lit "Failed to create socket"), w)
  else
    let channels := mk_raw ETHTOOL_GCHANNELS 0 0 0 0 0 0 0 0 in
    match CString_new interface with
    | None => (Err (lit "Invalid interface name"), close_fd sock w)
    | Some ifname =>
        let ifname_bytes := ifname ++ [x00] in
        if (IFNAMSIZ <? length ifname_bytes)%nat then (Err (lit "Interface name too long"), close_fd sock w)
        else
          let ifr_name := ifname_bytes ++ replicate (IFNAMSIZ - length ifname_bytes) x00 in
          let '(ret, c, w) := ioctl_ethtool sock ifr_name channels w in
          if ret <? 0 then
            (Err (lit "ioctl SIOCETHTOOL failed: " ++ last_os_error w), close_fd sock w)
          else
            (Ok (mk_channels (raw_max_rx c) (raw_max_tx c) (raw_max_other c) (raw_max_combined c)
                   (raw_rx_count c) (raw_tx_count c) (raw_other_count c) (raw_combined_count c)), close_fd sock w)
    end.

(** A step of [ensure_hugepages] that runs a command and checks its status. *)
Definition run_checked (what : str) (args : list path) (w : sys) : Result unit str * sys :=
  let '(r, w) := run_status args w in
  (match r with
   | Err e => Err (what ++ lit ": " ++ e)
   | Ok false => Err what
   | Ok true => Ok tt
   end, w).

Definition hugetlbfs_line (line : str) : bool := contains (lit "hugetlbfs") line && contains (lit "/dev/hugepages") line.

Definition set_hugepages (w : sys) : Result unit str * sys :=
  let hugepages_str := to_byte <$> to_string 1024 in
  match spawn [bs "sudo"; bs "tee"; bs "/sys/kernel/mm/hugepages/hugepages-2048kB/nr_hugepages"] w with
  | (Err e, w) => (Err (lit "Failed to spawn tee command: " ++ e), w)
  | (Ok c, w) =>
      match write_stdin c hugepages_str w with
      | (Err e, w) => (Err (lit "Failed to write to tee: " ++ e), w)
      | (Ok _, w) =>
          match wait c w with
          | (Err e, w) => (Err (lit "Failed to wait for tee command: " ++ e), w)
          | (Ok false, w) => (Err (lit "Failed to set number of hugepages"), w)
          | (Ok true, w) => (Ok tt, w)
          end
      end
  end.

(** [read_to_string] fails on text that is not UTF-8. *)
Definition read_to_string (p : path) (w : sys) : option str := content ← read_file p w; from_utf8 content.

Definition ensure_hugepages (w : sys) : Result unit str * sys :=
  let '(r, w) := if exists_path (bs "/dev/hugepages") w then (Ok tt, w)
                 else run_checked (lit "Failed to create hugepages directory") [bs "sudo"; bs "mkdir"; bs "-p"; bs "/dev/hugepages"] w in
  match r with
  | Err e => (Err e, w)
  | Ok _ =>
      let mounts := default [] (read_to_string (bs "/proc/mounts") w) in
      let already_mounted := existsb hugetlbfs_line (lines mounts) in
      let '(r, w) := if already_mounted then (Ok tt, w)
                     else run_checked (lit "Failed to mount hugetlbfs")
                            [bs "sudo"; bs "mount"; bs "-t"; bs "hugetlbfs"; bs "none"; bs "/dev/hugepages"] w in
      match r with
      | Err e => (Err e, w)
      | Ok _ => set_hugepages w
      end
  end.

(** The loop of [parse_mac_address] over the six parts. *)
Definition parse_mac_address (mac_str : str) : option MacAddress :=
  match mapM (fun part => b8 ← from_str_radix 16 255 part; Byte.of_N (Z.to_N b8)) (split 58 mac_str) with
  | Some [a; b; c; d; e; f] => Some (mac6 a b c d e f)
  | _ => None
  end.

Fixpoint first_lladdr (ls : list str) : option MacAddress :=
  match ls with
  | [] => None
  | line :: ls =>
      match find_str (lit "lladdr ") line with
      | Some lladdr_pos => parse_mac_address (take 17 (drop (lladdr_pos + 7) line))
      | None => first_lladdr ls
      end
  end.

Definition get_neighbor_mac (ip_address : list byte) (w : sys) : option MacAddress * sys :=
  match run_output [bs "ip"; bs "neigh"; bs "show"; ip_address] w with
  | (None, w) => (None, w)
  | (Some (success, stdout), w) =>
      if negb success then (None, w) else (first_lladdr (lines (from_utf8_lossy stdout)), w)
  end.

(** [build_arp_reply] *)
Definition build_arp_reply (our_mac : MacAddress) (our_ip : Ipv4Addr) (gateway_mac : MacAddress) (gateway_ip : Ipv4Addr) : Exec (list byte) :=
  let packet := replicate 42 x00 in
  packet ← copy_into packet 0 (ArpCache.mac_bytes our_mac);
  packet ← copy_into packet 6 (ArpCache.mac_bytes gateway_mac);
  packet ← copy_into packet 12 [x08; x06];
  packet ← copy_into packet 14 [x00; x01];
  packet ← copy_into packet 16 [x08; x00];
  packet ← ArpCache.set_index packet 18 x06;
  packet ← ArpCache.set_index packet 19 x04;
  packet ← copy_into packet 20 [x00; x02];
  packet ← copy_into packet 22 (ArpCache.mac_bytes gateway_mac);
  packet ← copy_into packet 28 (ArpCache.octets gateway_ip);
  packet ← copy_into packet 32 (ArpCache.mac_bytes our_mac);
  copy_into packet 38 (ArpCache.octets our_ip).

(** ** [manual/tcp.rs] *)

(** [u32::to_le_bytes] into an address *)
Definition octet (n : Z) (i : Z) : byte := default x00 (Byte.of_N (Z.to_N (Z.land (Z.shiftr n (8 * i)) 255))).
Definition parse_hex_gateway (hex_str : str) : option Ipv4Addr :=
  gateway_hex ← from_str_radix 16 u32_max hex_str;
  Some (ipv4 (octet gateway_hex 0) (octet gateway_hex 1) (octet gateway_hex 2) (octet gateway_hex 3)).

(** [BufRead::lines]: byte lines, each of which may fail to be UTF-8 *)
Definition byte_lines (content : list byte) : list (list byte) := List.map (List.map to_byte) (lines (List.map bN content)).

Fixpoint default_route (ls : list (list byte)) : option Ipv4Addr :=
  match ls with
  | [] => None
  | l :: ls =>
      line ← from_utf8 l;
      match split_whitespace line with
      | _ :: destination :: gateway :: _ =>
          if bool_decide (destination = lit "00000000") then parse_hex_gateway gateway else default_route ls
      | _ => default_route ls
      end
  end.

Definition get_default_gateway (w : sys) : option Ipv4Addr :=
  content ← read_file (bs "/proc/net/route") w; default_route (drop 1 (byte_lines content)).

Fixpoint first_ipv4 (interface : list byte) (l : list (list byte * option Ipv4Addr)) : option Ipv4Addr :=
  match l with
  | [] => None
  | (name, addr) :: l =>
      if bool_decide (name = interface) then match addr with Some a => Some a | None => first_ipv4 interface l end
      else first_ipv4 interface l
  end.
Definition get_interface_ipv4 (interface : list byte) (w : sys) : option Ipv4Addr :=
  l ← getifaddrs w; first_ipv4 interface l.

(** The pieces of a path, and [Path::file_name]: the last normal component. *)
Definition pieces (p : path) : list path := List.map (List.map to_byte) (split 47 (List.map bN p)).
Definition normal (p : path) : bool := negb (bool_decide (p = [])) && negb (bool_decide (p = bs ".")).
Definition file_name (p : path) : option path :=
  name ← last (List.filter normal (pieces p)); if bool_decide (name = bs "..") then None else Some name.

(** [fs::read_dir(..).flatten()] *)
Fixpoint flatten {A} (l : list (option A)) : list A :=
  match l with [] => [] | Some a :: l => a :: flatten l | None :: l => flatten l end.
Definition entries (d : path) (w : sys) : option (list path) :=
  match read_dir d w with Some es => Some (flatten es) | None => None end.
Definition join (a b : path) : path := a ++ bs "/" ++ b.

Definition vfio_bound (device_path : path) (w : sys) : bool :=
  match read_link (join device_path (bs "driver")) w with
  | Some driver_link => match file_name driver_link with Some n => bool_decide (n = bs "vfio-pci") | None => false end
  | None => false
  end.

Fixpoint scan_vfio (dir : path) (es : list path) (w : sys) : option str :=
  match es with
  | [] => None
  | e :: es =>
      pci_addr ← from_utf8 e;
      let device_path := join dir e in
      vendor ← read_to_string (join device_path (bs "vendor")) w;
      if negb (bool_decide (trim vendor = lit "0x1af4")) then scan_vfio dir es w else
      device_id ← read_to_string (join device_path (bs "device")) w;
      if negb (bool_decide (trim device_id = lit "0x1000")) then scan_vfio dir es w else
      if vfio_bound device_path w then Some pci_addr else scan_vfio dir es w
  end.

Definition find_vfio_virtio_net (w : sys) : option str :=
  let devices_dir := bs "/sys/bus/pci/devices" in
  es ← entries devices_dir w; scan_vfio devices_dir es w.

(** [component.contains(':') && component.contains('.')] *)
Definition colon_dot (s : str) : bool := contains_char 58 s && contains_char 46 s.
Definition looks_like_pci (component : str) : bool :=
  colon_dot component &&
  let parts := split 58 component in
  (2 <=? length parts)%nat && match last parts with Some s => contains_char 46 s | None => false end.

(** What the search through the lower links ends with. *)
Fixpoint scan_lower (net_dir : path) (es : list path) (w : sys) : option str :=
  match es with
  | [] => None
  | e :: es =>
      match from_utf8 e with
      | Some name =>
          if starts_with (lit "lower_") name then
            match read_link (join net_dir e) w with
            | Some lower_link =>
                path_str ← from_utf8 lower_link;
                match List.find looks_like_pci (split 47 path_str) with
                | Some component => Some component
                | None => scan_lower net_dir es w
                end
            | None => scan_lower net_dir es w
            end
          else scan_lower net_dir es w
      | None => scan_lower net_dir es w
      end
  end.

Definition get_pci_addr_from_interface (interface : list byte) (w : sys) : option str :=
  link ← read_link (bs "/sys/class/net/" ++ interface ++ bs "/device") w;
  name ← file_name link;
  filename ← from_utf8 name;
  if colon_dot filename then Some filename
  else if starts_with (lit "virtio") filename then None
  else
    let net_dir := bs "/sys/class/net/" ++ interface in
    match entries net_dir w with Some es => scan_lower net_dir es w | None => None end.

Definition get_pci_addr (interface : list byte) (w : sys) : option str :=
  match get_pci_addr_from_interface interface w with
  | Some addr => Some addr
  | None => find_vfio_virtio_net w
  end.

End Util.

(** ** Text the kernel and [ip] print *)

Section TextLemmas.

(** [{:02x}] of a byte and [{:08X}] of a word *)
Fixpoint fixed (k : nat) (radix n : Z) : list Z :=
  match k with O => [] | S k => n mod radix :: fixed k radix (n / radix) end.
Definition upper (c : char) : char := if (97 <=? c)%N && (c <=? 122)%N then (c - 32)%N else c.
Definition hex2 (b : byte) : str := digit_char <$> reverse (fixed 2 16 (Z.of_N (Byte.to_N b))).
Definition hex8 (n : Z) : str := upper ∘ digit_char <$> reverse (fixed 8 16 n).

Lemma fixed_spec k radix n : 2 <= radix -> 0 <= n < radix ^ Z.of_nat k ->
  Forall (fun d => 0 <= d < radix) (fixed k radix n) /\ value radix (fixed k radix n) = n.
Proof.
  intros Hr. revert n. induction k as [|k IH]; intros n Hn; simpl; [simpl in Hn; split; [constructor|lia]|].
  rewrite Nat2Z.inj_succ, Z.pow_succ_r in Hn by lia.
  destruct (IH (n / radix)) as [Hf Hv]; [split; [apply Z.div_pos; lia|apply Z.div_lt_upper_bound; lia]|].
  rewrite Hv. split; [constructor; [apply Z.mod_pos_bound; lia|done]|]. pose proof (Z.div_mod n radix). lia.
Qed.

Ltac hex_digit d :=
  assert (d = 0 \/ d = 1 \/ d = 2 \/ d = 3 \/ d = 4 \/ d = 5 \/ d = 6 \/ d = 7 \/ d = 8 \/ d = 9 \/ d = 10 \/ d = 11 \/ d = 12 \/
    d = 13 \/ d = 14 \/ d = 15) as Hc by lia; by repeat destruct Hc as [->|Hc]; subst.

Lemma to_digit_upper d : 0 <= d < 16 -> to_digit 16 (upper (digit_char d)) = Some d.
Proof.
  intros Hd. hex_digit d.
Qed.

Lemma radix_loop_upper max acc ds : Forall (fun d => 0 <= d < 16) ds ->
  radix_loop 16 max acc (upper ∘ digit_char <$> ds) = radix_loop 16 max acc (digit_char <$> ds).
Proof.
  intros Hf. revert acc. induction Hf as [|d ds Hd _ IH]; intros acc; [done|]. cbn [fmap list_fmap radix_loop]. simpl compose.
  rewrite to_digit_upper, to_digit_char by lia. by destruct (_ <=? _).
Qed.

Lemma hex8_chars n : 0 <= n < 2 ^ 32 -> Forall (fun c => is_whitespace c = false /\ (c < 128)%N /\ c <> 43%N) (hex8 n).
Proof.
  intros Hn. apply Forall_fmap, Forall_reverse. eapply Forall_impl; [exact (proj1 (fixed_spec 8 16 n ltac:(lia) Hn))|].
  intros d Hd. simpl in *. hex_digit d.
Qed.

Lemma hex8_parse n : 0 <= n <= u32_max -> from_str_radix 16 u32_max (hex8 n) = Some n.
Proof.
  intros Hn. unfold u32_max in Hn. pose proof (hex8_chars n ltac:(lia)) as Hc.
  destruct (fixed_spec 8 16 n) as [Hf Hv]; [lia|change (16 ^ Z.of_nat 8) with (2 ^ 32); lia|].
  assert (radix_loop 16 u32_max 0 (hex8 n) = Some n) as Hl.
  { unfold hex8. rewrite radix_loop_upper by by apply Forall_reverse.
    rewrite radix_loop_value; rewrite ?reverse_involutive, ?Hv; [f_equal; lia|lia|lia|by apply Forall_reverse|unfold u32_max; lia]. }
  unfold from_str_radix. destruct (hex8 n) as [|c rest] eqn:E; [done|]. apply Forall_cons in Hc as [(_ & _ & Hc) _].
  by rewrite (proj2 (N.eqb_neq c 43)).
Qed.

Lemma hex8_zero n : 0 <= n <= u32_max -> hex8 n = lit "00000000" <-> n = 0.
Proof.
  intros Hn. split; [|intros ->; done]. intros E. pose proof (hex8_parse n Hn) as Hp. rewrite E in Hp. vm_compute in Hp. congruence.
Qed.

Lemma hex2_parse b : (b8 ← from_str_radix 16 255 (hex2 b); Byte.of_N (Z.to_N b8)) = Some b.
Proof. by destruct b. Qed.
Lemma hex2_colon b : 58%N ∉ hex2 b.
Proof. apply (bool_decide_unpack _). by destruct b. Qed.

End TextLemmas.

(** ** Reading addresses *)

(** A MAC address as [ip neigh] prints it. *)
Definition format_mac (m : MacAddress) : str :=
  hex2 (mac0 m) ++ 58%N :: hex2 (mac1 m) ++ 58%N :: hex2 (mac2 m) ++ 58%N :: hex2 (mac3 m) ++ 58%N :: hex2 (mac4 m) ++ 58%N :: hex2 (mac5 m).

Lemma parse_format_mac m : parse_mac_address (format_mac m) = Some m.
Proof.
  unfold parse_mac_address, format_mac. rewrite !split_piece by apply hex2_colon. rewrite split_last by apply hex2_colon.
  cbn [mapM]. rewrite !hex2_parse. by destruct m.
Qed.

Lemma format_mac_length m : length (format_mac m) = 17%nat.
Proof. done. Qed.

Lemma first_lladdr_skip ls1 ls2 : Forall (fun l => find_str (lit "lladdr ") l = None) ls1 -> first_lladdr (ls1 ++ ls2) = first_lladdr ls2.
Proof. induction 1 as [|l ls1 Hl _ IH]; cbn [app first_lladdr]; [done|]. by rewrite Hl, IH. Qed.

(** The neighbour cache: when [ip neigh show] succeeds, the address of the first
    line with a link-layer address is returned exactly, for any address and
    whatever follows it. *)
Theorem get_neighbor_mac_found `{System} ip w w' stdout ls1 ls2 pre m rest
    (Hrun : run_output [bs "ip"; bs "neigh"; bs "show"; ip] w = (Some (true, stdout), w'))
    (Hls : lines (from_utf8_lossy stdout) = ls1 ++ (pre ++ lit "lladdr " ++ format_mac m ++ rest) :: ls2)
    (Hno : Forall (fun l => find_str (lit "lladdr ") l = None) ls1)
    (Hpos : find_str (lit "lladdr ") (pre ++ lit "lladdr " ++ format_mac m ++ rest) = Some (length pre)) :
  get_neighbor_mac ip w = (Some m, w').
Proof.
  unfold get_neighbor_mac. rewrite Hrun, Hls, first_lladdr_skip by done. cbn [negb first_lladdr]. rewrite Hpos.
  f_equal. etrans; [|apply parse_format_mac]. f_equal.
  rewrite <- drop_drop, drop_app_length.
  rewrite (drop_app_length' (lit "lladdr ")) by done. by rewrite take_app_length' by done.
Qed.

(** [build_arp_reply] of the test crate and the builder of the device layer
    give the same frame, the ARP reply of RFC 826, and the shared cache's parser
    learns the gateway from it. *)
Theorem build_arp_reply_learned our_mac our_ip gw_mac gw_ip :
  build_arp_reply our_mac our_ip gw_mac gw_ip = Ret (ArpCache.arp_reply_frame our_mac our_ip gw_mac gw_ip) /\
  build_arp_reply our_mac our_ip gw_mac gw_ip = ArpCache.build_arp_reply_for_injection our_mac our_ip gw_mac gw_ip /\
  ArpCache.parse_arp_reply (ArpCache.arp_reply_frame our_mac our_ip gw_mac gw_ip) = Ret (Some (gw_ip, gw_mac)).
Proof. split_and!; [reflexivity|reflexivity|]. by destruct gw_mac, gw_ip. Qed.

(** ** The routing table *)

(** The number the kernel prints for an address on a little-endian machine. *)
Definition le32 (a : Ipv4Addr) : Z :=
  let z b := Z.of_N (Byte.to_N b) in z (ip0 a) + 256 * (z (ip1 a) + 256 * (z (ip2 a) + 256 * z (ip3 a))).

Lemma le32_bound a : 0 <= le32 a <= u32_max.
Proof.
  unfold le32, u32_max. pose proof (Byte.to_N_bounded (ip0 a)). pose proof (Byte.to_N_bounded (ip1 a)).
  pose proof (Byte.to_N_bounded (ip2 a)). pose proof (Byte.to_N_bounded (ip3 a)). lia.
Qed.

Lemma octet_spec n i b x : 0 <= i -> n / 2 ^ (8 * i) = Z.of_N (Byte.to_N b) + 256 * x -> octet n i = b.
Proof.
  intros Hi Hn. unfold octet. rewrite Z.shiftr_div_pow2, Hn by lia. change 255 with (Z.ones 8). rewrite Z.land_ones by lia.
  change (2 ^ 8) with 256. rewrite Z.mul_comm, Z.mod_add by lia. pose proof (Byte.to_N_bounded b).
  rewrite Z.mod_small by lia. by rewrite N2Z.id, Byte.of_to_N.
Qed.

Lemma le32_octets a : ipv4 (octet (le32 a) 0) (octet (le32 a) 1) (octet (le32 a) 2) (octet (le32 a) 3) = a.
Proof.
  unfold le32. destruct a as [a b c d]. cbn [ip0 ip1 ip2 ip3].
  set (z := fun b => Z.of_N (Byte.to_N b)). assert (forall b, 0 <= z b < 256) as Hz by (intros x; unfold z; pose proof (Byte.to_N_bounded x); lia).
  pose proof (Hz a). pose proof (Hz b). pose proof (Hz c). pose proof (Hz d). fold (z a) (z b) (z c) (z d).
  rewrite (octet_spec _ 0 a (z b + 256 * (z c + 256 * z d))), (octet_spec _ 1 b (z c + 256 * z d)), (octet_spec _ 2 c (z d)), (octet_spec _ 3 d 0);
    [done|lia| |lia| |lia| |lia|]; fold (z a) (z b) (z c) (z d); symmetry.
  - apply (Z.div_unique _ _ _ (z a + 256 * z b + 65536 * z c)); lia.
  - apply (Z.div_unique _ _ _ (z a + 256 * z b)); lia.
  - apply (Z.div_unique _ _ _ (z a)); lia.
  - rewrite Z.div_1_r. lia.
Qed.

Lemma parse_hex8 a : parse_hex_gateway (hex8 (le32 a)) = Some a.
Proof. unfold parse_hex_gateway. rewrite hex8_parse by apply le32_bound. cbn. by rewrite le32_octets. Qed.

(** A row of [/proc/net/route]: interface, destination, gateway and the other
    columns, separated by tabs. *)
Record route := mk_route { r_iface : list byte; r_dest : Ipv4Addr; r_gateway : Ipv4Addr; r_rest : list byte }.
Definition TAB : byte := x09.
Definition hex_bytes (a : Ipv4Addr) : list byte := List.map to_byte (hex8 (le32 a)).
Definition route_line (r : route) : list byte := r_iface r ++ TAB :: hex_bytes (r_dest r) ++ TAB :: hex_bytes (r_gateway r) ++ TAB :: r_rest r.
Definition route_table (header : list byte) (rs : list route) : list byte :=
  header ++ LF :: foldr (fun r t => route_line r ++ LF :: t) [] rs.

Definition plain (b : byte) : Prop := ascii b /\ bN b <> 10%N /\ bN b <> 13%N.
Record route_ok (r : route) : Prop := {
  ro_iface : r_iface r <> [];
  ro_solid : Forall (fun b => plain b /\ is_whitespace (bN b) = false) (r_iface r);
  ro_rest : Forall plain (r_rest r)
}.

Lemma hex_bytes_chars a : List.map bN (hex_bytes a) = hex8 (le32 a).
Proof.
  pose proof (le32_bound a) as Hb. unfold u32_max in Hb. pose proof (hex8_chars (le32 a) ltac:(lia)) as Hc. unfold hex_bytes.
  induction Hc as [|c l (_ & Hl & _) _ IH]; simpl; [done|]. by rewrite bN_to_byte, IH by lia.
Qed.

Lemma hex_bytes_plain a : Forall plain (hex_bytes a).
Proof.
  pose proof (le32_bound a) as Hb. unfold u32_max in Hb. pose proof (hex8_chars (le32 a) ltac:(lia)) as Hc. unfold hex_bytes.
  induction Hc as [|c l (Hw & Hl & _) _ IH]; simpl; constructor; [|done]. unfold plain, ascii. rewrite bN_to_byte by lia.
  split_and!; [done|intros ->; done..].
Qed.

Lemma route_line_plain r : route_ok r -> Forall plain (route_line r).
Proof.
  intros [_ Hs Hr]. unfold route_line. assert (plain TAB) by done.
  rewrite !Forall_app, !Forall_cons, !Forall_app, !Forall_cons, !Forall_app, !Forall_cons. split_and!; try done; try apply hex_bytes_plain. eapply Forall_impl; [exact Hs|]. by intros b [? _].
Qed.

Lemma plain_not c l : (c = 10 \/ c = 13)%N -> Forall plain l -> c ∉ List.map bN l.
Proof.
  intros Hc Hl. induction Hl as [|b l (_ & H1 & H2) _ IH]; simpl; [by apply not_elem_of_nil|].
  apply not_elem_of_cons. split; [|done]. destruct Hc as [-> | ->]; congruence.
Qed.

Lemma table_lines rs : Forall route_ok rs ->
  byte_lines (foldr (fun r t => route_line r ++ LF :: t) [] rs) = route_line <$> rs.
Proof.
  unfold byte_lines. induction 1 as [|r rs Hr _ IH]; [done|]. cbn [foldr fmap list_fmap]. rewrite List.map_app. cbn [List.map].
  change (bN LF) with 10%N. pose proof (route_line_plain r Hr) as Hp.
  rewrite lines_line by (by apply plain_not; [left|]). rewrite strip_cr_none by (by apply plain_not; [right|]).
  cbn [List.map]. rewrite map_to_byte_bN. f_equal. exact IH.
Qed.

Lemma route_line_words r : route_ok r -> exists ws, split_whitespace (List.map bN (route_line r)) =
  List.map bN (r_iface r) :: hex8 (le32 (r_dest r)) :: hex8 (le32 (r_gateway r)) :: ws.
Proof.
  intros [Hi Hs _]. assert (forall a, solid (hex8 (le32 a)) /\ hex8 (le32 a) <> []) as Hh.
  { intros a. split; [|done]. pose proof (le32_bound a) as Hb. unfold u32_max in Hb.
    eapply Forall_impl; [exact (hex8_chars (le32 a) ltac:(lia))|]. by intros c [? _]. }
  unfold route_line. rewrite !List.map_app. cbn [List.map]. rewrite !List.map_app. cbn [List.map]. rewrite !List.map_app. cbn [List.map].
  rewrite !hex_bytes_chars. eexists. rewrite split_word; [f_equal|..].
  - rewrite split_word by (done || apply Hh). f_equal. by rewrite split_word by (done || apply Hh).
  - clear Hi. induction Hs as [|b l [_ Hb] _ IH]; simpl; by constructor.
  - by destruct (r_iface r).
  - done.
Qed.

(** The default gateway: reading any routing table of the kernel's format gives
    the gateway of its first route to 0.0.0.0, byte order included, and nothing
    when there is none. *)
Theorem get_default_gateway_first `{System} w header rs
    (Hread : read_file (bs "/proc/net/route") w = Some (route_table header rs))
    (Hhdr : LF ∉ header) (Hrs : Forall route_ok rs) :
  get_default_gateway w = r_gateway <$> List.find (fun r => bool_decide (r_dest r = ipv4 x00 x00 x00 x00)) rs.
Proof.
  unfold get_default_gateway. rewrite Hread. cbn [mbind option_bind]. unfold route_table.
  assert (drop 1 (byte_lines (header ++ LF :: foldr (fun r t => route_line r ++ LF :: t) [] rs)) = route_line <$> rs) as ->.
  { rewrite <- (table_lines rs Hrs). unfold byte_lines. rewrite List.map_app. cbn [List.map]. change (bN LF) with 10%N. rewrite lines_line; [done|].
    intros Hin. apply list_elem_of_In, List.in_map_iff in Hin as (b & Hb & Hin). destruct Hhdr. apply list_elem_of_In.
    assert (b = LF) as <-; [|done]. rewrite <- (to_byte_bN b), Hb. done. }
  clear Hread. induction Hrs as [|r rs Hr _ IH]; [done|]. cbn [fmap list_fmap default_route].
  rewrite utf8_ascii by (eapply Forall_impl; [by apply route_line_plain|by intros b [? _]]). cbn [mbind option_bind].
  destruct (route_line_words r Hr) as [ws Hws]. change (bN <$> route_line r) with (List.map bN (route_line r)). rewrite Hws.
  assert (hex8 (le32 (r_dest r)) = lit "00000000" <-> r_dest r = ipv4 x00 x00 x00 x00) as Hz.
  { rewrite hex8_zero by apply le32_bound. split; [|by intros ->]. intros E. rewrite <- (le32_octets (r_dest r)), E. done. }
  cbn [List.find]. case_bool_decide as E1; case_bool_decide as E2; [cbn; apply parse_hex8|destruct E2; by apply Hz|destruct E1; by apply Hz|exact IH].
Qed.

(** ** PCI addresses *)

Section Pci.
Context `{System}.

(** What the scan looks for in a device directory, when its files are readable. *)
Definition vfio_virtio (dir e : path) (w : sys) : bool :=
  bool_decide ((trim <$> read_to_string (join (join dir e) (bs "vendor")) w) = Some (lit "0x1af4")) &&
  bool_decide ((trim <$> read_to_string (join (join dir e) (bs "device")) w) = Some (lit "0x1000")) &&
  vfio_bound (join dir e) w.

Definition readable (dir e : path) (w : sys) : Prop :=
  is_Some (from_utf8 e) /\ is_Some (read_to_string (join (join dir e) (bs "vendor")) w) /\
  is_Some (read_to_string (join (join dir e) (bs "device")) w).

Lemma some_eq (x y : str) : bool_decide (Some x = Some y) = bool_decide (x = y).
Proof. apply bool_decide_ext. split; [by intros [= ?]|by intros ->]. Qed.

Lemma scan_vfio_first dir es w : Forall (fun e => readable dir e w) es ->
  scan_vfio dir es w = (e ← List.find (fun e => vfio_virtio dir e w) es; from_utf8 e).
Proof.
  induction 1 as [|e es ([name Hn] & [v Hv] & [d Hd]) _ IH]; [done|]. cbn [scan_vfio List.find]. unfold vfio_virtio.
  rewrite Hn, Hv, Hd. cbn [mbind option_bind fmap option_fmap option_map]. rewrite IH.
  rewrite !some_eq.
  destruct (bool_decide (trim v = _)); [|done]. destruct (bool_decide (trim d = _)); [|done]. cbn [negb andb].
  by destruct (vfio_bound _ w); [cbn; rewrite Hn|].
Qed.

(** The search for a DPDK device: for an interface that sysfs does not map to a
    PCI device, [get_pci_addr] gives the first virtio-net device bound to
    vfio-pci when the entries of [/sys/bus/pci/devices] are readable. *)
Theorem get_pci_addr_fallback interface w es
    (Hnone : get_pci_addr_from_interface interface w = None)
    (Hdir : entries (bs "/sys/bus/pci/devices") w = Some es)
    (Hok : Forall (fun e => readable (bs "/sys/bus/pci/devices") e w) es) :
  get_pci_addr interface w = (e ← List.find (fun e => vfio_virtio (bs "/sys/bus/pci/devices") e w) es; from_utf8 e).
Proof. unfold get_pci_addr, find_vfio_virtio_net. rewrite Hnone, Hdir. cbn [mbind option_bind]. by apply scan_vfio_first. Qed.

(** One device directory without a readable [vendor] file ends the search: no
    device behind it in the directory order is found. *)
Theorem scan_vfio_gives_up dir es1 e es2 w
    (Hok : Forall (fun e => readable dir e w /\ vfio_virtio dir e w = false) es1)
    (Hbad : read_to_string (join (join dir e) (bs "vendor")) w = None) :
  scan_vfio dir (es1 ++ e :: es2) w = None.
Proof.
  induction Hok as [|x es1 [([name Hn] & [v Hv] & [d Hd]) Hf] _ IH]; cbn [app scan_vfio].
  - destruct (from_utf8 e); [|done]. cbn [mbind option_bind]. by rewrite Hbad.
  - rewrite Hn, Hv, Hd. cbn [mbind option_bind]. unfold vfio_virtio in Hf. rewrite Hv, Hd in Hf. cbn [fmap option_fmap option_map] in Hf.
    rewrite !some_eq in Hf.
    destruct (bool_decide (trim v = _)); [|done]. destruct (bool_decide (trim d = _)); [|done]. cbn [negb andb] in *. by rewrite Hf.
Qed.

End Pci.

(** ** System calls and commands *)

Inductive event :=
  | ECommand (args : list path)
  | EWrite (data : list byte).

(** What the operating system promises of them: a new descriptor is open until
    it is closed, and every command that starts and every write to a child is
    an event. *)
Class SystemLaws `{System} := {
  open_fds : sys -> gset Z;
  events : sys -> list event;
  socket_open : forall w fd w', socket_dgram w = (fd, w') ->
    if fd <? 0 then open_fds w' = open_fds w else ((fd ∉ open_fds w) /\ open_fds w' = {[fd]} ∪ open_fds w);
  ioctl_open : forall fd n c w, open_fds (ioctl_ethtool fd n c w).2 = open_fds w;
  close_open : forall fd w, open_fds (close_fd fd w) = open_fds w ∖ {[fd]};
  status_event : forall args w r w', run_status args w = (r, w') -> events w' = events w ++ [ECommand args];
  spawn_event : forall args w r w', spawn args w = (r, w') -> events w' = events w ++ [ECommand args];
  write_event : forall c d w r w', write_stdin c d w = (r, w') -> events w' = events w ++ [EWrite d];
  wait_event : forall c w r w', wait c w = (r, w') -> events w' = events w
}.

Section Sys.
Context `{SystemLaws}.

(** [get_ethtool_channels] leaves no descriptor open, whatever the interface
    name and the outcome of the calls; a name with a NUL byte or of more than
    fifteen bytes is refused before the ioctl, and on success the result holds
    what the driver filled in. *)
Theorem ethtool_no_fd_leak interface w r w' (Hrun : get_ethtool_channels interface w = (r, w')) :
  open_fds w' = open_fds w /\
  ((x00 ∈ interface \/ (15 < length interface)%nat) -> is_ok r = false) /\
  (forall c, r = Ok c -> exists fd ifr_name ret raw w1 w2,
     ioctl_ethtool fd ifr_name (mk_raw ETHTOOL_GCHANNELS 0 0 0 0 0 0 0 0) w1 = (ret, raw, w2) /\ 0 <= ret /\
     ifr_name = interface ++ replicate (16 - length interface) x00 /\
     c = mk_channels (raw_max_rx raw) (raw_max_tx raw) (raw_max_other raw) (raw_max_combined raw)
           (raw_rx_count raw) (raw_tx_count raw) (raw_other_count raw) (raw_combined_count raw)).
Proof.
  unfold get_ethtool_channels in Hrun. destruct (socket_dgram w) as [fd w1] eqn:Es. apply socket_open in Es.
  destruct (Z.ltb_spec fd 0); [injection Hrun as <- <-; by split_and!|]. destruct Es as [Hnew Hopen].
  assert (forall v, open_fds v = open_fds w1 -> open_fds (close_fd fd v) = open_fds w) as Hclose.
  { intros v Hv. rewrite close_open, Hv, Hopen, difference_union_distr_l_L, difference_diag_L, union_empty_l_L.
    by apply difference_disjoint_L, disjoint_singleton_r. }
  unfold CString_new in Hrun. case_decide as Hnul; [injection Hrun as <- <-; split_and!; [by apply Hclose|done|done]|].
  destruct (Nat.ltb_spec IFNAMSIZ (length (interface ++ [x00]))) as [Hl|Hl]; [injection Hrun as <- <-; split_and!; [by apply Hclose|done|done]|].
  destruct (ioctl_ethtool _ _ _ w1) as [[ret raw] w2] eqn:Ei. pose proof (ioctl_open fd
    ((interface ++ [x00]) ++ replicate (IFNAMSIZ - length (interface ++ [x00])) x00) (mk_raw ETHTOOL_GCHANNELS 0 0 0 0 0 0 0 0) w1) as Hio.
  rewrite Ei in Hio. simpl in Hio. rewrite length_app in Hl. simpl in Hl. unfold IFNAMSIZ in *.
  destruct (Z.ltb_spec ret 0); injection Hrun as <- <-; (split_and!; [by apply Hclose|intros [?|?]; [done|lia]|]); [done|].
  intros c [= <-]. eexists fd, _, ret, raw, w1, w2. split_and!; [exact Ei|done| |done].
  rewrite <- app_assoc. f_equal. rewrite length_app. simpl length.
  replace (16 - length interface)%nat with (S (16 - (length interface + 1))) by lia. done.
Qed.

(** [ensure_hugepages] reports success only after it has done what is missing,
    in order: created the directory if it was not there, mounted hugetlbfs on it
    if no line of the mount table showed it, and set the number of pages to
    1024. *)
Theorem ensure_hugepages_ok w w' (Hrun : ensure_hugepages w = (Ok tt, w')) :
  exists w1, let mounted := existsb hugetlbfs_line (lines (default [] (read_to_string (bs "/proc/mounts") w1))) in
    (exists_path (bs "/dev/hugepages") w = true -> w1 = w) /\
    events w' = events w ++
      (if exists_path (bs "/dev/hugepages") w then [] else [ECommand [bs "sudo"; bs "mkdir"; bs "-p"; bs "/dev/hugepages"]]) ++
      (if mounted then [] else [ECommand [bs "sudo"; bs "mount"; bs "-t"; bs "hugetlbfs"; bs "none"; bs "/dev/hugepages"]]) ++
      [ECommand [bs "sudo"; bs "tee"; bs "/sys/kernel/mm/hugepages/hugepages-2048kB/nr_hugepages"]; EWrite (bs "1024")].
Proof.
  assert (forall what args v v', run_checked what args v = (Ok tt, v') -> events v' = events v ++ [ECommand args]) as Hchecked.
  { intros what args v v'. unfold run_checked. destruct (run_status args v) as [r v1] eqn:E. intros [= _ <-]. by eapply status_event. }
  assert (forall v v', set_hugepages v = (Ok tt, v') -> events v' = events v ++
    [ECommand [bs "sudo"; bs "tee"; bs "/sys/kernel/mm/hugepages/hugepages-2048kB/nr_hugepages"]; EWrite (bs "1024")]) as Hset.
  { intros v v'. unfold set_hugepages. destruct (spawn _ v) as [[c|e] v1] eqn:E1; [|done].
    destruct (write_stdin c _ v1) as [[[]|e] v2] eqn:E2; [|done]. destruct (wait c v2) as [[[]|e] v3] eqn:E3; intros [= <-].
    rewrite (wait_event _ _ _ _ E3), (write_event _ _ _ _ _ E2), (spawn_event _ _ _ _ E1), <- app_assoc. done. }
  unfold ensure_hugepages in Hrun.
  destruct (if exists_path _ w then _ else _) as [r1 w1] eqn:E1 in Hrun. destruct r1 as [[]|]; [|done]. exists w1.
  cbv zeta. set (mounted := existsb _ _) in *.
  destruct (if mounted then _ else _) as [r2 w2] eqn:E2 in Hrun. destruct r2 as [[]|]; [|done]. apply Hset in Hrun.
  split; [intros He; rewrite He in E1; congruence|]. rewrite Hrun.
  destruct mounted; [injection E2 as <-|rewrite (Hchecked _ _ _ _ E2)]; (destruct (exists_path _ w); [injection E1 as <-|rewrite (Hchecked _ _ _ _ E1)]);
    by rewrite <- ?app_assoc.
Qed.

End Sys.

(** ** A machine for the examples: its files, links and directories, and what
    was done to it. *)
Module RefSystem.

Record machine := mk_machine {
  files : list (path * list byte);
  links : list (path * path);
  dirs : list (path * list path);
  neighbours : list byte;
  fds : gset Z;
  done_ : list event
}.

Fixpoint assoc {A} (k : path) (l : list (path * A)) : option A :=
  match l with [] => None | (k', a) :: l => if bool_decide (k = k') then Some a else assoc k l end.

Definition act (e : event) (m : machine) : machine := mk_machine (files m) (links m) (dirs m) (neighbours m) (fds m) (done_ m ++ [e]).
Definition with_fds (f : gset Z) (m : machine) : machine := mk_machine (files m) (links m) (dirs m) (neighbours m) f (done_ m).
Definition new_fd (f : gset Z) : Z := fresh f.

#[export] Instance ref_system : System := {|
  sys := machine;
  child := unit;
  exists_path p m := match assoc p (dirs m) with Some _ => true | None => false end;
  read_file p m := assoc p (files m);
  read_link p m := assoc p (links m);
  read_dir p m := match assoc p (dirs m) with Some l => Some (List.map Some l) | None => None end;
  run_status args m := (Ok true, act (ECommand args) m);
  run_output args m := (Some (true, neighbours m), act (ECommand args) m);
  spawn args m := (Ok tt, act (ECommand args) m);
  write_stdin _ d m := (Ok tt, act (EWrite d) m);
  wait _ m := (Ok true, m);
  socket_dgram m := (Z.abs (new_fd (fds m ∪ set_map Z.opp (fds m))), with_fds ({[Z.abs (new_fd (fds m ∪ set_map Z.opp (fds m)))]} ∪ fds m) m);
  ioctl_ethtool _ _ c m := (0, c, m);
  close_fd fd m := with_fds (fds m ∖ {[fd]}) m;
  last_os_error _ := [];
  getifaddrs _ := Some []
|}.

#[export, refine] Instance ref_system_laws : SystemLaws := {| open_fds := fds; events := done_ |}.
Proof.
  - intros w fd w' [= <- <-]. set (f := new_fd _). rewrite (proj2 (Z.ltb_ge _ _)) by lia. split; [|done].
    pose proof (is_fresh (fds w ∪ set_map Z.opp (fds w))) as Hf. fold (new_fd (fds w ∪ set_map (D := gset Z) Z.opp (fds w))) in Hf. fold f in Hf.
    intros Hin. apply Hf. destruct (Z.abs_spec f) as [[_ E]|[_ E]]; rewrite E in Hin; [set_solver|].
    apply elem_of_union_r, elem_of_map. exists (- f). split; [lia|done].
  - done.
  - done.
  - by intros args w r w' [= <- <-].
  - by intros args w r w' [= <- <-].
  - by intros c d w r w' [= <- <-].
  - by intros c w r w' [= <- <-].
Defined.

Definition machine0 : @sys ref_system := mk_machine [] [] [] [] ∅ [].

Definition gw : Ipv4Addr := ipv4 x0a x00 x00 x01.
Definition any : Ipv4Addr := ipv4 x00 x00 x00 x00.
Definition routes : list route := [mk_route (bs "eth0") gw any (bs "0001"); mk_route (bs "eth1") any gw (bs "0003")].

Lemma get_default_gateway_first_witness :
  get_default_gateway (mk_machine [(bs "/proc/net/route", route_table (bs "Iface Destination Gateway") routes)] [] [] [] ∅ []) = Some gw.
Proof.
  refine (get_default_gateway_first _ (bs "Iface Destination Gateway") routes _ _ _).
  - reflexivity.
  - apply (bool_decide_unpack _). vm_compute. exact I.
  - repeat constructor; discriminate.
Defined.

Definition neigh : list byte := bs "10.0.0.1 dev eth0 lladdr 12:34:56:78:9a:bc REACHABLE".
Lemma get_neighbor_mac_found_witness :
  get_neighbor_mac (bs "10.0.0.1") (mk_machine [] [] [] neigh ∅ []) =
    (Some (mac6 x12 x34 x56 x78 x9a xbc), act (ECommand [bs "ip"; bs "neigh"; bs "show"; bs "10.0.0.1"]) (mk_machine [] [] [] neigh ∅ [])).
Proof.
  refine (get_neighbor_mac_found _ _ _ neigh [] [] (lit "10.0.0.1 dev eth0 ") (mac6 x12 x34 x56 x78 x9a xbc) (lit " REACHABLE") _ _ _ _);
    [reflexivity|vm_compute; reflexivity|constructor|vm_compute; reflexivity].
Defined.

Definition devices : path := bs "/sys/bus/pci/devices".
Definition dev (a v d : string) : list (path * list byte) :=
  [(join (join devices (bs a)) (bs "vendor"), bs v); (join (join devices (bs a)) (bs "device"), bs d)].
Definition pci : machine :=
  mk_machine (dev "0000:00:01.0" "0x8086" "0x1000" ++ dev "0000:00:02.0" "0x1af4" "0x1000")
    [(join (join devices (bs "0000:00:02.0")) (bs "driver"), bs "../../../bus/pci/drivers/vfio-pci")]
    [(devices, [bs "0000:00:01.0"; bs "0000:00:02.0"])] [] ∅ [].

Lemma get_pci_addr_fallback_witness : get_pci_addr (bs "eth1") pci = Some (lit "0000:00:02.0").
Proof.
  refine (get_pci_addr_fallback (bs "eth1") pci [bs "0000:00:01.0"; bs "0000:00:02.0"] _ _ _); [reflexivity|reflexivity|].
  repeat constructor; (eexists; vm_compute; reflexivity).
Defined.

Lemma ethtool_no_fd_leak_witness : open_fds (get_ethtool_channels (bs "eth1") machine0).2 = open_fds machine0.
Proof. destruct (get_ethtool_channels (bs "eth1") machine0) as [r w'] eqn:E. exact (proj1 (ethtool_no_fd_leak _ _ _ _ E)). Defined.

Lemma ensure_hugepages_ok_witness : exists w', ensure_hugepages machine0 = (Ok tt, w') /\ length (events w') = 4%nat.
Proof.
  eexists. split; [vm_compute; reflexivity|].
  destruct (ensure_hugepages_ok machine0 (ensure_hugepages machine0).2 ltac:(vm_compute; reflexivity)) as (w1 & _ & He). reflexivity.
Defined.

End RefSystem.

End NetUtil.
