(* ===== verification/EthDevConfig.v ===== *)
(** * Shared device configuration ([dpdk-net-test/src/eth_dev_config.rs])

    The builder that the tests and [DpdkApp] share: a memory pool and a started
    port by [build], and a [DpdkDevice] per queue by [create_device]. *)

From Stdlib Require Import Strings.String.
From stdpp Require Import base gmap list.
From Stdlib Require Import ZArith Strings.Byte Lia.
From S2P Require Import Prelude Mbuf Pktmbuf Queue ArpCache Device Eth Text.

Local Open Scope Z_scope.

Module EthDevConfig.
Import Text.

Definition DEFAULT_MBUF_HEADROOM : Z := 128.
Definition DEFAULT_MBUF_DATA_ROOM_SIZE : Z := 2048 + DEFAULT_MBUF_HEADROOM.
Definition DEFAULT_MTU : Z := 1500.
Definition DEFAULT_NUM_MBUFS : Z := 8191.
Definition DEFAULT_NB_DESC : Z := 1024.

Record EthDevConfig := mk_config {
  mempool_name : list byte;
  num_mbufs : Z;
  data_room_size : Z;
  nb_rx_queues : Z;
  nb_tx_queues : Z;
  rx_desc : Z;
  tx_desc : Z;
  mtu : Z;
  port_id : Z;
  eth_conf : option Eth.EthConf
}.

Definition new : EthDevConfig :=
  mk_config (bs "dpdk_mempool") DEFAULT_NUM_MBUFS (as_u16 DEFAULT_MBUF_DATA_ROOM_SIZE) 1 1 DEFAULT_NB_DESC DEFAULT_NB_DESC DEFAULT_MTU 0 None.

Definition with_mempool_name (x : list byte) (c : EthDevConfig) : EthDevConfig :=
  mk_config x (num_mbufs c) (data_room_size c) (nb_rx_queues c) (nb_tx_queues c) (rx_desc c) (tx_desc c) (mtu c) (port_id c) (eth_conf c).
Definition with_num_mbufs (x : Z) (c : EthDevConfig) : EthDevConfig :=
  mk_config (mempool_name c) x (data_room_size c) (nb_rx_queues c) (nb_tx_queues c) (rx_desc c) (tx_desc c) (mtu c) (port_id c) (eth_conf c).
Definition with_data_room_size (x : Z) (c : EthDevConfig) : EthDevConfig :=
  mk_config (mempool_name c) (num_mbufs c) x (nb_rx_queues c) (nb_tx_queues c) (rx_desc c) (tx_desc c) (mtu c) (port_id c) (eth_conf c).
Definition with_nb_rx_queues (x : Z) (c : EthDevConfig) : EthDevConfig :=
  mk_config (mempool_name c) (num_mbufs c) (data_room_size c) x (nb_tx_queues c) (rx_desc c) (tx_desc c) (mtu c) (port_id c) (eth_conf c).
Definition with_nb_tx_queues (x : Z) (c : EthDevConfig) : EthDevConfig :=
  mk_config (mempool_name c) (num_mbufs c) (data_room_size c) (nb_rx_queues c) x (rx_desc c) (tx_desc c) (mtu c) (port_id c) (eth_conf c).
Definition with_nb_queues (x : Z) (c : EthDevConfig) : EthDevConfig := with_nb_tx_queues x (with_nb_rx_queues x c).
Definition with_rx_desc (x : Z) (c : EthDevConfig) : EthDevConfig :=
  mk_config (mempool_name c) (num_mbufs c) (data_room_size c) (nb_rx_queues c) (nb_tx_queues c) x (tx_desc c) (mtu c) (port_id c) (eth_conf c).
Definition with_tx_desc (x : Z) (c : EthDevConfig) : EthDevConfig :=
  mk_config (mempool_name c) (num_mbufs c) (data_room_size c) (nb_rx_queues c) (nb_tx_queues c) (rx_desc c) x (mtu c) (port_id c) (eth_conf c).
Definition with_nb_desc (x : Z) (c : EthDevConfig) : EthDevConfig := with_tx_desc x (with_rx_desc x c).
Definition with_mtu (x : Z) (c : EthDevConfig) : EthDevConfig :=
  mk_config (mempool_name c) (num_mbufs c) (data_room_size c) (nb_rx_queues c) (nb_tx_queues c) (rx_desc c) (tx_desc c) x (port_id c) (eth_conf c).
Definition with_port_id (x : Z) (c : EthDevConfig) : EthDevConfig :=
  mk_config (mempool_name c) (num_mbufs c) (data_room_size c) (nb_rx_queues c) (nb_tx_queues c) (rx_desc c) (tx_desc c) (mtu c) x (eth_conf c).
Definition with_eth_conf (x : Eth.EthConf) (c : EthDevConfig) : EthDevConfig :=
  mk_config (mempool_name c) (num_mbufs c) (data_room_size c) (nb_rx_queues c) (nb_tx_queues c) (rx_desc c) (tx_desc c) (mtu c) (port_id c) (Some x).

(** A [usize] subtraction, which panics below zero. *)
Definition mbuf_capacity (c : EthDevConfig) : Exec Z :=
  if DEFAULT_MBUF_HEADROOM <=? data_room_size c then Ret (data_room_size c - DEFAULT_MBUF_HEADROOM) else Panic.

Section Build.
Context `{PktMbuf} `{RteMempool}.
Context {rxconf txconf drv : Type}.
Context (drv_run : Eth.eth_call (pool := pool_ptr) (rxconf := rxconf) (txconf := txconf) -> drv -> Z * Eth.eth_out * drv) (drv_errno : drv -> Z).

Definition pool_config (c : EthDevConfig) : Pktmbuf.MemPoolConfig :=
  Pktmbuf.with_data_room_size (data_room_size c) (Pktmbuf.with_num_mbufs (num_mbufs c) Pktmbuf.MemPoolConfig_new).

Definition builder (c : EthDevConfig) : Eth.EthDevBuilder (rxconf := rxconf) (txconf := txconf) :=
  Eth.b_with_tx_queue_conf (Eth.with_nb_desc (tx_desc c) Eth.QueueConf_default)
    (Eth.b_with_rx_queue_conf (Eth.with_nb_desc (rx_desc c) Eth.QueueConf_default)
      (Eth.b_with_nb_tx_queues (nb_tx_queues c) (Eth.b_with_nb_rx_queues (nb_rx_queues c)
        (Eth.b_with_eth_conf (default Eth.EthConf_new (eth_conf c)) (Eth.Builder_new (port_id c)))))).

(** [build]: when the port fails, the last handle of the pool goes with it. *)
Definition build (c : EthDevConfig) (w : rte) (d : drv) (log : list Eth.eth_call)
    : Exec (Result (pool_ptr * Eth.EthDev) Errno) * rte * (drv * list Eth.eth_call) :=
  match Pktmbuf.create (mempool_name c) (pool_config c) w with
  | (Err e, w) => (Ret (Err e), w, (d, log))
  | (Ok mempool, w) =>
      let '(r, s) := Eth.build drv_run drv_errno (builder c) mempool (d, log) in
      match r with
      | Ret (Ok eth_dev) => (Ret (Ok (mempool, eth_dev)), w, s)
      | Ret (Err e) => (Ret (Err e), Pktmbuf.drop_pool mempool w, s)
      | Panic => (Panic, Pktmbuf.drop_pool mempool w, s)
      | UB => (UB, w, s)
      end
  end.

End Build.

Section CreateDevice.
Context `{EthBurst}.

Definition create_device (c : EthDevConfig) (mempool : pool_ptr) (queue_id : Z) : Exec Device.DpdkDevice :=
  let rxq := Queue.mk_rxq (port_id c) queue_id in
  let txq := Queue.mk_txq (port_id c) queue_id in
  capacity ← mbuf_capacity c;
  Device.new rxq txq mempool (mtu c) capacity.

(** [create_device] works exactly for the configurations whose buffers hold a
    full packet besides the headroom; the device then serves the queue asked
    for on the configured port with the configured MTU.  Every other
    configuration panics, and the default one is not among these. *)
Theorem create_device_iff c mempool q :
  (create_device c mempool q = Ret (Device.mk_dev (Queue.mk_rxq (port_id c) q) (Queue.mk_txq (port_id c) q) mempool [] []
     (mtu c) (data_room_size c - DEFAULT_MBUF_HEADROOM) 0 None None None 0) <->
   0 <= data_room_size c - DEFAULT_MBUF_HEADROOM /\ mtu c + Device.MAX_PACKET_OVERHEAD <= data_room_size c - DEFAULT_MBUF_HEADROOM) /\
  ((forall d, create_device c mempool q <> Ret d) -> create_device c mempool q = Panic) /\
  exists d, create_device new mempool q = Ret d.
Proof.
  unfold create_device, mbuf_capacity, Device.new. split_and!.
  - destruct (Z.leb_spec DEFAULT_MBUF_HEADROOM (data_room_size c)); cbn [mbind exec_bind]; [|split; [done|lia]].
    destruct (Z.leb_spec (mtu c + Device.MAX_PACKET_OVERHEAD) (data_room_size c - DEFAULT_MBUF_HEADROOM)); cbn; split; done || (intros; lia) || (intros; split; lia).
  - intros Hno. destruct (DEFAULT_MBUF_HEADROOM <=? data_room_size c); cbn [mbind exec_bind] in *; [|done].
    destruct (_ <=? _); cbn in *; [|done]. by destruct (Hno _ eq_refl).
  - by eexists.
Qed.

End CreateDevice.

Section BuildProofs.
Context `{PktMbuf} `{RteMempool}.
Context {rxconf txconf drv : Type}.
Context (drv_run : Eth.eth_call (pool := pool_ptr) (rxconf := rxconf) (txconf := txconf) -> drv -> Z * Eth.eth_out * drv) (drv_errno : drv -> Z).
Context (drv_u16 : forall c d r n d', drv_run c d = (r, Eth.OInfo n, d') -> 0 <= n <= u16_max).

(** The outcomes of [build]. *)
Lemma build_result c w d : nb_rx_queues c <= 65535 ->
  let b := builder (rxconf := rxconf) (txconf := txconf) c in
  let '(res, w', (_, log)) := build drv_run drv_errno c w d [] in
  match Pktmbuf.create (mempool_name c) (pool_config c) w with
  | (Err e, w1) => res = Ret (Err e) /\ w' = w1 /\ log = []
  | (Ok p, w1) =>
      match res with
      | Ret (Ok (p', dev)) => p' = p /\ Eth.port_id dev = port_id c /\ w' = w1 /\
          exists rss, Eth.rss_stages b rss /\ Eth.stages log = Eth.build_stages b rss
      | Ret (Err _) => w' = Pktmbuf.drop_pool p w1 /\ exists rss, Eth.rss_stages b rss /\ Eth.stages log `prefix_of` Eth.build_stages b rss
      | Panic | UB => False
      end
  end.
Proof.
  intros Hq b. unfold build. destruct (Pktmbuf.create _ _ w) as [[p|e] w1]; [|done].
  pose proof (Eth.build_calls drv_run drv_errno drv_u16 b p d Hq) as Hb. fold b.
  destruct (Eth.build drv_run drv_errno b p (d, [])) as [[[dev|e]| |] [d' log]]; try done.
  destruct Hb as [Hp Hs]. by split_and!.
Qed.

(** [EthDevConfig::build] either gives a pool of the configured geometry with
    the port started on it, after the documented sequence of port calls for the
    configured queues, or fails; a failure of the port frees the pool, a failure
    of the pool makes no port call, and it never panics. *)
Theorem config_build_outcome c w d (Hq : nb_rx_queues c <= 65535) :
  let b := builder (rxconf := rxconf) (txconf := txconf) c in
  let '(res, w', (_, log)) := build drv_run drv_errno c w d [] in
  match Pktmbuf.create (mempool_name c) (pool_config c) w with
  | (Err e, w1) => res = Ret (Err e) /\ w' = w1 /\ log = []
  | (Ok p, w1) =>
      match res with
      | Ret (Ok (p', dev)) => p' = p /\ Eth.port_id dev = port_id c /\ w' = w1 /\
          exists rss, Eth.rss_stages b rss /\ Eth.stages log = Eth.build_stages b rss
      | Ret (Err _) => w' = Pktmbuf.drop_pool p w1 /\ exists rss, Eth.rss_stages b rss /\ Eth.stages log `prefix_of` Eth.build_stages b rss
      | Panic | UB => False
      end
  end.
Proof. by apply build_result. Qed.

End BuildProofs.

(** ** An example: the default configuration with two queues on a port whose
    calls all succeed. *)
#[local] Existing Instance Mbuf.ref_pktmbuf.
#[local] Existing Instance Queue.ref_mempool.

Definition two : EthDevConfig := with_nb_queues 2 new.

Lemma config_build_outcome_witness :
  exists p dev w' d' log, build Eth.ref_driver (fun _ => 0) two (Queue.world0 8 [] 8) tt [] = (Ret (Ok (p, dev)), w', (d', log)) /\
    Eth.port_id dev = 0 /\ exists rss, Eth.rss_stages (builder (rxconf := unit) (txconf := unit) two) rss /\ Eth.stages log = Eth.build_stages (builder (rxconf := unit) (txconf := unit) two) rss.
Proof.
  pose proof (config_build_outcome Eth.ref_driver (fun _ => 0) Eth.ref_driver_u16 two (Queue.world0 8 [] 8) tt ltac:(vm_compute; discriminate)) as Ho.
  assert ((build Eth.ref_driver (fun _ => 0) two (Queue.world0 8 [] 8) tt []).1.1 = Ret (Ok (tt, Eth.mk_ethdev 0))) as Hr by (vm_compute; reflexivity).
  cbv zeta in Ho. match type of Hr with ?b.1.1 = _ => destruct b as [[res w'] [d' log]] end. simpl in Hr. subst res.
  exists tt, (Eth.mk_ethdev 0), w', d', log. split; [reflexivity|].
  destruct (Pktmbuf.create _ _ _) as [[p|e] w1]; [|destruct Ho as [[=] _]]. destruct Ho as (_ & Hp & _ & Hs). by split.
Defined.

End EthDevConfig.
