(* ===== verification/AppServers.v ===== *)
(** * Servers of the application layer
      ([dpdk-net-test/src/app/echo_server.rs], [http_server.rs], [tokio_server.rs])

    The task of an echo connection and the accept loops of the echo and HTTP
    servers as futures over the sockets of [Tcp]: a poll runs until the future
    is pending or done.  The thread-per-core server on tokio's sockets is given
    by its socket calls and its threads. *)

From stdpp Require Import base gmap list fin_maps.
From Stdlib Require Import ZArith Strings.Byte Lia.
From S2P Require Import Prelude Mbuf Pktmbuf Queue ArpCache Device Smoltcp Reactor Tcp.

Module AppServers.
Import Reactor Tcp.

Local Open Scope Z_scope.

(** ** Echo connections *)

(** The counters are [AtomicU64]s; [fetch_add] wraps. *)
Record ServerStats := mk_stats { connections : Z; bytes_received : Z; bytes_sent : Z; send_errors : Z }.
Definition stats_new : ServerStats := mk_stats 0 0 0 0.
Definition u64_add (x n : Z) : Z := wrap 64 (x + n).
Definition add_connections (n : Z) (st : ServerStats) : ServerStats :=
  mk_stats (u64_add (connections st) n) (bytes_received st) (bytes_sent st) (send_errors st).
Definition add_received (n : Z) (st : ServerStats) : ServerStats :=
  mk_stats (connections st) (u64_add (bytes_received st) n) (bytes_sent st) (send_errors st).
Definition add_sent (n : Z) (st : ServerStats) : ServerStats :=
  mk_stats (connections st) (bytes_received st) (u64_add (bytes_sent st) n) (send_errors st).
Definition add_send_errors (n : Z) (st : ServerStats) : ServerStats :=
  mk_stats (connections st) (bytes_received st) (bytes_sent st) (u64_add (send_errors st) n).

(** Where [handle_connection] is suspended: in [recv], in [send] with the data
    read and the offset reached, in [close]; or returned. *)
Inductive echo_state :=
  | ERecv
  | ESend (data : list byte) (offset : nat)
  | EClose
  | EDone.

Section Echo.
Context `{Smoltcp}.

(** One poll of the task of [handle_connection]; [None] when it has not ended
    within [fuel] turns.  When the function returns the stream is dropped. *)
Fixpoint echo_poll (fuel : nat) (cx : Waker) (t : TcpStream) (e : echo_state) (st : ServerStats) (r : ReactorInner)
    : Exec (option (echo_state * ServerStats * ReactorInner)) :=
  match fuel with
  | O => Ret None
  | S fuel =>
      match e with
      | ERecv =>
          '(p, r) ← poll_recv cx t 4096 r;
          match p with
          | Pending => Ret (Some (ERecv, st, r))
          | Ready (Ok []) => echo_poll fuel cx t EClose st r
          | Ready (Ok data) => echo_poll fuel cx t (ESend data 0) (add_received (zlen data) st) r
          | Ready (Err _) => echo_poll fuel cx t EClose st r
          end
      | ESend data offset =>
          o ← poll_send_all (S (length data)) cx t data offset r;
          match o with
          | None => Ret None
          | Some (Pending, offset, r) => Ret (Some (ESend data offset, st, r))
          | Some (Ready (Ok len), _, r) => echo_poll fuel cx t ERecv (add_sent (Z.of_nat len) st) r
          | Some (Ready (Err _), _, r) => echo_poll fuel cx t EClose (add_send_errors 1 st) r
          end
      | EClose =>
          '(p, r) ← poll_close_io cx t r;
          match p with
          | Pending => Ret (Some (EClose, st, r))
          | Ready _ => r ← drop_stream t r; Ret (Some (EDone, st, r))
          end
      | EDone => Ret (Some (EDone, st, r))
      end
  end.

(** ** Accept loops *)

(** The variables of [EchoServer::run] and of the [run]s of the HTTP servers;
    [spawned] are the tasks started, by connection id. *)
Record server := mk_server { listener : TcpListener; conn_id : Z; stats : ServerStats; spawned : list (Z * TcpStream) }.

Definition on_accept (counts : bool) (t : TcpStream) (v : server) : server :=
  mk_server (listener v) (conn_id v + 1) (if counts then add_connections 1 (stats v) else stats v) (spawned v ++ [(conn_id v, t)]).
Definition with_listener (l : TcpListener) (v : server) : server := mk_server l (conn_id v) (stats v) (spawned v).

(** The servers as they are built; the token of the cancellation is what
    [cancelled] below says of it, and [queue_id] is only logged. *)
Record EchoServer := mk_echo_server { es_listener : TcpListener; es_stats : ServerStats; es_queue_id : Z; es_port : Z }.
Record HyperServer {F : Type} := mk_hyper_server { hs_listener : TcpListener; handler : F; hs_queue_id : Z; hs_port : Z }.
Definition echo_server_new := mk_echo_server.
Definition http_auto_server_new {F} := @mk_hyper_server F.
Definition http1_server_new {F} := @mk_hyper_server F.
Definition http2_server_new {F} := @mk_hyper_server F.

(** The variables at the start of their [run]s. *)
Definition echo_start (s : EchoServer) : server := mk_server (es_listener s) 0 (es_stats s) [].
Definition hyper_start {F} (s : @HyperServer F) : server := mk_server (hs_listener s) 0 stats_new [].

(** One poll of the loop.  [select!] polls its branches in an order chosen at
    random: [choices] says for each turn whether the accept comes first, and its
    length bounds the turns; [None] when they are used up.  The boolean of the
    result is set when the loop was left. *)
Fixpoint serve_poll (counts : bool) (choices : list bool) (cx : Waker) (cancelled : bool) (v : server) (r : ReactorInner)
    : Exec (option (bool * server * ReactorInner)) :=
  match choices with
  | [] => Ret None
  | accept_first :: choices =>
      if cancelled && negb accept_first then Ret (Some (true, v, r))
      else
        '(p, l, r) ← poll_accept cx (listener v) r;
        let v := with_listener l v in
        match p with
        | Ready (Ok stream) => serve_poll counts choices cx cancelled (on_accept counts stream v) r
        | Ready (Err _) => serve_poll counts choices cx cancelled v r
        | Pending => Ret (Some (cancelled, v, r))
        end
  end.

(** [EchoServer::run] counts its connections; the HTTP servers do not.  They
    differ in the task they spawn: [handle_connection] above, or hyper's
    [serve_connection] in its automatic, HTTP/1 and HTTP/2 forms. *)
Definition echo_server_run := serve_poll true.
Definition http_auto_server_run := serve_poll false.
Definition http1_server_run := serve_poll false.
Definition http2_server_run := serve_poll false.

End Echo.

(** ** Handlers *)

Section Handlers.
Context {parts body bytes response hyper_error : Type}.
(** [body.collect().await] of [http_body_util] *)
Variable collect : body -> Result bytes hyper_error.

(** [with_collected_body] of both servers: the body is collected before the
    handler runs, and a failure to collect it skips the handler. *)
Definition with_collected_body (handler : parts * bytes -> Result response hyper_error) (req : parts * body) : Result response hyper_error :=
  let '(p, b) := req in
  match collect b with
  | Ok body_bytes => handler (p, body_bytes)
  | Err e => Err e
  end.

End Handlers.

(** A response with the fields [echo_service] sets. *)
Record EchoResponse := mk_echo { status : Z; content_type : list byte; e_body : list byte }.
Definition echo_service {parts hyper_error} (req : parts * list byte) : Result EchoResponse hyper_error :=
  Ok (mk_echo 200 [x74; x65; x78; x74; x2f; x70; x6c; x61; x69; x6e] req.2).

(** ** The tokio servers *)

(** The calls that set up a worker's socket in [run_accept_loop]; the first to
    fail panics. *)
Inductive socket_call := SNew (ipv4 : bool) | SReusePort | SReuseAddress | SNonblocking | SBind | SListen (backlog : Z) | SFromStd.

Definition setup_calls (is_ipv4 : bool) : list socket_call :=
  [SNew is_ipv4; SReusePort; SReuseAddress; SNonblocking; SBind; SListen 1024; SFromStd].

Fixpoint expect_all (ok : socket_call -> bool) (calls made : list socket_call) : Exec unit * list socket_call :=
  match calls with
  | [] => (Ret tt, made)
  | c :: calls => if ok c then expect_all ok calls (made ++ [c]) else (Panic, made ++ [c])
  end.

(** What the [select!] of a tokio accept loop yields. *)
Inductive tokio_event (S E : Type) := TCancelled | TAccepted (r : Result S E).
Arguments TCancelled {S E}.
Arguments TAccepted {S E} r.

Fixpoint tokio_loop {S E} (evs : list (tokio_event S E)) (tasks : list S) : bool * list S :=
  match evs with
  | [] => (true, tasks)
  | TCancelled :: _ => (false, tasks)
  | TAccepted (Ok s) :: evs => tokio_loop evs (tasks ++ [s])
  | TAccepted (Err _) :: evs => tokio_loop evs tasks
  end.

(** [run_accept_loop] *)
Definition run_accept_loop {S E} (ok : socket_call -> bool) (is_ipv4 : bool) (evs : list (tokio_event S E)) : Exec (bool * list S) * list socket_call :=
  match expect_all ok (setup_calls is_ipv4) [] with
  | (Ret _, made) => (Ret (tokio_loop evs []), made)
  | (Panic, made) => (Panic, made)
  | (UB, made) => (UB, made)
  end.

(** [run_tokio_multi_thread_server]: one listener; its loop ends at Ctrl-C. *)
Definition run_tokio_multi_thread_server {S E} (runtime_ok bind_ok : bool) (evs : list (tokio_event S E)) : Exec (bool * list S) :=
  if runtime_ok && bind_ok then Ret (tokio_loop evs []) else Panic.

(** ** The accept loops *)

Section AcceptProofs.
Context `{HL : EthBurstLaws} {HI : HashMapIter} {HS : Smoltcp} {HSL : SmoltcpLaws}.

Definition established (r : ReactorInner) (h : SocketHandle) : bool :=
  match set_get (sockets r) h with Some (inl s) => bool_decide (tcp_state s = Established) | _ => false end.
Definition waiting (r : ReactorInner) (l : TcpListener) : list SocketHandle := List.filter (established r) (handles l).

Lemma established_at r h : established r h = true <-> state_at r h Established.
Proof.
  unfold established, state_at. destruct (set_get (sockets r) h) as [[s|?]|]; [|by split; [|intros (? & ? & ?)]..].
  rewrite bool_decide_eq_true. split; [by exists s|]. by intros (s' & [= <-] & ?).
Qed.

Lemma filter_all_false r hs : Forall (fun h => ~ state_at r h Established) hs -> List.filter (established r) hs = [].
Proof.
  induction 1 as [|h hs Hh _ IH]; [done|]. simpl. destruct (established r h) eqn:E; [|done]. by apply established_at in E.
Qed.

Lemma filter_ext_in r r' hs : Forall (fun h => set_get (sockets r') h = set_get (sockets r) h) hs ->
  List.filter (established r') hs = List.filter (established r) hs.
Proof.
  induction 1 as [|h hs Hh _ IH]; [done|]. simpl. assert (established r' h = established r h) as -> by (unfold established; by rewrite Hh). by rewrite IH.
Qed.

(** An accept takes the first waiting connection and leaves the others. *)
Lemma accept_waiting r r' l idx h h' : Forall (live r) (handles l) -> handles l !! idx = Some h -> established r h = true ->
  Forall (fun h => ~ state_at r h Established) (take idx (handles l)) -> fresh_listening r r' h' ->
  let l' := mk_listener (<[idx := h']> (handles l)) (port l) (rx_buffer_size l) (tx_buffer_size l) in
  waiting r l = h :: waiting r' l' /\ Forall (live r') (handles l') /\ exists h, h ∈ handles l' /\ state_at r' h Listen.
Proof.
  intros Hl Hi He Hfirst (Hnew & Hlis & Hsame & _) l'. unfold waiting. simpl.
  assert (forall hs, Forall (live r) hs -> Forall (fun h => set_get (sockets r') h = set_get (sockets r) h) hs) as Hkeep.
  { intros hs Hhs. eapply Forall_impl; [exact Hhs|]. intros x [s Hs]. apply Hsame. intros ->. congruence. }
  pose proof (take_drop_middle _ _ _ Hi) as Ehs. rewrite <- Ehs in Hl. apply Forall_app in Hl as [Hl1 Hl2]. apply Forall_cons in Hl2 as [_ Hl2].
  rewrite insert_take_drop by by eapply lookup_lt_Some. split_and!.
  - rewrite <- Ehs at 1. rewrite !List.filter_app. cbn [List.filter]. rewrite He, (filter_all_false _ _ Hfirst).
    rewrite (filter_ext_in r r' (take idx _)), (filter_all_false _ _ Hfirst) by by apply Hkeep.
    rewrite (filter_ext_in r r' (drop _ _)) by by apply Hkeep. simpl. destruct (established r' h') eqn:E; [|done].
    apply established_at in E as (s & Hs & E). destruct Hlis as (s' & Hs' & E'). congruence.
  - apply Forall_app. split; [|constructor].
    + eapply Forall_impl; [exact (proj2 (Forall_and _ _) (conj (Hkeep _ Hl1) Hl1))|]. intros x [Ex [s Hs]]. exists s. congruence.
    + destruct Hlis as (s & Hs & _). by exists s.
    + eapply Forall_impl; [exact (proj2 (Forall_and _ _) (conj (Hkeep _ Hl2) Hl2))|]. intros x [Ex [s Hs]]. exists s. congruence.
  - exists h'. split; [|done]. apply elem_of_app. right. by left.
Qed.

(** Ids from the counter on, for the streams taken. *)
Definition numbered (id : Z) (hs : list SocketHandle) : list (Z * TcpStream) := imap (fun i h => (id + Z.of_nat i, mk_stream h)) hs.

Lemma numbered_cons id h hs : numbered id (h :: hs) = (id, mk_stream h) :: numbered (id + 1) hs.
Proof.
  unfold numbered. rewrite imap_cons. f_equal; [f_equal; lia|]. apply imap_ext. intros i x _. simpl. f_equal. lia.
Qed.


(** A dead listener starves its thread: when every socket of the listener is
    closed, [accept] fails at once, the loop logs the error and tries again, and
    no poll of the loop ever returns; on the single-threaded runtime the reactor,
    which alone could change that, is not polled again. *)
Theorem dead_listener_starves counts choices cx v r
    (Hl : Forall (live r) (handles (listener v)))
    (Hdead : Forall (fun h => forall st, state_at r h st -> closedb st = true) (handles (listener v))) :
  serve_poll counts choices cx false v r = Ret None.
Proof.
  revert v Hl Hdead. induction choices as [|b choices IH]; intros v Hl Hdead; [done|]. cbn [serve_poll andb].
  destruct (poll_accept_run cx (listener v) r Hl) as (p & l' & r' & E & Hp).
  unfold poll_accept in *. destruct (find_established_run 0 (handles (listener v)) r Hl) as (o & Eo & Ho). rewrite Eo in *. cbn [mbind exec_bind] in *.
  destruct o as [k|].
  { destruct Ho as (j & h & _ & Hj & Hst & _). apply list_elem_of_lookup_2 in Hj. rewrite Forall_forall in Hdead. by apply (Hdead h Hj) in Hst. }
  destruct (any_state_run (fun st => match st with Closed | TimeWait => false | _ => true end) _ _ Hl) as (bb & Ea & Hb). rewrite Ea in *.
  cbn [mbind exec_bind] in *. destruct bb.
  { destruct Hb as [Hb _]. specialize (Hb eq_refl). apply Exists_exists in Hb as (h & Hh & st & Hst & Hc). rewrite Forall_forall in Hdead.
    specialize (Hdead h Hh st Hst). by destruct st. }
  by apply IH.
Qed.

End AcceptProofs.

(** ** The echo task *)

(** What the socket operations do to the two byte streams of a socket, and the
    bytes that wait in its receive buffer. *)
Class TcpStreams `{Smoltcp} := {
  rx_left : tcp_sock -> nat;
  recv_slice_streams : forall n s x s', tcp_recv_slice n s = (x, s') ->
    tcp_accepted s' = tcp_accepted s /\ match x with Ok bs => (rx_left s' + length bs = rx_left s)%nat | Err _ => True end;
  send_slice_streams : forall d s x s', tcp_send_slice d s = (x, s') -> tcp_delivered s' = tcp_delivered s /\ rx_left s' = rx_left s;
  close_streams : forall s, tcp_delivered (tcp_close s) = tcp_delivered s /\ tcp_accepted (tcp_close s) = tcp_accepted s;
  recv_waker_streams : forall w s, tcp_delivered (tcp_register_recv_waker w s) = tcp_delivered s;
  send_waker_streams : forall w s, tcp_delivered (tcp_register_send_waker w s) = tcp_delivered s /\ rx_left (tcp_register_send_waker w s) = rx_left s
}.

Section EchoProofs.
Context `{HL : EthBurstLaws} {HI : HashMapIter} {HS : Smoltcp} {HSL : SmoltcpLaws} {HT : TcpStreams}.

(** The next operation on the stream's socket, known by [Hs]. *)
Ltac on_stream Hs r' E Hs' :=
  match goal with |- context [with_tcp (handle ?t) ?f ?r] => destruct (with_tcp_stream t f r _ Hs) as (r' & E & Hs') end.

Definition same_streams (s s' : tcp_sock) : Prop := tcp_delivered s' = tcp_delivered s /\ tcp_accepted s' = tcp_accepted s.

Lemma poll_recv_streams cx t r s : sock_of t r = Some s ->
  exists p r' s', poll_recv cx t 4096 r = Ret (p, r') /\ sock_of t r' = Some s' /\ tcp_accepted s' = tcp_accepted s /\
    match p with
    | Ready (Ok bs) => tcp_delivered s' = tcp_delivered s ++ bs /\ (rx_left s' + length bs <= rx_left s \/ bs = [])%nat
    | _ => tcp_delivered s' = tcp_delivered s
    end.
Proof.
  intros Hs. unfold poll_recv. cbn [Nat.eqb].
  on_stream Hs r' E Hs'. rewrite E. eexists _, r', _. split; [done|]. split; [exact Hs'|].
  destruct (tcp_recv_slice 4096 s) as [x s1] eqn:Er. destruct (recv_slice_streams _ _ _ _ Er) as [Ha Hx].
  destruct x as [[|b bs]|[]]; simpl in *.
  - rewrite recv_waker_accepted, recv_waker_streams. split; [done|]. destruct (recv_slice_spec _ _ _ _ Er) as [_ ->]. by rewrite app_nil_r.
  - split; [done|]. split; [apply (recv_slice_spec _ _ _ _ Er)|]. left. lia.
  - by rewrite (recv_slice_err _ _ _ _ Er).
  - rewrite (recv_slice_err _ _ _ _ Er), app_nil_r. split_and!; [done|done|by right].
Qed.

Lemma poll_send_streams cx t buf r s p r' : sock_of t r = Some s -> poll_send cx t buf r = Ret (p, r') ->
  exists s', sock_of t r' = Some s' /\ tcp_delivered s' = tcp_delivered s /\ rx_left s' = rx_left s.
Proof.
  intros Hs. unfold poll_send.
  on_stream Hs r1 E Hs'. rewrite E. intros [= <- <-]. eexists. split; [exact Hs'|].
  destruct (tcp_send_slice buf s) as [x s1] eqn:Es. destruct (send_slice_streams _ _ _ _ Es) as [Hd Hl].
  destruct x as [n|[]]; [destruct (_ && _)|]; simpl; [|done..]. destruct (send_waker_streams cx s1) as [-> ->]. done.
Qed.

Lemma poll_send_all_streams fuel cx t data off r s p off' r' : sock_of t r = Some s ->
  poll_send_all fuel cx t data off r = Ret (Some (p, off', r')) ->
  exists s', sock_of t r' = Some s' /\ tcp_delivered s' = tcp_delivered s /\ rx_left s' = rx_left s.
Proof.
  revert off r s. induction fuel as [|fuel IH]; intros off r s Hs; cbn [poll_send_all]; [done|].
  destruct (_ <? _)%nat; [|intros [= <- <- <-]; by exists s]. destruct (slice _ _ _) as [rest| |]; cbn [mbind exec_bind]; [|done..].
  destruct (poll_send cx t rest r) as [[q r1]| |] eqn:E; cbn [mbind exec_bind]; [|done..].
  destruct (poll_send_streams _ _ _ _ _ _ _ Hs E) as (s1 & Hs1 & Hd & Hl).
  destruct q as [[n|e]|].
  - intros Hr. destruct (IH _ _ _ Hs1 Hr) as (s2 & Hs2 & Hd2 & Hl2). exists s2. split_and!; congruence.
  - intros [= <- <- <-]. by exists s1.
  - intros [= <- <- <-]. by exists s1.
Qed.

Lemma close_wait_streams cx t r s : sock_of t r = Some s ->
  exists p r' s', close_wait cx t r = Ret (p, r') /\ sock_of t r' = Some s' /\ same_streams s s'.
Proof.
  intros Hs. unfold close_wait. on_stream Hs r' E Hs'.
  rewrite E. eexists _, r', _. split; [done|]. split; [exact Hs'|]. unfold same_streams.
  pose proof (send_waker_streams cx s) as [Hd _]. pose proof (send_waker_accepted cx s). by destruct (tcp_state s).
Qed.

Lemma poll_close_streams cx t r s : sock_of t r = Some s ->
  exists p r' s', poll_close_io cx t r = Ret (p, r') /\ sock_of t r' = Some s' /\ same_streams s s'.
Proof.
  intros Hs. unfold poll_close_io. rewrite (get_tcp_ret _ _ _ (proj1 (sock_of_get _ _ _) Hs)). cbn [mbind exec_bind].
  destruct (with_tcp_stream t (fun s => (tt, tcp_close s)) r s Hs) as (r1 & E1 & Hs1). simpl in E1, Hs1.
  assert (exists p r' s', close_wait cx t r1 = Ret (p, r') /\ sock_of t r' = Some s' /\ same_streams s s') as Hw1.
  { destruct (close_wait_streams cx t r1 _ Hs1) as (p & r' & s' & ? & ? & Hd & Ha). exists p, r', s'.
    destruct (close_streams s). split_and!; [done|done|]. split; congruence. }
  pose proof (close_wait_streams cx t r s Hs) as Hw2.
  destruct (tcp_state s); rewrite ?E1; cbn [mbind exec_bind]; try exact Hw1; try exact Hw2; by eexists _, r, s.
Qed.

Lemma drop_stream_ret t r s : sock_of t r = Some s -> exists r', drop_stream t r = Ret r'.
Proof.
  intros Hs. pose proof (proj1 (sock_of_get _ _ _) Hs) as Hg. unfold drop_stream. rewrite (get_tcp_ret _ _ _ Hg). cbn [mbind exec_bind].
  destruct (with_tcp_stream t (fun s => (tt, tcp_abort s)) r s Hs) as (r1 & E1 & _). simpl in E1. unfold remove. rewrite Hg.
  destruct (tcp_state s); rewrite ?E1; cbn [mbind exec_bind]; by eexists.
Qed.

(** The counters of the task when it has received [n] bytes and completed
    sending [k] of them, on top of the [base] the other connections counted. *)
Definition counts (base st : ServerStats) (n k : Z) : Prop :=
  bytes_received st = wrap 64 (bytes_received base + n) /\ bytes_sent st = wrap 64 (bytes_sent base + k) /\ connections st = connections base.

(** The echo task's invariant, behind the bytes [d0] and [a0] that the socket
    had handed out and accepted before. *)
Definition echo_inv (base : ServerStats) (d0 a0 : list byte) (e : echo_state) (st : ServerStats) (o : option tcp_sock) : Prop :=
  match e, o with
  | ERecv, Some s => exists echoed, tcp_delivered s = d0 ++ echoed /\ tcp_accepted s = a0 ++ echoed /\ counts base st (zlen echoed) (zlen echoed)
  | ESend data off, Some s => exists echoed, (off <= length data)%nat /\ tcp_delivered s = d0 ++ echoed ++ data /\
      tcp_accepted s = a0 ++ echoed ++ take off data /\ counts base st (zlen echoed + zlen data) (zlen echoed)
  | EClose, Some s => exists echoed lost k, tcp_delivered s = d0 ++ echoed ++ lost /\ tcp_accepted s = a0 ++ echoed /\
      counts base st (zlen echoed + zlen lost) k /\ 0 <= k <= zlen echoed
  | EDone, _ => exists n k, counts base st n k /\ 0 <= k <= n
  | _, None => False
  end.

(** The turns a poll may take. *)
Definition turns (e : echo_state) (s : tcp_sock) : nat :=
  match e with ERecv => 2 * rx_left s + 2 | ESend _ _ => 2 * rx_left s + 3 | EClose | EDone => 1 end.

Lemma u64_add_wrap x n : u64_add (wrap 64 x) n = wrap 64 (x + n).
Proof. unfold u64_add, wrap. apply Zplus_mod_idemp_l. Qed.

Lemma counts_received base st n k m : counts base st n k -> counts base (add_received m st) (n + m) k.
Proof. intros (Hr & Hs & Hc). split_and!; try done. simpl. by rewrite Hr, u64_add_wrap, Z.add_assoc. Qed.
Lemma counts_sent base st n k m : counts base st n k -> counts base (add_sent m st) n (k + m).
Proof. intros (Hr & Hs & Hc). split_and!; try done. simpl. by rewrite Hs, u64_add_wrap, Z.add_assoc. Qed.

Lemma echo_poll_run base d0 a0 cx t fuel e st r s : sock_of t r = Some s -> echo_inv base d0 a0 e st (Some s) -> (turns e s <= fuel)%nat ->
  exists e' st' r', echo_poll fuel cx t e st r = Ret (Some (e', st', r')) /\
    echo_inv base d0 a0 e' st' (sock_of t r') /\ (e' <> EDone -> is_Some (sock_of t r')).
Proof.
  revert e st r s. induction fuel as [|fuel IH]; intros e st r s Hs Hi Hf; [destruct e; simpl in Hf; lia|]. cbn [echo_poll]. destruct e as [|data off| |].
  - destruct Hi as (echoed & Hd & Ha & Hc). destruct (poll_recv_streams cx t r s Hs) as (p & r1 & s1 & -> & Hs1 & Ha1 & Hp). cbn [mbind exec_bind].
    simpl in Hf. destruct p as [[[|b bs]|err]|].
    + apply IH with s1; [done| |simpl; lia]. destruct Hp as [Hd1 _]. rewrite app_nil_r in Hd1.
      exists echoed, [], (zlen echoed). rewrite Hd1, Ha1, app_nil_r, zlen_nil, Z.add_0_r. split_and!; [done..|apply zlen_nonneg|lia].
    + destruct Hp as [Hd1 [Hl|]]; [|done]. apply IH with s1; [done| |simpl in *; lia].
      exists echoed. rewrite Hd1, Ha1, take_0, app_nil_r, Hd, <- app_assoc. split_and!; [simpl; lia|done|done|]. by apply counts_received.
    + apply IH with s1; [done| |simpl; lia].
      exists echoed, [], (zlen echoed). rewrite Hp, Ha1, app_nil_r, zlen_nil, Z.add_0_r. split_and!; [done..|apply zlen_nonneg|lia].
    + eexists _, _, r1. split; [done|]. rewrite Hs1. split; [|done]. exists echoed. by rewrite Hp, Ha1.
  - destruct Hi as (echoed & Ho & Hd & Ha & Hc).
    destruct (poll_send_all_run (S (length data)) cx t data off r s Hs Ho ltac:(lia)) as (p & off' & r1 & s1 & E & Hs1 & Hb & Ha1 & Hp).
    destruct (poll_send_all_streams _ _ _ _ _ _ _ _ _ _ Hs E) as (s1' & Hs1' & Hd1 & Hl1). rewrite Hs1 in Hs1'. injection Hs1' as <-.
    rewrite E. cbn [mbind exec_bind].
    assert (tcp_accepted s1 = a0 ++ echoed ++ take off' data) as Ha2.
    { rewrite Ha1, Ha, <- !app_assoc. do 2 f_equal. rewrite take_take_drop. f_equal. lia. }
    destruct p as [[n|err]|].
    + destruct Hp as [-> ->]. apply IH with s1; [done| |simpl in *; lia]. exists (echoed ++ data). rewrite Hd1, Hd, Ha2, take_ge by lia.
      rewrite zlen_app. split_and!; [done|done|]. by apply counts_sent.
    + apply IH with s1; [done| |simpl in *; lia]. exists (echoed ++ take off' data), (drop off' data), (zlen echoed).
      rewrite Hd1, Hd, Ha2, <- app_assoc, take_drop. split_and!; [done|done| |apply zlen_nonneg|rewrite zlen_app; pose proof (zlen_nonneg (take off' data)); lia].
      destruct Hc as (Hr & Hsn & Hcn). split_and!; [|done|done]. simpl. rewrite Hr. f_equal. unfold zlen. rewrite length_app, length_take, length_drop. lia.
    + eexists _, _, r1. split; [done|]. rewrite Hs1. split; [|done]. exists echoed. rewrite Hd1, Hd. split_and!; [lia|done|done|done].
  - destruct Hi as (echoed & lost & k & Hd & Ha & Hc & Hk).
    destruct (poll_close_streams cx t r s Hs) as (p & r1 & s1 & -> & Hs1 & Hd1 & Ha1). cbn [mbind exec_bind]. destruct p as [x|].
    + destruct (drop_stream_ret t r1 s1 Hs1) as (r2 & ->). cbn [mbind exec_bind]. eexists _, _, r2. split; [done|]. split; [|done].
      exists (zlen echoed + zlen lost), k. split; [done|]. pose proof (zlen_nonneg lost). lia.
    + eexists _, _, r1. split; [done|]. rewrite Hs1. split; [|done]. exists echoed, lost, k. by rewrite Hd1, Ha1.
  - eexists _, _, r. split; [done|]. by rewrite Hs.
Qed.

(** A life of the task: polls, and between them anything that leaves the bytes
    of its socket alone (the reactor, the network, other tasks). *)
Inductive echo_life (t : TcpStream) : echo_state -> ServerStats -> ReactorInner -> echo_state -> ServerStats -> ReactorInner -> Prop :=
  | life_refl e st r : echo_life t e st r e st r
  | life_poll cx fuel e st r e1 st1 r1 e2 st2 r2 :
      echo_poll fuel cx t e st r = Ret (Some (e1, st1, r1)) -> (e <> EDone) ->
      (forall s, sock_of t r = Some s -> turns e s <= fuel)%nat ->
      echo_life t e1 st1 r1 e2 st2 r2 -> echo_life t e st r e2 st2 r2
  | life_env e st r s s1 r1 e2 st2 r2 : sock_of t r = Some s -> sock_of t r1 = Some s1 -> same_streams s s1 ->
      echo_life t e st r1 e2 st2 r2 -> echo_life t e st r e2 st2 r2.

Lemma echo_inv_streams base d0 a0 e st s s1 : same_streams s s1 -> echo_inv base d0 a0 e st (Some s) -> echo_inv base d0 a0 e st (Some s1).
Proof. intros [Hd Ha]. destruct e; simpl; rewrite ?Hd, ?Ha; done. Qed.


End EchoProofs.

(** ** The tokio servers *)

(** The streams accepted before the first cancellation. *)
Fixpoint tokio_accepted {S E} (evs : list (tokio_event S E)) : list S :=
  match evs with
  | [] | TCancelled :: _ => []
  | TAccepted (Ok s) :: evs => s :: tokio_accepted evs
  | TAccepted (Err _) :: evs => tokio_accepted evs
  end.

Lemma tokio_loop_run {S E} (evs : list (tokio_event S E)) tasks : (tokio_loop evs tasks).2 = tasks ++ tokio_accepted evs.
Proof.
  revert tasks. induction evs as [|[|[s|e]] evs IH]; intros tasks; simpl; rewrite ?app_nil_r; try done; by rewrite IH, <- ?app_assoc.
Qed.

Lemma expect_all_made ok calls made : (expect_all ok calls made).2 `prefix_of` made ++ calls /\
  ((expect_all ok calls made).1 = Ret tt -> (expect_all ok calls made).2 = made ++ calls /\ Forall (fun c => ok c = true) calls).
Proof.
  revert made. induction calls as [|c calls IH]; intros made; simpl; [rewrite app_nil_r; by split|].
  assert (made ++ c :: calls = (made ++ [c]) ++ calls) as -> by (by rewrite <- app_assoc).
  destruct (ok c) eqn:E; [|split; [by apply prefix_app_r|done]].
  destruct (IH (made ++ [c])) as [H1 H2]. split; [done|]. intros Hr. destruct (H2 Hr). split; [done|]. by constructor.
Qed.

(** A worker of the tokio server accepts only on a socket that was put into
    port sharing before it was bound, and serves every connection accepted before
    the cancellation, once and in order; a failing call stops it at that call. *)
Theorem run_accept_loop_correct {S E} ok v4 (evs : list (tokio_event S E)) :
  match run_accept_loop ok v4 evs with
  | (Ret (_, tasks), made) => made = setup_calls v4 /\ Forall (fun c => ok c = true) made /\ tasks = tokio_accepted evs
  | (Panic, made) => made `prefix_of` setup_calls v4 /\ exists c, last made = Some c /\ ok c = false
  | (UB, _) => False
  end.
Proof.
  unfold run_accept_loop. pose proof (expect_all_made ok (setup_calls v4) []) as [Hp Hr].
  assert ((expect_all ok (setup_calls v4) []).1 = Panic -> exists c, last (expect_all ok (setup_calls v4) []).2 = Some c /\ ok c = false) as Hf.
  { assert (forall calls made, (expect_all ok calls made).1 = Panic -> exists c, last (expect_all ok calls made).2 = Some c /\ ok c = false) as Hg; [|apply Hg].
    induction calls as [|c calls IH]; intros made; simpl; [done|]. destruct (ok c) eqn:Ec; [apply IH|]. intros _. exists c. cbn [snd]. by rewrite last_snoc. }
  assert ((expect_all ok (setup_calls v4) []).1 <> UB) as Hu.
  { assert (forall calls made, (expect_all ok calls made).1 <> UB) as Hg; [|apply Hg].
    induction calls as [|c calls IH]; intros made; simpl; [done|]. by destruct (ok c). }
  destruct (expect_all _ _ _) as [[[]| |] made]; simpl in *.
  - destruct (Hr eq_refl) as [-> Hok]. pose proof (tokio_loop_run evs []) as Ht. destruct (tokio_loop evs []) as [b tasks]. by split_and!.
  - by split; [|apply Hf].
  - done.
Qed.

(** ** On the reference stack *)

#[local] Existing Instance Mbuf.ref_pktmbuf.
#[local] Existing Instance Queue.ref_mempool.
#[local] Existing Instance Queue.ref_burst.
#[local] Existing Instance Queue.ref_burst_laws.
#[local] Existing Instance Device.ref_hm_iter.
#[local] Existing Instance RefStack.ref_smoltcp.
#[local] Existing Instance RefStack.ref_smoltcp_laws.

#[local, refine] Instance ref_streams : TcpStreams := {| rx_left s := length (RefStack.rt_rx s) |}.
Proof.
  - intros n s x s'. simpl. unfold RefStack.recv_slice. destruct (RefStack.rt_state s); intros [= <- <-]; simpl; try done;
      (split; [done|]); rewrite length_take, length_drop; lia.
  - intros d s x s'. simpl. unfold RefStack.send_slice. by destruct (RefStack.rt_state s); intros [= <- <-].
  - done.
  - done.
  - done.
Defined.

Definition echo_conn : ReactorInner := one_stream 100 [x68; x69].


(** A listener with a connection waiting in its first socket. *)
Definition busy : ReactorInner :=
  set_sockets reactor0 [Some (inl (RefStack.mk_rtcp Established 8 [] [] [] None None)); Some (inl (RefStack.mk_rtcp Listen 8 [] [] [] None None))].
Definition pool : TcpListener := mk_listener [0; 1]%nat 80 8 8.
Definition fresh_server : server := mk_server pool 0 stats_new [].


Lemma dead_listener_starves_witness :
  let r := set_sockets reactor0 [Some (inl (RefStack.mk_rtcp Closed 8 [] [] [] None None))] in
  serve_poll false (replicate 100 true) 7%nat false (mk_server (mk_listener [0]%nat 80 8 8) 0 stats_new []) r = Ret None.
Proof.
  intros r. refine (dead_listener_starves false _ 7%nat (mk_server (mk_listener [0]%nat 80 8 8) 0 stats_new []) r _ _).
  - repeat constructor. by eexists.
  - repeat constructor. by intros st (s & [= <-] & <-).
Defined.

End AppServers.
