(* ===== verification/ThreadServers.v ===== *)
(** * Servers with a thread per core
      ([run_tokio_thread_per_core_server] of [dpdk-net-test/src/app/tokio_server.rs],
      [run_kimojio_thread_per_core_server] of [app/kimojio_server.rs])

    Both servers start a thread per core, each with its own listening socket on
    the shared port and its own accept loop, and wait for all of them.  The
    accept loops are those of [AppServers] and [Kimojio]; here is what the
    servers make of them: which threads are started, how failures of a thread
    show, and when the server returns. *)

From stdpp Require Import base list.
From Stdlib Require Import ZArith Lia.
From S2P Require Import Prelude Smoltcp Text HttpParser HttpServer Kimojio AppServers.

Module ThreadServers.

(** How the call of a server stands: it has returned, it still serves or waits
    for its threads, or it has panicked. *)
Inductive server_end := SEnded | SRunning | SPanicked.

(** [thread::Builder::spawn(..).expect(..)] for each core: the threads started
    with what they do; after a failure the others are not started, those that
    were are detached and go on. *)
Fixpoint spawn_workers {A} (spawn_ok : nat -> bool) (worker : nat -> A) (cores : list nat) : bool * list (nat * A) :=
  match cores with
  | [] => (true, [])
  | core_id :: cores =>
      if spawn_ok core_id then
        let '(ok, handles) := spawn_workers spawn_ok worker cores in (ok, (core_id, worker core_id) :: handles)
      else (false, [])
  end.

(** The loop of [join]s, whose results are ignored. *)
Definition join_all {A} (finished : A -> bool) (handles : list (nat * A)) : server_end :=
  if forallb (fun h => finished h.2) handles then SEnded else SRunning.

Lemma spawn_workers_ok {A} (worker : nat -> A) spawn_ok cores : Forall (fun c => spawn_ok c = true) cores ->
  spawn_workers spawn_ok worker cores = (true, (fun c => (c, worker c)) <$> cores).
Proof. induction 1 as [|c cores Hc _ IH]; [done|]. cbn [spawn_workers fmap list_fmap]. by rewrite Hc, IH. Qed.

Lemma spawn_workers_fail {A} (worker : nat -> A) spawn_ok cores : Exists (fun c => spawn_ok c = false) cores ->
  exists started, started `prefix_of` cores /\ spawn_workers spawn_ok worker cores = (false, (fun c => (c, worker c)) <$> started).
Proof.
  induction cores as [|c cores IH]; intros He; [by apply Exists_nil in He|]. cbn [spawn_workers].
  destruct (spawn_ok c) eqn:Ec; [|exists []; split; [apply prefix_nil | done]].
  apply Exists_cons in He as [He|He]; [congruence|]. destruct (IH He) as (l & Hl & ->). exists (c :: l). split; [by apply prefix_cons | done].
Qed.

Lemma join_all_spec {A} (finished : A -> bool) (worker : nat -> A) cores :
  join_all finished ((fun c => (c, worker c)) <$> cores) = SEnded <-> Forall (fun c => finished (worker c) = true) cores.
Proof.
  unfold join_all. induction cores as [|c cores IH]; [by repeat split; constructor|]. rewrite Forall_cons. cbn [fmap list_fmap forallb snd].
  destruct (finished (worker c)); cbn [andb]; [rewrite IH; clear IH; tauto|]. split; [done|by intros [? _]].
Qed.

Lemma join_all_returns {A} (finished : A -> bool) handles : join_all finished handles <> SPanicked.
Proof. unfold join_all. by destruct (forallb _ _). Qed.

(** ** tokio *)

Section Tokio.
Context {S E : Type}.
Import AppServers.

(** [run_worker]; a failure to pin the thread is only logged. *)
Definition run_worker (runtime_ok : bool) (ok : socket_call -> bool) (is_ipv4 : bool) (evs : list (tokio_event S E)) : Exec (bool * list S) :=
  if runtime_ok then (run_accept_loop ok is_ipv4 evs).1 else Panic.

(** A thread is over when its loop was left or it panicked. *)
Definition worker_over (x : Exec (bool * list S)) : bool := match x with Ret (accepting, _) => negb accepting | _ => true end.

(** The threads for the cores from 1, then core 0 on the calling thread, then
    the joins.  Per core: whether its runtime is built, which socket calls
    succeed, and what its loop sees. *)
Definition run_tokio_thread_per_core_server (num_cores : nat) (spawn_ok : nat -> bool) (runtime_ok : nat -> bool)
    (ok : nat -> socket_call -> bool) (is_ipv4 : bool) (evs : nat -> list (tokio_event S E)) : server_end * list (nat * Exec (bool * list S)) :=
  let worker c := run_worker (runtime_ok c) (ok c) is_ipv4 (evs c) in
  let '(spawned, handles) := spawn_workers spawn_ok worker (seq 1 (num_cores - 1)) in
  if negb spawned then (SPanicked, handles)
  else
    match worker 0%nat with
    | Ret (true, _) => (SRunning, handles ++ [(0%nat, worker 0%nat)])
    | Ret (false, _) => (join_all worker_over handles, handles ++ [(0%nat, worker 0%nat)])
    | _ => (SPanicked, handles ++ [(0%nat, worker 0%nat)])
    end.

(** A core whose runtime and socket come up. *)
Definition core_up (runtime_ok : bool) (ok : socket_call -> bool) : Prop := runtime_ok = true /\ forall c, ok c = true.

Lemma tokio_loop_open (evs : list (tokio_event S E)) tasks : (tokio_loop evs tasks).1 = negb (existsb (fun e => match e with TCancelled => true | _ => false end) evs).
Proof. revert tasks. by induction evs as [|[|[s|e]] evs IH]; intros tasks; cbn; rewrite ?IH. Qed.

Lemma run_worker_up runtime_ok ok is_ipv4 evs : core_up runtime_ok ok ->
  run_worker runtime_ok ok is_ipv4 evs = Ret (tokio_loop evs []).
Proof.
  intros [-> Hok]. unfold run_worker, run_accept_loop, setup_calls. cbn [expect_all]. by rewrite !Hok.
Qed.

Definition cancelled (evs : list (tokio_event S E)) : Prop := existsb (fun e => match e with TCancelled => true | _ => false end) evs = true.

Lemma worker_over_spec runtime_ok ok is_ipv4 evs : core_up runtime_ok ok \/ runtime_ok = false ->
  worker_over (run_worker runtime_ok ok is_ipv4 evs) = true <-> (core_up runtime_ok ok -> cancelled evs).
Proof.
  intros [Hu| ->]; [|split; [by intros _ [[=] _]|done]]. rewrite (run_worker_up _ _ _ _ Hu).
  pose proof (tokio_loop_open evs []) as Hl. destruct (tokio_loop evs []) as [b l]. cbn in Hl. subst b. cbn [worker_over].
  rewrite negb_involutive. naive_solver.
Qed.

(** Every core has one worker once all threads could be started and core 0
    came up, whatever became of the others; each core that came up serves all
    connections it accepted before its cancellation.  The server returns
    exactly when core 0 and every other core that came up have seen the
    cancellation: a core that failed is passed over without an error. *)
Theorem tokio_server_serves n spawn_ok runtime_ok ok is_ipv4 (evs : nat -> list (tokio_event S E)) (Hn : (0 < n)%nat)
    (Hs : forall c, (0 < c < n)%nat -> spawn_ok c = true) (H0 : core_up (runtime_ok 0%nat) (ok 0%nat))
    (Hu : forall c, (c < n)%nat -> core_up (runtime_ok c) (ok c) \/ runtime_ok c = false) :
  exists e ws, run_tokio_thread_per_core_server n spawn_ok runtime_ok ok is_ipv4 evs = (e, ws) /\
    ws.*1 ≡ₚ seq 0 n /\
    (forall c x, (c, x) ∈ ws -> core_up (runtime_ok c) (ok c) -> exists b, x = Ret (b, tokio_accepted (evs c))) /\
    (e = SEnded <-> forall c, (c < n)%nat -> core_up (runtime_ok c) (ok c) -> cancelled (evs c)) /\ e <> SPanicked.
Proof.
  set (worker c := run_worker (runtime_ok c) (ok c) is_ipv4 (evs c)).
  set (handles := (fun c => (c, worker c)) <$> seq 1 (n - 1)).
  exists (if (tokio_loop (evs 0%nat) []).1 then SRunning else join_all worker_over handles), (handles ++ [(0%nat, worker 0%nat)]).
  split_and!.
  - unfold run_tokio_thread_per_core_server. cbv zeta. rewrite spawn_workers_ok by (apply Forall_forall; intros c Hc%elem_of_seq; apply Hs; lia).
    fold worker. fold handles. cbn [negb]. change (worker 0%nat) with (run_worker (runtime_ok 0%nat) (ok 0%nat) is_ipv4 (evs 0%nat)).
    rewrite (run_worker_up _ _ _ _ H0). by destruct (tokio_loop (evs 0%nat) []) as [[] l].
  - rewrite fmap_app. assert (handles.*1 = seq 1 (n - 1)) as ->.
    { unfold handles. rewrite <- list_fmap_compose. apply list_fmap_id. }
    cbn. destruct n as [|n]; [lia|]. simpl. by rewrite Nat.sub_0_r, Permutation_app_comm.
  - assert (forall c x, (c, x) ∈ handles ++ [(0%nat, worker 0%nat)] -> x = worker c) as Hw; [|intros c x Hx Hc].
    { intros c x [Hx|Hx]%elem_of_app; [by apply list_elem_of_fmap in Hx as (? & [= -> ->] & _)|]. by apply list_elem_of_singleton in Hx as [= -> ->]. }
    rewrite (Hw c x Hx). unfold worker. rewrite (run_worker_up _ _ _ _ Hc). pose proof (tokio_loop_run (evs c) []) as Hl.
    destruct (tokio_loop (evs c) []) as [b l]. exists b. cbn in Hl. by rewrite <- Hl.
  - pose proof (worker_over_spec (runtime_ok 0%nat) (ok 0%nat) is_ipv4 (evs 0%nat) (or_introl H0)) as W0.
    rewrite (run_worker_up _ _ _ _ H0) in W0. destruct (tokio_loop (evs 0%nat) []) as [[] l] eqn:El; cbn [worker_over negb fst] in *.
    + split; [done|]. intros Hc. discriminate (proj2 W0 (Hc 0%nat Hn)).
    + unfold handles. rewrite join_all_spec, Forall_forall. split.
      * intros Ha [|c] Hc Hup; [by apply W0|]. apply (worker_over_spec _ _ is_ipv4 _ (Hu _ Hc)); [|done]. apply Ha, elem_of_seq. lia.
      * intros Ha c Hc%elem_of_seq. apply worker_over_spec; [apply Hu; lia|]. apply Ha. lia.
  - destruct (tokio_loop _ _).1; [done|apply join_all_returns].
Qed.

End Tokio.
(** ** kimojio *)

Section Kimojio.
Context {T : Type}.
Import Kimojio.

(** [run_kimojio_accept_loop] with the socket it starts from. *)
Definition kimojio_worker (socket : Result unit nat) (flag : nat -> bool) (accepts : list (Result T nat)) : kloop * list T :=
  match socket with
  | Err e => (KReturned (Err e), [])
  | Ok _ => run_kimojio_accept_loop flag 0 accepts []
  end.

Definition returned (x : kloop * list T) : bool := match x.1 with KReturned _ => true | KWaiting => false end.

(** A thread per core, then the handler for Ctrl-C, then the joins; what
    [run_with_configuration] reports of a worker is only printed. *)
Definition run_kimojio_thread_per_core_server (num_cores : nat) (spawn_ok : nat -> bool) (set_handler_ok : bool) (worker : nat -> kloop * list T)
    : server_end * list (nat * (kloop * list T)) :=
  let '(spawned, handles) := spawn_workers spawn_ok worker (seq 0 num_cores) in
  if negb spawned || negb set_handler_ok then (SPanicked, handles) else (join_all returned handles, handles).

(** Ctrl-C does not stop the kimojio server: when it comes while core [c]
    waits with [k c] connections accepted, the server returns exactly if every
    core accepts one more connection; a core gets at most one more. *)
Theorem kimojio_server_shutdown n (k : nat -> nat) (streams : nat -> list T) :
  exists e ws, run_kimojio_thread_per_core_server n (fun _ => true) true
      (fun c => kimojio_worker (Ok tt) (fun i => k c <? i)%nat (Ok <$> streams c)) = (e, ws) /\
    (e = SEnded <-> forall c, (c < n)%nat -> (k c < length (streams c))%nat) /\
    ws = (fun c => (c, if (k c <? length (streams c))%nat then (KReturned (Ok tt), take (S (k c)) (streams c)) else (KWaiting, streams c))) <$> seq 0 n.
Proof.
  unfold run_kimojio_thread_per_core_server. rewrite spawn_workers_ok by (by apply Forall_forall). cbn [negb orb].
  eexists _, _. split; [done|]. rewrite join_all_spec, Forall_forall. unfold kimojio_worker. split.
  - split.
    + intros Ha c Hc. assert (c ∈ seq 0 n) as Hi by (apply elem_of_seq; lia). specialize (Ha c Hi). cbv beta in Ha. rewrite shutdown_waits_for_connection in Ha.
      destruct (_ <? _)%nat eqn:E in Ha; [by apply Nat.ltb_lt in E|done].
    + intros Ha c Hc%elem_of_seq. rewrite shutdown_waits_for_connection, (proj2 (Nat.ltb_lt _ _)); [done|]. apply Ha. lia.
  - apply list_fmap_ext. intros i c _. by rewrite shutdown_waits_for_connection.
Qed.

(** A worker that fails ends alone: a core whose socket cannot be set up
    serves nothing, and one whose accept fails stops accepting, while the
    server goes on without reporting it. *)
Theorem kimojio_worker_failures (e : nat) flag (ok : list T) rest (Hf : forall i, (i <= length ok)%nat -> flag i = false) :
  kimojio_worker (Err e) flag (Ok <$> ok) = (KReturned (Err e), []) /\
  kimojio_worker (Ok tt) flag ((Ok <$> ok) ++ Err e :: rest) = (KReturned (Err e), ok).
Proof.
  split; [done|]. unfold kimojio_worker.
  assert (forall i acc, (forall j, (j <= length ok)%nat -> flag (i + j)%nat = false) ->
    run_kimojio_accept_loop flag i ((Ok <$> ok) ++ Err e :: rest) acc = (KReturned (Err e), acc ++ ok)) as Hl; [|by apply (Hl 0%nat [])].
  clear Hf. induction ok as [|x ok IH]; intros i acc Hf; cbn [fmap list_fmap app run_kimojio_accept_loop].
  - pose proof (Hf 0%nat ltac:(cbn; lia)) as H0. rewrite Nat.add_0_r in H0. by rewrite H0, app_nil_r.
  - pose proof (Hf 0%nat ltac:(cbn; lia)) as H0. rewrite Nat.add_0_r in H0. rewrite H0, IH, <- app_assoc; [done|].
    intros j Hj. specialize (Hf (S j) ltac:(cbn; lia)). by rewrite Nat.add_succ_r in Hf.
Qed.

(** When a thread cannot be started the server panics, and the threads started
    before, those of the first cores, are left serving. *)
Theorem kimojio_spawn_failure n spawn_ok handler_ok (worker : nat -> kloop * list T) (Hf : Exists (fun c => spawn_ok c = false) (seq 0 n)) :
  exists started : list nat, started `prefix_of` seq 0 n /\
    run_kimojio_thread_per_core_server n spawn_ok handler_ok worker = (SPanicked, (fun c => (c, worker c)) <$> started).
Proof.
  destruct (spawn_workers_fail worker spawn_ok _ Hf) as (l & Hl & E). exists l. split; [done|].
  unfold run_kimojio_thread_per_core_server. by rewrite E.
Qed.

End Kimojio.

(** ** An example: two cores of which core 1 has no runtime. *)
Lemma tokio_server_serves_witness :
  exists e ws, run_tokio_thread_per_core_server (E := unit) 2 (fun _ => true) (fun c => c =? 0)%nat (fun _ _ => true) true
      (fun _ => [AppServers.TAccepted (Ok 7%nat); AppServers.TCancelled]) = (e, ws) /\ e = SEnded /\ ws.*1 ≡ₚ [0; 1]%nat.
Proof.
  destruct (tokio_server_serves 2 (fun _ => true) (fun c => c =? 0)%nat (fun _ _ => true) true
    (fun _ => [AppServers.TAccepted (E := unit) (Ok 7%nat); AppServers.TCancelled])) as (e & ws & E & Hp & _ & He & _).
  - lia.
  - done.
  - by split.
  - intros [|[|c]] Hc; [left; by split|by right|lia].
  - exists e, ws. split_and!; [done| |done]. by apply He.
Defined.

End ThreadServers.
