(* ===== verification/BenchClient.v ===== *)
(** * The benchmark client ([tests/dpdk-bench-client/src])

    The raw HTTP/1.1 client ([raw_client.rs]), the hyper client
    ([hyper_client.rs]), the statistics they share ([stats.rs]) and the parsing
    of durations ([main.rs]).  A connection is an [AsyncRead] and [AsyncWrite];
    hyper and hdrhistogram are parameters.  A request runs under a timeout, which
    may elapse at any of its awaits: [awaits] is the number of awaits it
    completes before that. *)

From Stdlib Require Import Strings.String.
From stdpp Require Import base list relations.
From Stdlib Require Import ZArith NArith Strings.Byte Lia.
From S2P Require Import Prelude Text HttpParser HttpServer.

Local Open Scope Z_scope.

Module BenchClient.
Import Text HttpParser HttpServer.

(** ** Arguments *)

(** A [u64] product: it panics where overflow is checked and wraps otherwise. *)
Definition mul_u64 (overflow_checks : bool) (a b : Z) : Exec Z :=
  if a * b <=? u64_max then Ret (a * b) else if overflow_checks then Panic else Ret (wrap 64 (a * b)).

Definition invalid_duration (s : str) : str := lit "Invalid duration: " ++ s.

(** [parse_duration]; a [Duration] is its number of milliseconds. *)
Definition parse_duration (overflow_checks : bool) (s : str) : Exec (Result Z str) :=
  let s := trim s in
  let num (t : str) := ok_or (invalid_duration s) (parse_usize t) in
  match strip_suffix (lit "ms") s with
  | Some stripped => Ret (num stripped)
  | None =>
      match strip_suffix (lit "s") s with
      | Some stripped => Ret (result_map (fun n => n * 1000) (num stripped))
      | None =>
          match strip_suffix (lit "m") s with
          | Some stripped =>
              match num stripped with
              | Ok n => m ← mul_u64 overflow_checks n 60; Ret (Ok (m * 1000))
              | Err e => Ret (Err e)
              end
          | None => Ret (result_map (fun n => n * 1000) (num s))
          end
      end
  end.

Record ParsedUrl := mk_url { host : str; port : Z; path : str }.

Definition parse_url (url : str) : Result ParsedUrl str :=
  match strip_prefix (lit "http://") url with
  | None => Err (lit "Only http:// URLs supported")
  | Some url =>
      let '(host_port, path) :=
        match find_char 47 url with
        | Some idx => (take idx url, drop idx url)
        | None => (url, lit "/")
        end in
      match find_char 58 host_port with
      | Some idx =>
          match parse_u16 (drop (idx + 1) host_port) with
          | Some port => Ok (mk_url (take idx host_port) port path)
          | None => Err (lit "Invalid port")
          end
      | None => Ok (mk_url host_port 80 path)
      end
  end.

(** The request [run_benchmark] prepares, of an ASCII URL. *)
Definition request_bytes (u : ParsedUrl) : list byte :=
  bs "GET " ++ (to_byte <$> path u) ++ bs " HTTP/1.1" ++ crlf ++ bs "Host: " ++ (to_byte <$> host u) ++ crlf ++
  bs "Connection: keep-alive" ++ crlf ++ crlf.

(** ** Reading a response *)

(** [find_header_end]: the first index at which the four bytes are found. *)
Definition HEAD_END : list byte := [CR; LF; CR; LF].
Fixpoint find_header_end (data : list byte) : option nat :=
  if decide (take 4 data = HEAD_END) then Some 4%nat
  else match data with [] => None | _ :: data => S <$> find_header_end data end.

Fixpoint first_content_length (ls : list str) : option Z :=
  match ls with
  | [] => None
  | line :: ls =>
      match strip_prefix (lit "content-length:") (to_ascii_lowercase line) with
      | Some value => parse_usize (trim value)
      | None => first_content_length ls
      end
  end.
Definition parse_content_length (headers : list byte) : option Z :=
  headers_str ← from_utf8 headers; first_content_length (lines headers_str).

Section Exchange.
Context `{AsyncRead R} `{!AsyncWrite R}.

(** How the timed block ends: with a value, an error, or by the timeout; the
    buffer outlives it in every case. *)
Inductive xout (A : Type) :=
  | XDone (a : A) (buf : list byte) (s : R)
  | XFail (e : IoError) (buf : list byte)
  | XElapsed (buf : list byte)
  | XPanic.
Arguments XDone {A} a buf s.
Arguments XFail {A} e buf.
Arguments XElapsed {A} buf.
Arguments XPanic {A}.

(** The variables of the read loop. *)
Record reading := mk_reading { total_read : nat; headers_end : option nat; content_length : option Z }.

(** What a read of [n] more bytes does to them. *)
Definition note_read (n : nat) (buf : list byte) (v : reading) : reading :=
  let total := (total_read v + n)%nat in
  match headers_end v with
  | Some _ => mk_reading total (headers_end v) (content_length v)
  | None =>
      match find_header_end (take total buf) with
      | Some pos => mk_reading total (Some pos) (parse_content_length (take pos buf))
      | None => mk_reading total None (content_length v)
      end
  end.

(** The two [break]s. *)
Definition complete (v : reading) : bool :=
  match headers_end v with
  | None => false
  | Some hdr_end =>
      match content_length v with
      | Some cl => cl <=? Z.of_nat (total_read v - hdr_end)
      | None => true
      end
  end.

(** [buf.resize(buf.len() * 2, 0)] panics beyond [isize::MAX] bytes. *)
Definition grow (total : nat) (buf : list byte) : option (list byte) :=
  if (length buf <=? total)%nat then
    if 2 * zlen buf <=? 2 ^ 63 - 1 then Some (buf ++ replicate (length buf) x00) else None
  else Some buf.

(** The loop until the response is complete; also the awaits that are left. *)
Fixpoint read_response (awaits : nat) (v : reading) (buf : list byte) (s : R) : xout (reading * nat) :=
  match awaits with
  | O => XElapsed buf
  | S awaits =>
      if (total_read v <=? length buf)%nat then
        match ar_read (zlen buf - Z.of_nat (total_read v)) s with
        | (Err e, _) => XFail e buf
        | (Ok l, s) =>
            let buf := list_inserts (total_read v) l buf in
            if (length l =? 0)%nat then XFail UnexpectedEof buf
            else
              let v := note_read (length l) buf v in
              if complete v then XDone (v, awaits) buf s
              else match grow (total_read v) buf with
                   | Some buf => read_response awaits v buf s
                   | None => XPanic
                   end
        end
      else XPanic
  end.

(** The loop that reads on when the body is not complete. *)
Fixpoint read_rest (awaits : nat) (cl body_received : Z) (total : nat) (buf : list byte) (s : R) : xout nat :=
  if body_received <? cl then
    match awaits with
    | O => XElapsed buf
    | S awaits =>
        match ar_read (Z.min (cl - body_received) (zlen buf)) s with
        | (Err e, _) => XFail e buf
        | (Ok l, s) =>
            let buf := list_inserts 0 l buf in
            if (length l =? 0)%nat then XDone total buf s
            else read_rest awaits cl (body_received + zlen l) (total + length l) buf s
        end
    end
  else XDone total buf s.

(** The timed block: the request, the response, the number of bytes read. *)
Definition exchange (awaits : nat) (request : list byte) (buf : list byte) (s : R) : xout nat :=
  match awaits with
  | O => XElapsed buf
  | S awaits =>
      match aw_write_all request s with
      | (Err e, _) => XFail e buf
      | (Ok _, s) =>
          match read_response awaits (mk_reading 0 None None) buf s with
          | XDone (v, awaits) buf s =>
              match headers_end v, content_length v with
              | Some hdr_end, Some cl => read_rest awaits cl (Z.of_nat (total_read v - hdr_end)) (total_read v) buf s
              | _, _ => XDone (total_read v) buf s
              end
          | XFail e buf => XFail e buf
          | XElapsed buf => XElapsed buf
          | XPanic => XPanic
          end
      end
  end.

End Exchange.
Arguments xout R A : clear implicits.
Arguments XDone {R A} a buf s.
Arguments XFail {R A} e buf.
Arguments XElapsed {R A} buf.
Arguments XPanic {R A}.

(** ** Statistics *)

(** hdrhistogram: recording a value out of range is refused. *)
Class Histogram := {
  hist : Type;
  h_new : hist;
  h_record : Z -> hist -> option hist;
  h_add : hist -> hist -> hist
}.

Section Stats.
Context `{Histogram}.

Record LocalStats := mk_local { histogram : hist; requests : Z; bytes : Z; errors : Z }.
Definition LocalStats_new : LocalStats := mk_local h_new 0 0 0.

Definition record_success (latency_us n : Z) (l : LocalStats) : LocalStats :=
  mk_local (default (histogram l) (h_record latency_us (histogram l))) (wrap 64 (requests l + 1)) (wrap 64 (bytes l + n)) (errors l).
Definition record_error (l : LocalStats) : LocalStats :=
  mk_local (histogram l) (requests l) (bytes l) (wrap 64 (errors l + 1)).

(** [BenchStats]: the atomics, and the two mutexes with their contents. *)
Record BenchStats := mk_stats {
  total_requests : Z;
  total_errors : Z;
  bytes_read : Z;
  hist_locked : bool;
  latency_histogram : hist;
  active_connections : Z;
  samples_locked : bool;
  error_samples : list str;
  max_error_samples : nat
}.
Definition BenchStats_new : BenchStats := mk_stats 0 0 0 false h_new 0 false [] 5.

Definition record_error_sample (msg : str) (s : BenchStats) : BenchStats :=
  if samples_locked s then s
  else if (length (error_samples s) <? max_error_samples s)%nat then
    mk_stats (total_requests s) (total_errors s) (bytes_read s) (hist_locked s) (latency_histogram s) (active_connections s)
      (samples_locked s) (error_samples s ++ [msg]) (max_error_samples s)
  else s.

(** One atomic step of a task that is at the end of [run_connection]: the three
    [fetch_add]s of [merge_into], the [try_lock], the addition under the lock
    with its release, and the [fetch_sub] of the caller. *)
Inductive merge_pc := MRequests | MBytes | MErrors | MTryLock | MAdd | MActive | MEnd.

Definition with_counts (r e b : Z) (s : BenchStats) : BenchStats :=
  mk_stats r e b (hist_locked s) (latency_histogram s) (active_connections s) (samples_locked s) (error_samples s) (max_error_samples s).
Definition with_hist (locked : bool) (h : hist) (s : BenchStats) : BenchStats :=
  mk_stats (total_requests s) (total_errors s) (bytes_read s) locked h (active_connections s) (samples_locked s) (error_samples s) (max_error_samples s).
Definition with_active (n : Z) (s : BenchStats) : BenchStats :=
  mk_stats (total_requests s) (total_errors s) (bytes_read s) (hist_locked s) (latency_histogram s) n (samples_locked s) (error_samples s) (max_error_samples s).

Definition merge_step (pc : merge_pc) (l : LocalStats) (s : BenchStats) : merge_pc * BenchStats :=
  match pc with
  | MRequests => (MBytes, with_counts (wrap 64 (total_requests s + requests l)) (total_errors s) (bytes_read s) s)
  | MBytes => (MErrors, with_counts (total_requests s) (total_errors s) (wrap 64 (bytes_read s + bytes l)) s)
  | MErrors => (MTryLock, with_counts (total_requests s) (wrap 64 (total_errors s + errors l)) (bytes_read s) s)
  | MTryLock => if hist_locked s then (MActive, s) else (MAdd, with_hist true (latency_histogram s) s)
  | MAdd => (MActive, with_hist false (h_add (latency_histogram s) (histogram l)) s)
  | MActive => (MEnd, with_active (wrap 64 (active_connections s - 1)) s)
  | MEnd => (MEnd, s)
  end.

(** The tasks and the shared statistics; any task may take the next step. *)
Record bench := mk_bench { tasks : list (merge_pc * LocalStats); shared : BenchStats }.

Inductive bench_step : bench -> bench -> Prop :=
  | step_task i pc l b pc' s' : tasks b !! i = Some (pc, l) -> pc <> MEnd -> merge_step pc l (shared b) = (pc', s') ->
      bench_step b (mk_bench (<[i := (pc', l)]> (tasks b)) s').

(** ** The connection loop *)

Section Loop.
Context `{AsyncRead R} `{!AsyncWrite R}.
Variable io_display : IoError -> str.

(** One turn of [while Instant::now() < end_time]: how connecting would end
    ([None] when it times out), how far the exchange gets, and its latency. *)
Record iteration := mk_iter { connecting : option (Result R IoError); awaits : nat; latency : Z }.

(** The variables of [run_connection]; [offered] are the messages given to
    [record_error_sample]. *)
Record conn := mk_conn { stream : option R; local : LocalStats; cbuf : list byte; offered : list str }.
Definition conn_new : conn := mk_conn None LocalStats_new (replicate (Z.to_nat 16384) x00) [].

Definition failed (msg : str) (c : conn) : conn := mk_conn None (record_error (local c)) (cbuf c) (offered c ++ [msg]).

Definition request_turn (request : list byte) (it : iteration) (s : R) (c : conn) : Exec conn :=
  match exchange (awaits it) request (cbuf c) s with
  | XDone n buf s => Ret (mk_conn (Some s) (record_success (latency it) (Z.of_nat n) (local c)) buf (offered c))
  | XFail e buf => Ret (failed (lit "io: " ++ io_display e) (mk_conn None (local c) buf (offered c)))
  | XElapsed buf => Ret (failed (lit "timeout") (mk_conn None (local c) buf (offered c)))
  | XPanic => Panic
  end.

Definition turn (request : list byte) (it : iteration) (c : conn) : Exec conn :=
  match stream c with
  | Some s => request_turn request it s c
  | None =>
      match connecting it with
      | Some (Ok s) => request_turn request it s c
      | Some (Err e) => Ret (failed (lit "connect: " ++ io_display e) c)
      | None => Ret (failed (lit "connect timeout") c)
      end
  end.

Fixpoint run_loop (request : list byte) (its : list iteration) (c : conn) : Exec conn :=
  match its with
  | [] => Ret c
  | it :: its => c ← turn request it c; run_loop request its c
  end.

(** [run_connection] up to [merge_into]. *)
Definition run_connection (request : list byte) (its : list iteration) : Exec conn := run_loop request its conn_new.

End Loop.

End Stats.
Arguments iteration R : clear implicits.
Arguments conn {_} R.

(** ** The hyper client *)

Section HyperClient.
Context `{Histogram}.

(** A frame of the response body: data or trailers. *)
Inductive frame := FData (data : list byte) | FTrailers.

(** The loop over the frames; an error among them is passed over. *)
Definition frame_bytes (f : Result frame str) : nat := match f with Ok (FData data) => length data | _ => 0%nat end.
Fixpoint body_bytes (frames : list (Result frame str)) : nat :=
  match frames with [] => 0%nat | f :: frames => (frame_bytes f + body_bytes frames)%nat end.

(** The message of an error with its chain of sources. *)
Fixpoint error_chain (msg : str) (sources : list str) : str :=
  match sources with [] => msg | cause :: sources => error_chain (msg ++ lit " -> " ++ cause) sources end.

(** What [client.request] and the body give within the timeout; [None] when it
    elapses. *)
Inductive hyper_result := HBody (frames : list (Result frame str)) | HError (msg : str) (sources : list str).

Definition hyper_turn (latency_us : Z) (result : option hyper_result) (c : LocalStats * list str) : LocalStats * list str :=
  match result with
  | Some (HBody frames) => (record_success latency_us (Z.of_nat (body_bytes frames)) c.1, c.2)
  | Some (HError msg sources) => (record_error c.1, c.2 ++ [error_chain msg sources])
  | None => (record_error c.1, c.2 ++ [lit "timeout"])
  end.

Definition hyper_run_connection (turns : list (Z * option hyper_result)) : LocalStats * list str :=
  fold_left (fun c t => hyper_turn t.1 t.2 c) turns (LocalStats_new, []).

(** Every turn is counted once, as a success or as an error with its message. *)
Lemma hyper_counts turns c : requests c.1 + errors c.1 + zlen turns < 2 ^ 64 -> 0 <= requests c.1 -> 0 <= errors c.1 ->
  let '(l, msgs) := fold_left (fun c t => hyper_turn t.1 t.2 c) turns c in
  requests l + errors l = requests c.1 + errors c.1 + zlen turns /\ zlen msgs = zlen c.2 + (errors l - errors c.1) /\
  0 <= requests l /\ 0 <= errors l.
Proof.
  revert c. induction turns as [|[lat res] turns IH]; intros [l msgs] Hb Hr He; simpl in *.
  { rewrite zlen_nil. split_and!; lia. }
  rewrite zlen_cons in *. pose proof (zlen_nonneg turns).
  destruct res as [[frames|msg srcs]|]; (match goal with |- context [fold_left _ turns ?c] => specialize (IH c) end); simpl in IH;
    rewrite wrap_small in IH by lia; specialize (IH ltac:(lia) ltac:(lia) ltac:(lia)); destruct (fold_left _ _ _) as [l' msgs'];
    rewrite ?zlen_app, ?zlen_cons, ?zlen_nil in *; split_and!; lia.
Qed.

End HyperClient.

(** ** Reading a response is exact *)

Lemma find_header_end_len l n : find_header_end l = Some n -> (4 <= n <= length l)%nat.
Proof. exact (RefHttp.head_end_len l n). Qed.
Lemma find_header_end_app l k n : find_header_end l = Some n -> find_header_end (l ++ k) = Some n.
Proof. exact (RefHttp.head_end_app l k n). Qed.

(** A response head that announces its body. *)
Definition framed (head body : list byte) : Prop :=
  find_header_end head = Some (length head) /\ parse_content_length head = Some (zlen body).

(** Within a response that begins with such a head, the end of the head is found
    exactly when it has been read. *)
Lemma find_in_prefix head body rest n : framed head body ->
  find_header_end (take n (head ++ rest)) = if (length head <=? n)%nat then Some (length head) else None.
Proof.
  intros [Hh _]. destruct (Nat.leb_spec (length head) n).
  - rewrite take_app_ge by done. by apply find_header_end_app.
  - rewrite take_app_le by lia. destruct (find_header_end (take n head)) as [k|] eqn:E; [|done].
    pose proof (find_header_end_len _ _ E) as Hk. rewrite length_take in Hk.
    apply (find_header_end_app _ (drop n head)) in E. rewrite take_drop in E. rewrite Hh in E. injection E as <-. lia.
Qed.

Section Reading.
Context `{AsyncReadLaws R} `{!AsyncWrite R}.
Variables head body rest : list byte.
Hypothesis Hframed : framed head body.
Let X : list byte := head ++ body ++ rest.
Hypothesis Hsize : 2 * zlen X <= 2 ^ 63 - 1.
(** A property of connections that reading keeps. *)
Variable good : R -> Prop.
Hypothesis good_read : forall n s, good s -> good (ar_read n s).2.

(** The variables after [T] bytes of the response. *)
Definition read_to (T : nat) : reading :=
  if (length head <=? T)%nat then mk_reading T (Some (length head)) (Some (zlen body)) else mk_reading T None None.

Lemma total_read_to T : total_read (read_to T) = T.
Proof. unfold read_to. by destruct (_ <=? _)%nat. Qed.

Lemma note_read_to T n buf : take (T + n) buf = take (T + n) X -> note_read n buf (read_to T) = read_to (T + n).
Proof.
  intros Hb. unfold note_read. rewrite total_read_to, Hb. unfold read_to.
  destruct (Nat.leb_spec (length head) T); simpl.
  - by rewrite (proj2 (Nat.leb_le _ _)) by lia.
  - unfold X. rewrite (find_in_prefix head body) by done. destruct (Nat.leb_spec (length head) (T + n)); [|done].
    f_equal. destruct Hframed as [_ <-]. f_equal. transitivity (take (length head) (take (T + n) buf)).
    + rewrite take_take. f_equal. lia.
    + rewrite Hb, take_take. replace (length head `min` (T + n))%nat with (length head) by lia. apply take_app_length.
Qed.

Lemma complete_read_to T : complete (read_to T) = (length (head ++ body) <=? T)%nat.
Proof.
  unfold complete, read_to. rewrite length_app. unfold zlen. destruct (Nat.leb_spec (length head) T); simpl.
  - destruct (Nat.leb_spec (length head + length body) T); [apply Z.leb_le | apply Z.leb_gt]; lia.
  - symmetry. apply Nat.leb_gt. lia.
Qed.

Lemma read_response_run awaits T buf s : good s -> (T < length (head ++ body))%nat -> (T < length buf)%nat ->
  take T buf = take T X -> ar_rest s = drop T X -> (length X - T < awaits)%nat ->
  exists T' left buf' s', read_response awaits (read_to T) buf s = XDone (read_to T', left) buf' s' /\
    (length (head ++ body) <= T' <= length X)%nat /\ ar_rest s' = drop T' X /\ (length buf <= length buf')%nat /\ good s'.
Proof.
  revert T buf s. induction awaits as [|awaits IH]; intros T buf s Hgood HT Hb Htk Hr Ha; [lia|].
  cbn [read_response]. rewrite total_read_to, (proj2 (Nat.leb_le _ _)) by lia.
  assert (length X = length (head ++ body) + length rest)%nat as HX by (unfold X; rewrite !length_app; lia).
  pose proof (good_read (zlen buf - Z.of_nat T) s Hgood) as Hgood'.
  destruct (ar_some (zlen buf - Z.of_nat T) s) as (l & s' & Er & Hl & Hn & Hrest & _).
  { unfold zlen. lia. }
  { rewrite Hr. intros E%(f_equal length). rewrite length_drop in E. simpl in E. lia. }
  rewrite Er in *. simpl in Hgood'.
  assert (0 < length l)%nat as Hl0 by (destruct l; [done | simpl; lia]). rewrite (proj2 (Nat.eqb_neq _ _)) by lia.
  unfold zlen in Hn. rewrite Hr in Hrest.
  assert (l = take (length l) (drop T X)) as El by (rewrite Hrest; by rewrite take_app_length).
  assert (ar_rest s' = drop (T + length l) X) as Hr' by (rewrite <- drop_drop, Hrest; by rewrite drop_app_length).
  assert (T + length l <= length X)%nat.
  { apply (f_equal length) in Hrest. rewrite length_drop, length_app in Hrest. lia. }
  assert (take (T + length l) (list_inserts T l buf) = take (T + length l) X) as Htk'.
  { rewrite take_inserts by lia. rewrite Htk, El at 1. rewrite <- (take_take_drop X T (length l)). done. }
  rewrite (note_read_to T (length l)) by done. rewrite complete_read_to.
  destruct (Nat.leb_spec (length (head ++ body)) (T + length l)).
  { eexists _, _, _, _. split; [done|]. rewrite length_inserts. split_and!; done || lia. }
  unfold grow. rewrite total_read_to, length_inserts. destruct (Nat.leb_spec (length buf) (T + length l)).
  - rewrite (proj2 (Z.leb_le _ _)) by (unfold zlen in *; rewrite length_inserts; lia).
    destruct (IH (T + length l)%nat (list_inserts T l buf ++ replicate (length buf) x00) s')
      as (T' & left & buf' & s2 & -> & [? ?] & ? & Hlen & ?); try done; try lia.
    + rewrite length_app, length_inserts, length_replicate. lia.
    + rewrite take_app_le by (rewrite length_inserts; lia). done.
    + exists T', left, buf', s2. split_and!; try done. rewrite length_app, length_inserts in Hlen. lia.
  - destruct (IH (T + length l)%nat (list_inserts T l buf) s') as (T' & left & buf' & s2 & -> & [? ?] & ? & Hlen & ?); try done; try lia.
    + rewrite length_inserts. lia.
    + exists T', left, buf', s2. split_and!; try done. rewrite length_inserts in Hlen. lia.
Qed.

(** An exchange reads the whole response, whatever the reads return; the loop
    for the rest of the body finds nothing to do. *)
Lemma exchange_run awaits request buf s s1 : aw_write_all request s = (Ok tt, s1) -> good s1 -> ar_rest s1 = X ->
  (0 < length buf)%nat -> (S (length X) < awaits)%nat ->
  exists n buf' s', exchange awaits request buf s = XDone n buf' s' /\
    (length (head ++ body) <= n <= length X)%nat /\ ar_rest s' = drop n X /\ (0 < length buf')%nat /\ good s'.
Proof.
  intros Hw Hg Hr Hb Ha. destruct awaits as [|awaits]; [lia|]. unfold exchange. rewrite Hw.
  assert (0 < length head)%nat as Hh by (destruct Hframed as [Hf _]; apply find_header_end_len in Hf; lia).
  assert (mk_reading 0 None None = read_to 0) as -> by (unfold read_to; by rewrite (proj2 (Nat.leb_gt _ _))).
  destruct (read_response_run awaits 0 buf s1) as (T & left & buf' & s' & -> & [HT1 HT2] & Hr' & Hlen & Hg'); try done; try lia.
  { rewrite length_app. lia. }
  exists T, buf', s'. split_and!; try done; [|lia..]. rewrite length_app in HT1. rewrite total_read_to.
  unfold read_to. rewrite (proj2 (Nat.leb_le _ _)) by lia. simpl.
  destruct left; cbn [read_rest]; by rewrite (proj2 (Z.ltb_ge _ _)) by (unfold zlen; lia).
Qed.

End Reading.

(** ** The responses of the HTTP server *)

Definition CL : str := lit "content-length".
Definition COLON : N := 58%N.

(** What the http crate guarantees of header names: non-empty, lower case, no
    separator; and of the values a server sends: visible ASCII. *)
Definition name_byte (b : byte) : bool := within 33 126 b && negb (bool_decide (b = x3a)) && negb (within 65 90 b).
Definition header_ok (h : list byte * list byte) : Prop :=
  h.1 <> [] /\ forallb name_byte h.1 = true /\ forallb visible h.2 = true.

Record response_ok `{HttpTypes} (r : Response) : Prop := {
  ro_status : 0 <= status r;
  ro_reason : forallb visible (reason_phrase (status r)) = true;
  ro_headers : Forall header_ok (r_headers r);
  ro_length : forall v, hm_get CONTENT_LENGTH (r_headers r) = Some v -> v = decimal (zlen (r_body r));
  ro_size : zlen (r_body r) <= u64_max
}.

(** A line of a head: ASCII without line ends. *)
Definition line_byte (b : byte) : Prop := ascii b /\ b <> CR /\ b <> LF.
Definition line_ok (l : list byte) : Prop := l <> [] /\ Forall line_byte l.

(** A head is its lines, each with its line end, and an empty line. *)
Definition head_of (ls : list (list byte)) : list byte := concat ((fun l => l ++ crlf) <$> ls) ++ crlf.

Lemma head_of_cons l ls : head_of (l :: ls) = l ++ CR :: LF :: head_of ls.
Proof. unfold head_of. simpl. by rewrite <- !app_assoc. Qed.

Lemma find_skip l k : Forall (fun b => b <> CR) l -> find_header_end (l ++ k) = (Nat.add (length l)) <$> find_header_end k.
Proof.
  induction 1 as [|b l Hb _ IH]; [simpl; by destruct (find_header_end k)|].
  change ((b :: l) ++ k) with (b :: (l ++ k)). cbn [find_header_end]. rewrite decide_False by (by intros [= ? _]).
  rewrite IH. by destruct (find_header_end k).
Qed.

Lemma find_head ls : ls <> [] -> Forall line_ok ls -> find_header_end (head_of ls) = Some (length (head_of ls)).
Proof.
  induction ls as [|l ls IH]; [done|]. intros _ Hls. apply Forall_cons in Hls as [[Hl Hb] Hls].
  rewrite head_of_cons, find_skip by (eapply Forall_impl; [exact Hb|]; by intros b (_ & ? & _)).
  rewrite length_app. destruct ls as [|l' ls]; [done|].
  specialize (IH ltac:(done) Hls). apply Forall_cons in Hls as [[Hl' Hb'] _]. destruct l' as [|b l']; [done|].
  apply Forall_cons in Hb' as [(_ & Hcr & _) _]. rewrite head_of_cons in *.
  change ((b :: l') ++ CR :: LF :: head_of ls) with (b :: (l' ++ CR :: LF :: head_of ls)) in *.
  set (t := b :: (l' ++ CR :: LF :: head_of ls)) in *. cbn [find_header_end].
  rewrite !decide_False; [rewrite IH; simpl; f_equal; lia|by intros [= ? _]|].
  unfold t. by intros [= ? _].
Qed.

(** The text of ASCII bytes. *)
Definition text (l : list byte) : str := bN <$> l.

Lemma line_plain l : Forall line_byte l -> (10%N ∉ text l) /\ (13%N ∉ text l).
Proof.
  intros Hl. split; intros (b & Hb & Hin)%list_elem_of_fmap; rewrite Forall_forall in Hl; destruct (Hl b Hin) as (_ & H1 & H2).
  - by apply H2, bN_inj.
  - by apply H1, bN_inj.
Qed.

Lemma strip_cr_snoc l : strip_cr (l ++ [13%N]) = l.
Proof. unfold strip_cr. rewrite reverse_snoc. simpl. apply reverse_involutive. Qed.

Lemma head_lines ls : Forall line_ok ls -> lines (text (head_of ls)) = (text <$> ls) ++ [[]].
Proof.
  induction 1 as [|l ls [_ Hl] _ IH]; [done|]. unfold text at 1. rewrite head_of_cons, fmap_app, !fmap_cons. fold (text l) (text (head_of ls)).
  change (bN CR) with 13%N. change (bN LF) with 10%N.
  replace (text l ++ 13%N :: 10%N :: text (head_of ls)) with ((text l ++ [13%N]) ++ 10%N :: text (head_of ls))
    by (by rewrite <- app_assoc).
  destruct (line_plain l Hl) as [H10 _]. rewrite lines_line, strip_cr_snoc, IH; [done|].
  apply not_elem_of_app. split; [done|]. by apply not_elem_of_cons; split; [|apply not_elem_of_nil].
Qed.

Lemma head_ascii ls : Forall line_ok ls -> Forall ascii (head_of ls).
Proof.
  induction 1 as [|l ls [_ Hl] _ IH]; [by repeat constructor|]. rewrite head_of_cons. apply Forall_app. split.
  - eapply Forall_impl; [exact Hl|]. by intros b (? & _).
  - by repeat constructor.
Qed.

Lemma parse_head_lines ls : Forall line_ok ls -> parse_content_length (head_of ls) = first_content_length ((text <$> ls) ++ [[]]).
Proof.
  intros Hl. unfold parse_content_length. rewrite utf8_ascii by by apply head_ascii. cbn [mbind option_bind].
  by rewrite <- head_lines.
Qed.

#[local] Instance bN_Inj : Inj (=) (=) bN := bN_inj.

(** The name of a header line is the part before its first colon. *)
Lemma starts_with_name p n t : COLON ∉ p -> COLON ∉ n -> starts_with (p ++ [COLON]) (n ++ COLON :: t) = bool_decide (p = n).
Proof.
  revert n. induction p as [|c p IH]; intros [|d n] Hp Hn; cbn [app starts_with].
  - done.
  - apply not_elem_of_cons in Hn as [Hn _]. by rewrite (proj2 (N.eqb_neq COLON d)) by congruence.
  - apply not_elem_of_cons in Hp as [Hp _]. by rewrite (proj2 (N.eqb_neq c COLON)) by congruence.
  - apply not_elem_of_cons in Hp as [_ Hp]. apply not_elem_of_cons in Hn as [_ Hn]. rewrite IH by done.
    destruct (N.eqb_spec c d) as [->|Hne]; simpl; [|symmetry; apply bool_decide_eq_false; congruence].
    apply bool_decide_ext. split; [by intros ->|congruence].
Qed.

Lemma name_lower b : name_byte b = true -> lower (bN b) = bN b /\ bN b <> COLON /\ line_byte b.
Proof.
  unfold name_byte. rewrite !andb_true_iff, !negb_true_iff, bool_decide_eq_false. intros [[Hw Hc] Hu].
  unfold within in *. apply andb_true_iff in Hw as [H1%N.leb_le H2%N.leb_le]. unfold line_byte. split_and!.
  - unfold lower. rewrite andb_comm in Hu. rewrite andb_comm. by rewrite Hu.
  - intros Hb. by apply Hc, bN_inj.
  - unfold ascii. lia.
  - intros ->. by vm_compute in H1.
  - intros ->. by vm_compute in H1.
Qed.

Lemma visible_line b : visible b = true -> line_byte b.
Proof.
  unfold visible, within. intros [[H1%N.leb_le H2%N.leb_le]%andb_true_iff|Hb]%orb_true_iff.
  - split; [unfold ascii; lia|]. split; intros ->; by vm_compute in H1.
  - apply bool_decide_eq_true in Hb as ->. by split; [|split].
Qed.

Lemma forallb_line f l : (forall b, f b = true -> line_byte b) -> forallb f l = true -> Forall line_byte l.
Proof. intros Hf Hl. apply List.Forall_forall. intros b Hb. apply Hf. by apply (proj1 (List.forallb_forall f l)). Qed.
Lemma visible_lines l : forallb visible l = true -> Forall line_byte l.
Proof. apply forallb_line, visible_line. Qed.

(** ** Framing of serialized responses *)

Lemma CL_no_colon : COLON ∉ CL.
Proof. apply (bool_decide_unpack _). by vm_compute. Qed.

Lemma lower_name n : forallb name_byte n = true -> to_ascii_lowercase (text n) = text n /\ COLON ∉ text n.
Proof.
  intros Hn. assert (Forall (fun b => lower (bN b) = bN b /\ bN b <> COLON) n) as Hf.
  { apply List.Forall_forall. intros b Hb. apply (proj1 (List.forallb_forall _ _) Hn) in Hb. by apply name_lower in Hb as (? & ? & _). }
  clear Hn. unfold text, to_ascii_lowercase. induction Hf as [|b n [Hb Hc] _ [IH1 IH2]]; [by split; [|apply not_elem_of_nil]|]. rewrite !fmap_cons.
  rewrite Hb, IH1. split; [done|]. apply not_elem_of_cons. by split.
Qed.

(** The line of a header announces a length exactly when it is the header
    [content-length]. *)
Lemma header_prefix n v : forallb name_byte n = true ->
  strip_prefix (lit "content-length:") (to_ascii_lowercase (text (n ++ bs ": " ++ v))) =
    if decide (n = CONTENT_LENGTH) then Some (32%N :: to_ascii_lowercase (text v)) else None.
Proof.
  intros Hn. destruct (lower_name n Hn) as [Hl Hc]. unfold text, to_ascii_lowercase in *. rewrite !fmap_app, Hl.
  change (lower <$> (bN <$> bs ": ")) with ([COLON; 32%N]). change (lit "content-length:") with (CL ++ [COLON]).
  unfold strip_prefix. cbn [app]. rewrite starts_with_name by (done || apply CL_no_colon).
  case_decide as E.
  - subst n. by rewrite bool_decide_true.
  - rewrite bool_decide_false; [done|]. intros Heq. apply E. change CL with (bN <$> CONTENT_LENGTH) in Heq.
    symmetry. by apply (inj (fmap bN)).
Qed.

Definition header_text (h : list byte * list byte) : list byte := h.1 ++ bs ": " ++ h.2.

Lemma first_of_headers hs more : Forall header_ok hs ->
  first_content_length ((text ∘ header_text <$> hs) ++ more) =
    match hm_get CONTENT_LENGTH hs with
    | Some v => parse_usize (trim (to_ascii_lowercase (text v)))
    | None => first_content_length more
    end.
Proof.
  induction 1 as [|[n v] hs (_ & Hn & _) _ IH]; [done|]. rewrite fmap_cons. cbn [app first_content_length hm_get compose].
  unfold header_text at 1. simpl fst. simpl snd. rewrite header_prefix by done. case_decide; [|done]. by rewrite trim_space.
Qed.

Lemma decimal_text n : 0 <= n -> text (decimal n) = to_string n /\ to_ascii_lowercase (to_string n) = to_string n /\ Forall line_byte (decimal n).
Proof.
  intros Hn. pose proof (to_radix_digits 10 n ltac:(lia) Hn) as Hd. unfold text, decimal, to_ascii_lowercase.
  change (to_radix 10 n) with (to_string n) in Hd. induction Hd as [|c s (d & -> & Hd) _ (IH1 & IH2 & IH3)]; [done|].
  assert (bN (to_byte (digit_char d)) = digit_char d /\ lower (digit_char d) = digit_char d /\ line_byte (to_byte (digit_char d))) as (E1 & E2 & E3).
  { assert (d = 0 \/ d = 1 \/ d = 2 \/ d = 3 \/ d = 4 \/ d = 5 \/ d = 6 \/ d = 7 \/ d = 8 \/ d = 9) as Hc by lia.
    repeat destruct Hc as [->|Hc]; subst; by split_and!. }
  rewrite !fmap_cons, E1, E2, IH1, IH2. split_and!; [done..|]. by constructor.
Qed.

Lemma parse_decimal n : 0 <= n <= u64_max -> parse_usize (trim (to_ascii_lowercase (text (decimal n)))) = Some n.
Proof.
  intros Hn. destruct (decimal_text n) as (-> & -> & _); [lia|]. rewrite trim_solid by (apply to_radix_solid; lia).
  by apply parse_to_string.
Qed.

Section Serialized.
Context `{HttpTypes}.

(** The lines of a serialized response, and what follows them. *)
Definition status_line (r : Response) : list byte := version_str (r_version r) ++ bs " " ++ decimal (status r) ++ bs " " ++ reason_phrase (status r).
Definition length_lines (r : Response) : list (list byte) :=
  if hm_contains CONTENT_LENGTH (r_headers r) then [] else [bs "Content-Length: " ++ decimal (zlen (r_body r))].
Definition response_lines (r : Response) : list (list byte) := status_line r :: (header_text <$> r_headers r) ++ length_lines r.

Lemma serialize_lines r : serialize_response r = head_of (response_lines r) ++ r_body r.
Proof.
  unfold serialize_response, head_of, response_lines, status_line. rewrite fmap_cons, fmap_app. cbn [concat].
  rewrite concat_app, <- !app_assoc. do 6 f_equal.
  f_equal; [|f_equal].
  - f_equal. rewrite <- list_fmap_compose. apply list_fmap_ext. intros _ h _. unfold header_line, header_text. simpl. by rewrite <- !app_assoc.
  - unfold length_lines. destruct (hm_contains _ _); [done|]. rewrite fmap_cons. cbn [fmap list_fmap concat]. by rewrite app_nil_r, <- !app_assoc.
Qed.

Lemma response_lines_ok r : response_ok r -> Forall line_ok (response_lines r).
Proof.
  intros [Hs Hr Hh _ _]. constructor; [|apply Forall_app; split].
  - unfold status_line. split; [by destruct (r_version r)|]. destruct (decimal_text (status r) Hs) as (_ & _ & Hd).
    repeat (apply Forall_app; split); try done; apply visible_lines; [by destruct (r_version r)|done..].
  - apply Forall_fmap. eapply Forall_impl; [exact Hh|]. intros [n v] (Hn & Hnb & Hv). split; unfold header_text; simpl in *; [by destruct n|].
    repeat (apply Forall_app; split); [|by apply visible_lines..].
    apply (forallb_line name_byte); [|done]. by intros b (_ & _ & ?)%name_lower.
  - unfold length_lines. destruct (hm_contains _ _); [done|]. constructor; [|done]. split; [done|].
    apply Forall_app. split; [by apply visible_lines|]. by destruct (decimal_text (zlen (r_body r)) ltac:(apply zlen_nonneg)) as (_ & _ & ?).
Qed.

(** A serialized response announces its body. *)
Lemma serialized_framed r : response_ok r -> framed (head_of (response_lines r)) (r_body r).
Proof.
  intros Hr. pose proof (response_lines_ok r Hr) as Hl. split; [by apply find_head|].
  rewrite parse_head_lines by done. destruct Hr as [Hs _ Hh Hv Hz]. unfold response_lines.
  rewrite fmap_cons, fmap_app. cbn [app first_content_length].
  assert (strip_prefix (lit "content-length:") (to_ascii_lowercase (text (status_line r))) = None) as ->
    by (unfold status_line; by destruct (r_version r)).
  rewrite <- list_fmap_compose, <- app_assoc, first_of_headers by done.
  unfold length_lines, hm_contains. destruct (hm_get CONTENT_LENGTH (r_headers r)) as [v|] eqn:E.
  - rewrite (Hv v eq_refl). apply parse_decimal. split; [apply zlen_nonneg|done].
  - rewrite bool_decide_false by (by intros []). cbn [fmap list_fmap app first_content_length].
    assert (strip_prefix (lit "content-length:") (to_ascii_lowercase (text (bs "Content-Length: " ++ decimal (zlen (r_body r))))) =
      Some (32%N :: to_ascii_lowercase (text (decimal (zlen (r_body r)))))) as -> by done.
    rewrite trim_space. apply parse_decimal. split; [apply zlen_nonneg|done].
Qed.

End Serialized.

Section ServerClient.
Context `{HttpTypes} `{AsyncReadLaws R} `{!AsyncWrite R}.

(** The raw client frames the responses of the HTTP server: for any response
    the server serializes, however its bytes arrive and however large it is, an
    exchange that is given the time returns exactly the length of the response
    and leaves the connection behind it; if more bytes follow, it may return some
    of these with the response but never less than the response. *)
Theorem exchange_reads_response awaits request buf s s1 r rest (Hr : response_ok r)
    (Hw : aw_write_all request s = (Ok tt, s1)) (Hs1 : ar_rest s1 = serialize_response r ++ rest)
    (Hb : (0 < length buf)%nat) (Ha : (S (length (serialize_response r ++ rest)) < awaits)%nat)
    (Hz : 2 * zlen (serialize_response r ++ rest) <= 2 ^ 63 - 1) :
  exists n buf' s', exchange awaits request buf s = XDone n buf' s' /\ ar_rest s' = drop n (serialize_response r ++ rest) /\
    (length (serialize_response r) <= n <= length (serialize_response r ++ rest))%nat /\
    (rest = [] -> n = length (serialize_response r)).
Proof.
  rewrite serialize_lines, <- app_assoc in *.
  destruct (exchange_run _ _ rest (serialized_framed r Hr) Hz (fun _ => True) (fun _ _ _ => I) awaits request buf s s1 Hw I Hs1 Hb Ha)
    as (n & buf' & s' & -> & [Hn1 Hn2] & Hr' & _).
  exists n, buf', s'. split_and!; try done. intros ->. rewrite app_nil_r in *. lia.
Qed.

End ServerClient.

(** ** The client against a server *)

(** What the client relies on: an idle connection that is sent the request has
    the answer to deliver, and reading keeps it a connection of this kind. *)
Class Answers R `{AsyncRead R} `{!AsyncWrite R} (request answer : list byte) := {
  an_open : R -> Prop;
  an_read : forall n s, an_open s -> an_open (ar_read n s).2 /\ ar_written (ar_read n s).2 = ar_written s;
  an_write : forall s, an_open s -> ar_rest s = [] ->
    exists s1, aw_write_all request s = (Ok tt, s1) /\ an_open s1 /\ ar_rest s1 = answer /\ ar_written s1 = ar_written s ++ request
}.

Section Bench.
Context `{HttpTypes} `{AsyncReadLaws R} `{!AsyncWrite R} `{Histogram}.
Variables (request : list byte) (r : Response) (io_display : IoError -> str).
Context `{!Answers R request (serialize_response r)}.
Hypothesis Hr : response_ok r.
Hypothesis Hz : 2 * zlen (serialize_response r) <= 2 ^ 63 - 1.

(** The histogram of the latencies of some turns. *)
Definition recorded (its : list (iteration R)) (h : hist) : hist :=
  fold_left (fun h it => default h (h_record (latency it) h)) its h.

(** A connection between two requests. *)
Definition idle (c : conn R) (s : R) : Prop := stream c = Some s /\ an_open s /\ ar_rest s = [] /\ (0 < length (cbuf c))%nat.

Definition ample (it : iteration R) : Prop := (S (length (serialize_response r)) < awaits it)%nat.

Lemma request_turn_run it s c : an_open s -> ar_rest s = [] -> (0 < length (cbuf c))%nat -> ample it ->
  exists c' s', request_turn io_display request it s c = Ret c' /\ idle c' s' /\ offered c' = offered c /\ ar_written s' = ar_written s ++ request /\
    local c' = record_success (latency it) (zlen (serialize_response r)) (local c).
Proof.
  intros Ho Hs Hb Ha. destruct (an_write s Ho Hs) as (s1 & Hw & Ho1 & Hs1 & Hw1). unfold request_turn.
  rewrite serialize_lines in Hs1, Hz. unfold ample in Ha. rewrite serialize_lines in Ha.
  assert (forall n x, an_open x /\ ar_written x = ar_written s1 -> an_open (ar_read n x).2 /\ ar_written (ar_read n x).2 = ar_written s1) as still_open.
  { intros n x [Hx Hxw]. destruct (an_read n x Hx) as [? ->]. done. }
  destruct (exchange_run _ _ [] (serialized_framed r Hr) ltac:(by rewrite app_nil_r) (fun x => an_open x /\ ar_written x = ar_written s1)
    still_open (awaits it) request (cbuf c) s s1 Hw (conj Ho1 eq_refl))
    as (n & buf & s' & -> & [Hn1 Hn2] & Hs' & Hb' & Ho' & Hw'); rewrite ?app_nil_r in *; try done.
  eexists _, s'. split; [done|]. unfold idle. simpl.
  assert (n = length (serialize_response r)) as Hn by (rewrite serialize_lines; lia).
  split_and!; try done; [|by rewrite Hw', Hw1|by rewrite Hn]. rewrite Hs'. apply drop_ge. lia.
Qed.

Definition in_u64 (l : LocalStats) : Prop := 0 <= requests l < 2 ^ 64 /\ 0 <= bytes l < 2 ^ 64.

Lemma run_loop_run its c s : idle c s -> in_u64 (local c) -> Forall ample its ->
  exists c' s', run_loop io_display request its c = Ret c' /\ idle c' s' /\ offered c' = offered c /\
    ar_written s' = ar_written s ++ concat (replicate (length its) request) /\
    errors (local c') = errors (local c) /\
    requests (local c') = wrap 64 (requests (local c) + zlen its) /\
    bytes (local c') = wrap 64 (bytes (local c) + zlen its * zlen (serialize_response r)) /\
    histogram (local c') = recorded its (histogram (local c)).
Proof.
  intros Hi Hu Ha. revert c s Hi Hu. induction Ha as [|it its Hit _ IH]; intros c s Hi Hu.
  { exists c, s. destruct Hu. rewrite zlen_nil, Z.mul_0_l, !Z.add_0_r, !wrap_small by done. simpl. rewrite app_nil_r. by split_and!. }
  destruct Hi as (Hst & Ho & Hs & Hb). cbn [run_loop]. unfold turn. rewrite Hst.
  destruct (request_turn_run it s c Ho Hs Hb Hit) as (c1 & s1 & -> & Hi1 & Hof & Hw & Hl). cbn [mbind exec_bind].
  assert (in_u64 (local c1)) as Hu1 by (rewrite Hl; split; by apply wrap_bounds).
  destruct (IH c1 s1 Hi1 Hu1) as (c' & s' & -> & Hi' & Hof' & Hw' & He & Hq & Hby & Hh). exists c', s'.
  rewrite Hof', Hof, Hw', Hw, He, Hq, Hby, Hh, Hl. simpl. rewrite zlen_cons. split_and!; try done; unfold wrap.
  - by rewrite <- app_assoc.
  - rewrite Zplus_mod_idemp_l. f_equal. lia.
  - rewrite Zplus_mod_idemp_l. f_equal. lia.
Qed.

End Bench.

(** ** The HTTP server as the peer

    A connection whose other end is the server of [custom_http.rs], by what
    [handle_connection_serves] shows of it: at any time it has written the
    responses to the complete requests it was sent.  [cuts] are the sizes of the
    pieces in which these bytes arrive. *)
Record duplex := mk_duplex { sent : list byte; got : nat; cuts : list nat }.

Section Duplex.
Context `{HttparseLaws} `{HttpTypes}.
Variable io_show : IoError -> list byte.
Variable handler : Request -> Response.

Definition outputs (l : list byte) : list byte :=
  match serve_bytes io_show handler None (S (length l)) l with Ret (Some (_, o)) => o | _ => [] end.

Definition d_rest (d : duplex) : list byte := drop (got d) (outputs (sent d)).
Definition d_piece (n : Z) (d : duplex) : nat := Z.to_nat (Z.min n (Z.max 1 (Z.of_nat (default 1%nat (head (cuts d)))))).

#[local] Instance duplex_read : AsyncRead duplex := {|
  ar_read n d := (Ok (take (d_piece n d) (d_rest d)), mk_duplex (sent d) (got d + length (take (d_piece n d) (d_rest d))) (tail (cuts d)));
  ar_read_exact n d :=
    if n <=? zlen (d_rest d)
    then (Ok (take (Z.to_nat n) (d_rest d)), mk_duplex (sent d) (got d + Z.to_nat n) (cuts d))
    else (Err UnexpectedEof, mk_duplex (sent d) (length (outputs (sent d))) (cuts d));
  ar_rest := d_rest;
  ar_end _ := None;
  ar_written := sent
|}.
#[local] Instance duplex_write : AsyncWrite duplex := {|
  aw_write_all l d := (Ok tt, mk_duplex (sent d ++ l) (got d) (cuts d));
  aw_flush d := (Ok tt, d)
|}.

#[local] Instance duplex_read_laws : AsyncReadLaws (R := duplex).
Proof.
  split; simpl; unfold d_rest; simpl.
  - intros n d Hn Hr. assert (0 < d_piece n d)%nat by (unfold d_piece; lia). eexists _, _. split; [done|]. split_and!.
    + destruct (drop _ _), (d_piece n d); done || lia.
    + unfold zlen. rewrite length_take. unfold d_piece. lia.
    + simpl. rewrite <- drop_drop, <- (take_drop (d_piece n d) (drop (got d) _)) at 1. f_equal.
      rewrite <- (take_drop (d_piece n d) (drop (got d) _)) at 3. by rewrite drop_app_length.
    + done.
  - intros n d Hn Hr. eexists. split; [rewrite Hr, take_nil; done|]. simpl. rewrite <- drop_drop, Hr, drop_nil. by split.
  - intros n d Hn. rewrite (proj2 (Z.leb_le _ _)) by lia. eexists. split; [done|]. simpl. by rewrite <- drop_drop.
  - intros n d Hn. rewrite (proj2 (Z.leb_gt _ _)) by lia. eexists. by split_and!.
Qed.

(** The request as the server sees it: complete, kept alive, and nothing behind
    it is touched. *)
Variables (request : list byte) (rq : Request).
Hypothesis Hparse : forall d, ref_request (io := IoError) None (request ++ d) = Done (Some rq) d.
Hypothesis Hkeep : should_keep_alive (headers rq) (version rq) = true.

Definition requests_sent (k : nat) : list byte := concat (replicate k request).

Lemma serve_requests k fuel : (k < fuel)%nat ->
  serve_bytes io_show handler None fuel (requests_sent k) = Ret (Some (Ok tt, concat (replicate k (serialize_response (handler rq))))).
Proof.
  revert fuel. induction k as [|k IH]; intros [|fuel] Hf; try lia.
  - cbn [serve_bytes]. unfold requests_sent. simpl. unfold ref_request, mbind, M_bind, ref_head. by rewrite hp_empty.
  - cbn [serve_bytes]. unfold requests_sent. simpl. rewrite Hparse, Hkeep. fold (requests_sent k). rewrite IH by lia. done.
Qed.

Lemma request_nonempty : (0 < length request)%nat.
Proof.
  apply Nat.neq_0_lt_0. intros E%length_zero_iff_nil. pose proof (Hparse []) as Hp. rewrite E in Hp. simpl in Hp.
  apply ref_request_shrinks in Hp. simpl in Hp. lia.
Qed.

Lemma outputs_requests k : outputs (requests_sent k) = concat (replicate k (serialize_response (handler rq))).
Proof.
  unfold outputs. rewrite serve_requests; [done|]. pose proof request_nonempty as Hn.
  assert (k <= length (requests_sent k))%nat; [|lia]. unfold requests_sent. clear -Hn.
  induction k as [|k IH]; simpl; [lia|]. rewrite length_app. lia.
Qed.

Lemma concat_replicate_snoc {A} k (l : list A) : concat (replicate (S k) l) = concat (replicate k l) ++ l.
Proof. induction k as [|k IH]; simpl; [by rewrite app_nil_r|]. rewrite <- app_assoc. f_equal. exact IH. Qed.

#[local, program] Instance duplex_answers : Answers duplex request (serialize_response (handler rq)) := {|
  an_open d := (exists k, sent d = requests_sent k) /\ (got d <= length (outputs (sent d)))%nat
|}.
Next Obligation.
  intros n d [Hk Hg]. split; [|done]. split; [done|]. simpl. unfold d_rest. rewrite length_take, length_drop. lia.
Qed.
Next Obligation.
  intros d [[k Hk] Hg] Hd. eexists. split; [done|]. simpl in *. unfold d_rest in *. simpl.
  assert (got d = length (outputs (sent d))) as Hgot by (apply (f_equal length) in Hd; rewrite length_drop in Hd; simpl in Hd; lia).
  assert (sent d ++ request = requests_sent (S k)) as Es by (rewrite Hk; symmetry; apply concat_replicate_snoc).
  rewrite Es, Hgot, Hk, !outputs_requests, concat_replicate_snoc. split_and!.
  - by exists (S k).
  - rewrite length_app. lia.
  - by rewrite drop_app_length.
  - done.
Qed.


End Duplex.

(** ** Merging the statistics *)

Section Merging.
Context `{Histogram}.

(** What a task has added so far. *)
Abbreviation task := (merge_pc * LocalStats)%type.
Definition added (pc : merge_pc) (stages : list merge_pc) (n : Z) : Z :=
  if existsb (fun s => match s, pc with MRequests, MRequests | MBytes, MBytes | MErrors, MErrors => true | _, _ => false end) stages then 0 else n.
Definition added_requests (t : task) : Z := added t.1 [MRequests] (requests t.2).
Definition added_bytes (t : task) : Z := added t.1 [MRequests; MBytes] (bytes t.2).
Definition added_errors (t : task) : Z := added t.1 [MRequests; MBytes; MErrors] (errors t.2).
Definition in_lock (t : task) : Z := match t.1 with MAdd => 1 | _ => 0 end.
Definition ended (t : task) : Z := match t.1 with MEnd => 1 | _ => 0 end.
Definition past_lock (t : task) : bool := match t.1 with MActive | MEnd => true | _ => false end.

(** The histograms of the tasks [ms], in this order, added to [h]. *)
Definition merged (h : hist) (ts : list task) (ms : list nat) : hist :=
  fold_left (fun h i => match ts !! i with Some t => h_add h (histogram t.2) | None => h end) ms h.

Variable s0 : BenchStats.

Record merge_inv (b : bench) : Prop := {
  mi_requests : total_requests (shared b) = wrap 64 (total_requests s0 + sum added_requests (tasks b));
  mi_bytes : bytes_read (shared b) = wrap 64 (bytes_read s0 + sum added_bytes (tasks b));
  mi_errors : total_errors (shared b) = wrap 64 (total_errors s0 + sum added_errors (tasks b));
  mi_active : active_connections (shared b) = wrap 64 (active_connections s0 - sum ended (tasks b));
  mi_lock : sum in_lock (tasks b) = if hist_locked (shared b) then 1 else 0;
  mi_hist : exists ms, NoDup ms /\ Forall (fun i => exists t, tasks b !! i = Some t /\ past_lock t = true) ms /\
    latency_histogram (shared b) = merged (latency_histogram s0) (tasks b) ms
}.

Lemma merged_insert h (ts : list task) ms i pc pc' l : ts !! i = Some (pc, l) -> merged h (<[i := (pc', l)]> ts) ms = merged h ts ms.
Proof.
  intros Hi. unfold merged. revert h. induction ms as [|j ms IH]; intros h; [done|]. simpl. rewrite IH. f_equal.
  destruct (decide (i = j)) as [<-|Hne]; [|by rewrite list_lookup_insert_ne].
  rewrite list_lookup_insert_eq by (by eapply lookup_lt_Some). by rewrite Hi.
Qed.

(** A task that passes the lock stays among those that have. *)
Lemma past_insert (ts : list task) (ms : list nat) i pc pc' l : ts !! i = Some (pc, l) -> (past_lock (pc, l) = true -> past_lock (pc', l) = true) ->
  Forall (fun i => exists t, ts !! i = Some t /\ past_lock t = true) ms ->
  Forall (fun j => exists t, <[i := (pc', l)]> ts !! j = Some t /\ past_lock t = true) ms.
Proof.
  intros Hi Hp Hms. eapply Forall_impl; [exact Hms|]. intros j (t & Hj & Ht). destruct (decide (i = j)) as [<-|Hne].
  - rewrite Hi in Hj. injection Hj as <-. exists (pc', l). rewrite list_lookup_insert_eq by (by eapply lookup_lt_Some). auto.
  - exists t. by rewrite list_lookup_insert_ne.
Qed.

Lemma sum_in_lock_pos ts : 0 <= sum in_lock ts.
Proof. induction ts as [|[[] l] ts IH]; unfold in_lock in *; simpl in *; lia. Qed.

Ltac merge_sums b Hi := rewrite ?(sum_insert _ _ _ _ _ Hi);
  set (sum added_requests (tasks b)) in *; set (sum added_bytes (tasks b)) in *; set (sum added_errors (tasks b)) in *;
  set (sum in_lock (tasks b)) in *; set (sum ended (tasks b)) in *; unfold added_requests, added_bytes, added_errors, in_lock, ended, added; simpl.

Lemma merge_step_inv b b' : merge_inv b -> bench_step b b' -> merge_inv b'.
Proof.
  intros [Hr Hb He Ha Hl (ms & Hnd & Hms & Hh)] Hs. destruct Hs as [i pc l b pc' s' Hi Hpc Hstep].
  assert (forall pc', (past_lock (pc, l) = true -> past_lock (pc', l) = true) -> exists ms, NoDup ms /\
    Forall (fun j => exists t, <[i := (pc', l)]> (tasks b) !! j = Some t /\ past_lock t = true) ms /\
    latency_histogram (shared b) = merged (latency_histogram s0) (<[i := (pc', l)]> (tasks b)) ms) as Hkeep.
  { intros q Hq. exists ms. split; [done|]. split; [by eapply past_insert|]. by erewrite merged_insert. }
  pose proof (sum_in_lock_pos (<[i := (MEnd, l)]> (tasks b))) as Hpos. rewrite (sum_insert _ _ _ _ _ Hi) in Hpos. unfold in_lock in Hpos at 2 3.
  destruct pc; simpl in Hstep, Hpos; try done; [..|destruct (hist_locked (shared b)) eqn:El| |]; injection Hstep as <- <-;
    split; simpl; merge_sums b Hi; try (rewrite ?Hr, ?Hb, ?He, ?Ha; unfold wrap; rewrite ?Zplus_mod_idemp_l, ?Zminus_mod_idemp_l; f_equal; lia);
    try (apply Hkeep; done); try (rewrite Hl, ?El in *; (lia || (destruct (hist_locked (shared b)); lia))).
  exists (ms ++ [i]). split_and!.
  - apply NoDup_app. split_and!; [done| |apply NoDup_singleton]. intros j Hj ->%list_elem_of_singleton.
    rewrite Forall_forall in Hms. destruct (Hms i Hj) as (t & Ht & Hp). rewrite Hi in Ht. by injection Ht as <-.
  - apply Forall_app. split; [by eapply past_insert|]. constructor; [|done]. eexists.
    by rewrite list_lookup_insert_eq by (by eapply lookup_lt_Some).
  - rewrite Hh. unfold merged. rewrite fold_left_app. simpl. rewrite list_lookup_insert_eq by (by eapply lookup_lt_Some). simpl.
    f_equal. symmetry. by eapply merged_insert.
Qed.

(** All tasks at the start and at the end of merging. *)
Definition starting (ls : list LocalStats) : bench := mk_bench ((MRequests,.) <$> ls) s0.
Definition all_ended (b : bench) : Prop := Forall (fun t : task => t.1 = MEnd) (tasks b).

Definition u64_stats : Prop := 0 <= total_requests s0 < 2 ^ 64 /\ 0 <= bytes_read s0 < 2 ^ 64 /\ 0 <= total_errors s0 < 2 ^ 64 /\
  0 <= active_connections s0 < 2 ^ 64.

Lemma sum_const (f : task -> Z) pc (ls : list LocalStats) : (forall l, f (pc, l) = 0) -> sum f ((pc,.) <$> ls) = 0.
Proof. intros Hf. induction ls as [|l ls IH]; simpl; [done|]. rewrite Hf. unfold fmap in IH. lia. Qed.

Lemma starting_inv ls : u64_stats -> hist_locked s0 = false -> merge_inv (starting ls).
Proof.
  intros (H1 & H2 & H3 & H4) Hl. split; simpl; rewrite ?sum_const, ?Z.add_0_r, ?Z.sub_0_r, ?wrap_small by done; try done; [by rewrite Hl|].
  exists []. by split_and!; [constructor..|].
Qed.

Lemma bench_locals b b' : bench_step b b' -> (tasks b').*2 = (tasks b).*2.
Proof.
  intros [i pc l ? pc' s' Hi _ _]. simpl. rewrite list_fmap_insert. simpl. apply list_insert_id. by rewrite list_lookup_fmap, Hi.
Qed.

Lemma ended_sums (ts : list task) : Forall (fun t : task => t.1 = MEnd) ts ->
  sum added_requests ts = sum requests ts.*2 /\ sum added_bytes ts = sum bytes ts.*2 /\ sum added_errors ts = sum errors ts.*2 /\
  sum ended ts = zlen ts /\ sum in_lock ts = 0.
Proof.
  induction 1 as [|[pc l] ts Hpc _ (I1 & I2 & I3 & I4 & I5)]; [done|]. simpl in Hpc. subst pc. simpl. rewrite I1, I2, I3, I4, I5, zlen_cons.
  split_and!; try done. unfold ended. simpl. lia.
Qed.

(** The totals of a benchmark: in whatever order the tasks merge their
    statistics, with their atomic operations interleaved in any way, the totals
    at the end are exactly the sums over the tasks, modulo 2^64, no connection
    is left active and no lock held; the latency histogram is the sum of the
    histograms of some of the tasks, none counted twice. *)
Theorem merge_totals_exact ls b (Hu : u64_stats) (Hl : hist_locked s0 = false) (Hrun : rtc bench_step (starting ls) b) (He : all_ended b) :
  total_requests (shared b) = wrap 64 (total_requests s0 + sum requests ls) /\
  bytes_read (shared b) = wrap 64 (bytes_read s0 + sum bytes ls) /\
  total_errors (shared b) = wrap 64 (total_errors s0 + sum errors ls) /\
  active_connections (shared b) = wrap 64 (active_connections s0 - zlen ls) /\
  hist_locked (shared b) = false /\
  exists ms, NoDup ms /\ Forall (fun i => (i < length ls)%nat) ms /\
    latency_histogram (shared b) = fold_left (fun h i => match ls !! i with Some l => h_add h (histogram l) | None => h end) ms (latency_histogram s0).
Proof.
  assert (merge_inv b /\ (tasks b).*2 = ls) as [[Hr Hb Hee Ha Hlk (ms & Hnd & Hms & Hh)] Hls].
  { assert ((tasks (starting ls)).*2 = ls) as E0 by (unfold starting; simpl; rewrite <- list_fmap_compose; apply list_fmap_id).
    pose proof (starting_inv ls Hu Hl) as Hinv. rewrite <- E0. clear E0 He. revert Hinv. generalize dependent (starting ls). intros b0 Hrun. induction Hrun as [|b1 b2 b3 Hs _ IH]; [done|].
    intros Hinv. rewrite <- (bench_locals _ _ Hs). apply IH. by eapply merge_step_inv. }
  destruct (ended_sums _ He) as (E1 & E2 & E3 & E4 & E5). rewrite Hr, Hb, Hee, Ha, E1, E2, E3, E4, Hls.
  assert (zlen (tasks b) = zlen ls) as -> by (rewrite <- Hls; unfold zlen; by rewrite length_fmap).
  rewrite E5 in Hlk. split_and!; try done; [by destruct (hist_locked (shared b))|].
  exists ms. split_and!; [done| |].
  - eapply Forall_impl; [exact Hms|]. intros i (t & Hi & _). apply lookup_lt_Some in Hi. rewrite <- Hls. by rewrite length_fmap.
  - rewrite Hh. unfold merged. clear -Hls. generalize (latency_histogram s0). induction ms as [|i ms IH]; intros h; [done|]. simpl. rewrite IH.
    f_equal. rewrite <- Hls, list_lookup_fmap. by destruct (tasks b !! i) as [[]|].
Qed.

Ltac take_step i Hl :=
  eapply rtc_l; [eapply (step_task i); [reflexivity | discriminate | simpl; rewrite ?Hl; reflexivity]|]; simpl.

(** The latencies of a task can be lost: [merge_into] gives up when the lock is
    taken, so two tasks that end together may leave a histogram with the
    latencies of one of them, next to totals that count both. *)
Theorem merge_loses_latencies l1 l2 (Hl : hist_locked s0 = false) :
  exists b, rtc bench_step (starting [l1; l2]) b /\ all_ended b /\
    total_requests (shared b) = wrap 64 (wrap 64 (total_requests s0 + requests l1) + requests l2) /\
    latency_histogram (shared b) = h_add (latency_histogram s0) (histogram l1).
Proof.
  eexists. split.
  - do 4 (take_step 0%nat Hl). do 4 (take_step 1%nat Hl). do 2 (take_step 0%nat Hl). take_step 1%nat Hl. apply rtc_refl.
  - split; [by repeat constructor|]. done.
Qed.

End Merging.

(** ** Arguments round-trip *)

Lemma starts_with_app p s : starts_with p (p ++ s) = true.
Proof. induction p as [|c p IH]; simpl; [done|]. by rewrite N.eqb_refl. Qed.

Lemma strip_prefix_app p s : strip_prefix p (p ++ s) = Some s.
Proof. unfold strip_prefix. by rewrite starts_with_app, drop_app_length. Qed.

Lemma strip_suffix_app p s : strip_suffix p (s ++ p) = Some s.
Proof.
  unfold strip_suffix. rewrite reverse_app, starts_with_app, length_app.
  replace (length s + length p - length p)%nat with (length s) by lia. by rewrite take_app_length.
Qed.

(** A number ends in a digit. *)
Lemma number_ends n : 0 <= n -> exists d r, reverse (to_string n) = digit_char d :: r /\ 0 <= d < 10.
Proof.
  intros Hn. pose proof (to_radix_digits 10 n ltac:(lia) Hn) as Hd. change (to_radix 10 n) with (to_string n) in Hd.
  apply Forall_reverse in Hd. destruct (reverse (to_string n)) as [|c r] eqn:E.
  - unfold to_string, to_radix in E. rewrite <- fmap_reverse, reverse_involutive in E. apply fmap_nil_inv in E. by apply digits_nonempty in E.
  - apply Forall_cons in Hd as [(d & -> & Hd) _]. by exists d, r.
Qed.

Lemma digit_not_unit d : 0 <= d < 10 -> (115 =? digit_char d)%N = false /\ (109 =? digit_char d)%N = false.
Proof. intros Hd. unfold digit_char. rewrite (proj2 (Z.ltb_lt _ _)) by lia. split; apply N.eqb_neq; lia. Qed.

(** Stripping a unit from a number with another unit. *)
Lemma strip_other n u p : 0 <= n -> (forall d r, 0 <= d < 10 -> starts_with (reverse p) (reverse u ++ digit_char d :: r) = false) ->
  strip_suffix p (to_string n ++ u) = None.
Proof.
  intros Hn Hs. unfold strip_suffix. destruct (number_ends n Hn) as (d & r & E & Hd). rewrite reverse_app, E. by rewrite Hs.
Qed.

Ltac no_unit := intros d r Hd; generalize (digit_not_unit d Hd); generalize (digit_char d); intros c; cbn; intros [E1 E2]; rewrite ?E1, ?E2; done.

(** C34: the durations of the command line: a number with the unit [ms], [s] or [m],
    or without one, is that many milliseconds, seconds, minutes or seconds; a
    number of minutes whose seconds exceed a [u64] panics, or is silently another
    duration in a build without overflow checks. *)
Theorem parse_duration_units oc n (Hn : 0 <= n <= u64_max) :
  parse_duration oc (to_string n ++ lit "ms") = Ret (Ok n) /\
  parse_duration oc (to_string n ++ lit "s") = Ret (Ok (n * 1000)) /\
  parse_duration oc (to_string n) = Ret (Ok (n * 1000)) /\
  parse_duration oc (to_string n ++ lit "m") =
    if n * 60 <=? u64_max then Ret (Ok (n * 60 * 1000)) else if oc then Panic else Ret (Ok (wrap 64 (n * 60) * 1000)).
Proof.
  assert (forall u, forallb (fun c => negb (is_whitespace c)) u = true -> trim (to_string n ++ u) = to_string n ++ u) as Ht.
  { intros u Hu. apply trim_solid, Forall_app. split; [apply to_radix_solid; lia|]. apply List.Forall_forall. intros c Hc.
    apply negb_true_iff. by apply (proj1 (List.forallb_forall _ _) Hu). }
  pose proof (Ht [] eq_refl) as Ht0. rewrite app_nil_r in Ht0. unfold parse_duration. rewrite !Ht, Ht0 by done.
  rewrite !strip_suffix_app, parse_to_string by done.
  rewrite (strip_other n (lit "s") (lit "ms")), (strip_other n (lit "m") (lit "ms")), (strip_other n (lit "m") (lit "s")) by (lia || no_unit).
  assert (forall p, (forall d r, 0 <= d < 10 -> starts_with (reverse p) (digit_char d :: r) = false) -> strip_suffix p (to_string n) = None) as Hno
    by (intros p Hp; rewrite <- (app_nil_r (to_string n)); apply strip_other; [lia|done]).
  rewrite (Hno (lit "ms")), (Hno (lit "s")), (Hno (lit "m")) by no_unit.
  split_and!; try done. simpl. unfold mul_u64. destruct (n * 60 <=? u64_max); [done|]. by destruct oc.
Qed.

(** A URL as the client prints its parts. *)
Definition url_text (u : ParsedUrl) : str := lit "http://" ++ host u ++ [COLON] ++ to_string (port u) ++ path u.

Lemma find_char_app c p s : c ∉ p -> find_char c (p ++ c :: s) = Some (length p).
Proof.
  intros Hc. unfold find_char. rewrite position_app_l.
  - simpl. rewrite N.eqb_refl. simpl. f_equal. lia.
  - apply Forall_forall. intros x Hx. apply N.eqb_neq. by intros <-.
Qed.

Lemma find_char_none c p : c ∉ p -> find_char c p = None.
Proof. intros Hc. apply position_None, Forall_forall. intros x Hx. apply N.eqb_neq. by intros <-. Qed.

(** A digit is neither a colon nor a slash. *)
Lemma number_plain n c : 0 <= n -> (c = 47 \/ c = COLON)%N -> c ∉ to_string n.
Proof.
  intros Hn Hc Hin. pose proof (to_radix_digits 10 n ltac:(lia) Hn) as Hd. rewrite Forall_forall in Hd.
  destruct (Hd c Hin) as (d & -> & Hd'). unfold digit_char, COLON in Hc. destruct (Z.ltb_spec d 10); lia.
Qed.

(** URLs: a URL with host, port and an absolute path parses to these; without a
    port, to port 80. *)
Theorem parse_url_roundtrip h p rest (Hh : (47 ∉ h)%N /\ COLON ∉ h) (Hp : 0 <= p <= u16_max) :
  parse_url (url_text (mk_url h p (47%N :: rest))) = Ok (mk_url h p (47%N :: rest)) /\
  parse_url (lit "http://" ++ h ++ 47%N :: rest) = Ok (mk_url h 80 (47%N :: rest)) /\
  parse_url (lit "http://" ++ h) = Ok (mk_url h 80 (lit "/")).
Proof.
  destruct Hh as [Hs Hc]. unfold parse_url, url_text. rewrite !strip_prefix_app. cbn [host port path]. split_and!.
  - replace (h ++ [COLON] ++ to_string p ++ 47%N :: rest) with ((h ++ COLON :: to_string p) ++ 47%N :: rest) by (by rewrite <- !app_assoc).
    rewrite find_char_app.
    2:{ apply not_elem_of_app. split; [done|]. apply not_elem_of_cons. split; [done|]. apply number_plain; [lia|by left]. }
    rewrite take_app_length, drop_app_length, find_char_app, take_app_length by done.
    replace (drop (length h + 1) (h ++ COLON :: to_string p)) with (to_string p) by (by rewrite <- drop_drop, drop_app_length).
    assert (parse_u16 (to_string p) = Some p) as -> by (apply radix_roundtrip; lia). done.
  - rewrite find_char_app by done. rewrite take_app_length, drop_app_length. by rewrite find_char_none.
  - rewrite (find_char_none 47) by done. by rewrite find_char_none.
Qed.

(** ** Examples

    A histogram that keeps its values, and the client against the server with
    the connections and the parser of [RefHttp]. *)
Module RefBench.
Import RefHttp.

#[export] Instance list_histogram : Histogram := {|
  hist := list Z;
  h_new := [];
  h_record v h := if (1 <=? v) && (v <=? 60000000) then Some (h ++ [v]) else None;
  h_add := app
|}.

Definition hello : Response := mk_response 200 HTTP_11 [(CONTENT_TYPE, bs "text/plain")] (bs "Hello").

Lemma hello_ok : response_ok hello.
Proof. split; [done|done| |done|done]. by repeat constructor. Qed.

Definition hello_conn : mem := conn (serialize_response hello) [9; 40; 3]%nat.

Lemma exchange_reads_response_witness :
  exists n buf' s', exchange 200 (bs "GET") [x00] hello_conn = XDone n buf' s' /\ m_rest s' = [] /\ n = length (serialize_response hello).
Proof.
  destruct (exchange_reads_response 200 (bs "GET") [x00] hello_conn (mk_mem (m_rest hello_conn) (m_cuts hello_conn) (bs "GET")) hello [] hello_ok)
    as (n & buf & s & E & Hs & _ & Hn).
  - reflexivity.
  - symmetry. apply app_nil_r.
  - simpl. lia.
  - vm_compute. lia.
  - vm_compute. discriminate.
  - exists n, buf, s. split; [exact E|]. rewrite (Hn eq_refl), app_nil_r, drop_all in Hs. by split; [|apply Hn].
Defined.

Definition u : ParsedUrl := mk_url (lit "10.0.0.4") 8080 (lit "/").
Definition rq : Request := mk_request (bs "GET") (bs "/") HTTP_11 [(bs "host", bs "10.0.0.4"); (CONNECTION, bs "keep-alive")] [].
Definition say_hello (_ : Request) : Response := hello.

Lemma request_parses d : ref_request (io := IoError) None (request_bytes u ++ d) = Done (Some rq) d.
Proof.
  unfold ref_request, mbind, M_bind, ref_head.
  assert (hp_parse MAX_HEADERS (take (Z.to_nat MAX_BUF_SIZE) (request_bytes u ++ d)) =
    Ok (Complete (length (request_bytes u)) (mk_hp (Some (bs "GET")) (Some (bs "/")) (Some 1) [(bs "Host", bs "10.0.0.4"); (bs "Connection", bs "keep-alive")]))) as ->.
  { rewrite take_app_ge by (apply Nat.leb_le; vm_compute; reflexivity). apply hp_complete_final. vm_compute. reflexivity. }
  unfold ref_skip. simpl convert. cbn -[drop request_bytes]. by rewrite drop_app_length.
Qed.

Definition its : list (iteration duplex) := [mk_iter None 300 70; mk_iter None 300 0].


Definition kept (l : list Z) : @hist list_histogram := l.
Definition locals : list LocalStats := [mk_local (kept [50]) 1 100 0; mk_local (kept []) 0 0 2].

Lemma merge_totals_exact_witness :
  exists b, rtc bench_step (starting (with_active 2 BenchStats_new) locals) b /\
    total_requests (shared b) = 1 /\ total_errors (shared b) = 2 /\ bytes_read (shared b) = 100 /\ active_connections (shared b) = 0.
Proof.
  destruct (merge_loses_latencies (with_active 2 BenchStats_new) (mk_local (kept [50]) 1 100 0) (mk_local (kept []) 0 0 2) eq_refl) as (b & Hrun & Hend & _).
  destruct (merge_totals_exact (with_active 2 BenchStats_new) locals b) as (H1 & H2 & H3 & H4 & _); try done.
  exists b. by rewrite H1, H2, H3, H4.
Defined.

Lemma parse_duration_units_witness : parse_duration true (lit "10s") = Ret (Ok 10000) /\ parse_duration true (lit "307445734561825861m") = Panic.
Proof.
  split; [exact (proj1 (proj2 (parse_duration_units true 10 ltac:(unfold u64_max; lia))))|].
  exact (proj2 (proj2 (proj2 (parse_duration_units true 307445734561825861 ltac:(unfold u64_max; lia))))).
Defined.

Lemma parse_url_roundtrip_witness : parse_url (lit "http://10.0.0.4:8080/") = Ok (mk_url (lit "10.0.0.4") 8080 (lit "/")).
Proof.
  refine (proj1 (parse_url_roundtrip (lit "10.0.0.4") 8080 [] _ _)); [|unfold u16_max; lia].
  split; apply (bool_decide_unpack _); vm_compute; reflexivity.
Defined.

Lemma merge_loses_latencies_witness : exists b, rtc bench_step (starting BenchStats_new [mk_local (kept [50]) 1 100 0; mk_local (kept [60]) 1 100 0]) b /\
  all_ended b /\ total_requests (shared b) = 2 /\ latency_histogram (shared b) = kept [50].
Proof. exact (merge_loses_latencies BenchStats_new (mk_local (kept [50]) 1 100 0) (mk_local (kept [60]) 1 100 0) eq_refl). Defined.

End RefBench.

End BenchClient.
