(* ===== verification/Teardown.v ===== *)
(** * Dropping devices, pools and ports
      ([dpdk-net/src/device/dpdk_device.rs], [dpdk-net-util/src/app.rs],
      [dpdk-net-test/src/dpdk_test.rs], [dpdk-net-test/src/udp.rs])

    Rust drops the fields of a struct in the order of their declaration and
    local variables in the reverse of theirs.  Here the drops of the sources are
    the sequences of DPDK calls this gives, on a state that says which calls
    DPDK allows: a packet buffer is given back to a pool that has not been
    freed, the driver gives back the buffers of its rings when the port is
    closed, and nothing is called after [rte_eal_cleanup].  A call outside
    these rules is [UB]. *)

From stdpp Require Import base list relations.
From Stdlib Require Import ZArith Lia.
From S2P Require Import Prelude Mbuf Pktmbuf Queue ArpCache Device UdpTest.

Local Open Scope Z_scope.

Module Teardown.

Section Model.
Context `{PktMbuf} `{RteMempool} `{!EqDecision pool_ptr}.

(** The [pool] field of a buffer: where [rte_pktmbuf_free] returns it. *)
Variable mbuf_pool : rte_mbuf -> pool_ptr.

(** Whether the driver's close succeeds. *)
Variable closes : bool.

(** ** What DPDK allows *)

Record lib := mk_lib { live : list pool_ptr; ring : list rte_mbuf; port_open : bool; eal_up : bool }.

Inductive call := MbufFree (m : rte_mbuf) | MempoolFree (p : pool_ptr) | PortStop | PortClose | EalCleanup.

Definition home (l : lib) (m : rte_mbuf) : bool := bool_decide (mbuf_pool m ∈ live l).

Definition dpdk (c : call) (l : lib) : Exec lib :=
  if negb (eal_up l) then UB
  else
    match c with
    | MbufFree m => if home l m then Ret l else UB
    | MempoolFree p => if bool_decide (p ∈ live l) then Ret (mk_lib (List.remove (fun x y => decide (x = y)) p (live l)) (ring l) (port_open l) true) else UB
    | PortStop => Ret l
    | PortClose =>
        if port_open l && closes then
          if forallb (home l) (ring l) then Ret (mk_lib (live l) [] false true) else UB
        else Ret l
    | EalCleanup => Ret (mk_lib [] [] false false)
    end.

(** ** Drops *)

(** The handles of the [Arc<MemPool>] besides the library. *)
Record mem := mk_mem { arcs : nat; dp : lib }.

Definition call_ (c : call) (t : mem) : Exec mem := l ← dpdk c (dp t); Ret (mk_mem (arcs t) l).

(** [Arc::clone], and dropping a handle: the last one drops the pool. *)
Definition clone (t : mem) : mem := mk_mem (S (arcs t)) (dp t).
Definition drop_arc (p : pool_ptr) (t : mem) : Exec mem :=
  match arcs t with
  | O => UB
  | S O => call_ (MempoolFree p) (mk_mem 0 (dp t))
  | S n => Ret (mk_mem n (dp t))
  end.

(** What a value that is dropped does, one action at a time. *)
Inductive act := DArc (p : pool_ptr) | DCall (c : call).
Definition run_act (a : act) (t : mem) : Exec mem := match a with DArc p => drop_arc p t | DCall c => call_ c t end.
Fixpoint run_acts (l : list act) (t : mem) : Exec mem :=
  match l with
  | [] => Ret t
  | a :: l => t ← run_act a t; run_acts l t
  end.

Definition free_batch (b : list rte_mbuf) : list act := (fun m => DCall (MbufFree m)) <$> b.

(** [DpdkDevice]: [rxq] and [txq] have nothing to drop, then [mempool],
    [rx_batch] and [tx_batch]. *)
Definition device_drops (d : Device.DpdkDevice) : list act :=
  DArc (Device.mempool d) :: free_batch (Device.rx_batch d) ++ free_batch (Device.tx_batch d).
Definition drop_device (d : Device.DpdkDevice) (t : mem) : Exec mem := run_acts (device_drops d) t.

(** The fields of [UdpSocket], behind the flush of its [Drop]: it owns the pool. *)
Definition socket_drops (s : UdpTest.UdpSocket) : list act :=
  match UdpTest.mempool s with Some p => [DCall (MempoolFree p)] | None => [] end ++
  free_batch (UdpTest.tx_batch s) ++ free_batch (UdpTest.rx_batch s).

(** [Drop for DpdkTestContext], whose errors are only reported, and its fields:
    [_eal] comes first, [EthDev] has nothing to drop. *)
Definition context_drops : list act := [DCall PortStop; DCall PortClose; DCall EalCleanup].

(** The end of [tcp_echo_test]: of [let (ctx, mut device)] the device goes first. *)
Definition drop_harness (d : Device.DpdkDevice) (t : mem) : Exec mem := run_acts (device_drops d ++ context_drops) t.

(** ** The end of [DpdkApp::run], interleaved

    A worker uses its device and then drops it.  The thread of [run] clones the
    pool's handle for each worker it starts, its own last; when all have ended
    it stops and closes the port and drops its own handle. *)
Inductive worker := Working (d : Device.DpdkDevice) | Dropping (l : list act).
Inductive main_pc := MLaunch (ds : list Device.DpdkDevice) | MStop | MClose | MDrop | MEnd.
Record process := mk_app { main : main_pc; workers : list worker; now : Exec mem }.

Section App.
Variable pool : pool_ptr.

Definition owns (d : Device.DpdkDevice) : Prop :=
  Device.mempool d = pool /\ Forall (fun m => mbuf_pool m = pool) (Device.rx_batch d ++ Device.tx_batch d).

Inductive app_step : process -> process -> Prop :=
  | step_launch d ds ws t : app_step (mk_app (MLaunch (d :: ds)) ws (Ret t)) (mk_app (MLaunch ds) (ws ++ [Working d]) (Ret (clone t)))
  | step_work pc ws i d d' r t : ws !! i = Some (Working d) -> owns d' -> Forall (fun m => mbuf_pool m = pool) r ->
      app_step (mk_app pc ws (Ret t))
        (mk_app pc (<[i := Working d']> ws) (Ret (mk_mem (arcs t) (mk_lib (live (dp t)) r (port_open (dp t)) (eal_up (dp t))))))
  | step_finish pc ws i d e : ws !! i = Some (Working d) -> app_step (mk_app pc ws e) (mk_app pc (<[i := Dropping (device_drops d)]> ws) e)
  | step_drop pc ws i a l t : ws !! i = Some (Dropping (a :: l)) ->
      app_step (mk_app pc ws (Ret t)) (mk_app pc (<[i := Dropping l]> ws) (run_act a t))
  | step_wait ws t : Forall (eq (Dropping [])) ws -> app_step (mk_app (MLaunch []) ws (Ret t)) (mk_app MStop ws (Ret t))
  | step_stop ws t : app_step (mk_app MStop ws (Ret t)) (mk_app MClose ws (call_ PortStop t))
  | step_close ws t : app_step (mk_app MClose ws (Ret t)) (mk_app MDrop ws (call_ PortClose t))
  | step_end ws t : app_step (mk_app MDrop ws (Ret t)) (mk_app MEnd ws (drop_arc pool t)).

End App.
End Model.

Section Proofs.
Context `{PktMbuf} `{RteMempool} `{!EqDecision pool_ptr}.
Variable mbuf_pool : rte_mbuf -> pool_ptr.
Variable closes : bool.
Variable pool : pool_ptr.

Abbreviation from_pool := (Forall (fun m => mbuf_pool m = pool)).
Abbreviation acts := (run_acts mbuf_pool closes).
Abbreviation owned := (owns mbuf_pool pool).

(** A state in which the pool may be used. *)
Definition usable (t : mem) : Prop := eal_up (dp t) = true /\ pool ∈ live (dp t).

Definition freed (l : lib) : lib := mk_lib (List.remove (fun x y => decide (x = y)) pool (live l)) (ring l) (port_open l) true.

Lemma freed_dead l : pool ∉ live (freed l).
Proof. simpl. rewrite list_elem_of_In. apply remove_In. Qed.

Lemma free_ok m t : usable t -> mbuf_pool m = pool -> call_ mbuf_pool closes (MbufFree m) t = Ret t.
Proof.
  intros [Hu Hl] Hm. unfold call_, dpdk, home. rewrite Hu, Hm. simpl. rewrite bool_decide_true by done. by destruct t.
Qed.

Lemma free_dead m t : pool ∉ live (dp t) -> mbuf_pool m = pool -> call_ mbuf_pool closes (MbufFree m) t = UB.
Proof. intros Hl Hm. unfold call_, dpdk, home. destruct (eal_up (dp t)); [|done]. simpl. by rewrite Hm, bool_decide_false. Qed.

Lemma free_batch_live b k t : usable t -> from_pool b -> acts (free_batch b ++ k) t = acts k t.
Proof. intros Ht. induction 1 as [|m b Hm _ IH]; [done|]. simpl. by rewrite free_ok. Qed.

Lemma free_batch_dead b k t : pool ∉ live (dp t) -> from_pool b -> b <> [] -> acts (free_batch b ++ k) t = UB.
Proof. intros Ht [|m b' Hm _]; [done|]. intros _. simpl. by rewrite free_dead. Qed.

Lemma free_batch_app (a b : list rte_mbuf) : free_batch a ++ free_batch b = free_batch (a ++ b).
Proof. unfold free_batch. by rewrite fmap_app. Qed.

Lemma drop_last t : usable t -> arcs t = 1%nat -> drop_arc mbuf_pool closes pool t = Ret (mk_mem 0 (freed (dp t))).
Proof. intros [Hu Hl] Ha. unfold drop_arc, call_, dpdk. rewrite Ha. simpl. by rewrite Hu, bool_decide_true. Qed.

(** Dropping a device whose buffers come from its pool: with another handle of
    the pool left, all buffers go back to it; as the last handle it frees the
    pool first, so any buffer left in a batch is given back to freed memory. *)
Lemma device_drops_run d k t : owned d -> usable t -> (0 < arcs t)%nat ->
  acts (device_drops d ++ k) t =
    if (arcs t =? 1)%nat
    then if decide (Device.rx_batch d ++ Device.tx_batch d = []) then acts k (mk_mem 0 (freed (dp t))) else UB
    else acts k (mk_mem (pred (arcs t)) (dp t)).
Proof.
  intros [Hp Hb] Ht Ha. unfold device_drops. rewrite Hp, free_batch_app. cbn [app run_acts run_act].
  destruct (Nat.eqb_spec (arcs t) 1) as [E|E].
  - rewrite drop_last by done. cbn. destruct (decide _) as [E'|E']; [by rewrite E'|].
    apply free_batch_dead; [apply freed_dead|done|done].
  - unfold drop_arc. destruct (arcs t) as [|[|n]]; try lia. cbn. by apply free_batch_live.
Qed.

Theorem drop_device_outcome d t (Hd : owned d) (Ht : usable t) (Ha : (0 < arcs t)%nat) :
  drop_device mbuf_pool closes d t =
    if (arcs t =? 1)%nat
    then if decide (Device.rx_batch d ++ Device.tx_batch d = []) then Ret (mk_mem 0 (freed (dp t))) else UB
    else Ret (mk_mem (pred (arcs t)) (dp t)).
Proof. unfold drop_device. rewrite <- (app_nil_r (device_drops d)). by rewrite device_drops_run. Qed.

(** The raw socket owns its pool: dropping it with a buffer in a batch gives
    that buffer back to the freed pool. *)
Theorem drop_socket_after_free (s : UdpTest.UdpSocket) t (Hp : UdpTest.mempool s = Some pool) (Ht : usable t)
    (Hb : from_pool (UdpTest.tx_batch s ++ UdpTest.rx_batch s)) :
  acts (socket_drops s) t = if decide (UdpTest.tx_batch s ++ UdpTest.rx_batch s = []) then Ret (mk_mem (arcs t) (freed (dp t))) else UB.
Proof.
  destruct Ht as [Hu Hl]. unfold socket_drops. rewrite Hp, free_batch_app. cbn [app run_acts run_act]. unfold call_ at 1, dpdk. rewrite Hu. simpl.
  rewrite bool_decide_true by done. cbn. destruct (decide _) as [E|E]; [by rewrite E|].
  rewrite <- (app_nil_r (free_batch _)). apply free_batch_dead; [apply (freed_dead (dp t))|done|done].
Qed.

Lemma dead_ring l r : pool ∉ live l -> from_pool r -> r <> [] -> forallb (home mbuf_pool l) r = false.
Proof. intros Hl [|m r' Hm Hr]; [done|]. intros _. simpl. unfold home. rewrite Hm. by rewrite bool_decide_false. Qed.

Lemma live_ring t : usable t -> from_pool (ring (dp t)) -> forallb (home mbuf_pool (dp t)) (ring (dp t)) = true.
Proof.
  intros [_ Hl] Hr. apply Is_true_true, forallb_True. eapply Forall_impl; [done|]. intros m Hm. apply Is_true_true. unfold home. rewrite Hm. by rewrite bool_decide_true.
Qed.

Lemma close_run t : usable t -> from_pool (ring (dp t)) ->
  call_ mbuf_pool closes PortClose t = Ret (if port_open (dp t) && closes then mk_mem (arcs t) (mk_lib (live (dp t)) [] false true) else t).
Proof.
  intros Ht Hr. unfold call_, dpdk. rewrite (live_ring t Ht Hr). destruct Ht as [-> Hl]. simpl. destruct (_ && _); [done|by destruct t].
Qed.

Lemma stop_run t : usable t -> call_ mbuf_pool closes PortStop t = Ret t.
Proof. intros [Hu _]. unfold call_, dpdk. rewrite Hu. simpl. by destruct t. Qed.

Lemma context_drops_run k t : usable t -> from_pool (ring (dp t)) ->
  acts (context_drops ++ k) t = acts k (mk_mem (arcs t) (mk_lib [] [] false false)).
Proof.
  intros Ht Hr. unfold context_drops. cbn [app run_acts run_act]. rewrite (stop_run t Ht). cbn. rewrite (close_run t Ht Hr). cbn.
  unfold call_, dpdk. destruct Ht as [Hu _]. destruct (_ && _); simpl; rewrite ?Hu; done.
Qed.

(** C28: the end of [tcp_echo_test], where the device holds the only handle: a
    buffer in a batch, or in a ring when the port is closed, is given back to
    the pool after it was freed; without any the drops are in order.  Dropping
    the context first would not help: it ends the EAL, and the pool of the
    device is freed behind it. *)
Theorem harness_drop_order d t (Hd : owned d) (Ht : usable t) (Ha : arcs t = 1%nat) (Hr : from_pool (ring (dp t))) :
  (drop_harness mbuf_pool closes d t = UB <->
     Device.rx_batch d ++ Device.tx_batch d <> [] \/ (closes = true /\ port_open (dp t) = true /\ ring (dp t) <> [])) /\
  acts (context_drops ++ device_drops d) t = UB.
Proof.
  split.
  - unfold drop_harness. rewrite device_drops_run by (done || lia). rewrite Ha. simpl.
    destruct (decide _) as [E|E]; [|by split; [left|]]. rewrite E. unfold call_, dpdk. simpl.
    destruct (port_open (dp t)), closes; simpl; try (split; [done|intros [?|(? & ? & ?)]; done]).
    destruct (decide (ring (dp t) = [])) as [E'|E'].
    + rewrite E'. simpl. split; [done|intros [?|(? & ? & ?)]; done].
    + rewrite dead_ring; [|apply (freed_dead (dp t))|done|done]. simpl. split; [right; done|done].
  - rewrite context_drops_run by done. destruct Hd as [Hp _]. simpl. rewrite Hp. unfold drop_arc. simpl. by rewrite Ha.
Qed.

(** ** The runner's teardown *)

Abbreviation pstep := (app_step mbuf_pool closes pool).

(** The handles a worker holds, and what is left for it to drop. *)
Definition act_handles (a : act) : Z := match a with DArc _ => 1 | DCall _ => 0 end.
Definition handles (w : worker) : Z := match w with Working _ => 1 | Dropping l => sum act_handles l end.
Definition act_ok (a : act) : Prop :=
  match a with DArc p => p = pool | DCall (MbufFree m) => mbuf_pool m = pool | DCall _ => False end.
Definition worker_ok (w : worker) : Prop := match w with Working d => owned d | Dropping l => Forall act_ok l end.
Abbreviation all_gone := (Forall (eq (Dropping []))).

(** While the process holds its own handle. *)
Definition running (ws : list worker) (t : mem) : Prop :=
  usable t /\ from_pool (ring (dp t)) /\ (Z.of_nat (arcs t) = 1 + sum handles ws).

Definition phase (pc : main_pc) (ws : list worker) (t : mem) : Prop :=
  match pc with
  | MLaunch ds => Forall owned ds /\ running ws t /\ port_open (dp t) = true
  | MStop | MClose => all_gone ws /\ running ws t /\ port_open (dp t) = true
  | MDrop => all_gone ws /\ running ws t /\ (closes = true -> port_open (dp t) = false /\ ring (dp t) = [])
  | MEnd => all_gone ws /\ arcs t = 0%nat /\ (pool ∉ live (dp t)) /\ eal_up (dp t) = true /\
      (closes = true -> port_open (dp t) = false /\ ring (dp t) = [])
  end.

Definition process_ok (s : process) : Prop :=
  exists t, now s = Ret t /\ Forall worker_ok (workers s) /\ phase (main s) (workers s) t.

Lemma handles_nonneg w : 0 <= handles w.
Proof. destruct w; simpl; [lia|]. apply sum_nonneg. intros []; simpl; lia. Qed.

Lemma gone_lookup ws i w : all_gone ws -> ws !! i = Some w -> w = Dropping [].
Proof. intros Hg Hi. symmetry. by eapply (Forall_lookup_1 _ _ _ _ Hg). Qed.

Lemma gone_handles ws : all_gone ws -> sum handles ws = 0.
Proof. induction 1 as [|w ws <- _ IH]; simpl; lia. Qed.

(** Only before the port is stopped is a worker still active. *)
Lemma active_launching pc ws t i w : phase pc ws t -> ws !! i = Some w -> w <> Dropping [] ->
  exists ds, pc = MLaunch ds /\ Forall owned ds /\ running ws t /\ port_open (dp t) = true.
Proof. intros Hp Hi Hw. destruct pc; destruct_and?; [by eexists|..]; destruct Hp as [Hg _]; by destruct Hw; eapply gone_lookup. Qed.

Lemma device_drops_ok d : owned d -> Forall act_ok (device_drops d) /\ sum act_handles (device_drops d) = 1%Z.
Proof.
  intros [Hp Hb]. unfold device_drops. rewrite free_batch_app. split.
  - constructor; [done|]. unfold free_batch. by rewrite Forall_fmap.
  - simpl. assert (sum act_handles (free_batch (Device.rx_batch d ++ Device.tx_batch d)) = 0) as ->; [|done].
    induction (_ ++ _) as [|m b IH] in Hb |- *; [done|]. simpl. inversion Hb. auto.
Qed.

(** An action of a worker, which leaves at least the process's own handle. *)
Lemma act_run ws i a l t : ws !! i = Some (Dropping (a :: l)) -> act_ok a -> running ws t ->
  exists t', run_act mbuf_pool closes a t = Ret t' /\ dp t' = dp t /\ running (<[i := Dropping l]> ws) t'.
Proof.
  intros Hi Ha ([Hu Hl] & Hr & Hn). pose proof (sum_insert handles _ _ _ (Dropping l) Hi) as Hs. simpl in Hs.
  destruct a as [p|[m| | | |]]; simpl in Ha; try done; simpl in Hs.
  - pose proof (sum_nonneg handles (<[i := Dropping l]> ws) handles_nonneg).
    unfold run_act, drop_arc. destruct (arcs t) as [|[|n]] eqn:E; try lia. eexists. split; [done|]. split; [done|].
    split_and!; simpl; try done. lia.
  - exists t. split; [by apply free_ok|]. split; [done|]. split_and!; try done. lia.
Qed.

Lemma step_ok s s' : pstep s s' -> process_ok s -> process_ok s'.
Proof.
  intros Hs (t0 & Ht & Hw & Hp). destruct Hs as [d ds ws t|pc ws i d d' r t Hi Hd' Hr|pc ws i d e Hi|pc ws i a l t Hi|ws t Hg|ws t|ws t|ws t];
    simpl in *; try (injection Ht as <-).
  - destruct Hp as (Hd & ([Hu Hl] & Hr & Hn) & Ho). inversion Hd as [|? ? Hd1 Hd2]; subst.
    eexists. split; [done|]. split; [by apply Forall_app_2; [|constructor]|]. split; [done|]. split; [|done]. repeat split; try done. simpl. rewrite sum_app. simpl. lia.
  - destruct (active_launching _ _ _ _ _ Hp Hi ltac:(done)) as (ds & -> & Hd & ([Hu Hl] & Hr0 & Hn) & Ho).
    eexists. split; [done|]. split; [by apply Forall_insert|]. split; [done|]. split; [|done]. repeat split; try done. simpl. rewrite (sum_insert _ _ _ _ _ Hi). simpl. lia.
  - destruct (active_launching _ _ _ _ _ Hp Hi ltac:(done)) as (ds & -> & Hd & ([Hu Hl] & Hr0 & Hn) & Ho).
    destruct (device_drops_ok d) as [Ha Hh]; [by eapply (Forall_lookup_1 _ _ _ _ Hw Hi)|].
    exists t0. split; [done|]. split; [by apply Forall_insert|]. split; [done|]. split; [|done]. repeat split; try done. simpl.
    rewrite (sum_insert _ _ _ _ _ Hi). unfold handles at 3. rewrite Hh. simpl. lia.
  - destruct (active_launching _ _ _ _ _ Hp Hi ltac:(done)) as (ds & -> & Hd & Hr & Ho).
    pose proof (Forall_lookup_1 _ _ _ _ Hw Hi) as Ha. inversion Ha as [|? ? Ha1 Ha2]; subst.
    destruct (act_run _ _ _ _ _ Hi Ha1 Hr) as (t' & E & Hdp & Hr'). exists t'. split; [done|]. split; [by apply Forall_insert|].
    split_and!; try done; try apply Hr'. by rewrite Hdp.
  - exists t. split; [done|]. split; [done|]. by destruct Hp as (_ & Hr & Ho).
  - destruct Hp as (Hg & Hr & Ho). exists t. split; [apply stop_run, Hr|]. by split.
  - destruct Hp as (Hg & (Hu & Hr & Hn) & Ho). rewrite (close_run t Hu Hr), Ho. eexists. split; [done|]. split; [done|].
    simpl. split; [done|]. destruct closes; simpl; [|by split_and!]. split; [|done]. split_and!; try done. by destruct Hu.
  - destruct Hp as (Hg & (Hu & Hr & Hn) & Hc). rewrite (gone_handles _ Hg) in Hn. rewrite drop_last by (done || lia).
    eexists. split; [done|]. split; [done|]. simpl. split_and!; try done. apply freed_dead.
Qed.

(** The start: the process has one handle of the pool and the port is open. *)
Definition launching (ds : list Device.DpdkDevice) (t : mem) : process := mk_app (MLaunch ds) [] (Ret t).

Lemma steps_ok s s' : rtc pstep s s' -> process_ok s -> process_ok s'.
Proof. induction 1 as [|s1 s2 s3 H1 _ IH]; [done|]. intros Hok. by apply IH, (step_ok _ _ H1). Qed.

(** What the workers have left to do. *)
Definition left_over (w : worker) : Z := match w with Working d => 1 + zlen (device_drops d) | Dropping l => zlen l end.

Lemma left_over_nonneg w : 0 <= left_over w.
Proof. destruct w; unfold left_over, zlen; lia. Qed.

Lemma gone_or ws : all_gone ws \/ exists i w, ws !! i = Some w /\ w <> Dropping [].
Proof.
  induction ws as [|w ws [IH|(i & w' & Hi & Hw)]]; [by left|..]; [|right; by exists (S i), w'].
  destruct w as [d|[|a l]]; [right; by exists 0%nat, (Working d)|left; by constructor|right; by exists 0%nat, (Dropping (a :: l))].
Qed.

(** A worker that has not ended can go on. *)
Lemma worker_step pc ws t i w : process_ok (mk_app pc ws (Ret t)) -> ws !! i = Some w -> w <> Dropping [] ->
  exists ws' t', pstep (mk_app pc ws (Ret t)) (mk_app pc ws' (Ret t')) /\ sum left_over ws' < sum left_over ws.
Proof.
  intros Hok Hi Hw. destruct w as [d|[|a l]]; [|done|].
  - eexists _, t. split; [by apply step_finish|]. rewrite (sum_insert _ _ _ _ _ Hi). cbn [left_over]. lia.
  - destruct (step_ok _ _ (step_drop mbuf_pool closes pool pc ws i a l t Hi) Hok) as (t' & E & _). simpl in E.
    eexists _, t'. split; [rewrite <- E; by apply step_drop|]. rewrite (sum_insert _ _ _ _ _ Hi). cbn [left_over]. rewrite zlen_cons. lia.
Qed.

Lemma drain pc ws t : process_ok (mk_app pc ws (Ret t)) ->
  exists ws' t', rtc pstep (mk_app pc ws (Ret t)) (mk_app pc ws' (Ret t')) /\ all_gone ws'.
Proof.
  remember (Z.to_nat (sum left_over ws)) as n eqn:En. revert ws t En. induction (lt_wf n) as [n _ IH]. intros ws t -> Hok.
  destruct (gone_or ws) as [Hg|(i & w & Hi & Hw)]; [by exists ws, t|].
  destruct (worker_step _ _ _ _ _ Hok Hi Hw) as (ws1 & t1 & Hs & Hlt).
  pose proof (sum_nonneg left_over ws1 left_over_nonneg).
  destruct (IH (Z.to_nat (sum left_over ws1)) ltac:(lia) ws1 t1 eq_refl (step_ok _ _ Hs Hok)) as (ws2 & t2 & Hr & Hg).
  exists ws2, t2. split; [by eapply rtc_l|done].
Qed.

Lemma launch_all ds ws t : exists ws' t', rtc pstep (mk_app (MLaunch ds) ws (Ret t)) (mk_app (MLaunch []) ws' (Ret t')).
Proof.
  revert ws t. induction ds as [|d ds IH]; intros ws t; [by exists ws, t|].
  destruct (IH (ws ++ [Working d]) (clone t)) as (ws' & t' & Hr). exists ws', t'. eapply rtc_l; [apply step_launch|done].
Qed.

(** From the point where all workers have ended, the process gets to its end. *)
Definition ends (s : process) : Prop := exists s', rtc pstep s s' /\ main s' = MEnd.

Lemma ends_steps s s' : rtc pstep s s' -> ends s' -> ends s.
Proof. intros H1 (s2 & H2 & Hm). exists s2. split; [by etrans|done]. Qed.

(** A step of the closing process, whose result is a state again. *)
Lemma ends_step pc pc' ws t e : process_ok (mk_app pc ws (Ret t)) -> pstep (mk_app pc ws (Ret t)) (mk_app pc' ws e) ->
  (forall t', process_ok (mk_app pc' ws (Ret t')) -> ends (mk_app pc' ws (Ret t'))) -> ends (mk_app pc ws (Ret t)).
Proof.
  intros Hok Hs Hk. pose proof (step_ok _ _ Hs Hok) as Hok'. pose proof Hok' as (t' & E & _). simpl in E. subst e.
  eapply ends_steps; [by apply rtc_once|]. by apply Hk.
Qed.

Lemma close_down pc ws t : process_ok (mk_app pc ws (Ret t)) -> all_gone ws -> (forall ds, pc = MLaunch ds -> ds = []) ->
  ends (mk_app pc ws (Ret t)).
Proof.
  assert (forall t, process_ok (mk_app MDrop ws (Ret t)) -> ends (mk_app MDrop ws (Ret t))) as H1.
  { intros t1 Hok. eexists. split; [apply rtc_once, step_end|done]. }
  assert (forall t, process_ok (mk_app MClose ws (Ret t)) -> ends (mk_app MClose ws (Ret t))) as H2.
  { intros t1 Hok. eapply ends_step; [done|apply step_close|done]. }
  assert (forall t, process_ok (mk_app MStop ws (Ret t)) -> ends (mk_app MStop ws (Ret t))) as H3.
  { intros t1 Hok. eapply ends_step; [done|apply step_stop|done]. }
  intros Hok Hg Hl. destruct pc as [ds| | | |]; [|by apply H3|by apply H2|by apply H1|by exists (mk_app MEnd ws (Ret t))].
  rewrite (Hl ds eq_refl) in *. eapply ends_step; [done|by apply step_wait|done].
Qed.

(** C26: the teardown of [DpdkApp::run]: in every interleaving of the workers that
    start, exchange buffers with the driver, end and drop their devices with
    the process that launches them, waits, closes the port and drops the pool,
    no DPDK call breaks the rules; the pool lives until the process is done, is
    then freed with no handle left, all devices dropped and, if the driver's
    close succeeds, the rings empty; and the end can be reached from every
    point. *)
Theorem app_teardown_safe ds t s (Hd : Forall owned ds) (Ht : usable t) (Hr : from_pool (ring (dp t))) (Ha : arcs t = 1%nat)
    (Ho : port_open (dp t) = true) (Hs : rtc pstep (launching ds t) s) :
  (exists t', now s = Ret t' /\
     match main s with
     | MEnd => all_gone (workers s) /\ arcs t' = 0%nat /\ (pool ∉ live (dp t')) /\ (closes = true -> port_open (dp t') = false /\ ring (dp t') = [])
     | _ => pool ∈ live (dp t')
     end) /\
  ends s.
Proof.
  assert (process_ok s) as Hok.
  { apply (steps_ok _ _ Hs). exists t. simpl. split_and!; try done. split_and!; [done..|]. rewrite Ha. simpl. lia. }
  split.
  - destruct Hok as (t' & E & Hw & Hp). exists t'. split; [done|].
    destruct (main s); simpl in Hp; destruct Hp as (Hg & Hp); [destruct Hp as [[[_ Hl] _] _]; exact Hl..|]. destruct_and!. done.
  - destruct s as [pc ws e]. pose proof Hok as (t0 & E & _). simpl in E. subst e.
    assert (exists pc' ws' t', rtc pstep (mk_app pc ws (Ret t0)) (mk_app pc' ws' (Ret t')) /\ (forall ds, pc' = MLaunch ds -> ds = [])) as
      (pc1 & ws1 & t1 & H1 & Hpc).
    { destruct pc as [l| | | |]; [destruct (launch_all l ws t0) as (ws' & t' & Hl); exists (MLaunch []), ws', t'; split; [done|by intros ? [= <-]]|..];
        eexists _, _, _; (split; [apply rtc_refl|done]). }
    destruct (drain pc1 ws1 t1 (steps_ok _ _ H1 Hok)) as (ws2 & t2 & H2 & Hg).
    eapply ends_steps; [exact H1|]. eapply ends_steps; [exact H2|].
    apply close_down; [|done|done]. by apply (steps_ok _ _ H2), (steps_ok _ _ H1).
Qed.

End Proofs.

(** ** An example: two devices of one pool, one with a frame still queued. *)
Module RefDrops.
#[local] Existing Instance Mbuf.ref_pktmbuf.
#[local] Existing Instance Queue.ref_mempool.
#[local] Instance ref_pool_eq : EqDecision (@pool_ptr Queue.ref_mempool).
Proof. simpl. solve_decision. Defined.

Definition the_pool : @pool_ptr Queue.ref_mempool := tt.
Definition pool_of (m : rte_mbuf) : @pool_ptr Queue.ref_mempool := the_pool.
Definition frame : rte_mbuf := Queue.packet [Byte.x01].
Definition dev (b : list rte_mbuf) : Device.DpdkDevice :=
  Device.mk_dev (Queue.mk_rxq 0 0) (Queue.mk_txq 0 0) the_pool [] b 1500 2048 0 None None None 0.
Definition mem0 : mem := mk_mem 1 (mk_lib [the_pool] [frame] true true).

Lemma usable_mem0 : usable the_pool mem0.
Proof. split; [done|]. simpl. by constructor. Qed.

Lemma owns_dev b : owns pool_of the_pool (dev b).
Proof. split; [done|]. by apply Forall_true. Qed.

Lemma harness_drop_order_witness :
  (drop_harness pool_of true (dev []) mem0 = UB <-> Device.rx_batch (dev []) ++ Device.tx_batch (dev []) <> [] \/
     (true = true /\ port_open (dp mem0) = true /\ ring (dp mem0) <> [])) /\
  run_acts pool_of true (context_drops ++ device_drops (dev [])) mem0 = UB.
Proof. apply (harness_drop_order pool_of true the_pool (dev []) mem0 (owns_dev []) usable_mem0 eq_refl). by apply Forall_true. Defined.

Lemma drop_device_outcome_witness : drop_device pool_of true (dev [frame]) mem0 = UB.
Proof.
  rewrite (drop_device_outcome pool_of true the_pool (dev [frame]) mem0 (owns_dev _) usable_mem0); [|simpl; lia]. reflexivity.
Defined.

Lemma drop_socket_after_free_witness :
  let s := UdpTest.mk_udp None (mac6 Byte.x00 Byte.x00 Byte.x00 Byte.x00 Byte.x00 Byte.x00) None None (Some the_pool) [] [frame] in
  run_acts pool_of true (socket_drops s) mem0 = UB.
Proof.
  intros s. rewrite (drop_socket_after_free pool_of true the_pool s mem0 eq_refl usable_mem0); [reflexivity|]. by apply Forall_true.
Defined.

Lemma app_teardown_safe_witness :
  exists s, rtc (app_step pool_of true the_pool) (launching [dev []; dev [frame]] mem0) s /\ ends pool_of true the_pool s.
Proof.
  eexists. split; [eapply rtc_l; [apply step_launch|]; apply rtc_once; apply (step_finish _ _ _ _ _ 0%nat); reflexivity|].
  eapply (app_teardown_safe pool_of true the_pool [dev []; dev [frame]] mem0 _).
  - repeat constructor; by apply Forall_true.
  - apply usable_mem0.
  - by apply Forall_true.
  - reflexivity.
  - reflexivity.
  - eapply rtc_l; [apply step_launch|]; apply rtc_once; apply (step_finish _ _ _ _ _ 0%nat); reflexivity.
Defined.

End RefDrops.

End Teardown.
