(* ===== verification/Harness.v ===== *)
(** * The manual test harness
      ([dpdk-net-test/src/dpdk_test.rs], [dpdk-net-test/src/manual/tcp.rs])

    [create_test_context] brings up the EAL with a virtual device, a pool and a
    port and gives the smoltcp device for queue 0; [tcp_echo_test] finds the
    addresses, builds such a context or one for a hardware port, and runs the
    polled echo server and client over it.  What is dropped at its end is in
    [Teardown.v]. *)

From Stdlib Require Import Strings.String.
From stdpp Require Import base gmap list fin_maps.
From Stdlib Require Import ZArith Strings.Byte Strings.Ascii Lia.
From S2P Require Import Prelude Mbuf Pktmbuf Queue ArpCache Device Smoltcp Reactor Eth Eal Text ManualEcho NetUtil EthDevConfig Lcore App.

Local Open Scope Z_scope.

Module Harness.
Import Text.

(** ** [create_test_context] *)

Section Context_.
Context `{PktMbuf} `{EthBurst} {env : Type}.
Variable rte_eal_init : Z -> list Eal.str -> env -> Z * env.
Variable rte_eal_cleanup : env -> Z * env.
Variable errno_of : env -> Z.
Context {rxconf txconf drv : Type}.
Abbreviation ecall := (Eth.eth_call (pool := pool_ptr) (rxconf := rxconf) (txconf := txconf)).
Context (drv_run : ecall -> drv -> Z * Eth.eth_out * drv) (drv_errno : drv -> Z).

(** The DPDK library as the harness uses it: the EAL, the pools and the driver
    with the calls made to it. *)
Record machine := mk_machine { h_eal : Eal.eal_state (env := env); h_rte : rte; h_drv : drv * list ecall }.

(** [_eal] has no data; [from_parts] and [eth_dev]. *)
Record DpdkTestContext := from_parts { eth_dev : Eth.EthDev }.

(** An error after the EAL is up drops the guard [eal]. *)
Definition release (m : machine) : machine := mk_machine (Eal.drop_eal rte_eal_cleanup (h_eal m)) (h_rte m) (h_drv m).

Definition test_config : EthDevConfig.EthDevConfig := EthDevConfig.with_mempool_name (bs "test_mempool") EthDevConfig.new.

Definition create_test_context (arg0 : option Eal.str) (m : machine) : Exec (Result (DpdkTestContext * Device.DpdkDevice) Errno) * machine :=
  let builder := Eal.vdev (Eal.lit "net_ring0") (Eal.no_pci (Eal.no_huge Eal.Builder_new)) in
  let '(r, e) := Eal.builder_init rte_eal_init errno_of arg0 builder (h_eal m) in
  let m := mk_machine e (h_rte m) (h_drv m) in
  match r with
  | Panic => (Panic, m)
  | UB => (UB, m)
  | Ret (Err e) => (Ret (Err e), m)
  | Ret (Ok _) =>
      let '(b, w, d) := EthDevConfig.build drv_run drv_errno test_config (h_rte m) (h_drv m).1 (h_drv m).2 in
      let m := mk_machine (h_eal m) w d in
      match b with
      | Panic => (Panic, release m)
      | UB => (UB, m)
      | Ret (Err e) => (Ret (Err e), release m)
      | Ret (Ok (mempool, dev)) =>
          match EthDevConfig.create_device test_config mempool 0 with
          | Ret device => (Ret (Ok (from_parts dev, device)), m)
          | Panic => (Panic, release m)
          | UB => (UB, m)
          end
      end
  end.

(** The context of a hardware port, whose failures all panic. *)
Definition hardware_context (arg0 : option Eal.str) (pci_addr : Eal.str) (m : machine) : Exec (DpdkTestContext * Device.DpdkDevice * machine) :=
  let builder := Eal.arg (Eal.lit "-a " ++ pci_addr) Eal.Builder_new in
  let '(r, e) := Eal.builder_init rte_eal_init errno_of arg0 builder (h_eal m) in
  _ ← (x ← r; unwrap_result x);
  let config := Pktmbuf.with_data_room_size (as_u16 EthDevConfig.DEFAULT_MBUF_DATA_ROOM_SIZE) (Pktmbuf.with_num_mbufs 8191 Pktmbuf.MemPoolConfig_new) in
  let '(pool, w) := Pktmbuf.create (bs "tcp_pool") config (h_rte m) in
  mempool ← unwrap_result pool;
  let dev_builder := Eth.b_with_tx_queue_conf (Eth.with_nb_desc 1024 Eth.QueueConf_default)
    (Eth.b_with_rx_queue_conf (Eth.with_nb_desc 1024 Eth.QueueConf_default)
      (Eth.b_with_nb_tx_queues 1 (Eth.b_with_nb_rx_queues 1 (Eth.b_with_eth_conf Eth.EthConf_new (Eth.Builder_new 0))))) in
  let '(built, d) := Eth.build drv_run drv_errno dev_builder mempool (h_drv m) in
  dev ← (b ← built; unwrap_result b);
  let mbuf_capacity := EthDevConfig.DEFAULT_MBUF_DATA_ROOM_SIZE - EthDevConfig.DEFAULT_MBUF_HEADROOM in
  device ← Device.new (Queue.mk_rxq 0 0) (Queue.mk_txq 0 0) mempool EthDevConfig.DEFAULT_MTU mbuf_capacity;
  Ret (from_parts dev, device, mk_machine e w d).

(** [Drop for DpdkTestContext], with its fields. *)
Definition drop_context (c : DpdkTestContext) (m : machine) : machine :=
  let '(_, d) := Eth.stop drv_run drv_errno (eth_dev c) (h_drv m) in
  let '(_, d) := Eth.close drv_run drv_errno (eth_dev c) d in
  release (mk_machine (h_eal m) (h_rte m) d).

End Context_.

(** ** The echo test *)

Section Echo.
Context `{SmoltcpMore Dev} `{!SmoltcpSetup Dev}.
Import ManualEcho.

Definition GREETING : list byte := bs "Hello, TCP server!".

(** [run_tcp_echo_with_device]; [times] are the instants of the loop's turns
    until its five seconds are over. *)
Definition run_tcp_echo_with_device (now : Z) (times : list Z) (device : Dev) (ip_addr gateway : Ipv4Addr) (mac_addr : MacAddress)
    : Exec (EchoTestResult * EchoServer * EchoClient * Net) :=
  let '(iface, device) := iface_new mac_addr device now in
  iface ← expect (push_ip_addr ip_addr 24 iface);
  iface ← expect (add_default_ipv4_route gateway iface);
  '(server, sockets) ← server_new set_new 8080 config_default;
  '(client, sockets) ← client_new sockets iface ip_addr 8080 49152 config_default;
  let client := client_send GREETING client in
  '(result, server, client, net) ← run_echo_test times server client (mk_net iface sockets device);
  _ ← assert_ (r_connected result);
  _ ← assert_ (echo_verified result);
  _ ← assert_ (bool_decide (r_bytes_sent result = 18%nat));
  _ ← assert_ (bool_decide (r_bytes_received result = 18%nat));
  Ret (result, server, client, net).

End Echo.

Section EchoTest.
Context `{System} `{HS : Smoltcp}.
Context {HM : SmoltcpMore (Device.DpdkDevice * Device.World)} {HP : SmoltcpSetup (Device.DpdkDevice * Device.World)} {env : Type}.
Variable rte_eal_init : Z -> list Eal.str -> env -> Z * env.
Variable rte_eal_cleanup : env -> Z * env.
Variable errno_of : env -> Z.
Context {rxconf txconf drv : Type}.
Abbreviation ecall := (Eth.eth_call (pool := pool_ptr) (rxconf := rxconf) (txconf := txconf)).
Context (drv_run : ecall -> drv -> Z * Eth.eth_out * drv) (drv_errno : drv -> Z).

Definition ascii_str (s : str) : Eal.str := ascii_of_byte <$> as_bytes s.

(** [tcp_echo_test] up to the drops at its end: the result of the test, the
    context and the device that are dropped, and the library they leave. *)
Definition tcp_echo_test (use_hardware : bool) (arg0 : option Eal.str) (now : Z) (times : list Z) (w : sys) (m : machine (env := env) (drv := drv) (rxconf := rxconf) (txconf := txconf))
    : Exec (ManualEcho.EchoTestResult * DpdkTestContext * machine (env := env) (drv := drv) (rxconf := rxconf) (txconf := txconf)) :=
  let interface := bs "eth1" in
  ip_addr ← (if use_hardware then expect (NetUtil.get_interface_ipv4 interface w) else Ret (ipv4 xc0 xa8 x01 x64));
  let gateway := default (ipv4 x0a x00 x00 x01) (NetUtil.get_default_gateway w) in
  '(ctx, device, m) ←
    (if use_hardware then
       pci_addr ← expect (NetUtil.get_pci_addr interface w);
       hardware_context rte_eal_init errno_of drv_run drv_errno arg0 (ascii_str pci_addr) m
     else
       let '(r, m) := create_test_context rte_eal_init rte_eal_cleanup errno_of drv_run drv_errno arg0 m in
       x ← (x ← r; unwrap_result x);
       Ret (x, m));
  let '(mac, d) := Eth.mac_addr drv_run drv_errno (eth_dev ctx) (h_drv m) in
  mac ← unwrap_result mac;
  let mac_addr := App.mac_of_bytes mac in
  '(result, _, _, net) ← run_tcp_echo_with_device now times (device, Device.mk_w (h_rte m) ArpCache.new) ip_addr gateway mac_addr;
  Ret (result, ctx, mk_machine (h_eal m) (Device.w_rte (ManualEcho.n_dev net).2) d).

End EchoTest.

(** ** Properties *)

Section ContextProofs.
Context `{PktMbuf} `{EthBurst} {env : Type}.
Variable rte_eal_init : Z -> list Eal.str -> env -> Z * env.
Variable rte_eal_cleanup : env -> Z * env.
Variable errno_of : env -> Z.
Context {rxconf txconf drv : Type}.
Context (drv_run : Eth.eth_call (pool := pool_ptr) (rxconf := rxconf) (txconf := txconf) -> drv -> Z * Eth.eth_out * drv) (drv_errno : drv -> Z).
Context (drv_u16 : forall c d r n d', drv_run c d = (r, Eth.OInfo n, d') -> 0 <= n <= u16_max).

Abbreviation create_context := (create_test_context rte_eal_init rte_eal_cleanup errno_of drv_run drv_errno).

Lemma release_free m : Eal.EAL_INITIALIZED (h_eal (release rte_eal_cleanup (rxconf := rxconf) (txconf := txconf) (drv := drv) m)) = false.
Proof. unfold release, Eal.drop_eal. by destruct (rte_eal_cleanup _). Qed.

(** The arguments of the harness have no NUL byte besides the program name's. *)
Lemma test_eal_starts arg0 s : (forall a, arg0 = Some a -> Eal.NUL ∉ a) ->
  let '(r, s') := Eal.builder_init rte_eal_init errno_of arg0 (Eal.vdev (Eal.lit "net_ring0") (Eal.no_pci (Eal.no_huge Eal.Builder_new))) s in
  if Eal.EAL_INITIALIZED s then r = Ret (Err EALREADY) /\ s' = s
  else match r with
       | Ret (Ok _) => Eal.EAL_INITIALIZED s' = true
       | Ret (Err _) => Eal.EAL_INITIALIZED s' = false
       | Panic | UB => False
       end.
Proof.
  intros Harg. unfold Eal.builder_init. set (args := Eal.build_args _ _). pose proof (Eal.init_branches rte_eal_init rte_eal_cleanup errno_of args s) as Hi.
  destruct (Eal.init _ _ _ _) as [r s']. destruct (Eal.EAL_INITIALIZED s); [done|]. destruct r as [[[]|x]| |]; try done.
  - by destruct Hi as (r & e' & _ & _ & -> & _).
  - by destruct Hi as (r & e' & _ & _ & -> & _).
  - destruct Hi as [He _]. apply Eal.build_args_nul in He.
    change (concat _) with [Eal.lit "net_ring0"] in He. rewrite Exists_cons, Eal.exists_one, (Eal.lit_nul "net_ring0") in He by reflexivity.
    destruct He as [He|[]]. destruct arg0 as [a|]; [by apply (Harg a)|]. by apply (Eal.lit_nul "dpdk-app") in He.
Qed.

(** [create_test_context] when no EAL is held and the program name has no NUL
    byte: it holds the EAL, the port was started with the documented calls and
    the device serves queue 0 of port 0 with the default MTU, or it reports an
    error and the EAL is free again; it never panics.  While an EAL is held it
    fails with [EALREADY] and changes nothing. *)
Theorem create_test_context_outcome arg0 m (Harg : forall a, arg0 = Some a -> Eal.NUL ∉ a) (Hlog : (h_drv m).2 = []) :
  let b := EthDevConfig.builder (rxconf := rxconf) (txconf := txconf) test_config in
  let '(res, m') := create_context arg0 m in
  if Eal.EAL_INITIALIZED (h_eal m) then res = Ret (Err EALREADY) /\ m' = m
  else
    match res with
    | Ret (Ok (ctx, device)) =>
        Eal.EAL_INITIALIZED (h_eal m') = true /\ Eth.port_id (eth_dev ctx) = 0 /\
        (exists p, device = Device.mk_dev (Queue.mk_rxq 0 0) (Queue.mk_txq 0 0) p [] [] 1500 2048 0 None None None 0) /\
        exists rss, Eth.rss_stages b rss /\ Eth.stages (h_drv m').2 = Eth.build_stages b rss
    | Ret (Err _) => Eal.EAL_INITIALIZED (h_eal m') = false
    | Panic | UB => False
    end.
Proof.
  intros b. unfold create_test_context. pose proof (test_eal_starts arg0 (h_eal m) Harg) as Hi.
  destruct (Eal.builder_init _ _ _ _ _) as [r e]. destruct (Eal.EAL_INITIALIZED (h_eal m)) eqn:Ef.
  - destruct Hi as [-> ->]. by destruct m.
  - destruct r as [[[]|x]| |]; try done. cbn [h_eal h_rte h_drv].
    pose proof (EthDevConfig.build_result drv_run drv_errno drv_u16 test_config (h_rte m) (h_drv m).1 ltac:(by vm_compute)) as Hb.
    cbv zeta in Hb. rewrite Hlog. destruct (EthDevConfig.build _ _ _ _ _ _) as [[r w] [d log]].
    destruct (Pktmbuf.create _ _ _) as [[p|x] w1]; [|destruct Hb as (-> & _ & _); by rewrite release_free].
    destruct r as [[[p' dev]|x]| |]; try done; [|by rewrite release_free]. destruct Hb as (-> & Hp & _ & Hs). cbn. split_and!; try done. by exists p.
Qed.

End ContextProofs.

Section EchoProofs.
Context `{HL : EthBurstLaws} {HI : HashMapIter} {HS : Smoltcp} {HSL : SmoltcpLaws} {Dev : Type} {HM : SmoltcpMore Dev}
  {HML : SmoltcpMoreLaws} {HP : SmoltcpSetup Dev}.
Context (R : SocketSet -> Dev -> SocketHandle -> SocketHandle -> Prop) {HR : ManualEcho.ReliablePair R}.
Import ManualEcho.

Definition no_bytes (s : tcp_sock) : Prop := tcp_delivered s = [] /\ tcp_accepted s = [].

(** The server and the client of the test when the loop starts. *)
Definition server0 (h : SocketHandle) : EchoServer := mk_server h 8080 [] (mk_sstats 0 0 0) false.
Definition client0 (h : SocketHandle) : EchoClient := client_send GREETING (mk_client h Connecting [] 0 [] 0 (mk_cstats 0 0)).

Lemma harness_start_ok hv hc s0 s1 (ss : SocketSet) i d : no_bytes s0 -> no_bytes s1 -> set_get ss hv = Some (inl s0) -> set_get ss hc = Some (inl s1) ->
  hv <> hc -> R ss d hv hc -> pair_ok R (server0 hv) (client0 hc) (mk_net i ss d).
Proof.
  intros [Hd0 Ha0] [Hd1 Ha1] Hv Hc Hne Hr. split; simpl; try done.
  - exists s0. split_and!; [done|split; simpl; rewrite ?Hd0, ?Ha0; try done|intros _; simpl; rewrite Hd0, Ha0; by split_and!].
    exists [], []. split; [exists []; by rewrite Hd0, Ha0|done].
  - exists s1. split; [done|]. apply client_send_ok; [|done]. split; simpl; rewrite ?Hd1, ?Ha1; done.
Qed.

(** A client that has everything back has sent everything. *)
Lemma complete_sent v c n : pair_ok R v c n -> (connections (s_stats v) <= 1)%nat -> c_state c = Complete ->
  received_data c = data_to_send c /\ send_offset c = length (data_to_send c).
Proof.
  intros Hok Hle Hcm. pose proof (pair_received R _ _ _ Hok Hle) as Hp. destruct Hok as [HP' _ (sv & Hgv & Hv & Hf) (sc & Hgc & Hc)].
  pose proof (co_complete _ _ Hc Hcm) as Hlen. rewrite (co_expected _ _ Hc) in Hlen.
  pose proof (prefix_length_eq _ _ Hp Hlen) as E. split; [done|].
  destruct (pair_prefix _ _ _ _ _ _ HP' Hgv Hgc) as [Hp1 Hp2]. destruct (Hf Hle) as (Hp3 & _).
  assert (received_data c `prefix_of` take (send_offset c) (data_to_send c)) as Hpre.
  { rewrite <- (co_received _ _ Hc), <- (co_sent _ _ Hc). by rewrite Hp2, Hp3. }
  apply prefix_length in Hpre. rewrite length_take, E in Hpre. pose proof (co_offset _ _ Hc). lia.
Qed.

(** C24: [run_tcp_echo_with_device] once interface and sockets are set up, over a
    reliable stream between the two sockets: it returns only if the client was
    handed exactly the greeting it sent, and it fails an assertion only if the
    client did not complete in the time given or the server saw a second
    connection. *)
Theorem run_tcp_echo_passes now times device ip gw mac i i1 i2 d s0 s1 (Hi : iface_new mac device now = (i, d))
    (Hip : push_ip_addr ip 24 i = Some i1) (Hgw : add_default_ipv4_route gw i1 = Some i2)
    (Hl : tcp_listen 8080 (tcp_new 4096 4096) = Ok s0) (Hc : tcp_connect i2 (mk_endpoint ip 8080) 49152 (tcp_new 4096 4096) = Ok s1)
    (Hs0 : no_bytes s0) (Hs1 : no_bytes s1) :
  let '(hv, ss1) := set_add (inl s0) set_new in
  let '(hc, ss2) := set_add (inl (tcp_new 4096 4096)) ss1 in
  let ss := set_put hc (inl s1) ss2 in
  R ss d hv hc ->
  exists v c n, echo_loop times (server0 hv) (client0 hc) (mk_net i2 ss d) = Ret (v, c, n) /\
    match run_tcp_echo_with_device now times device ip gw mac with
    | Ret (_, v', c', n') => (v', c', n') = (v, c, n) /\ received_data c = GREETING /\ send_offset c = 18%nat
    | Panic => c_state c <> Complete \/ (1 < connections (s_stats v))%nat
    | UB => False
    end.
Proof.
  destruct (set_add (inl s0) set_new) as [hv ss1] eqn:E1. destruct (set_add _ ss1) as [hc ss2] eqn:E2. intros ss Hr.
  destruct (set_add_spec _ _ _ _ E1) as [_ Hg1]. destruct (set_add_spec _ _ _ _ E2) as [Hfresh Hg2].
  assert (hv <> hc) as Hne by (intros ->; rewrite Hg1, decide_True in Hfresh; done).
  assert (set_get ss2 hc = Some (inl (tcp_new 4096 4096))) as Hgc by (by rewrite Hg2, decide_True).
  assert (forall h, set_get ss h = if decide (h = hc) then Some (inl s1) else set_get ss2 h) as Hg by (intros h; apply set_put_spec; eauto).
  destruct (echo_loop_ok R times (server0 hv) (client0 hc) (mk_net i2 ss d)) as (v & c & n & El & Hok & Hd).
  { apply (harness_start_ok _ _ s0 s1); try done; rewrite Hg; [|by rewrite decide_True]. rewrite decide_False, Hg2, decide_False, Hg1, decide_True by done. done. }
  exists v, c, n. split; [done|]. unfold run_tcp_echo_with_device. rewrite Hi, Hip. cbn [expect mbind exec_bind]. rewrite Hgw. cbn [expect mbind exec_bind].
  unfold server_new. change (rx_buffer_size config_default) with 4096. change (tx_buffer_size config_default) with 4096. rewrite Hl, E1. cbn [mbind exec_bind].
  unfold client_new. change (rx_buffer_size config_default) with 4096. change (tx_buffer_size config_default) with 4096. rewrite E2.
  unfold Reactor.get_tcp. rewrite Hgc. cbn [mbind exec_bind]. rewrite Hc. cbn [mbind exec_bind]. unfold run_echo_test. fold (client0 hc) (server0 hv) ss. rewrite El. cbn [mbind exec_bind].
  destruct (po_client _ _ _ _ Hok) as (sc & Hgsc & Hcok). rewrite (verify_echo_run _ _ Hcok). cbn [mbind exec_bind r_connected echo_verified r_bytes_sent r_bytes_received].
  rewrite (co_total_sent _ _ Hcok), (co_total_received _ _ Hcok), Hd. change (data_to_send (client0 hc)) with GREETING in *.
  assert (~ (c_state c = Complete /\ (connections (s_stats v) <= 1)%nat) -> c_state c <> Complete \/ (1 < connections (s_stats v))%nat) as Hno.
  { intros Hn. destruct (decide (c_state c = Complete)) as [E|]; [right|by left]. destruct (decide (connections (s_stats v) <= 1)%nat); [by destruct Hn|lia]. }
  destruct (decide (c_state c = Complete /\ (connections (s_stats v) <= 1)%nat)) as [[Hcm Hle]|Hn].
  - destruct (complete_sent _ _ _ Hok Hle Hcm) as [Er Eo]. rewrite Hd in Er, Eo. rewrite Hcm, Er, Eo. by rewrite bool_decide_true.
  - destruct (match c_state c with Connecting => false | _ => true end); [|by apply Hno]. cbn [assert_ mbind exec_bind].
    destruct (bool_decide_reflect (GREETING `prefix_of` received_data c)) as [Hpre|]; [|by apply Hno]. cbn [assert_ mbind exec_bind].
    destruct (bool_decide_reflect (send_offset c = 18%nat)) as [Es|]; [|by apply Hno]. cbn [assert_ mbind exec_bind].
    destruct (bool_decide_reflect (length (received_data c) = 18%nat)) as [Er|]; [|by apply Hno]. cbn [assert_ mbind exec_bind]. split_and!; [done| |done].
    symmetry. apply prefix_length_eq; [done|]. rewrite Er. by vm_compute.
Qed.

End EchoProofs.

(** ** An example: the reference network, and a library whose calls all succeed. *)
Module RefHarness.
Import ManualEcho ManualEcho.RefNet Smoltcp.RefStack.
#[local] Existing Instance Mbuf.ref_pktmbuf.
#[local] Existing Instance Queue.ref_mempool.
#[local] Existing Instance Queue.ref_burst.
#[local] Existing Instance Queue.ref_burst_laws.
#[local] Existing Instance Device.ref_hm_iter.

Definition my_ip : Ipv4Addr := ipv4 xc0 xa8 x01 x64.
Definition my_gw : Ipv4Addr := ipv4 x0a x00 x00 x01.
Definition my_mac : MacAddress := mac6 x02 x00 x00 x00 x00 x01.

#[export] Instance ref_setup : SmoltcpSetup unit := {|
  iface_new _ d _ := ([], d);
  push_ip_addr ip _ i := Some (i ++ [ip]);
  add_default_ipv4_route _ i := Some i
|}.

Lemma run_tcp_echo_passes_witness :
  match run_tcp_echo_with_device 0 [1; 2; 3; 4; 5] tt my_ip my_gw my_mac with
  | Ret (_, _, c, _) => received_data c = GREETING /\ send_offset c = 18%nat
  | _ => False
  end.
Proof.
  pose proof (run_tcp_echo_passes joined 0 [1; 2; 3; 4; 5] tt my_ip my_gw my_mac [] [my_ip] [my_ip] tt
    (with_state Listen (tcp_new 4096 4096)) (with_state SynSent (tcp_new 4096 4096))
    eq_refl eq_refl eq_refl eq_refl eq_refl (conj eq_refl eq_refl) (conj eq_refl eq_refl)) as Hp.
  destruct Hp as (v & c & n & El & Hm).
  { split_and!; [done..|]. eexists _, _, _. split; [done|]. split; by exists []. }
  assert (match run_tcp_echo_with_device 0 [1; 2; 3; 4; 5] tt my_ip my_gw my_mac with Ret _ => true | _ => false end = true) as E
    by (vm_compute; reflexivity).
  destruct (run_tcp_echo_with_device _ _ _ _ _ _) as [[[[res v'] c'] n']| |]; [|done..]. destruct Hm as (Ec & Hrc & Hsc).
  assert (c' = c) as -> by exact (f_equal (fun x => x.1.2) Ec). exact (conj Hrc Hsc).
Defined.

Abbreviation machine0 := (mk_machine (Eal.mk_eal false 0%nat) (Queue.world0 8 [] 8) (tt, [])).

Lemma create_test_context_outcome_witness :
  exists ctx device m, create_test_context Eal.ok_init (fun e => (0, e)) (fun _ => 0) Eth.ref_driver (fun _ => 0) None machine0 = (Ret (Ok (ctx, device)), m) /\
    Eal.EAL_INITIALIZED (h_eal m) = true /\ Eth.port_id (eth_dev ctx) = 0 /\ Device.mtu device = 1500.
Proof.
  pose proof (create_test_context_outcome Eal.ok_init (fun e => (0, e)) (fun _ => 0) Eth.ref_driver (fun _ => 0) Eth.ref_driver_u16 None machine0
    ltac:(intros a [=]) eq_refl) as Ho.
  assert (match (create_test_context Eal.ok_init (fun e => (0, e)) (fun _ => 0) Eth.ref_driver (fun _ => 0) None machine0).1 with
          | Ret (Ok _) => true | _ => false end = true) as Hr by (vm_compute; reflexivity).
  cbv zeta in Ho. destruct (create_test_context _ _ _ _ _ _ _) as [res m]. destruct res as [[[ctx device]|]| |]; [|done..]. destruct Ho as (He & Hp & (p & ->) & _).
  by eexists _, _, m.
Defined.

End RefHarness.

End Harness.
