(* ===== verification/BenchServer.v ===== *)
(** * The benchmark server ([tests/dpdk-bench-server/src/main.rs])

    The page with its global counter, the choice of the server by the mode, and
    the DPDK server, which composes the parts modelled elsewhere: the addresses
    and queue counts of [NetUtil], the EAL of [Eal], the runner of [App], and on
    every lcore a listener of [Tcp] with the accept loop of [AppServers]. *)

From Stdlib Require Import Strings.String.
From stdpp Require Import base gmap list fin_maps numbers.
From Stdlib Require Import ZArith NArith Strings.Byte Strings.Ascii Lia.
From S2P Require Import Prelude Mbuf Pktmbuf Queue ArpCache Device Smoltcp Reactor Tcp Sockets Eth Eal Lcore App Text HttpParser HttpServer NetUtil AppServers ThreadServers BenchClient Harness.

Local Open Scope Z_scope.

Module BenchServer.
Import Text HttpParser HttpServer.

(** ** The page *)

(** The lines of the literal, joined. *)
Fixpoint page_lines (ls : list (list byte)) : list byte :=
  match ls with
  | [] => []
  | [l] => l
  | l :: ls => l ++ LF :: page_lines ls
  end.

Definition PAGE_HEAD : list byte := page_lines [
  bs "<!DOCTYPE html>";
  bs "<html>";
  bs "<head>";
  bs "    <title>HTTP Benchmark Server</title>";
  bs "    <style>";
  bs "        body {";
  bs "            font-family: -apple-system, BlinkMacSystemFont, 'Segoe UI', Roboto, sans-serif;";
  bs "            display: flex;";
  bs "            justify-content: center;";
  bs "            align-items: center;";
  bs "            height: 100vh;";
  bs "            margin: 0;";
  bs "            background: linear-gradient(135deg, #667eea 0%, #764ba2 100%);";
  bs "            color: white;";
  bs "        }";
  bs "        .container {";
  bs "            text-align: center;";
  bs "            padding: 2rem;";
  bs "            background: rgba(255, 255, 255, 0.1);";
  bs "            border-radius: 20px;";
  bs "            backdrop-filter: blur(10px);";
  bs "        }";
  bs "        h1 { font-size: 3rem; margin-bottom: 0.5rem; }";
  bs "        .count { font-size: 6rem; font-weight: bold; }";
  bs "        .label { font-size: 1.5rem; opacity: 0.8; }";
  bs "    </style>";
  bs "</head>";
  bs "<body>";
  concat [bs "    <div class="; [x22]; bs "container"; [x22]; bs ">"];
  bs "        <h1>🚀 HTTP Benchmark Server</h1>";
  concat [bs "        <div class="; [x22]; bs "count"; [x22]; bs ">"]].
Definition PAGE_TAIL : list byte := page_lines [
  bs "</div>";
  concat [bs "        <div class="; [x22]; bs "label"; [x22]; bs ">requests received</div>"];
  bs "    </div>";
  bs "</body>";
  bs "</html>"].

(** [generate_counter_html]: [count] is the old value of [REQUEST_COUNT], an
    [AtomicU64], whose [fetch_add] wraps. *)
Definition page (count : Z) : list byte := PAGE_HEAD ++ decimal count ++ PAGE_TAIL.
Definition generate_counter_html (REQUEST_COUNT : Z) : list byte * Z := (page REQUEST_COUNT, wrap 64 (REQUEST_COUNT + 1)).

Definition counter_response (body : list byte) : Response :=
  mk_response 200 HTTP_11 [(CONTENT_TYPE, bs "text/html; charset=utf-8")] body.

Definition counter_handler {hyper_error Req} (_req : Req) (REQUEST_COUNT : Z) : Result Response hyper_error * Z :=
  let '(html, c) := generate_counter_html REQUEST_COUNT in (Ok (counter_response html), c).
Definition counter_handler_kimojio {Req} (_req : Req) (REQUEST_COUNT : Z) : Response * Z :=
  let '(html, c) := generate_counter_html REQUEST_COUNT in (counter_response html, c).

(** Requests from any connections, in the order of their [fetch_add]s. *)
Fixpoint handle_all {Req} (reqs : list Req) (c : Z) : list Response * Z :=
  match reqs with
  | [] => ([], c)
  | q :: reqs =>
      let '(r, c) := counter_handler_kimojio q c in
      let '(rs, c) := handle_all reqs c in (r :: rs, c)
  end.

(** ** Arguments and modes *)

Inductive ServerMode := Dpdk | Tokio | TokioLocal | Kimojio | KimojioPoll.

Record Args := mk_args {
  mode : ServerMode;
  addr : list byte;
  interface : list byte;
  a_port : Z;
  a_ip_addr : option str;
  a_gateway : option str;
  hw_queues : option Z;
  max_queues : option Z;
  backlog : nat
}.

(** What [main] runs, with the arguments it passes on. *)
Inductive started :=
  | RunTokioMultiThread (addr : list byte)
  | RunTokioThreadPerCore (addr : list byte)
  | RunDpdk (interface : list byte) (port : Z) (max_queues : option Z) (backlog : nat) (ip_addr gateway : option str) (hw_queues : option Z)
  | RunKimojioThreadPerCore (port : Z) (busy_poll : bool).

Definition main (a : Args) : started :=
  match mode a with
  | Tokio => RunTokioMultiThread (addr a)
  | TokioLocal => RunTokioThreadPerCore (addr a)
  | Dpdk => RunDpdk (interface a) (a_port a) (max_queues a) (backlog a) (a_ip_addr a) (a_gateway a) (hw_queues a)
  | Kimojio => RunKimojioThreadPerCore (a_port a) false
  | KimojioPoll => RunKimojioThreadPerCore (a_port a) true
  end.

(** ** Addresses *)

(** [Ipv4Addr::from_str]: four decimal numbers of one to three digits without
    leading zeros, separated by dots. *)
Definition ascii_digit (c : char) : bool := ((48 <=? c) && (c <=? 57))%N.
Definition octet_from_str (s : str) : option byte :=
  let leading_zero := match s with 48%N :: _ :: _ => true | _ => false end in
  if forallb ascii_digit s && (length s <=? 3)%nat && negb leading_zero then
    v ← from_str_radix 10 255 s; Byte.of_N (Z.to_N v)
  else None.
Definition ipv4_from_str (s : str) : option Ipv4Addr :=
  match mapM octet_from_str (split 46 s) with
  | Some [a; b; c; d] => Some (ipv4 a b c d)
  | _ => None
  end.

(** ** The DPDK server *)

Section Dpdk.
Context `{Sys : System} `{Burst : EthBurst} {PM : PktMbuf} {HI : HashMapIter}.

(** The lcores that an initialised EAL knows. *)
Context {env : Type}.
Variable rte_eal_init : Z -> list Eal.str -> env -> Z * env.
Variable rte_eal_cleanup : env -> Z * env.
Variable errno_of : env -> Z.
Variable RTE_MAX_LCORE : Z.
Variable main_lcore : env -> Z.
Variable rte_get_next_lcore : env -> Z -> Z -> Z -> Z.
Variable rte_eal_remote_launch : (unit -> Z) -> Z -> env -> Z * env.
Variable rte_eal_mp_wait_lcore : env -> env.
Context {rxconf txconf drv : Type}.
Abbreviation ecall := (Eth.eth_call (pool := pool_ptr) (rxconf := rxconf) (txconf := txconf)).
Context (drv_run : ecall -> drv -> Z * Eth.eth_out * drv) (drv_errno : drv -> Z).
Variables TCP4 TCP6 : Z.

(** The queues to use: the given number or that of the interface, capped. *)
Definition num_queues (interface : list byte) (hw_queues max_queues : option Z) (w : sys) : Exec (Z * sys) :=
  '(n, w) ← match hw_queues with
            | Some queues => Ret (queues, w)
            | None => let '(r, w) := NetUtil.get_ethtool_channels interface w in
                      ch ← unwrap_result r; Ret (NetUtil.combined_count ch, w)
            end;
  Ret (match max_queues with Some max => Z.min n max | None => n end, w).

(** [usize::saturating_sub] *)
Definition core_list (n : Z) : Eal.str := Eal.lit "0-" ++ Eal.to_string (Z.max 0 (n - 1)).

Definition server_ip (interface : list byte) (ip_addr : option str) (w : sys) : Exec Ipv4Addr :=
  match ip_addr with
  | Some ip_str => expect (ipv4_from_str ip_str)
  | None => expect (NetUtil.get_interface_ipv4 interface w)
  end.
Definition server_gateway (gateway : option str) (w : sys) : Exec Ipv4Addr :=
  match gateway with
  | Some gw_str => expect (ipv4_from_str gw_str)
  | None => Ret (default (ipv4 x0a x00 x00 x01) (NetUtil.get_default_gateway w))
  end.

(** [run_dpdk_server]: the workers that ran, and the EAL after its guard was
    dropped. *)
Definition run_dpdk_server (overflow_checks : bool) (arg0 : option Eal.str) (set_handler_ok : bool)
    (interface : list byte) (max_queues : option Z) (ip_addr gateway : option str) (hw_queues : option Z)
    (w : sys) (m : Harness.machine (env := env) (drv := drv) (rxconf := rxconf) (txconf := txconf))
    : Exec (list App.worker * sys * Harness.machine (env := env) (drv := drv) (rxconf := rxconf) (txconf := txconf)) :=
  ip ← server_ip interface ip_addr w;
  gw ← server_gateway gateway w;
  '(n, w) ← num_queues interface hw_queues max_queues w;
  pci_addr ← expect (NetUtil.get_pci_addr interface w);
  let builder := Eal.core_list (core_list n) (Eal.allow (Harness.ascii_str pci_addr) Eal.Builder_new) in
  let '(r, e) := Eal.builder_init rte_eal_init errno_of arg0 builder (Harness.h_eal m) in
  _ ← (x ← r; unwrap_result x);
  _ ← assert_ set_handler_ok;
  let app := App.with_gateway gw (App.with_ip ip (App.with_eth_dev 0 App.new)) in
  let lcores := Eal.eal_env e in
  '(workers, world) ← App.run RTE_MAX_LCORE (main_lcore lcores) (rte_get_next_lcore lcores) rte_eal_remote_launch rte_eal_mp_wait_lcore
    drv_run drv_errno TCP4 TCP6 overflow_checks app (App.mk_world (Harness.h_drv m) (Harness.h_rte m) (Lcore.mk_lc 0 lcores));
  let e := Eal.drop_eal rte_eal_cleanup (Eal.mk_eal true (Lcore.eal (App.w_lc world))) in
  Ret (workers, w, Harness.mk_machine e (App.w_rte world) (App.w_eth world)).

End Dpdk.

(** What each lcore runs: the closure up to its first poll of [Http1Server]. *)
Definition worker_main `{Smoltcp} {F} (handler : F) (port : Z) (backlog : nat) (queue_id : Z) (r : Reactor.ReactorInner) : Exec (AppServers.server * Reactor.ReactorInner) :=
  match Tcp.bind_with_backlog port 16384 16384 backlog r with
  | (Ok listener, r) => Ret (AppServers.hyper_start (AppServers.http1_server_new listener handler queue_id port), r)
  | (Err _, _) => Panic
  end.

(** ** The example [dpdk_tcp_server] ([dpdk-net-test/examples/dpdk_tcp_server.rs])

    Its [main] sets up the huge pages and does then what the benchmark server
    does without options for the interface [eth1]; its workers run the echo
    server. *)
Definition SERVER_PORT : Z := 8080.
Definition INTERFACE : list byte := bs "eth1".

Section Example.
Context `{Sys : System} `{Burst : EthBurst} {PM : PktMbuf} {HI : HashMapIter} {env : Type}.
Variable rte_eal_init : Z -> list Eal.str -> env -> Z * env.
Variable rte_eal_cleanup : env -> Z * env.
Variable errno_of : env -> Z.
Variable RTE_MAX_LCORE : Z.
Variable main_lcore : env -> Z.
Variable rte_get_next_lcore : env -> Z -> Z -> Z -> Z.
Variable rte_eal_remote_launch : (unit -> Z) -> Z -> env -> Z * env.
Variable rte_eal_mp_wait_lcore : env -> env.
Context {rxconf txconf drv : Type}.
Context (drv_run : Eth.eth_call (pool := pool_ptr) (rxconf := rxconf) (txconf := txconf) -> drv -> Z * Eth.eth_out * drv) (drv_errno : drv -> Z).
Variables TCP4 TCP6 : Z.

Definition dpdk_tcp_server (overflow_checks : bool) (arg0 : option Eal.str) (set_handler_ok : bool) (w : sys)
    (m : Harness.machine (env := env) (drv := drv) (rxconf := rxconf) (txconf := txconf)) :=
  let '(r, w) := NetUtil.ensure_hugepages w in
  _ ← unwrap_result r;
  run_dpdk_server rte_eal_init rte_eal_cleanup errno_of RTE_MAX_LCORE main_lcore rte_get_next_lcore rte_eal_remote_launch rte_eal_mp_wait_lcore
    drv_run drv_errno TCP4 TCP6 overflow_checks arg0 set_handler_ok INTERFACE None None None None w m.
End Example.

Definition echo_worker_main `{Smoltcp} (stats : AppServers.ServerStats) (queue_id : Z) (r : Reactor.ReactorInner)
    : Exec (AppServers.server * Reactor.ReactorInner) :=
  match Tcp.bind SERVER_PORT 4096 4096 r with
  | (Ok listener, r) => Ret (AppServers.echo_start (AppServers.echo_server_new listener stats queue_id SERVER_PORT), r)
  | (Err _, _) => Panic
  end.

(** ** The counter *)

Lemma decimal_length n : 0 <= n <= u64_max -> (length (decimal n) <= 64)%nat.
Proof.
  intros Hn. unfold decimal, to_string, to_radix. rewrite !length_fmap, length_reverse.
  assert (forall fuel m, (length (digits fuel 10 m) <= fuel)%nat) as Hd.
  { induction fuel as [|fuel IH]; intros m; cbn [digits]; [done|]. case_match; cbn; [lia|]. specialize (IH (m / 10)). lia. }
  etrans; [apply Hd|]. assert (Z.log2 n < 64); [|pose proof (Z.log2_nonneg n); lia].
  destruct (decide (n = 0)) as [->|]; [done|]. apply Z.log2_lt_pow2; unfold u64_max in Hn; lia.
Qed.

Lemma page_inj a b : 0 <= a <= u64_max -> 0 <= b <= u64_max -> page a = page b -> a = b.
Proof.
  unfold page. intros Ha Hb E%app_inv_head%app_inv_tail. apply (f_equal (fmap bN)) in E.
  destruct (BenchClient.decimal_text a) as [Ea _]; [lia|]. destruct (BenchClient.decimal_text b) as [Eb _]; [lia|].
  unfold BenchClient.text in Ea, Eb. rewrite Ea, Eb in E. apply (f_equal parse_usize) in E. rewrite !parse_to_string in E by done. congruence.
Qed.

Lemma handle_all_run {Req} (reqs : list Req) c : 0 <= c <= u64_max ->
  handle_all reqs c = ((fun i => counter_response (page (wrap 64 (c + Z.of_nat i)))) <$> seq 0 (length reqs), wrap 64 (c + zlen reqs)).
Proof.
  revert c. induction reqs as [|q reqs IH]; intros c Hc; cbn [handle_all].
  - rewrite zlen_nil, Z.add_0_r, wrap_small by (unfold u64_max in Hc; lia). done.
  - unfold counter_handler_kimojio, generate_counter_html. cbv zeta.
    rewrite IH by (pose proof (wrap_bounds 64 (c + 1)); unfold u64_max; lia). cbn [length seq fmap list_fmap].
    rewrite Z.add_0_r, (wrap_small 64 c) by (unfold u64_max in Hc; lia). f_equal.
    + f_equal. rewrite <- fmap_S_seq, <- list_fmap_compose. apply list_fmap_ext. intros _ i _. unfold compose. do 2 f_equal.
      unfold wrap. rewrite Zplus_mod_idemp_l. f_equal. lia.
    + unfold wrap. rewrite Zplus_mod_idemp_l, zlen_cons. f_equal. lia.
Qed.

(** The counter counts: however requests interleave, the pages show the
    consecutive numbers from the counter on, modulo its width, the counter moves
    by their number, no two of fewer than 2^64 requests see the same page, and
    both handlers answer alike. *)
Theorem counter_pages_distinct {Req hyper_error} (reqs : list Req) c (Hc : 0 <= c <= u64_max) (Hl : zlen reqs <= 2 ^ 64) :
  exists rs, handle_all reqs c = (rs, wrap 64 (c + zlen reqs)) /\
    r_body <$> rs = (fun i => page (wrap 64 (c + Z.of_nat i))) <$> seq 0 (length reqs) /\ NoDup (r_body <$> rs) /\
    (forall q, counter_handler (hyper_error := hyper_error) q c = (Ok (counter_handler_kimojio (Req := Req) q c).1, (counter_handler_kimojio q c).2)).
Proof.
  eexists. split; [by apply handle_all_run|]. rewrite <- list_fmap_compose. split_and!; [done| |done].
  apply NoDup_fmap_2_strong; [|apply NoDup_seq]. intros i j Hi%elem_of_seq Hj%elem_of_seq E.
  apply page_inj in E; [|pose proof (wrap_bounds 64 (c + Z.of_nat i)); unfold u64_max; lia|pose proof (wrap_bounds 64 (c + Z.of_nat j)); unfold u64_max; lia].
  unfold zlen, wrap, u64_max in *.
  apply Nat2Z.inj. pose proof (Z.div_mod (c + Z.of_nat i) (2 ^ 64)) as Di. pose proof (Z.div_mod (c + Z.of_nat j) (2 ^ 64)) as Dj.
  pose proof (Z.mod_pos_bound (c + Z.of_nat i) (2 ^ 64)). nia.
Qed.

(** The page fits every client: the response is one the raw client frames. *)
Section Exchange.
Context `{HttpTypes} `{AsyncReadLaws R} `{!AsyncWrite R}.
Import BenchClient.

Lemma page_length count : 0 <= count <= u64_max -> zlen (page count) <= 2000.
Proof.
  intros Hc. pose proof (decimal_length count Hc). unfold page, zlen. rewrite !length_app.
  assert (length PAGE_HEAD + length PAGE_TAIL <= 1900)%nat by (apply Nat.leb_le; vm_compute; reflexivity). lia.
Qed.

Lemma counter_response_ok count : canonical_reason 200 = Some (bs "OK") -> 0 <= count <= u64_max ->
  response_ok (counter_response (page count)).
Proof.
  intros Hk Hc. split.
  - done.
  - unfold reason_phrase. cbn [status counter_response]. by rewrite Hk.
  - by repeat constructor.
  - done.
  - pose proof (page_length count Hc). unfold u64_max. cbn [r_body counter_response]. lia.
Qed.

Lemma counter_serialized count : canonical_reason 200 = Some (bs "OK") -> 0 <= count <= u64_max ->
  zlen (serialize_response (counter_response (page count))) <= 4000.
Proof.
  intros Hk Hc. pose proof (page_length count Hc) as Hp. pose proof (decimal_length (zlen (page count))) as Hd.
  unfold serialize_response, reason_phrase. cbn [counter_response status r_version r_headers r_body]. rewrite Hk.
  change (hm_contains CONTENT_LENGTH [(CONTENT_TYPE, bs "text/html; charset=utf-8")]) with false.
  unfold zlen in *. rewrite !length_app. cbn [default].
  assert (length (decimal (Z.of_nat (length (page count)))) <= 64)%nat by (apply Hd; unfold u64_max; lia).
  change (length (version_str HTTP_11)) with 8%nat. change (length (decimal 200)) with 3%nat.
  change (length (concat (header_line <$> [(CONTENT_TYPE, bs "text/html; charset=utf-8")]))) with 40%nat.
  change (length crlf) with 2%nat.
  change (length (bs " ")) with 1%nat. change (length (id (bs "OK"))) with 2%nat. change (length (bs "Content-Length: ")) with 16%nat. lia.
Qed.

(** A client of the benchmark reads the page whole, whatever the count and
    however its bytes arrive. *)
Theorem counter_page_exchange awaits request buf s s1 count (Hk : canonical_reason 200 = Some (bs "OK")) (Hc : 0 <= count <= u64_max)
    (Hw : aw_write_all request s = (Ok tt, s1)) (Hs1 : ar_rest s1 = serialize_response (counter_response (page count)))
    (Hb : (0 < length buf)%nat) (Ha : (4001 < awaits)%nat) :
  exists buf' s', exchange awaits request buf s = XDone (length (serialize_response (counter_response (page count)))) buf' s' /\ ar_rest s' = [].
Proof.
  pose proof (counter_serialized count Hk Hc) as Hz. unfold zlen in Hz.
  destruct (exchange_reads_response awaits request buf s s1 (counter_response (page count)) [] (counter_response_ok count Hk Hc) Hw)
    as (n & buf' & s' & E & Hr & _ & Hn); rewrite ?app_nil_r; try done; [lia|unfold zlen; lia|].
  rewrite (Hn eq_refl), app_nil_r, drop_all in *. by exists buf', s'.
Qed.
End Exchange.

(** ** Addresses *)

Lemma octet_roundtrip b : octet_from_str (to_string (Z.of_N (Byte.to_N b))) = Some b /\ 46%N ∉ to_string (Z.of_N (Byte.to_N b)).
Proof. split; [by destruct b|]. apply (bool_decide_unpack _). by destruct b. Qed.

(** [Display for Ipv4Addr] *)
Definition ipv4_display (a : Ipv4Addr) : str :=
  let o b := to_string (Z.of_N (Byte.to_N b)) in o (ip0 a) ++ 46%N :: o (ip1 a) ++ 46%N :: o (ip2 a) ++ 46%N :: o (ip3 a).

(** An address given on the command line is the one the server uses. *)
Theorem server_ip_given `{System} interface a w : server_ip interface (Some (ipv4_display a)) w = Ret a.
Proof.
  unfold server_ip, ipv4_from_str, ipv4_display. rewrite !split_piece by apply octet_roundtrip. rewrite split_last by apply octet_roundtrip.
  cbn [mapM]. rewrite !(proj1 (octet_roundtrip _)). by destruct a.
Qed.

(** ** The DPDK server *)

Lemma filter_range k n : 0 <= k < n -> List.filter (fun i => (0 <=? i) && (i <=? k)) (seqZ 0 n) = seqZ 0 (k + 1).
Proof.
  intros Hk. replace n with (k + 1 + (n - (k + 1))) by lia. rewrite seqZ_app, List.filter_app by lia.
  assert (forall l, Forall (fun i => 0 <= i <= k) l -> List.filter (fun i => (0 <=? i) && (i <=? k)) l = l) as Hin.
  { induction 1 as [|i l Hi _ IH]; [done|]. cbn. rewrite (proj2 (Z.leb_le _ _)), (proj2 (Z.leb_le _ _)) by lia. cbn. by rewrite IH. }
  assert (forall l, Forall (fun i => k < i) l -> List.filter (fun i => (0 <=? i) && (i <=? k)) l = []) as Hout.
  { induction 1 as [|i l Hi _ IH]; [done|]. cbn. by rewrite (proj2 (Z.leb_gt i k)), andb_false_r. }
  rewrite Hin, Hout, app_nil_r; [done| |]; apply Forall_forall; intros i Hi%list_elem_of_In%elem_of_seqZ; lia.
Qed.

Section DpdkProofs.
Context `{Sys : System} `{HL : EthBurstLaws} {HI : HashMapIter}.
Context {env : Type}.
Variable rte_eal_init : Z -> list Eal.str -> env -> Z * env.
Variable rte_eal_cleanup : env -> Z * env.
Variable errno_of : env -> Z.
Variable RTE_MAX_LCORE : Z.
Variable main_lcore : env -> Z.
Variable rte_lcore_is_enabled : env -> Z -> bool.
Variable rte_get_next_lcore : env -> Z -> Z -> Z -> Z.
Variable rte_eal_remote_launch : (unit -> Z) -> Z -> env -> Z * env.
Variable rte_eal_mp_wait_lcore : env -> env.
Context {rxconf txconf drv : Type}.
Context (drv_run : Eth.eth_call (pool := pool_ptr) (rxconf := rxconf) (txconf := txconf) -> drv -> Z * Eth.eth_out * drv) (drv_errno : drv -> Z).
Variables TCP4 TCP6 : Z.

Abbreviation dpdk_server := (run_dpdk_server rte_eal_init rte_eal_cleanup errno_of RTE_MAX_LCORE main_lcore rte_get_next_lcore
  rte_eal_remote_launch rte_eal_mp_wait_lcore drv_run drv_errno TCP4 TCP6).

(** Documented behaviour of the EAL: the core list given with [-l] is the set
    of its lcores, the first of which is the main one; and the iteration over
    them, as for [App]. *)
Hypothesis max_u16 : 0 <= RTE_MAX_LCORE <= 65536.
Hypothesis eal_core_list : forall name pci k e r e', 0 <= k < RTE_MAX_LCORE ->
  rte_eal_init 5 [name; Eal.lit "-a"; pci; Eal.lit "-l"; Eal.lit "0-" ++ Eal.to_string k] e = (r, e') -> 0 <= r ->
  main_lcore e' = 0 /\ forall i, rte_lcore_is_enabled e' i = (0 <=? i) && (i <=? k).
Hypothesis next_lcore_spec : forall e i skip, 0 <= i <= u32_max ->
  let r := rte_get_next_lcore e i (if skip : bool then 1 else 0) 0 in
  as_u32 (i + 1) <= RTE_MAX_LCORE ->
  (r = RTE_MAX_LCORE \/ (as_u32 (i + 1) <= r < RTE_MAX_LCORE /\ Lcore.eligible (rte_lcore_is_enabled e) (main_lcore e) skip r = true)) /\
  (forall j, as_u32 (i + 1) <= j < r -> Lcore.eligible (rte_lcore_is_enabled e) (main_lcore e) skip j = false).

Lemma to_cstrings_same args cargs : Eal.to_cstrings args = Ret cargs -> cargs = args.
Proof.
  revert cargs. induction args as [|a args IH]; intros cargs; cbn [Eal.to_cstrings]; [by intros [= <-]|].
  destruct (decide _); [done|]. destruct (Eal.to_cstrings args) as [l| |]; cbn; [|done|done]. intros [= <-]. by rewrite (IH l).
Qed.

(** What the EAL was initialised with, when it was. *)
Lemma builder_init_ok arg0 pci cl s u e :
  Eal.builder_init rte_eal_init errno_of arg0 (Eal.core_list cl (Eal.allow pci Eal.Builder_new)) s = (Ret (Ok u), e) ->
  exists name r, rte_eal_init 5 [name; Eal.lit "-a"; pci; Eal.lit "-l"; cl] (Eal.eal_env s) = (r, Eal.eal_env e) /\ 0 <= r.
Proof.
  unfold Eal.builder_init, Eal.init, Eal.build_args. cbn [Eal.program_name Eal.options Eal.core_list Eal.allow Eal.option_ Eal.Builder_new].
  destruct (Eal.EAL_INITIALIZED s); [done|]. set (name := match arg0 with Some n => n | None => _ end).
  destruct (Eal.to_cstrings _) as [cargs| |] eqn:Ec; [|done|done]. apply to_cstrings_same in Ec. subst cargs. cbn [Eal.eal_env].
  destruct (rte_eal_init _ _ _) as [r e1] eqn:Ei. destruct (Z.ltb_spec r 0); [done|]. intros [= _ <-]. exists name, r. by split.
Qed.

(** The lcores of an EAL initialised with the core list of [n] queues. *)
Lemma core_list_lcores arg0 pci n s u e : 0 <= n <= RTE_MAX_LCORE -> 0 < RTE_MAX_LCORE ->
  Eal.builder_init rte_eal_init errno_of arg0 (Eal.core_list (core_list n) (Eal.allow pci Eal.Builder_new)) s = (Ret (Ok u), e) ->
  App.enabled_lcores RTE_MAX_LCORE (rte_lcore_is_enabled (Eal.eal_env e)) = Lcore.mk_lcore <$> seqZ 0 (Z.max 1 n) /\
  0 <= main_lcore (Eal.eal_env e) < RTE_MAX_LCORE /\ rte_lcore_is_enabled (Eal.eal_env e) (main_lcore (Eal.eal_env e)) = true.
Proof.
  intros Hn Hp (name & r & Ei & Hr)%builder_init_ok.
  destruct (eal_core_list name _ (Z.max 0 (n - 1)) _ r (Eal.eal_env e) ltac:(lia) Ei Hr) as [Hmain Hen]. split; [|split].
  - unfold App.enabled_lcores. f_equal. rewrite (List.filter_ext _ _ Hen), filter_range by lia. f_equal. lia.
  - lia.
  - rewrite Hmain, Hen. apply andb_true_iff. split; apply Z.leb_le; lia.
Qed.

(** C21: a worker per queue: when the DPDK server returns, having been given or
    having found [n] queues after the cap (at most the number of lcores DPDK
    supports), it ran one worker on each of the lcores from 0, the [i]-th
    polling queue [i] of port 0, [n] of them but at least one; more than one
    shared the ARP cache; and the EAL is free again. *)
Theorem bench_server_queues oc arg0 sh interface max_queues ip gw hw_queues w w1 n m ws w' m'
    (Hn : num_queues interface hw_queues max_queues w = Ret (n, w1)) (Hmax : 0 <= n <= RTE_MAX_LCORE) (Hpos : 0 < RTE_MAX_LCORE)
    (Hrun : dpdk_server oc arg0 sh interface max_queues ip gw hw_queues w m = Ret (ws, w', m')) :
  ((fun k => (Lcore.id (App.wk_lcore k), App.wk_queue k)) <$> ws) ≡ₚ ((fun i => (i, i)) <$> seqZ 0 (Z.max 1 n)) /\
  Forall (App.worker_ok 0 (if 1 <? n then Some Device.arp_handle else None)) ws /\
  Eal.EAL_INITIALIZED (Harness.h_eal m') = false.
Proof.
  unfold run_dpdk_server in Hrun. destruct (server_ip _ _ _) as [ipa| |]; try done. cbn [mbind exec_bind] in Hrun.
  destruct (server_gateway _ _) as [gwa| |]; try done. cbn [mbind exec_bind] in Hrun. rewrite Hn in Hrun. cbn [mbind exec_bind] in Hrun.
  destruct (NetUtil.get_pci_addr _ _) as [pci|]; [|done]. cbn [mbind exec_bind expect] in Hrun.
  destruct (Eal.builder_init _ _ _ _ _) as [[[u|]| |] e] eqn:Ei; try done. cbn [mbind exec_bind unwrap_result] in Hrun.
  destruct sh; [|done]. cbn [mbind exec_bind assert_] in Hrun.
  destruct (App.run _ _ _ _ _ _ _ _ _ _ _ _) as [[workers world]| |] eqn:Er; try done. cbn [mbind exec_bind] in Hrun.
  destruct (core_list_lcores _ _ _ _ _ _ Hmax Hpos Ei) as [Hl Hmain].
  destruct (App.run_workers RTE_MAX_LCORE (rte_lcore_is_enabled (Eal.eal_env e)) (main_lcore (Eal.eal_env e)) (rte_get_next_lcore (Eal.eal_env e))
    rte_eal_remote_launch rte_eal_mp_wait_lcore drv_run drv_errno TCP4 TCP6 max_u16 (next_lcore_spec (Eal.eal_env e)) Hmain
    oc _ _ workers world Er) as (Hp & _ & Hw).
  rewrite Hl in Hp, Hw. unfold zlen in Hw. rewrite length_fmap, length_seqZ, Z2Nat.id in Hw by lia.
  unfold Eal.drop_eal in Hrun. destruct (rte_eal_cleanup _) as [? e2]. simplify_eq. split_and!.
  - replace ((fun k => (Lcore.id (App.wk_lcore k), App.wk_queue k)) <$> ws)
      with ((fun x : Lcore.Lcore * Z => (Lcore.id x.1, x.2)) <$> ((fun k => (App.wk_lcore k, App.wk_queue k)) <$> ws)) by by rewrite <- list_fmap_compose.
    rewrite Hp. unfold App.enumerate, zlen. rewrite length_fmap, length_seqZ, Z2Nat.id by lia. clear.
    assert (forall l, (fun x : Lcore.Lcore * Z => (Lcore.id x.1, x.2)) <$> zip (Lcore.mk_lcore <$> l) l = (fun i => (i, i)) <$> l) as ->; [|done].
    induction l as [|i l IH]; [done|]. cbn. by f_equal.
  - replace (1 <? n) with (1 <? Z.max 1 n); [done|]. destruct (Z.ltb_spec 1 n), (Z.ltb_spec 1 (Z.max 1 n)); lia || done.
  - done.
Qed.

(** And it does return: with the addresses, the queues and the PCI address
    found, the EAL up, and no failing driver, pool or launch call, whether or not
    overflow checks are on. *)
Theorem bench_server_returns oc arg0 interface max_queues ip gw hw_queues w w1 n m ip' gw' pci u e
    (Hip : server_ip interface ip w = Ret ip') (Hgw : server_gateway gw w = Ret gw')
    (Hn : num_queues interface hw_queues max_queues w = Ret (n, w1)) (Hmax : 0 <= n <= RTE_MAX_LCORE) (Hpos : 0 < RTE_MAX_LCORE <= 65535)
    (Hpci : NetUtil.get_pci_addr interface w1 = Some pci)
    (Heal : Eal.builder_init rte_eal_init errno_of arg0 (Eal.core_list (core_list n) (Eal.allow (Harness.ascii_str pci) Eal.Builder_new)) (Harness.h_eal m) = (Ret (Ok u), e))
    (Hdrv : forall c d, 0 <= (drv_run c d).1.1) (Hreta : forall c d r k d', drv_run c d = (r, Eth.OInfo k, d') -> 0 <= k <= u16_max)
    (Hpool : forall k c p d s r, exists ptr r', rte_pktmbuf_pool_create App.POOL_NAME k c p d s r = (Some ptr, r'))
    (Hlaunch : forall f j x, (rte_eal_remote_launch f j x).1 = 0) :
  exists ws m', dpdk_server oc arg0 true interface max_queues ip gw hw_queues w m = Ret (ws, w1, m').
Proof.
  unfold run_dpdk_server. rewrite Hip, Hgw. cbn [mbind exec_bind]. rewrite Hn. cbn [mbind exec_bind]. rewrite Hpci. cbn [mbind exec_bind expect].
  rewrite Heal. cbn [mbind exec_bind unwrap_result assert_].
  destruct (core_list_lcores _ _ _ _ _ _ Hmax ltac:(lia) Heal) as [Hl Hmain].
  assert (zlen (App.enabled_lcores RTE_MAX_LCORE (rte_lcore_is_enabled (Eal.eal_env e))) = Z.max 1 n) as Hz.
  { rewrite Hl. unfold zlen. rewrite length_fmap, length_seqZ. lia. }
  match goal with |- context [App.run _ _ _ _ _ _ _ _ _ oc ?a ?x] =>
    destruct (App.run_completes RTE_MAX_LCORE (rte_lcore_is_enabled (Eal.eal_env e)) (main_lcore (Eal.eal_env e)) (rte_get_next_lcore (Eal.eal_env e))
      rte_eal_remote_launch rte_eal_mp_wait_lcore drv_run drv_errno TCP4 TCP6 max_u16 (next_lcore_spec (Eal.eal_env e)) Hmain Hdrv Hreta
      oc a x) as (ws & w' & ->) end; try done.
  - rewrite Hz. lia.
  - rewrite Hz. cbn [App.mbufs_per_queue App.with_gateway App.with_ip App.with_eth_dev App.new]. unfold u32_max. lia.
  - cbn [mbind exec_bind]. destruct (Eal.drop_eal _ _). by eexists _, _.
Qed.

End DpdkProofs.

(** What each lcore runs: where the port can be listened on, it listens with
    the given backlog, at least one socket, all of them new; otherwise it
    panics. *)
Theorem worker_main_listens `{HL : EthBurstLaws} {HI : HashMapIter} {HS : Smoltcp} {HSL : SmoltcpLaws} {F} (handler : F) p n q r T U (Hh : Sockets.holds r T U) :
  match tcp_listen p (tcp_new 16384 16384) with
  | Ok _ => exists v r', worker_main handler p n q r = Ret (v, r') /\ Tcp.backlog (AppServers.listener v) = Nat.max n 1 /\
      Sockets.holds r' (Tcp.handles (AppServers.listener v) ++ T) U
  | Err _ => worker_main handler p n q r = Panic
  end.
Proof.
  unfold worker_main. pose proof (Sockets.bind_all_or_nothing p 16384 16384 n r T U Hh) as Hb. revert Hb.
  unfold Tcp.bind_with_backlog. destruct (tcp_listen p (tcp_new 16384 16384)) as [s|e] eqn:El.
  - assert (forall k acc r, exists hs r', Tcp.bind_loop k p 16384 16384 acc r = (Ok hs, r')) as Hok; [|destruct (Hok (Nat.max n 1) [] r) as (hs & r' & ->)].
    { induction k as [|k IH]; intros acc r1; cbn [Tcp.bind_loop]; [by eexists _, _|]. unfold Tcp.create_listening_socket. rewrite El.
      destruct (set_add _ _) as [h ss]. apply IH. }
    intros Hb. eexists _, _. split; [done|exact Hb].
  - intros _. destruct (Nat.max n 1) as [|k] eqn:Ek; [lia|]. cbn [Tcp.bind_loop]. unfold Tcp.create_listening_socket. by rewrite El.
Qed.

(** ** An example: an EAL whose lcores are those of the core list, two queues
    asked for on an interface with a PCI address. *)
Module RefServer.
#[local] Existing Instance Mbuf.ref_pktmbuf.
#[local] Existing Instance Queue.ref_mempool.
#[local] Existing Instance Queue.ref_burst.
#[local] Existing Instance Queue.ref_burst_laws.
#[local] Existing Instance Device.ref_hm_iter.
Import NetUtil.RefSystem.

Definition init (argc : Z) (argv : list Eal.str) (e : Z) : Z * Z :=
  match List.find (fun k => bool_decide (argv !! 4%nat = Some (Eal.lit "0-" ++ Eal.to_string k))) (seqZ 0 8) with
  | Some k => (0, k)
  | None => (-1, e)
  end.
Definition enabled (e i : Z) : bool := (0 <=? i) && (i <=? e).
Definition next (e i skip wrap : Z) : Z :=
  let s := as_u32 (i + 1) in default 8 (List.find (Lcore.eligible (enabled e) 0 (skip =? 1)) (seqZ s (8 - s))).

Lemma next_spec e i skip : 0 <= i <= u32_max ->
  let r := next e i (if skip : bool then 1 else 0) 0 in
  as_u32 (i + 1) <= 8 ->
  (r = 8 \/ (as_u32 (i + 1) <= r < 8 /\ Lcore.eligible (enabled e) 0 skip r = true)) /\
  (forall j, as_u32 (i + 1) <= j < r -> Lcore.eligible (enabled e) 0 skip j = false).
Proof.
  intros _ r Hs. unfold r, next. replace ((if skip then 1 else 0) =? 1) with skip by by destruct skip.
  set (s := as_u32 (i + 1)) in *. pose proof (Lcore.find_first (Lcore.eligible (enabled e) 0 skip) s (8 - s) ltac:(lia)) as Hf.
  destruct (List.find _ _) as [x|]; simpl.
  - destruct Hf as (? & ? & ?). split; [right; split; [lia | done] | done].
  - split; [by left|]. intros j Hj. apply Hf. lia.
Qed.

Lemma init_core_list name pci k e r e' : 0 <= k < 8 ->
  init 5 [name; Eal.lit "-a"; pci; Eal.lit "-l"; Eal.lit "0-" ++ Eal.to_string k] e = (r, e') -> 0 <= r ->
  0 = 0 /\ forall i, enabled e' i = (0 <=? i) && (i <=? k).
Proof.
  intros Hk. assert (k = 0 \/ k = 1 \/ k = 2 \/ k = 3 \/ k = 4 \/ k = 5 \/ k = 6 \/ k = 7) as Hc by lia.
  intros E Hr. split; [done|]. assert (e' = k) as ->; [|done]. clear Hr.
  repeat destruct Hc as [->|Hc]; try subst k; vm_compute in E; congruence.
Qed.

Definition host : @sys ref_system :=
  mk_machine [] [(bs "/sys/class/net/eth1/device", bs "../../../0000:00:02.0")] [] [] ∅ [].
Definition served : Exec (list App.worker * @sys ref_system * Harness.machine) :=
  run_dpdk_server init (fun e => (0, e)) (fun _ => 0) 8 (fun _ => 0) next (fun _ _ e => (0, e)) id Eth.ref_driver (fun _ => 0) 1 2
    true None true (bs "eth1") (Some 2) (Some (lit "10.0.0.4")) None (Some 16) host (Harness.mk_machine (Eal.mk_eal false 0) (Queue.world0 8 [] 8) (tt, [])).

Lemma bench_server_queues_witness :
  exists ws w' m', served = Ret (ws, w', m') /\ (App.wk_queue <$> ws) ≡ₚ [0; 1] /\ Eal.EAL_INITIALIZED (Harness.h_eal m') = false.
Proof.
  assert (match served with Ret _ => true | _ => false end = true) as Hr by (vm_compute; reflexivity).
  destruct served as [[[ws w'] m']| |] eqn:E; try discriminate Hr. exists ws, w', m'. split; [reflexivity|].
  destruct (bench_server_queues (H0 := Queue.ref_mempool) init (fun e => (0, e)) (fun _ => 0) 8 (fun _ => 0) enabled next (fun _ _ e => (0, e)) id Eth.ref_driver (fun _ => 0) 1 2
    ltac:(lia) init_core_list next_spec true None true (bs "eth1") (Some 2) (Some (lit "10.0.0.4")) None (Some 16) host host 2
    (Harness.mk_machine (Eal.mk_eal false 0) (Queue.world0 8 [] 8) (tt, [])) ws w' m' eq_refl ltac:(lia) ltac:(lia) E) as (Hp & _ & He).
  split; [|exact He].
  replace (App.wk_queue <$> ws) with (snd <$> ((fun k => (Lcore.id (App.wk_lcore k), App.wk_queue k)) <$> ws)) by by rewrite <- list_fmap_compose.
  rewrite Hp. reflexivity.
Defined.

End RefServer.

End BenchServer.
